(* ===== verification/_CoqProject ===== *)
-Q . S2P
Prelude.v
GoStrings.v
GoTime.v
Float64.v
Geo.v
Classification.v
Detection.v
Fusion.v
FusionInv.v
FusionSamples.v
FusionReplay.v
FusionRules.v
FusionDark.v
Outbox.v
Incident.v
IncidentProofs.v
Sha256.v
Envelope.v
Ledger.v
LedgerProofs.v
Publisher.v
Feed.v
GoFormat.v
Workflow.v
WorkflowProofs.v
IsrStore.v
IsrStoreProofs.v
TrackStore.v
TrackStoreProofs.v
Alerts.v
Restart.v
Base64.v
GoUtf8.v
GoNumber.v
FloatBounds.v
GoJson.v
JsonProofs.v
Jcs.v
JcsProofs.v
Unmarshal.v
Provenance.v
ProvenanceProofs.v
GoTimeParse.v
GoDuration.v
PublisherLoop.v
Settings.v
GoNet.v
Rsa.v
FeedSigning.v
Auth.v
AuthSamples.v
AuthProofs.v
Documents.v
Aggregates.v
AggregatesProofs.v
CvConsumer.v
CvBox.v
CvConsumerProofs.v
CvService.v
CvSamples.v
Server.v
Telemetry.v
ServerProofs.v
ServerCalls.v
ServerTheorems.v
ServerAnswers.v
ServerSamples.v
Startup.v
