(* ===== verification/Prelude.v ===== *)
(** * Blue Economy Maritime Intelligence: verification development

    A model of the Go services of this repository and the theorems that make
    them correct.  The program admits signed sensor detections and incidents,
    fuses detections into vessel tracks, raises behaviour anomalies, runs an
    incident casework store and a dual-control outcome ledger behind an HTTP
    server, consumes signed computer-vision events, drives responses to alerts,
    and publishes everything through leased outbox tables to Kafka.

    ** The parts and where they are modelled

    Go and its standard library:
    - [Prelude], [GoStrings], [GoTime], [GoFormat]: errors, the error and state
      monads, strings and the regular expressions in use, times and durations
      with their int64 wrap-around, number formatting.
    - [Float64], [FloatBounds], [GoNumber]: binary64 with the [math] functions in
      use, its error bounds on the unit interval, decimal to binary64 and back.
    - [Sha256], [Base64], [GoUtf8], [GoJson], [JsonProofs], [Unmarshal],
      [GoTimeParse], [GoDuration], [GoNet], [Rsa]: an executable SHA-256, base64,
      UTF-8 and UTF-16, the JSON scanner with its round trips, decoding into typed
      values, [time.Parse], [time.ParseDuration], addresses, PKCS #1 v1.5
      verification.

    The packages, each with its files of theorems:
    - [Geo]: [internal/geo], positions, zones, the containment test.
    - [Classification], [Detection]: [internal/isr/classification.go],
      [access.go], [events.go], labels, role rules and multi-modal detections.
    - [Fusion]: [internal/tracks/fusion.go], the fusion engine.  [FusionInv] has
      its invariant and the lemmas on one ingest, [FusionRules] the theorems on
      association and the rules, [FusionReplay] the replay, [FusionDark] the
      dark-vessel scan and what modelling found, [FusionSamples] the inputs of
      the witnesses.
    - [TrackStore]: [internal/tracks/store.go], [scanner.go] and the startup
      replay.  [TrackStoreProofs] has the invariant of the tables, [Alerts] that
      raised anomalies are recorded, [Restart] the composition of a run with its
      replay.
    - [Outbox]: the outbox tables of [internal/incident/outbox.go] and
      [internal/isr/isr_outbox.go], written once, with the interface
      [OutboxStore]/[OutboxLaws] the publisher is proved against.
    - [Publisher], [PublisherLoop]: [cmd/maritime-intelligence-outbox-publisher],
      one delivery and the interleaved workers; settings, polling loop, [run].
    - [Incident], [IncidentProofs]: [internal/incident/model.go], [store.go].
    - [Feed], [FeedSigning]: [internal/incident/feed.go].
    - [Envelope]: [internal/isr/envelope.go], [isr_outbox.go].
    - [IsrStore], [IsrStoreProofs], [Aggregates], [AggregatesProofs]:
      [internal/isr/store.go] and the reads of [access.go].
    - [Ledger], [LedgerProofs]: [internal/ledger].
    - [Workflow], [WorkflowProofs]: [internal/workflow/isr.go] and the activities
      of [cmd/isr-worker], the response to an alert as tasks between its signals.
    - [Jcs], [JcsProofs], [Provenance], [ProvenanceProofs]:
      [internal/provenance], canonical JSON (RFC 8785), signer, key directory and
      the verification of signed envelopes.
    - [Auth], [AuthProofs], [AuthSamples]: [internal/server/auth.go].
    - [Documents], [Server]: the request documents, [internal/server/server.go]
      and [isr_handlers.go]: routes, gates, handlers and error mapping over the
      shared database.  [ServerProofs] and [ServerCalls] follow what a handler
      does to the tables, [ServerTheorems] and [ServerAnswers] have the theorems,
      [ServerSamples] a server in operation.
    - [CvConsumer], [CvBox], [CvConsumerProofs], [CvService], [CvSamples]:
      [internal/cvconsumer] and [cmd/cv-consumer], the handlers, the box
      arithmetic, and the process over its Kafka partitions.
    - [Settings], [Telemetry], [Startup]: the pool overrides and the start of
      [cmd/isr-worker]; [internal/telemetry] over the whole server;
      [cmd/maritime-intelligence/main.go] up to the listener, [cmd/seed], and
      the lives of the service across crashes and restarts.

    ** How state and operations correspond

    A table is a [gmap] from its primary key; a transaction is one step of the
    store monad [M], and [atomically] rolls it back on an error.  Where the code
    reads outside the transaction ([Transition]) or between statements of
    several processes ([Publisher]), the model has separate steps, and the
    theorems quantify over every interleaving.  What a call draws from outside
    (clock readings, UUIDs, which rows are locked, whether the commit goes
    through) is an argument, a record such as [TxEnv], [LedgerEnv], [ServeEnv] or
    [StartEnv].  A range over a Go map takes the order of the keys as an
    argument; theorems hold for every order.  Times are nanoseconds since Go's
    zero time in Z, durations int64; floats are binary64 with Go's rounding.

    The server has one record of all tables, the engine, the cluster and the key
    set ([ServerState]); a component works on its view of it.  Requests are
    served one after another; the finer interleavings of statements are those of
    the component machines, to whose steps [request_refines] reduces a request.
    In the consumer an iteration of a reader loop is one step, and a crash falls
    between iterations; a reader owns any number of partitions, which a
    rebalance sets back to their committed offset.  A loop over a ticker is a
    list of rounds.

    ** What the theorems show

    - the engine: an invariant of every reachable state, when an ingest is
      accepted, what association, the rules and the scan answer on every
      branch, that an anomaly is not labelled below what its tracks were before
      the ingest, that a replay restores the state of the run;
    - the stores: invariants under interleaving, no lost update, idempotent
      retries, the lifecycle, leases that exclude each other, at-least-once
      delivery, a publisher that empties its table;
    - the ledger: two distinct principals, at most one transfer per entry, and
      aggregates that partition the confirmed entries;
    - the feed and the detection store: admitted means signed and fresh, keys
      change by rotation only, every row stems from an admitted document, a
      listing shows what the clearance covers;
    - the response workflow: its history is what its signals determine, every
      transition is audited, it comes to an end;
    - provenance: an accepted envelope is signed over its canonical bytes, what a
      configured signer signs is accepted, canonical bytes are those of one
      document whatever the order of its members;
    - the track store: what the engine raises is recorded, and a restart
      rebuilds the engine from the recorded associations;
    - the server: who is authenticated, what a request may change and on whose
      authority, that it runs its components, that it answers, what the listings
      show, how requests are metered, that a start is fail-closed, and the
      invariants of all components over any number of lives;
    - the consumer: what an accepted record says, what a handled one has led
      to, and what becomes of one whose handler failed.

    ** Bounds and fuel

    Recursion is structural on lists and strings; [trim_space] and the decimal
    printers take fuel from the length of their argument, which each step
    consumes; so do the JSON parser ([parse_fuel]) and the sum of the terms of a
    duration ([parse_terms_fuel]), for which it is proved to be enough.  An IPv6
    address has eight fields.  [math_cos] evaluates Go's range reduction on the
    arguments the code can give it.

    ** Parameters

    TigerBeetle ([TigerBeetle], [TigerBeetleLaws]), Kafka writes ([Broker],
    [BrokerLaws]), the Temporal frontend ([Temporal], [TemporalLaws]), Ed25519
    ([Ed25519], [Ed25519Signer], [Ed25519Laws]), the text [json.Marshal] writes
    ([JsonText]), the strict decoder [decode] of signed payloads in the stores
    (the server instantiates it with [decode_detection]), [url.Parse] and the
    answers of the JWKS endpoint, files, the database connection and the
    telemetry exporters, PostgreSQL's JSONB conversion [jsonb] and timestamp
    resolution [pg_time].  Nothing is assumed of the JSONB conversion: it can
    change what a document decodes to ([retention_changes_label]), so the theorems
    say what holds of the admitted bytes and what of the retained text.  The
    laws of Ed25519 speak of private keys derived from their seed only.  A topic
    of the consumer has any number of partitions, whose records one process
    reads; other members of its group are not modelled.  The consumer's anomaly recorder is
    an interface of the code, [AnomalyRecorder], with both implementations as
    instances.  Within a response, Temporal is written out as the delivery of
    signals and the attempts of an activity.  Laws state documented behaviour and
    are instantiated by concrete functions in the witnesses.

    ** Not modelled

    The transport below a handler (HTTP, TLS, response headers beyond the
    security headers, the JSON text of responses), signals and graceful
    shutdown, the clients of Kafka, Temporal, PostgreSQL and OpenTelemetry, the
    SQL of the migrations and of the seed script, log lines, the monotonic clock
    reading of [time.Time]: calls of third-party code or of the runtime without
    logic of the program.  [CONNECT] requests and host patterns of the mux.
 *)

From stdpp Require Export base tactics option list gmap strings pretty.
From Stdlib Require Export ZArith Lia.

#[global] Open Scope Z_scope.

(** ** Notation scope of the development *)

Declare Scope maritime_scope.
Delimit Scope maritime_scope with maritime.

Notation "a =s b" := (String.eqb a b) (at level 70, no associativity) : maritime_scope.
Notation "a <>s b" := (negb (String.eqb a b)) (at level 70, no associativity) : maritime_scope.
#[global] Open Scope maritime_scope.

(** ** Go errors

    A Go error is a package-level sentinel ([var ErrX = errors.New(..)]),
    a fresh error built by [errors.New] or [fmt.Errorf], or an error that
    wraps another one through the [%w] verb. *)

Inductive error : Type :=
| ESentinel (name : string)
| EText (msg : string)
| EWrap (context : string) (inner : error).

#[export] Instance error_eq_dec : EqDecision error.
Proof. solve_decision. Defined.

(** [errors.Is(err, target)] for a sentinel [target]: walk the wrap chain. *)
Fixpoint errors_is (e target : error) : bool :=
  bool_decide (e = target) ||
  match e with
  | EWrap _ inner => errors_is inner target
  | _ => false
  end.

(** ** Fallible results: Go's [(value, error)] return *)

Inductive result (A : Type) : Type :=
| Ok (a : A)
| Err (e : error).
Arguments Ok {A} a.
Arguments Err {A} e.

#[export] Instance result_eq_dec {A} `{EqDecision A} : EqDecision (result A).
Proof. solve_decision. Defined.

#[export] Instance result_ret : MRet result := λ A a, Ok a.
#[export] Instance result_bind : MBind result := λ A B f m,
  match m with Ok a => f a | Err e => Err e end.

Definition is_ok {A} (r : result A) : bool :=
  match r with Ok _ => true | Err _ => false end.

(** [if cond { return err }] *)
Definition fail_if (cond : bool) (e : error) : result unit :=
  if cond then Err e else Ok tt.

(** [if err := f(); err != nil { return fmt.Errorf("ctx: %w", err) }] *)
Definition wrap_err {A} (context : string) (r : result A) : result A :=
  match r with Ok a => Ok a | Err e => Err (EWrap context e) end.

(** [for _, x := range xs { if err := f(x); err != nil { return err } }] *)
Fixpoint check_all {A} (f : A → result unit) (xs : list A) : result unit :=
  match xs with
  | [] => Ok tt
  | x :: rest => match f x with Ok _ => check_all f rest | Err e => Err e end
  end.

(** ** State and errors: operations on a store

    [M S A] threads the store state through a computation that may fail.
    A failing computation keeps the state it reached; [atomically] is a
    database transaction: on failure the state before it is restored. *)

Definition M (S A : Type) : Type := S → result A * S.

#[export] Instance M_ret {S} : MRet (M S) := λ A a s, (Ok a, s).
#[export] Instance M_bind {S} : MBind (M S) := λ A B f m s,
  match m s with
  | (Ok a, s') => f a s'
  | (Err e, s') => (Err e, s')
  end.

Definition throw {S A} (e : error) : M S A := λ s, (Err e, s).
Definition lift {S A} (r : result A) : M S A := λ s, (r, s).
Definition get_state {S} : M S S := λ s, (Ok s, s).
Definition put_state {S} (s : S) : M S unit := λ _, (Ok tt, s).
Definition modify {S} (f : S → S) : M S unit := λ s, (Ok tt, f s).
Definition check {S} (cond : bool) (e : error) : M S unit := lift (fail_if cond e).

Definition atomically {S A} (m : M S A) : M S A := λ s,
  match m s with
  | (Ok a, s') => (Ok a, s')
  | (Err e, _) => (Err e, s)
  end.

Fixpoint iterM {S A} (f : A → M S unit) (xs : list A) : M S unit :=
  match xs with
  | [] => mret tt
  | x :: rest => _ ← f x; iterM f rest
  end.

(** ** Lemmas on results and the store monad *)

Section result_lemmas.
Context {A B : Type}.

Lemma bind_Ok (m : result A) (f : A → result B) b :
  m ≫= f = Ok b ↔ ∃ a, m = Ok a ∧ f a = Ok b.
Proof. destruct m; simpl; split; [eauto | by intros (?&[= ->]&?) | done | by intros (?&?&?)]. Qed.

Lemma bind_Err (m : result A) (f : A → result B) e :
  m ≫= f = Err e ↔ m = Err e ∨ ∃ a, m = Ok a ∧ f a = Err e.
Proof.
  destruct m; simpl; split.
  - intros H; right; eauto.
  - by intros [[=]|(?&[= ->]&?)].
  - intros [= ->]; by left.
  - by intros [[= ->]|(?&?&?)].
Qed.

Lemma fail_if_Ok b e u : fail_if b e = Ok u ↔ b = false.
Proof. destruct b, u; simpl; split; congruence. Qed.

Lemma fail_if_Err b e e' : fail_if b e = Err e' ↔ b = true ∧ e = e'.
Proof. destruct b; simpl; naive_solver. Qed.

Lemma wrap_err_Ok c (r : result A) a : wrap_err c r = Ok a ↔ r = Ok a.
Proof. destruct r; simpl; naive_solver. Qed.

Lemma check_all_Ok (f : A → result unit) xs u :
  check_all f xs = Ok u ↔ Forall (λ x, f x = Ok tt) xs.
Proof.
  destruct u. induction xs as [|x xs IH]; simpl; [by split; intros|].
  rewrite Forall_cons, <- IH. destruct (f x) as [[]|e]; naive_solver.
Qed.

Lemma is_ok_true (r : result A) : is_ok r = true ↔ ∃ a, r = Ok a.
Proof. destruct r; simpl; naive_solver. Qed.

End result_lemmas.

Section store_lemmas.
Context {S A B : Type}.
Implicit Types (s : S).

Lemma mbind_run (m : M S A) (f : A → M S B) s :
  (m ≫= f) s = match m s with (Ok a, s') => f a s' | (Err e, s') => (Err e, s') end.
Proof. done. Qed.

Lemma mret_run (a : A) s : (mret a : M S A) s = (Ok a, s).
Proof. done. Qed.

Lemma throw_run e s : (throw e : M S A) s = (Err e, s).
Proof. done. Qed.

Lemma lift_run (r : result A) s : (lift r : M S A) s = (r, s).
Proof. done. Qed.

(** The transaction law: a failed transaction leaves no trace. *)
Lemma atomically_Err (m : M S A) s e s' : atomically m s = (Err e, s') → s' = s.
Proof. unfold atomically. destruct (m s) as [[]]; naive_solver. Qed.

Lemma atomically_Ok (m : M S A) s a s' : atomically m s = (Ok a, s') ↔ m s = (Ok a, s').
Proof. unfold atomically. destruct (m s) as [[]]; naive_solver. Qed.

Lemma check_Ok b e s u s' : check b e s = (Ok u, s') ↔ b = false ∧ s' = s.
Proof. unfold check, lift. destruct b, u; simpl; naive_solver. Qed.

Lemma check_run b e s : check b e s = if b then (Err e, s) else (Ok tt, s).
Proof. by destruct b. Qed.

(** A property of the state kept by every iteration holds at the end. *)
Lemma iterM_invariant (P : S → Prop) (f : A → M S unit) xs :
  (∀ x s r s', x ∈ xs → P s → f x s = (r, s') → P s') →
  ∀ s r s', P s → iterM f xs s = (r, s') → P s'.
Proof.
  induction xs as [|x xs IH]; intros Hf s r s' HP; simpl.
  - by intros [= <- <-].
  - unfold mbind, M_bind. destruct (f x s) as [[u|e] s1] eqn:E.
    + intros H. eapply IH; [..|exact H].
      * intros; eapply Hf; eauto; by constructor.
      * eapply Hf; [|exact HP|exact E]; by constructor.
    + intros [= <- <-]. eapply Hf; [|exact HP|exact E]; by constructor.
Qed.

End store_lemmas.

(** ** Automation *)

Create Rewrite HintDb maritime.
Create Rewrite HintDb boolprop.
Create HintDb maritime_auto.
#[export] Hint Rewrite @fail_if_Ok @fail_if_Err @wrap_err_Ok @bind_Ok @check_all_Ok
  @atomically_Ok @check_Ok @is_ok_true : maritime.
#[export] Hint Rewrite orb_true_iff orb_false_iff andb_true_iff andb_false_iff
  negb_true_iff negb_false_iff String.eqb_eq String.eqb_neq
  Z.ltb_lt Z.leb_le Z.eqb_eq Z.ltb_ge Z.leb_gt Z.eqb_neq : boolprop.

(** Run a store computation as far as its statements are known. *)
Ltac run_store :=
  repeat first [ progress cbn beta iota zeta delta [get_state put_state modify]
               | rewrite mbind_run | rewrite mret_run | rewrite throw_run | rewrite lift_run
               | rewrite check_run ].

(** Turn boolean tests of the code into propositions, everywhere. *)
Ltac bprop := autorewrite with boolprop in *.

(** Split every conjunction and existential of the context. *)
Ltac split_hyps :=
  repeat match goal with
  | H : _ ∧ _ |- _ => destruct H
  | H : ∃ _, _ |- _ => destruct H
  | H : (_, _) = (_, _) |- _ => injection H as H; subst
  end.

(** Guards of a successful run did not fire. *)
Ltac clear_guards :=
  repeat match goal with
  | u : unit |- _ => destruct u
  | E : fail_if _ _ = Ok _ |- _ => apply fail_if_Ok in E
  | E : wrap_err _ _ = Ok _ |- _ => apply wrap_err_Ok in E
  end.

(** Follow one run of a [result] computation that is known to succeed. *)
Ltac inv_ok H :=
  repeat first
    [ progress simplify_eq/=
    | rewrite bind_Ok in H; destruct H as (?&?&H)
    | rewrite fail_if_Ok in H ];
  clear_guards.

(** Case analysis on every [match]/[if] of the hypothesis [H]. *)
Ltac cases_in H :=
  repeat (first [progress simplify_eq/= | case_match | progress (simpl in H)]).

(** [done] after splitting the goal. *)
Ltac split_done := repeat split; try done; eauto.

(** ** Loops over a Go map

    A [range] over a map visits every key exactly once, in an order the
    language leaves open: the order a loop meets is some permutation of the
    map's keys. *)

Definition range_order {A} (order : list string) (m : gmap string A) : Prop :=
  order ≡ₚ elements (dom m).

Lemma range_order_elem {A} order (m : gmap string A) k :
  range_order order m → k ∈ order ↔ is_Some (m !! k).
Proof. intros H. rewrite H, elem_of_elements. apply elem_of_dom. Qed.

Lemma range_order_NoDup {A} order (m : gmap string A) : range_order order m → NoDup order.
Proof. intros H. rewrite H. apply NoDup_elements. Qed.

Lemma range_order_self {A} (m : gmap string A) : range_order (elements (dom m)) m.
Proof. by unfold range_order. Qed.

(** A loop whose steps commute on the states of an invariant reaches the same
    state for every order. *)
Lemma foldl_perm {S A} (P : S → Prop) (f : S → A → S) :
  (∀ s a, P s → P (f s a)) → (∀ s a b, P s → f (f s a) b = f (f s b) a) →
  ∀ l1 l2, l1 ≡ₚ l2 → ∀ s, P s → foldl f s l1 = foldl f s l2.
Proof.
  intros HP Hc l1 l2 Hl. induction Hl as [|x l1 l2 _ IH|x y l|l1 l2 l3 _ IH1 _ IH2]; intros s Hs; simpl.
  - done.
  - by apply IH, HP.
  - by rewrite (Hc s y x Hs).
  - by rewrite IH1, IH2.
Qed.

(** ** Lists *)

Lemma filter_ext_in {A} (f g : A → bool) (l : list A) :
  (∀ x, x ∈ l → f x = g x) → filter (λ x, f x = true) l = filter (λ x, g x = true) l.
Proof.
  induction l as [|x l IH]; intros H; [done|]. rewrite !filter_cons, IH by (intros; apply H; set_solver).
  rewrite (H x) by set_solver. done.
Qed.

Lemma Forall2_impl_elem {A B} (P Q : A → B → Prop) l k :
  Forall2 P l k → (∀ x y, x ∈ l → P x y → Q x y) → Forall2 Q l k.
Proof.
  induction 1 as [|x y l k HP _ IH]; intros H; constructor.
  - apply H; [set_solver|done].
  - apply IH. intros; apply H; [set_solver|done].
Qed.
