(* ===== verification/GoStrings.v ===== *)
(** * Go strings and byte slices

    A Go [string] and a Go [[]byte] are both byte sequences; the development
    uses [String.string] (a list of 8-bit characters) for both.  This file
    models the parts of [strings], [regexp] and [encoding/hex] the program
    uses: [len], [strings.TrimSpace], [strings.ToUpper], [strings.HasPrefix],
    the canonical-identifier patterns and lower-case hexadecimal text. *)

From S2P Require Import Prelude.
From Stdlib Require Import Ascii.

(** ** Length and concatenation *)

Definition str_len (s : string) : Z := Z.of_nat (String.length s).

(** Decimal text of an integer ([%d]). *)
Definition dec (z : Z) : string := pretty z.

(** ** Character classes *)

Definition code (c : ascii) : Z := Z.of_N (N_of_ascii c).

Definition in_class (lo hi : Z) (c : ascii) : bool := (lo <=? code c) && (code c <=? hi).

Definition is_digit (c : ascii) : bool := in_class 48 57 c.
Definition is_lower (c : ascii) : bool := in_class 97 122 c.
Definition is_upper (c : ascii) : bool := in_class 65 90 c.
Definition is_alnum (c : ascii) : bool := is_digit c || is_upper c || is_lower c.
(** [[A-Za-z0-9._:-]] *)
Definition is_ident_char (c : ascii) : bool :=
  is_alnum c || (code c =? 46) || (code c =? 95) || (code c =? 58) || (code c =? 45).
(** [[0-9a-f]] *)
Definition is_lower_hex (c : ascii) : bool := is_digit c || in_class 97 102 c.

Fixpoint all_chars (p : ascii → bool) (s : string) : bool :=
  match s with
  | EmptyString => true
  | String c rest => p c && all_chars p rest
  end.

(** [^[A-Za-z0-9][A-Za-z0-9._:-]{0,n}$] *)
Definition ident_pattern (n : Z) (s : string) : bool :=
  match s with
  | EmptyString => false
  | String c rest => is_alnum c && all_chars is_ident_char rest && (str_len rest <=? n)
  end.

(** [^[0-9]{9}$] *)
Definition mmsi_pattern (s : string) : bool := (str_len s =? 9) && all_chars is_digit s.

(** ** [strings.HasPrefix] and slicing *)

Fixpoint has_prefix (s p : string) : bool :=
  match p, s with
  | EmptyString, _ => true
  | String a p', String b s' => Ascii.eqb a b && has_prefix s' p'
  | _, _ => false
  end.

(** [s[n:]] for [n <= len(s)] *)
Fixpoint str_drop (n : nat) (s : string) : string :=
  match n, s with
  | O, _ => s
  | S n', String _ rest => str_drop n' rest
  | S _, EmptyString => EmptyString
  end.

(** [s[:n]]; the whole of a shorter string. *)
Fixpoint str_take (n : nat) (s : string) : string :=
  match n, s with
  | S n, String c rest => String c (str_take n rest)
  | _, _ => ""
  end.

(** [strings.Split] on one character. *)
Fixpoint split_on (c : ascii) (s : string) : list string :=
  match s with
  | EmptyString => [""]
  | String c' rest =>
      if Ascii.eqb c' c then "" :: split_on c rest
      else match split_on c rest with p :: ps => String c' p :: ps | [] => [String c' ""] end
  end.

(** ** [strings.TrimSpace]

    White space is Unicode's: the UTF-8 encodings of the code points for
    which [unicode.IsSpace] holds. *)

Definition bytes (l : list Z) : list ascii := (λ z, ascii_of_N (Z.to_N z)) <$> l.

Definition space_encodings : list (list ascii) := bytes <$>
  [ [9]; [10]; [11]; [12]; [13]; [32]; [194;133]; [194;160]; [225;154;128];
    [226;128;128]; [226;128;129]; [226;128;130]; [226;128;131]; [226;128;132];
    [226;128;133]; [226;128;134]; [226;128;135]; [226;128;136]; [226;128;137];
    [226;128;138]; [226;128;168]; [226;128;169]; [226;128;175]; [226;129;159];
    [227;128;128] ].

Fixpoint strip_prefix (p l : list ascii) : option (list ascii) :=
  match p, l with
  | [], _ => Some l
  | a :: p', b :: l' => if Ascii.eqb a b then strip_prefix p' l' else None
  | _ :: _, [] => None
  end.

Fixpoint strip_one (encs : list (list ascii)) (l : list ascii) : option (list ascii) :=
  match encs with
  | [] => None
  | e :: rest => match strip_prefix e l with Some l' => Some l' | None => strip_one rest l end
  end.

(** Strip leading encodings; every round removes at least one byte, so the
    length of the text is enough fuel. *)
Fixpoint strip_all (fuel : nat) (encs : list (list ascii)) (l : list ascii) : list ascii :=
  match fuel with
  | O => l
  | S fuel' =>
      match strip_one encs l with
      | Some l' => strip_all fuel' encs l'
      | None => l
      end
  end.

Definition trim_space (s : string) : string :=
  let l := String.list_ascii_of_string s in
  let left := strip_all (length l) space_encodings l in
  let right := strip_all (length left) (@rev ascii <$> space_encodings) (rev left) in
  String.string_of_list_ascii (rev right).

(** [strings.TrimSpace(s) != s] and friends: text that is canonical. *)
Definition canonical_text (s : string) : bool := trim_space s =s s.

(** ** [strings.ToUpper]

    ASCII letters, and the two code points outside ASCII whose upper case is
    an ASCII letter (U+0131 is I, U+017F is S).  Any other byte is kept: the
    upper case of any other code point lies outside ASCII, so no comparison
    with an ASCII constant depends on it. *)

Definition upper_char (a : ascii) : ascii :=
  if is_lower a then ascii_of_N (Z.to_N (code a - 32)) else a.

Fixpoint to_upper (s : string) : string :=
  match s with
  | EmptyString => EmptyString
  | String a tail =>
      match tail with
      | String b rest =>
          if (code a =? 196) && (code b =? 177) then String "I"%char (to_upper rest)
          else if (code a =? 197) && (code b =? 191) then String "S"%char (to_upper rest)
          else String (upper_char a) (to_upper tail)
      | EmptyString => String (upper_char a) EmptyString
      end
  end.

(** [strings.EqualFold] against an ASCII word without the letters k and s. *)
Fixpoint to_lower_ascii (s : string) : string :=
  match s with
  | EmptyString => EmptyString
  | String a rest =>
      String (if is_upper a then ascii_of_N (Z.to_N (code a + 32)) else a) (to_lower_ascii rest)
  end.

(** ** Hexadecimal text ([hex.EncodeToString]) *)

Definition hex_digit (n : Z) : ascii :=
  ascii_of_N (Z.to_N (if n <? 10 then 48 + n else 87 + n)).

Fixpoint hex_encode (s : string) : string :=
  match s with
  | EmptyString => EmptyString
  | String c rest =>
      String (hex_digit (Z.shiftr (code c) 4))
        (String (hex_digit (Z.land (code c) 15)) (hex_encode rest))
  end.

(** ** Lemmas *)

Lemma code_range c : 0 <= code c < 256.
Proof. unfold code. pose proof (N_ascii_bounded c). lia. Qed.

Lemma all_chars_app p s t : all_chars p (s +:+ t) = all_chars p s && all_chars p t.
Proof. induction s as [|c s IH]; simpl; [done|]. by rewrite IH, andb_assoc. Qed.

Lemma str_app_cons c (s t : string) : String c s +:+ t = String c (s +:+ t).
Proof. done. Qed.

Lemma str_app_nil_l (s : string) : "" +:+ s = s.
Proof. done. Qed.

Lemma str_app_nil_r (s : string) : s +:+ "" = s.
Proof. induction s as [|c s IH]; [done|]. by rewrite str_app_cons, IH. Qed.

Lemma str_app_assoc (a b c : string) : (a +:+ b) +:+ c = a +:+ (b +:+ c).
Proof. induction a as [|x a IH]; [done|]. by rewrite !str_app_cons, IH. Qed.

Lemma str_len_app s t : str_len (s +:+ t) = str_len s + str_len t.
Proof.
  unfold str_len. induction s as [|c s IH]; simpl; [done|].
  rewrite !Nat2Z.inj_succ, IH. lia.
Qed.

Lemma str_len_nonneg s : 0 <= str_len s.
Proof. unfold str_len. lia. Qed.

Lemma ident_pattern_nonempty n s : ident_pattern n s = true → s ≠ "".
Proof. by destruct s. Qed.

Lemma ident_pattern_len n s : ident_pattern n s = true → 1 <= str_len s <= n + 1.
Proof.
  destruct s as [|c s]; simpl; [done|]. bprop. intros [_ H].
  unfold str_len in *. simpl. lia.
Qed.

Lemma ident_pattern_mono n m s : n <= m → ident_pattern n s = true → ident_pattern m s = true.
Proof. intros ?. destruct s; simpl; [done|]. bprop. intros [? ?]. split; [done|lia]. Qed.

Lemma hex_digit_lower n : 0 <= n < 16 → is_lower_hex (hex_digit n) = true.
Proof.
  intros H. unfold hex_digit, is_lower_hex, is_digit, in_class, code.
  destruct (Z.ltb_spec n 10); rewrite N_ascii_embedding by lia; rewrite Z2N.id by lia; bprop; lia.
Qed.

Lemma hex_encode_len s : str_len (hex_encode s) = 2 * str_len s.
Proof.
  unfold str_len. induction s as [|c s IH]; [done|]. simpl hex_encode.
  cbn [String.length]. rewrite !Nat2Z.inj_succ, IH. lia.
Qed.

Lemma hex_encode_hex s : all_chars is_lower_hex (hex_encode s) = true.
Proof.
  induction s as [|c s IH]; [done|]. simpl. pose proof (code_range c).
  rewrite !hex_digit_lower, IH; [done|..].
  - change 15 with (Z.ones 4). rewrite Z.land_ones by lia. apply Z.mod_pos_bound. lia.
  - rewrite Z.shiftr_div_pow2 by lia. split; [apply Z.div_pos; lia|].
    apply Z.div_lt_upper_bound; lia.
Qed.

(** The encoding is injective: a digest's text determines the digest. *)
Lemma hex_digit_inj a b : 0 <= a < 16 → 0 <= b < 16 → hex_digit a = hex_digit b → a = b.
Proof.
  intros Ha Hb H. apply (f_equal code) in H. revert H. unfold hex_digit, code.
  destruct (Z.ltb_spec a 10), (Z.ltb_spec b 10); rewrite !N_ascii_embedding by lia;
    rewrite !Z2N.id by lia; lia.
Qed.

Lemma hex_encode_inj s t : hex_encode s = hex_encode t → s = t.
Proof.
  revert t. induction s as [|c s IH]; intros [|d t]; simpl; [done..|].
  intros [= H1 H2 H3]. pose proof (code_range c). pose proof (code_range d).
  assert (Hn : ∀ x, 0 <= x < 256 → 0 <= Z.shiftr x 4 < 16).
  { intros x ?. rewrite Z.shiftr_div_pow2 by lia. split; [apply Z.div_pos; lia|].
    apply Z.div_lt_upper_bound; lia. }
  assert (Hl : ∀ x, 0 <= x < 256 → 0 <= Z.land x 15 < 16).
  { intros x ?. change 15 with (Z.ones 4). rewrite Z.land_ones by lia.
    apply Z.mod_pos_bound. lia. }
  apply hex_digit_inj in H1; [|by apply Hn..]. apply hex_digit_inj in H2; [|by apply Hl..].
  f_equal; [|by apply IH].
  rewrite <- (ascii_N_embedding c), <- (ascii_N_embedding d). f_equal.
  unfold code in *. apply N2Z.inj.
  rewrite (Z.div_mod (Z.of_N (N_of_ascii c)) 16), (Z.div_mod (Z.of_N (N_of_ascii d)) 16) by lia.
  rewrite !Z.shiftr_div_pow2 in H1 by lia. change (2 ^ 4) with 16 in H1.
  change 15 with (Z.ones 4) in H2. rewrite !Z.land_ones in H2 by lia.
  change (2 ^ 4) with 16 in H2. by rewrite H1, H2.
Qed.

Lemma str_app_inj_len (a b c d : string) :
  String.length a = String.length c → a +:+ b = c +:+ d → a = c ∧ b = d.
Proof.
  revert c. induction a as [|x a IH]; intros [|y c]; simpl; [naive_solver..|].
  intros [= Hl] [= -> H]. destruct (IH _ Hl H) as [-> ->]. done.
Qed.

(** ** Trimming leaves identifiers alone *)

(** No encoding starts with a character of [p]. *)
Definition starts_outside (p : ascii → bool) (encs : list (list ascii)) : Prop :=
  Forall (λ e : list ascii, match e with [] => False | a :: _ => p a = false end) encs.

Lemma strip_one_outside p encs c l : p c = true → starts_outside p encs → strip_one encs (c :: l) = None.
Proof.
  intros Hc. induction 1 as [|e encs He _ IH]; simpl; [done|].
  destruct e as [|a e]; [done|]. simpl. destruct (Ascii.eqb_spec a c) as [->|]; [congruence|done].
Qed.

Lemma strip_all_outside p encs fuel l :
  Forall (λ c, p c = true) l → starts_outside p encs → strip_all fuel encs l = l.
Proof.
  intros Hl He. destruct fuel as [|fuel]; [done|]. destruct l as [|c l]; simpl.
  - assert (Hnil : ∀ es, starts_outside p es → strip_one es [] = None).
    { induction 1 as [|e es Hh _ IH]; simpl; [done|]. by destruct e. }
    by rewrite Hnil.
  - apply Forall_cons in Hl as [Hc _]. by erewrite strip_one_outside.
Qed.

Lemma all_chars_list p s : all_chars p s = true ↔ Forall (λ c, p c = true) (String.list_ascii_of_string s).
Proof.
  induction s as [|c s IH]; simpl; [by split|]. rewrite Forall_cons, andb_true_iff, IH. done.
Qed.

Lemma trim_outside p s :
  starts_outside p space_encodings → starts_outside p (@rev ascii <$> space_encodings) → all_chars p s = true → trim_space s = s.
Proof.
  intros Hl Hr Hs%all_chars_list. unfold trim_space.
  rewrite (strip_all_outside p space_encodings _ _ Hs Hl), (strip_all_outside p (@rev ascii <$> space_encodings)); [|by apply Forall_rev|done].
  by rewrite rev_involutive, String.string_of_list_ascii_of_string.
Qed.

Lemma trim_ident s : all_chars is_ident_char s = true → trim_space s = s.
Proof. apply trim_outside; by repeat constructor. Qed.

Lemma ident_chars n s : ident_pattern n s = true → all_chars is_ident_char s = true.
Proof.
  destruct s as [|c s]; [done|]. simpl. rewrite !andb_true_iff. intros [[Hc Hs] _].
  unfold is_ident_char at 1. by rewrite Hc, Hs.
Qed.

Lemma ident_trim n s : ident_pattern n s = true → trim_space s = s ∧ s ≠ "".
Proof.
  intros Hs. split; [by eapply trim_ident, ident_chars|by eapply ident_pattern_nonempty].
Qed.

(** ** Trimming twice is trimming once *)

Lemma strip_prefix_Some p l l' : strip_prefix p l = Some l' → l = p ++ l'.
Proof.
  revert l. induction p as [|a p IH]; intros l; simpl; [by intros [= ->]|].
  destruct l as [|b l]; [done|]. destruct (Ascii.eqb_spec a b) as [->|]; [|done]. intros H. f_equal. by apply IH.
Qed.

Lemma strip_prefix_app p l : strip_prefix p (p ++ l) = Some l.
Proof. induction p as [|a p IH]; simpl; [done|]. by rewrite Ascii.eqb_refl. Qed.

Section strip.
Context (encs : list (list ascii)) (Hencs : Forall (λ e, e ≠ []) encs).

Lemma strip_one_None l : strip_one encs l = None ↔ ∀ e l', e ∈ encs → l ≠ e ++ l'.
Proof using Type.
  clear Hencs. induction encs as [|e es IH]; simpl; [split; [set_solver|done]|]. destruct (strip_prefix e l) as [l'|] eqn:E.
  - split; [done|]. intros H. apply strip_prefix_Some in E. destruct (H e l'); [set_solver|done].
  - rewrite IH. split; [|set_solver]. intros H e' l' [->|Hin]%elem_of_cons; [|by apply H]. intros ->. by rewrite strip_prefix_app in E.
Qed.

Lemma strip_one_Some l l' : strip_one encs l = Some l' → (length l' < length l)%nat ∧ ∃ p, l = p ++ l'.
Proof using Hencs.
  induction Hencs as [|e es He _ IH]; simpl; [done|]. destruct (strip_prefix e l) as [l''|] eqn:E;
    [|intros H; apply IH; [by apply Forall_cons in Hencs as [_ ?]|done]].
  intros [= ->]. apply strip_prefix_Some in E as ->. split; [|by exists e]. rewrite length_app. destruct e; [done|simpl; lia].
Qed.

Lemma strip_all_spec fuel l : (length l <= fuel)%nat →
  strip_one encs (strip_all fuel encs l) = None ∧ ∃ p, l = p ++ strip_all fuel encs l.
Proof using Hencs.
  revert l. induction fuel as [|fuel IH]; intros l Hl; cbn [strip_all].
  - destruct l; [|simpl in Hl; lia]. split; [|by exists []]. apply strip_one_None. intros e l' He E.
    rewrite Forall_forall in Hencs. destruct e; [by apply (Hencs [])|done].
  - destruct (strip_one encs l) as [l'|] eqn:E; [|split; [done|by exists []]]. apply strip_one_Some in E as [Hlt [p ->]].
    destruct (IH l') as [Hn [p' Hp]]; [lia|]. split; [done|]. exists (p ++ p'). rewrite <- app_assoc. by f_equal.
Qed.

Lemma strip_all_stable fuel l : strip_one encs l = None → strip_all fuel encs l = l.
Proof using Type. intros H. destruct fuel; simpl; [done|]. by rewrite H. Qed.

(** No prefix of a text that starts with no encoding starts with one. *)
Lemma strip_one_prefix l p : strip_one encs (l ++ p) = None → strip_one encs l = None.
Proof using Type. clear Hencs. rewrite !strip_one_None. intros H e l' He ->. apply (H e (l' ++ p) He). by rewrite app_assoc. Qed.

End strip.

Lemma encodings_nonempty : Forall (λ e : list ascii, e ≠ []) space_encodings ∧ Forall (λ e : list ascii, e ≠ []) (@rev ascii <$> space_encodings).
Proof. split; vm_compute; repeat (constructor; [done|]); constructor. Qed.

Lemma trim_space_idem s : trim_space (trim_space s) = trim_space s.
Proof.
  unfold trim_space. set (l := String.list_ascii_of_string s). set (left := strip_all (length l) space_encodings l).
  set (right := strip_all (length left) (@rev ascii <$> space_encodings) (rev left)).
  assert (Hl : strip_one space_encodings left = None) by (apply strip_all_spec; [apply encodings_nonempty|done]).
  destruct (strip_all_spec (@rev ascii <$> space_encodings) (proj2 encodings_nonempty) (length left) (rev left)) as [Hr [p Hp]];
    [by rewrite length_rev|]. fold right in Hr, Hp.
  rewrite !String.list_ascii_of_string_of_list_ascii.
  assert (Hleft : left = rev right ++ rev p) by (by rewrite <- rev_app_distr, <- Hp, rev_involutive).
  rewrite Hleft in Hl. apply strip_one_prefix in Hl. rewrite (strip_all_stable _ _ _ Hl), rev_involutive.
  by rewrite (strip_all_stable _ _ _ Hr).
Qed.

(** ** Splitting loses nothing *)

Fixpoint join_on (c : ascii) (l : list string) : string :=
  match l with [] => "" | [x] => x | x :: r => x +:+ String c "" +:+ join_on c r end.

Lemma split_on_join c s : join_on c (split_on c s) = s.
Proof.
  enough (join_on c (split_on c s) = s ∧ split_on c s ≠ []) as [? _] by done.
  induction s as [|c' s [IH Hne]]; [done|]. cbn [split_on]. destruct (Ascii.eqb_spec c' c) as [->|Hc].
  - split; [|done]. destruct (split_on c s) as [|p ps]; [done|]. change (String c (join_on c (p :: ps)) = String c s). by rewrite IH.
  - destruct (split_on c s) as [|p ps]; [done|]. split; [|done]. rewrite <- IH. by destruct ps.
Qed.
