(* ===== verification/GoTime.v ===== *)
(** * Machine integers, durations and instants

    A Go [int64] is an integer of [Z] kept in range by [wrap64]; a
    [time.Duration] is an [int64] count of nanoseconds.  A [time.Time] is the
    number of nanoseconds since Go's zero time (1 January of year 1, UTC), so
    [Time.IsZero] is equality with 0.  [Time.Sub] saturates at the ends of the
    [Duration] range, as the standard library documents. *)

From S2P Require Import Prelude GoStrings.
From Stdlib Require Import Ascii.

Definition min_int64 : Z := - 2 ^ 63.
Definition max_int64 : Z := 2 ^ 63 - 1.

(** Two's complement wrap-around to 64 bits. *)
Definition wrap64 (z : Z) : Z := (z + 2 ^ 63) mod 2 ^ 64 - 2 ^ 63.

Definition in_int64 (z : Z) : Prop := min_int64 <= z <= max_int64.

(** [uint64(x)] of an [int64] *)
Definition to_uint64 (z : Z) : Z := z mod 2 ^ 64.

(** ** [time.Duration] *)

Definition Nanosecond : Z := 1.
Definition Second : Z := 1000000000.
Definition Minute : Z := 60 * Second.
Definition Hour : Z := 60 * Minute.

(** [-d] on a [Duration] (wraps on the most negative value) *)
Definition dur_neg (d : Z) : Z := wrap64 (- d).

(** ** [time.Time] *)

Definition time_is_zero (t : Z) : bool := t =? 0.
Definition time_before (t u : Z) : bool := t <? u.
Definition time_after (t u : Z) : bool := u <? t.
Definition time_equal (t u : Z) : bool := t =? u.
Definition time_add (t d : Z) : Z := t + d.

(** [t.Sub(u)]: saturating difference. *)
Definition time_sub (t u : Z) : Z := Z.max min_int64 (Z.min max_int64 (t - u)).

(** Nanoseconds between the zero time and the Unix epoch. *)
Definition unix_epoch : Z := 62135596800 * Second.
(** [t.UnixNano()] (wraps outside the years 1678 to 2262) *)
Definition unix_nano (t : Z) : Z := wrap64 (t - unix_epoch).

(** ** Calendar dates

    The proleptic Gregorian date of a day number, counted from 1 January of
    year 1, by the era method (400 years are 146097 days; the year starts in
    March). *)

Definition civil_from_days (days : Z) : Z * Z * Z :=
  let z := days + 306 in
  let era := z / 146097 in
  let doe := z mod 146097 in
  let yoe := (doe - doe / 1460 + doe / 36524 - doe / 146096) / 365 in
  let doy := doe - (365 * yoe + yoe / 4 - yoe / 100) in
  let mp := (5 * doy + 2) / 153 in
  let d := doy - (153 * mp + 2) / 5 + 1 in
  let m := if mp <? 10 then mp + 3 else mp - 9 in
  let y := yoe + era * 400 + (if m <=? 2 then 1 else 0) in
  (y, m, d).

(** Decimal digits, padded with zeros on the left. *)
Definition pad (width : nat) (z : Z) : string :=
  let s := dec z in
  String.string_of_list_ascii (replicate (width - String.length s) "0"%char) +:+ s.

(** The date and the time of day, to the second. *)
Definition civil_text (t : Z) : string :=
  let secs := t / Second in
  let '(y, m, d) := civil_from_days (secs / 86400) in
  let r := secs mod 86400 in
  pad 4 y +:+ "-" +:+ pad 2 m +:+ "-" +:+ pad 2 d +:+ "T" +:+
  pad 2 (r / 3600) +:+ ":" +:+ pad 2 (r / 60 mod 60) +:+ ":" +:+ pad 2 (r mod 60).

(** [t.UTC().Format(time.RFC3339)] for the years 0 to 9999. *)
Definition rfc3339 (t : Z) : string := civil_text t +:+ "Z".

Fixpoint strip_zeros (s : string) : string :=
  match s with
  | EmptyString => ""
  | String c rest =>
      let rest' := strip_zeros rest in
      if Ascii.eqb c "0"%char && (rest' =s "") then "" else String c rest'
  end.

(** [t.UTC().Format(time.RFC3339Nano)]: the fraction without its final zeros. *)
Definition rfc3339nano (t : Z) : string :=
  let fraction := strip_zeros (pad 9 (t mod Second)) in
  civil_text t +:+ (if fraction =s "" then "" else "." +:+ fraction) +:+ "Z".

Example rfc3339_epoch : rfc3339 unix_epoch = "1970-01-01T00:00:00Z".
Proof. reflexivity. Qed.

Example rfc3339_leap_day : rfc3339 (unix_epoch + (951782400 + 86399) * Second) = "2000-02-29T23:59:59Z".
Proof. reflexivity. Qed.

Example rfc3339nano_fraction : rfc3339nano (unix_epoch + 1500 * Second + 120000) = "1970-01-01T00:25:00.00012Z".
Proof. reflexivity. Qed.

(** ** Lemmas *)

Lemma wrap64_id z : in_int64 z → wrap64 z = z.
Proof.
  unfold in_int64, wrap64, min_int64, max_int64. intros H.
  rewrite Z.mod_small; lia.
Qed.

Lemma wrap64_range z : in_int64 (wrap64 z).
Proof.
  unfold in_int64, wrap64, min_int64, max_int64.
  pose proof (Z.mod_pos_bound (z + 2 ^ 63) (2 ^ 64) ltac:(lia)). lia.
Qed.

Lemma to_uint64_id z : 0 <= z → in_int64 z → to_uint64 z = z.
Proof. unfold in_int64, to_uint64, max_int64. intros. apply Z.mod_small. lia. Qed.

Lemma time_sub_range t u : in_int64 (time_sub t u).
Proof. unfold in_int64, time_sub, min_int64, max_int64. lia. Qed.

Lemma time_sub_exact t u : in_int64 (t - u) → time_sub t u = t - u.
Proof. unfold in_int64, time_sub. lia. Qed.

Lemma time_sub_diag t : time_sub t t = 0.
Proof. rewrite time_sub_exact; unfold in_int64, min_int64, max_int64; lia. Qed.

(** The most negative duration is its own negation. *)
Lemma dur_neg_min : dur_neg min_int64 = min_int64.
Proof. reflexivity. Qed.

Lemma dur_neg_exact d : min_int64 < d <= max_int64 → dur_neg d = - d.
Proof.
  intros. unfold dur_neg. apply wrap64_id. unfold in_int64, min_int64, max_int64 in *. lia.
Qed.

(** Comparing a saturated difference with a bound inside the range is
    comparing the exact difference. *)
Lemma time_sub_ge t u d : min_int64 < d <= max_int64 → d <= time_sub t u ↔ d <= t - u.
Proof. unfold time_sub. lia. Qed.

Lemma time_sub_gt t u d : min_int64 <= d < max_int64 → d < time_sub t u ↔ d < t - u.
Proof. unfold time_sub. lia. Qed.
