(* ===== verification/Float64.v ===== *)
(** * IEEE 754 binary64

    Go's [float64] arithmetic is IEEE 754 double precision with rounding to
    nearest even.  The Standard Library's [SpecFloat] defines it on plain data
    (no axioms), so every definition of the development that computes with
    floating point evaluates.  Each operation rounds once: fusing [x*y + z],
    which the Go specification permits on some architectures, is not used on
    the deployed amd64 baseline.

    The second half proves what the geometry needs: comparison is a total
    preorder on non-NaN values, differences of bounded values do not overflow,
    and the sign rules of products and sums. *)

From S2P Require Import Prelude.
From Stdlib Require Export Floats.SpecFloat.

Definition f64 : Type := spec_float.

Abbreviation prec := 53.
Abbreviation emax := 1024.

#[export] Instance f64_eq_dec : EqDecision spec_float.
Proof. solve_decision. Defined.

(** ** Operations *)

Definition fadd : f64 → f64 → f64 := SFadd prec emax.
Definition fsub : f64 → f64 → f64 := SFsub prec emax.
Definition fmul : f64 → f64 → f64 := SFmul prec emax.
Definition fdiv : f64 → f64 → f64 := SFdiv prec emax.
Definition fsqrt : f64 → f64 := SFsqrt prec emax.
Definition fabs : f64 → f64 := SFabs.
Definition fneg : f64 → f64 := SFopp.

(** Go's comparison operators: all false when an operand is NaN. *)
Definition flt : f64 → f64 → bool := SFltb.
Definition fle : f64 → f64 → bool := SFleb.
Definition fgt (x y : f64) : bool := SFltb y x.
Definition fge (x y : f64) : bool := SFleb y x.
Definition feq : f64 → f64 → bool := SFeqb.

(** [float64(z)] *)
Definition f_of_Z (z : Z) : f64 := binary_normalize prec emax z 0 false.
(** A decimal constant [n/d] with [n] and [d] exactly representable. *)
Definition f_of_Q (n d : Z) : f64 := fdiv (f_of_Z n) (f_of_Z d).
(** A positive constant given by its mantissa and exponent. *)
Definition f_of_me (m : positive) (e : Z) : f64 := S754_finite false m e.

Definition fzero : f64 := S754_zero false.
Definition fone : f64 := f_of_Z 1.

(** Truncation to an integer ([uint64(x)] for a representable value). *)
Definition f_trunc (x : f64) : Z :=
  match x with
  | S754_finite s m e =>
      let v := if e <? 0 then Z.shiftr (Zpos m) (- e) else Z.shiftl (Zpos m) e in
      if s then - v else v
  | _ => 0
  end.

Definition is_nan (x : f64) : bool := match x with S754_nan => true | _ => false end.
Definition is_inf (x : f64) : bool := match x with S754_infinity _ => true | _ => false end.
Definition is_finite (x : f64) : bool :=
  match x with S754_zero _ | S754_finite _ _ _ => true | _ => false end.

(** A value of the machine type: the mantissa is canonical. *)
Definition valid (x : f64) : bool := valid_binary prec emax x.

(** [math.Max] *)
Definition math_max (x y : f64) : f64 :=
  match x, y with
  | S754_infinity false, _ | _, S754_infinity false => S754_infinity false
  | S754_nan, _ | _, S754_nan => S754_nan
  | S754_zero sx, S754_zero _ => if sx then y else x
  | _, _ => if fgt x y then x else y
  end.

(** [math.Copysign(x, sign)]; the sign bit of a NaN is taken as clear. *)
Definition math_copysign (x sign : f64) : f64 :=
  match sign with
  | S754_zero true | S754_infinity true | S754_finite true _ _ => fneg (fabs x)
  | _ => fabs x
  end.

(** [math.Hypot]: scaled to avoid overflow, as the standard library does. *)
Definition math_hypot (p q : f64) : f64 :=
  let p := fabs p in
  let q := fabs q in
  if is_inf p || is_inf q then S754_infinity false
  else if is_nan p || is_nan q then S754_nan
  else
    let '(p, q) := if flt p q then (q, p) else (p, q) in
    if feq p fzero then fzero
    else
      let q := fdiv q p in
      fmul p (fsqrt (fadd fone (fmul q q))).

(** [math.Cos] below the reduction threshold: three-part reduction by pi/4
    and the minimax polynomials of the standard library. *)
Definition cos_sin_poly (zz : f64) : f64 :=
  let c0 := f_of_me 6149556183080141 (-85) in
  let c1 := fneg (f_of_me 7571123942793053 (-78)) in
  let c2 := f_of_me 6506786710177953 (-71) in
  let c3 := fneg (f_of_me 7320136532877059 (-65)) in
  let c4 := f_of_me 4803839602522064 (-59) in
  let c5 := fneg (f_of_me 6004799503160648 (-55)) in
  fadd (fmul (fadd (fmul (fadd (fmul (fadd (fmul (fadd (fmul c0 zz) c1) zz) c2) zz) c3) zz) c4) zz) c5.

Definition cos_cos_poly (zz : f64) : f64 :=
  let c0 := fneg (f_of_me 7030593573755547 (-89)) in
  let c1 := f_of_me 5047434750082821 (-81) in
  let c2 := fneg (f_of_me 5205429473528774 (-74)) in
  let c3 := f_of_me 7320136533427445 (-68) in
  let c4 := fneg (f_of_me 6405119470030737 (-62)) in
  let c5 := f_of_me 6004799503160651 (-57) in
  fadd (fmul (fadd (fmul (fadd (fmul (fadd (fmul (fadd (fmul c0 zz) c1) zz) c2) zz) c3) zz) c4) zz) c5.

Definition math_pi : f64 := f_of_me 7074237752028440 (-51).

Definition math_cos (x : f64) : f64 :=
  if is_nan x || is_inf x then S754_nan
  else
    let pi4a := f_of_me 7074237412016128 (-53) in
    let pi4b := f_of_me 5704459598430208 (-77) in
    let pi4c := f_of_me 6833020653556080 (-101) in
    let x := fabs x in
    let j0 := f_trunc (fmul x (fdiv (f_of_Z 4) math_pi)) in
    let j1 := if Z.odd j0 then j0 + 1 else j0 in
    let y := f_of_Z j1 in
    let j := Z.land j1 7 in
    let z := fsub (fsub (fsub x (fmul y pi4a)) (fmul y pi4b)) (fmul y pi4c) in
    let '(j, sign) := if 3 <? j then (j - 4, true) else (j, false) in
    let sign := if 1 <? j then negb sign else sign in
    let zz := fmul z z in
    let r :=
      if (j =? 1) || (j =? 2) then fadd z (fmul (fmul z zz) (cos_sin_poly zz))
      else fadd (fsub fone (fmul (f_of_Q 1 2) zz)) (fmul (fmul zz zz) (cos_cos_poly zz)) in
    if sign then fneg r else r.

#[global] Arguments fadd : simpl never.
#[global] Arguments fsub : simpl never.
#[global] Arguments fmul : simpl never.
#[global] Arguments fdiv : simpl never.
#[global] Arguments fsqrt : simpl never.
#[global] Arguments f_of_Z : simpl never.
#[global] Arguments f_of_Q : simpl never.
#[global] Arguments math_cos : simpl never.
#[global] Arguments math_hypot : simpl never.

(** ** Comparison is a total preorder on non-NaN values *)

Lemma pos_compare_cont_eq m n : Pos.compare_cont Eq m n = Pos.compare m n.
Proof. done. Qed.

(** The order on the sign, exponent and mantissa that [SFcompare] decides. *)
Ltac sf_compare :=
  repeat match goal with
  | s : bool |- _ => destruct s
  | H : context [Pos.compare_cont Eq ?a ?b] |- _ =>
      change (Pos.compare_cont Eq a b) with (Pos.compare a b) in H
  | |- context [Pos.compare_cont Eq ?a ?b] =>
      change (Pos.compare_cont Eq a b) with (Pos.compare a b)
  | H : context [Z.compare ?a ?b] |- _ => destruct (Z.compare_spec a b)
  | |- context [Z.compare ?a ?b] => destruct (Z.compare_spec a b)
  | H : context [Pos.compare ?a ?b] |- _ => destruct (Pos.compare_spec a b)
  | |- context [Pos.compare ?a ?b] => destruct (Pos.compare_spec a b)
  end; subst; simpl in *; try done; try lia.

Lemma fle_refl x : is_nan x = false → fle x x = true.
Proof.
  unfold fle, SFleb. destruct x as [s|s| |s m e]; simpl; try done; [by destruct s..|].
  rewrite pos_compare_cont_eq, Z.compare_refl, Pos.compare_refl. by destruct s.
Qed.

Lemma fle_not_nan x y : fle x y = true → is_nan x = false ∧ is_nan y = false.
Proof. unfold fle, SFleb. destruct x, y; simpl; done. Qed.

Lemma fle_total x y :
  is_nan x = false → is_nan y = false → fle x y = true ∨ fle y x = true.
Proof.
  unfold fle, SFleb.
  destruct x as [s|s| |s m e], y as [s'|s'| |s' m' e']; simpl; try done;
    intros _ _; rewrite ?pos_compare_cont_eq; sf_compare; auto.
Qed.

Lemma fle_trans x y z : fle x y = true → fle y z = true → fle x z = true.
Proof.
  unfold fle, SFleb.
  destruct x as [s|s| |s m e], y as [s'|s'| |s' m' e'], z as [s''|s''| |s'' m'' e''];
    simpl; try done; rewrite ?pos_compare_cont_eq; try (by sf_compare).
Qed.

(** [x > y] refutes [x <= y]; on non-NaN values one of them holds. *)
Lemma fgt_fle x y : fgt x y = true → fle x y = false.
Proof.
  unfold fgt, fle, SFltb, SFleb.
  destruct x as [s|s| |s m e], y as [s'|s'| |s' m' e']; simpl; try done;
    rewrite ?pos_compare_cont_eq; sf_compare.
Qed.

Lemma fgt_false_fle x y :
  is_nan x = false → is_nan y = false → fgt x y = false → fle x y = true.
Proof.
  unfold fgt, fle, SFltb, SFleb.
  destruct x as [s|s| |s m e], y as [s'|s'| |s' m' e']; simpl; try done;
    rewrite ?pos_compare_cont_eq; sf_compare.
Qed.

(** ** Algebra of the rounded operations *)

Lemma fadd_comm x y : fadd x y = fadd y x.
Proof.
  unfold fadd. destruct x as [s|s| |s m e], y as [s'|s'| |s' m' e']; simpl; try done;
    try (by destruct s, s').
  by rewrite Z.add_comm, Z.min_comm.
Qed.

Lemma fabs_round_aux s s' m e l :
  fabs (binary_round_aux prec emax s m e l) = fabs (binary_round_aux prec emax s' m e l).
Proof.
  unfold binary_round_aux. destruct (shr_fexp _ _ m e l) as [mrs e'].
  destruct (shr_fexp _ _ _ e' loc_Exact) as [mrs' e'']. destruct (shr_m mrs'); simpl; try done.
  by destruct (Z.leb _ _).
Qed.

Lemma fabs_normalize_opp m e b b' :
  fabs (binary_normalize prec emax (- m) e b) = fabs (binary_normalize prec emax m e b').
Proof.
  destruct m; simpl; [done|..]; unfold binary_round;
    destruct (shl_align _ _ _); by apply fabs_round_aux.
Qed.

(** The distance of two coordinates does not depend on their order. *)
Lemma fabs_fsub_comm x y : fabs (fsub x y) = fabs (fsub y x).
Proof.
  unfold fsub. destruct x as [s|s| |s m e], y as [s'|s'| |s' m' e']; simpl; try done;
    try (by destruct s, s').
  rewrite (Z.min_comm e' e).
  rewrite <- (fabs_normalize_opp _ _ false false). f_equal. f_equal. lia.
Qed.

Lemma fabs_fmul x y : fabs (fmul x y) = fmul (fabs x) (fabs y).
Proof.
  unfold fmul, fabs. destruct x as [s|s| |s m e], y as [s'|s'| |s' m' e']; simpl; try done;
    try (by destruct s, s').
  fold (fabs (binary_round_aux prec emax (xorb s s') (Z.pos (m * m')) (e + e') loc_Exact)).
  rewrite (fabs_round_aux _ false). unfold binary_round_aux.
  destruct (shr_fexp _ _ _ _ loc_Exact) as [mrs e1].
  destruct (shr_fexp _ _ _ e1 loc_Exact) as [mrs' e2]. destruct (shr_m mrs'); simpl; try done.
  by destruct (Z.leb _ _).
Qed.

Lemma fabs_idemp x : fabs (fabs x) = fabs x.
Proof. by destruct x. Qed.

Lemma fsub_diag x : is_finite x = true → fsub x x = fzero.
Proof.
  unfold fsub. destruct x as [s|s| |s m e]; simpl; try done.
  - intros _. by destruct s.
  - intros _. by rewrite Z.sub_diag.
Qed.

(** ** Bounded differences are finite

    [binary_round_aux] overflows only when the rounded exponent leaves the
    format; below 2^1000 it never does. *)

Section rounding_bounds.
Implicit Types (r : shr_record).

Lemma shr_1_m r : 0 <= shr_m r → shr_m (shr_1 r) = Z.shiftr (shr_m r) 1.
Proof. destruct r as [[|[p|p|]|p] r0 s0]; simpl; by try lia. Qed.

Lemma iter_shr_m p r :
  0 <= shr_m r → shr_m (iter_pos shr_1 p r) = Z.shiftr (shr_m r) (Zpos p).
Proof.
  revert r. induction p as [p IH|p IH|]; intros r Hr; simpl iter_pos.
  - assert (H1 : 0 <= shr_m (shr_1 r)) by (rewrite shr_1_m by done; by apply Z.shiftr_nonneg).
    assert (H2 : 0 <= shr_m (iter_pos shr_1 p (shr_1 r)))
      by (rewrite IH by done; by apply Z.shiftr_nonneg).
    rewrite (IH _ H2), (IH _ H1), (shr_1_m _ Hr), !Z.shiftr_shiftr by lia. f_equal. lia.
  - assert (H1 : 0 <= shr_m (iter_pos shr_1 p r))
      by (rewrite IH by done; by apply Z.shiftr_nonneg).
    rewrite (IH _ H1), (IH _ Hr), Z.shiftr_shiftr by lia. f_equal. lia.
  - by apply shr_1_m.
Qed.

Lemma shr_record_of_loc_m m l : shr_m (shr_record_of_loc m l) = m.
Proof. by destruct l as [|[]]. Qed.

Lemma digits2_pos_bound p : Zpos p < 2 ^ Zpos (digits2_pos p) ∧ 2 ^ (Zpos (digits2_pos p) - 1) <= Zpos p.
Proof.
  assert (Hs : ∀ d, 1 <= d → 2 ^ Z.succ d = 2 * 2 ^ d ∧ 2 ^ (Z.succ d - 1) = 2 * 2 ^ (d - 1)).
  { intros d Hd. rewrite <- !Z.pow_succ_r by lia. split; f_equal; lia. }
  induction p as [p [IH1 IH2]|p [IH1 IH2]|]; simpl; [..|done]; rewrite Pos2Z.inj_succ;
    destruct (Hs (Zpos (digits2_pos p)) ltac:(lia)) as [-> ->]; lia.
Qed.

Lemma Zdigits2_le m k : 0 <= m → 0 <= k → m < 2 ^ k → Zdigits2 m <= k.
Proof.
  intros Hm Hk H. destruct m as [|p|p]; simpl; [done| |lia].
  destruct (digits2_pos_bound p) as [_ H2].
  assert (Zpos (digits2_pos p) - 1 < k); [|lia].
  apply (Z.pow_lt_mono_r_iff 2); lia.
Qed.

(** One alignment step: the mantissa stays non-negative and bounded, the
    exponent does not exceed what the format needs. *)
Lemma shr_fexp_bound m e l k r e' :
  0 <= m → 0 <= k → m < 2 ^ k → k + e <= 1010 → e <= 971 →
  shr_fexp prec emax m e l = (r, e') →
  0 <= shr_m r ∧ e' <= 971 ∧ e <= e' ∧ ∃ k', 0 <= k' ∧ shr_m r < 2 ^ k' ∧ k' + e' <= Z.max e' (k + e).
Proof.
  intros Hm Hk Hb Hke He. unfold shr_fexp, shr.
  pose proof (Zdigits2_le m k Hm Hk Hb) as Hd.
  assert (Hf : fexp prec emax (Zdigits2 m + e) <= 971) by (unfold fexp, emin; lia).
  destruct (fexp prec emax (Zdigits2 m + e) - e) as [|p|p] eqn:E; intros [= <- <-];
    rewrite ?iter_shr_m, shr_record_of_loc_m by (by rewrite ?shr_record_of_loc_m).
  1,3: split_and!; try lia; exists k; split_and!; try lia; auto.
  split_and!; [by apply Z.shiftr_nonneg|lia|lia|].
  exists (Z.max 0 (k - Zpos p)). split_and!; [lia| |lia].
  rewrite Z.shiftr_div_pow2 by lia.
  apply Z.div_lt_upper_bound; [by apply Z.pow_pos_nonneg|].
  rewrite <- Z.pow_add_r by lia.
  eapply Z.lt_le_trans; [exact Hb|]. apply Z.pow_le_mono_r; lia.
Qed.

Lemma round_aux_finite s m e l k :
  0 <= m → 0 <= k → m < 2 ^ k → k + e <= 1000 → e <= 971 →
  is_finite (binary_round_aux prec emax s m e l) = true.
Proof.
  intros Hm Hk Hb Hke He. unfold binary_round_aux.
  destruct (shr_fexp _ _ m e l) as [r e'] eqn:E1.
  apply (shr_fexp_bound _ _ _ k) in E1 as (H1&H2&H3&k1&H4&H5&H6); [|lia..].
  set (m1 := round_nearest_even _ _).
  assert (Hm1 : 0 <= m1 < 2 ^ (k1 + 1)).
  { rewrite Z.pow_add_r, Z.pow_1_r by lia. unfold m1, round_nearest_even.
    destruct (loc_of_shr_record r) as [|[]]; try lia. destruct (Z.even _); lia. }
  destruct (shr_fexp _ _ m1 e' loc_Exact) as [r2 e2] eqn:E2.
  apply (shr_fexp_bound _ _ _ (k1 + 1)) in E2 as (G1&G2&_); [|lia..].
  destruct (shr_m r2) as [|p|p] eqn:E3; [done| |lia].
  replace (e2 <=? emax - prec) with true by (symmetry; apply Z.leb_le; lia). done.
Qed.

Lemma shl_align_bound mx ex ez k :
  0 <= k → ez <= ex → Zpos mx < 2 ^ k →
  Zpos (fst (shl_align mx ex ez)) < 2 ^ (k + (ex - ez)).
Proof.
  intros Hk He Hm. unfold shl_align. destruct (ez - ex) as [|p|p] eqn:E; simpl.
  - replace (k + (ex - ez)) with k by lia. done.
  - lia.
  - replace (ex - ez) with (Zpos p) by lia. rewrite Z.pow_add_r by lia.
    assert (Hi : Zpos (Pos.iter xO mx p) = Zpos mx * 2 ^ Zpos p).
    { clear. induction p as [|p IH] using Pos.peano_ind; [simpl; lia|].
      rewrite Pos.iter_succ, Pos2Z.inj_succ, Z.pow_succ_r by lia.
      change (Zpos (Pos.iter xO mx p)~0) with (2 * Zpos (Pos.iter xO mx p)). lia. }
    rewrite Hi. apply Z.mul_lt_mono_pos_r; [by apply Z.pow_pos_nonneg|done].
Qed.

Lemma binary_round_finite s mx ex k :
  0 <= k → Zpos mx < 2 ^ k → k + ex <= 1000 → ex <= 971 →
  is_finite (binary_round prec emax s mx ex) = true.
Proof.
  intros Hk Hm Hke He. unfold binary_round.
  set (f := fexp _ _ _).
  destruct (Z.le_gt_cases f ex) as [Hf|Hf].
  - pose proof (shl_align_bound mx ex f k Hk Hf Hm) as Hb.
    destruct (shl_align mx ex f) as [mz ez] eqn:E. simpl in Hb.
    assert (Hez : ez = f).
    { revert E. unfold shl_align. destruct (f - ex) eqn:E'; intros [= <- <-]; lia. }
    apply (round_aux_finite _ _ _ _ (k + (ex - f))); lia.
  - unfold shl_align. destruct (f - ex) eqn:E; [lia| |lia].
    apply (round_aux_finite _ _ _ _ k); lia.
Qed.

Lemma normalize_finite m e k b :
  0 <= k → Z.abs m < 2 ^ k → k + e <= 1000 → e <= 971 →
  is_finite (binary_normalize prec emax m e b) = true.
Proof.
  intros Hk Hm Hke He. destruct m as [|p|p]; simpl in *; [done|..];
    by apply (binary_round_finite _ _ _ k).
Qed.

End rounding_bounds.

(** Magnitude bounds: [|x| <= b] for a machine value. *)
Definition within (b : f64) (x : f64) : bool := fle (fneg b) x && fle x b.

Lemma valid_mantissa s m e : valid (S754_finite s m e) = true → Zpos m < 2 ^ 53.
Proof.
  unfold valid, valid_binary, bounded, canonical_mantissa. bprop. intros [H _].
  destruct (digits2_pos_bound m) as [H1 _]. eapply Z.lt_le_trans; [exact H1|].
  apply Z.pow_le_mono_r; [lia|]. unfold fexp, emin in H.
  destruct (Z.max_spec (Z.pos (digits2_pos m) + e - 53) (3 - 1024 - 53)) as [[? ?]|[? ?]]; lia.
Qed.

Lemma within_exponent bm be s m e :
  within (S754_finite false bm be) (S754_finite s m e) = true → e <= be.
Proof.
  unfold within, fle, SFleb, fneg, SFopp. simpl. bprop. rewrite !pos_compare_cont_eq.
  intros [H1 H2]. destruct s; revert H1 H2;
    destruct (Z.compare_spec e be), (Z.compare_spec be e); simpl; try done; lia.
Qed.

(** The difference of two machine values of magnitude at most [2^800] or so
    does not overflow. *)
Lemma fsub_finite bm be x y :
  -1074 <= be <= 900 → valid x = true → valid y = true →
  within (S754_finite false bm be) x = true → within (S754_finite false bm be) y = true →
  is_finite (fsub x y) = true.
Proof.
  intros Hbe Vx Vy Wx Wy. unfold fsub.
  destruct x as [s|s| |s m e], y as [s'|s'| |s' m' e']; try done;
    try (by destruct s); try (by destruct s'); try (by destruct s, s').
  apply within_exponent in Wx. apply within_exponent in Wy.
  apply valid_mantissa in Vx. apply valid_mantissa in Vy.
  unfold SFsub. set (ez := Z.min e e').
  pose proof (shl_align_bound m e ez 53 ltac:(lia) ltac:(lia) Vx) as H1.
  pose proof (shl_align_bound m' e' ez 53 ltac:(lia) ltac:(lia) Vy) as H2.
  set (a := Zpos (fst (shl_align m e ez))) in *. set (b := Zpos (fst (shl_align m' e' ez))) in *.
  assert (Hab : a < 2 ^ (53 + (be - ez)) ∧ b < 2 ^ (53 + (be - ez))).
  { split; (eapply Z.lt_le_trans; [eassumption|apply Z.pow_le_mono_r; lia]). }
  apply (normalize_finite _ _ (53 + (be - ez) + 1)); [lia| |lia|lia].
  rewrite Z.pow_add_r, Z.pow_1_r by lia.
  assert (0 < a) by (unfold a; lia). assert (0 < b) by (unfold b; lia).
  destruct s, s'; simpl; lia.
Qed.

(** ** Signs

    [signed s x]: [x] is not NaN and is zero or has sign [s]; so
    [signed false x] is [x >= 0] and [signed true x] is [x <= 0]. *)

Definition signed (s : bool) (x : f64) : bool :=
  match x with
  | S754_zero _ => true
  | S754_finite s' _ _ | S754_infinity s' => Bool.eqb s s'
  | S754_nan => false
  end.

Definition is_zero (x : f64) : bool := match x with S754_zero _ => true | _ => false end.

Lemma signed_false_fge x : fge x fzero = signed false x.
Proof. by destruct x as [|[]| |[]]. Qed.

Lemma signed_true_fle x : fle x fzero = signed true x.
Proof. by destruct x as [|[]| |[]]. Qed.

Lemma is_zero_signed s x : is_zero x = true → signed s x = true.
Proof. by destruct x. Qed.

Lemma finite_signed x : is_finite x = true → signed false x = true ∨ signed true x = true.
Proof. destruct x as [|[]| |[]]; simpl; auto. Qed.

Lemma shr_fexp_nonneg m e l r e' :
  0 <= m → shr_fexp prec emax m e l = (r, e') → 0 <= shr_m r.
Proof.
  intros Hm. unfold shr_fexp, shr. destruct (_ - e); intros [= <- <-];
    rewrite ?iter_shr_m, ?shr_record_of_loc_m; rewrite ?shr_record_of_loc_m; try done.
  by apply Z.shiftr_nonneg.
Qed.

Lemma round_aux_signed s m e l :
  0 <= m → signed s (binary_round_aux prec emax s m e l) = true.
Proof.
  intros Hm. unfold binary_round_aux.
  destruct (shr_fexp _ _ m e l) as [r e'] eqn:E1. apply shr_fexp_nonneg in E1; [|done].
  destruct (shr_fexp _ _ (round_nearest_even _ _) e' loc_Exact) as [r2 e2] eqn:E2.
  apply shr_fexp_nonneg in E2.
  - destruct (shr_m r2) as [|p|p]; [done| |lia].
    destruct (Z.leb _ _); simpl; by destruct s.
  - unfold round_nearest_even. destruct (loc_of_shr_record r) as [|[]]; try lia.
    destruct (Z.even _); lia.
Qed.

Lemma normalize_signed m e b s :
  (if s : bool then m <= 0 else 0 <= m) → signed s (binary_normalize prec emax m e b) = true.
Proof.
  destruct m as [|p|p], s; simpl; try done; try lia; intros _; unfold binary_round;
    destruct (shl_align _ _ _); by apply round_aux_signed.
Qed.

Lemma fmul_signed s s' x y :
  is_finite x = true → is_finite y = true → signed s x = true → signed s' y = true →
  signed (xorb s s') (fmul x y) = true.
Proof.
  unfold fmul. destruct x as [a|a| |a m e], y as [b|b| |b m' e']; simpl; try done.
  intros _ _ ->%Bool.eqb_prop ->%Bool.eqb_prop. by apply round_aux_signed.
Qed.

Lemma fmul_zero_l x y : is_zero x = true → is_finite y = true → is_zero (fmul x y) = true.
Proof. by destruct x, y. Qed.

Lemma fmul_zero_r x y : is_finite x = true → is_zero y = true → is_zero (fmul x y) = true.
Proof. by destruct x, y. Qed.

Lemma fadd_signed s x y : signed s x = true → signed s y = true → signed s (fadd x y) = true.
Proof.
  unfold fadd. destruct x as [a|a| |a m e], y as [b|b| |b m' e']; simpl; try done;
    try (by destruct a, b); try (by destruct s, a, b).
  intros ->%Bool.eqb_prop ->%Bool.eqb_prop. apply normalize_signed. destruct b; simpl; lia.
Qed.

Lemma fadd_zero x y : is_zero x = true → is_zero y = true → is_zero (fadd x y) = true.
Proof. destruct x as [[]| | |], y as [[]| | |]; done. Qed.

Lemma fsub_zero x y : is_zero x = true → is_zero y = true → is_zero (fsub x y) = true.
Proof. destruct x as [[]| | |], y as [[]| | |]; done. Qed.

(** The two differences of a pair of values have opposite signs. *)
Lemma fsub_opposite x y :
  is_finite x = true → is_finite y = true →
  ∃ s, signed s (fsub x y) = true ∧ signed (negb s) (fsub y x) = true.
Proof.
  unfold fsub. destruct x as [a|a| |a m e], y as [b|b| |b m' e']; try done; intros _ _.
  - exists false. by destruct a, b.
  - exists (negb b). by destruct a, b.
  - exists a. by destruct a, b.
  - unfold SFsub. rewrite (Z.min_comm e' e). set (u := cond_Zopp a _). set (v := cond_Zopp b _).
    destruct (Z.le_ge_cases (u - v) 0); [exists true|exists false];
      split; apply normalize_signed; simpl; lia.
Qed.

(** [(x - y) * (y - x) <= 0] and [x * x >= 0] *)
Lemma fmul_opposite x y :
  is_finite x = true → is_finite y = true →
  is_finite (fsub x y) = true → is_finite (fsub y x) = true →
  signed true (fmul (fsub x y) (fsub y x)) = true.
Proof.
  intros Hx Hy H1 H2. destruct (fsub_opposite x y Hx Hy) as (s & Hs & Hs').
  pose proof (fmul_signed _ _ _ _ H1 H2 Hs Hs') as H. by destruct s.
Qed.

Lemma fmul_square x : is_finite x = true → signed false (fmul x x) = true.
Proof.
  intros Hx. destruct (finite_signed x Hx) as [H|H].
  - by apply (fmul_signed false false).
  - by apply (fmul_signed true true).
Qed.

(** [x >= 0] excludes [0 > x]. *)
Lemma fgt_zero_signed z x : is_zero z = true → signed false x = true → fgt z x = false.
Proof. by destruct z as [[]| | |], x as [[]|[]| |[]]. Qed.

Lemma math_max_signed x y :
  signed false x = true → signed false y = true → signed false (math_max x y) = true.
Proof.
  destruct x as [a|a| |a m e], y as [b|b| |b m' e']; simpl; try done;
    try (by destruct a, b); destruct a; try done; destruct b; try done; intros _ _;
    unfold math_max; repeat case_match; simplify_eq/=; done.
Qed.

(** A positive constant times a value that is [>= 0], possibly infinite. *)
Lemma fmul_const_signed m e x :
  signed false x = true → signed false (fmul (S754_finite false m e) x) = true.
Proof.
  destruct x as [b|b| |b m' e']; try done.
  destruct b; [done|]. intros _. by apply round_aux_signed.
Qed.

(** A value inside the closed interval of a positive bound. *)
Lemma within_intro b x :
  is_nan x = false → is_nan b = false → flt x (fneg b) = false → fgt x b = false →
  within b x = true.
Proof.
  intros Hx Hb H1 H2. unfold within. apply andb_true_iff. split.
  - apply fgt_false_fle; [by destruct b|done|done].
  - by apply fgt_false_fle.
Qed.
