(* ===== verification/Geo.v ===== *)
(** * Zones and distances ([internal/geo/geo.go])

    Positions in degrees, validated zone polygons, the boundary-inclusive
    even-odd containment test and the equirectangular distance, all over
    binary64. *)

From S2P Require Import Prelude GoStrings Float64.

(** ** Data *)

Definition MaxZoneVertices : Z := 10000.
Definition boundaryCrossTolerance : f64 := f_of_Q 1 1000000000000.
Definition metersPerDegreeLatitude : f64 := f_of_Z 111320.

(** [zoneIDPattern] *)
Definition zoneIDPattern (s : string) : bool := ident_pattern 255 s.

Record Position : Type := mkPosition { Latitude : f64; Longitude : f64 }.

Definition out_of_range (bound : Z) (x : f64) : bool :=
  is_nan x || is_inf x || flt x (f_of_Z (- bound)) || fgt x (f_of_Z bound).

Definition NewPosition (latitude longitude : f64) : result Position :=
  if out_of_range 90 latitude || out_of_range 180 longitude
  then Err (EText "coordinates must be finite with latitude in [-90,90] and longitude in [-180,180]")
  else Ok (mkPosition latitude longitude).

(** Go's [==] on positions: field-wise float equality. *)
Definition position_eqb (a b : Position) : bool :=
  feq (Latitude a) (Latitude b) && feq (Longitude a) (Longitude b).

(** ** Distance *)

Definition DistanceMeters (a b : Position) : f64 :=
  let dLat := fmul (fsub (Latitude b) (Latitude a)) metersPerDegreeLatitude in
  let midLat := fdiv (fmul (fdiv (fadd (Latitude a) (Latitude b)) (f_of_Z 2)) math_pi) (f_of_Z 180) in
  let cosLat := math_cos midLat in
  let cosLat := if flt (fabs cosLat) (f_of_Q 1 1000) then math_copysign (f_of_Q 1 1000) cosLat
                else cosLat in
  let dLon := fmul (fmul (fsub (Longitude b) (Longitude a)) metersPerDegreeLatitude) cosLat in
  math_hypot dLat dLon.

(** ** Zones *)

Inductive ZoneKind : Type :=
| ZoneKindEEZ
| ZoneKindRestricted
| ZoneKindOther (raw : string).

#[export] Instance ZoneKind_eq_dec : EqDecision ZoneKind.
Proof. solve_decision. Defined.

Record Zone : Type := mkZone {
  ZoneID : string;
  zone_kind : ZoneKind;
  Vertices : list Position
}.

(** [vertices[(index+1)%len(vertices)]] for every index: the cyclic edges. *)
Definition edges (vertices : list Position) : list (Position * Position) :=
  match vertices with
  | [] => []
  | v :: rest => zip vertices (rest ++ [v])
  end.

#[global] Arguments edges : simpl never.

Definition check_edge (e : Position * Position) : result unit :=
  _ ← NewPosition (Latitude e.1) (Longitude e.1);
  fail_if (position_eqb e.1 e.2) (EText "zone polygon must not repeat consecutive vertices").

Definition NewZone (zoneID : string) (kind : ZoneKind) (vertices : list Position) : result Zone :=
  _ ← fail_if (negb (zoneIDPattern zoneID)) (EText "zone_id must be a canonical identifier");
  _ ← fail_if (match kind with ZoneKindOther _ => true | _ => false end)
        (EText "zone_kind must be eez or restricted");
  _ ← fail_if ((Z.of_nat (length vertices) <? 3) || (MaxZoneVertices <? Z.of_nat (length vertices)))
        (EText "zone polygon must contain between 3 and 10000 vertices");
  _ ← check_all check_edge (edges vertices);
  Ok (mkZone zoneID kind vertices).

(** ** Containment *)

Definition pointOnSegment (position start stop : Position) : bool :=
  let px := Longitude position in let py := Latitude position in
  let ax := Longitude start in let ay := Latitude start in
  let bx := Longitude stop in let by_ := Latitude stop in
  let dx := fsub bx ax in
  let dy := fsub by_ ay in
  let cross := fsub (fmul dx (fsub py ay)) (fmul dy (fsub px ax)) in
  let scale := math_max (fadd (fmul dx dx) (fmul dy dy)) fone in
  if fgt (fabs cross) (fmul boundaryCrossTolerance scale) then false
  else
    fge (fadd (fmul (fsub px ax) dx) (fmul (fsub py ay) dy)) fzero &&
    fle (fadd (fmul (fsub px bx) dx) (fmul (fsub py by_) dy)) fzero.

(** One edge of the even-odd ray: [true] when the ray to the east crosses it. *)
Definition ray_crosses (position : Position) (e : Position * Position) : bool :=
  let px := Longitude position in let py := Latitude position in
  let ax := Longitude e.1 in let ay := Latitude e.1 in
  let bx := Longitude e.2 in let by_ := Latitude e.2 in
  if xorb (fgt ay py) (fgt by_ py) then
    fgt (fadd ax (fdiv (fmul (fsub py ay) (fsub bx ax)) (fsub by_ ay))) px
  else false.

Definition Contains (zone : Zone) (position : Position) : bool :=
  if Z.of_nat (length (Vertices zone)) <? 3 then false
  else if existsb (λ e, pointOnSegment position e.1 e.2) (edges (Vertices zone)) then true
  else foldl (λ inside e, if ray_crosses position e then negb inside else inside)
         false (edges (Vertices zone)).

Definition ZonesContaining (position : Position) (zones : list Zone) : list Zone :=
  filter (λ zone, Contains zone position = true) zones.

(** ** Auxiliary lemmas *)

(** What [NewPosition] accepts, as a predicate on machine values. *)
Definition in_range (bound : Z) (x : f64) : bool := negb (out_of_range bound x).

(** A position built from machine floats. *)
Definition machine_position (p : Position) : Prop :=
  valid (Latitude p) = true ∧ valid (Longitude p) = true.

Lemma NewPosition_Ok lat lon p :
  NewPosition lat lon = Ok p ↔
  in_range 90 lat = true ∧ in_range 180 lon = true ∧ p = mkPosition lat lon.
Proof.
  unfold NewPosition, in_range. destruct (out_of_range 90 lat), (out_of_range 180 lon);
    simpl; naive_solver.
Qed.

Lemma in_range_finite b x : in_range b x = true → is_finite x = true.
Proof. unfold in_range, out_of_range. by destruct x. Qed.

Lemma in_range_180 x : in_range 180 x = true → within (f_of_Z 180) x = true.
Proof.
  unfold in_range, out_of_range. bprop. intros [[[H1 H2] H3] H4]. apply within_intro; try done.
Qed.

Lemma in_range_90 x : in_range 90 x = true → within (f_of_Z 180) x = true.
Proof.
  intros H. assert (H90 : within (f_of_Z 90) x = true).
  { revert H. unfold in_range, out_of_range. bprop. intros [[[H1 H2] H3] H4].
    by apply within_intro. }
  unfold within in *. bprop. destruct H90 as [H1 H2]. split.
  - eapply fle_trans; [|exact H1]. by vm_compute.
  - eapply fle_trans; [exact H2|]. by vm_compute.
Qed.

Lemma fsub_180_finite x y :
  valid x = true → valid y = true → within (f_of_Z 180) x = true →
  within (f_of_Z 180) y = true → is_finite (fsub x y) = true.
Proof.
  intros Vx Vy. replace (f_of_Z 180) with (S754_finite false 6333186975989760 (-45))
    by (by vm_compute).
  by apply fsub_finite.
Qed.

Lemma math_hypot_abs p q : math_hypot (fabs p) (fabs q) = math_hypot p q.
Proof. unfold math_hypot. by rewrite !fabs_idemp. Qed.

(** Both end points of an edge of a polygon are vertices of it. *)
Lemma edges_vertices vs e : e ∈ edges vs → e.1 ∈ vs ∧ e.2 ∈ vs.
Proof.
  destruct vs as [|v rest]; unfold edges; [by intros ?%not_elem_of_nil|].
  destruct e as [a b]. intros H. split.
  - by apply elem_of_zip_l in H.
  - apply elem_of_zip_r in H. set_solver.
Qed.

(** Every vertex starts an edge. *)
Lemma vertex_edge vs v : v ∈ vs → ∃ w, (v, w) ∈ edges vs.
Proof.
  destruct vs as [|u rest]; unfold edges; [by intros ?%not_elem_of_nil|].
  intros [i Hi]%list_elem_of_lookup.
  assert (is_Some ((rest ++ [u]) !! i)) as [w Hw].
  { apply lookup_lt_is_Some. rewrite length_app. apply lookup_lt_Some in Hi. simpl in *. lia. }
  exists w. apply list_elem_of_lookup. exists i. by rewrite lookup_zip_with, Hi, Hw.
Qed.

Lemma vertices_in_range vs v :
  check_all check_edge (edges vs) = Ok tt → v ∈ vs →
  in_range 90 (Latitude v) = true ∧ in_range 180 (Longitude v) = true.
Proof.
  rewrite check_all_Ok, Forall_forall. intros H (w & Hw)%vertex_edge.
  apply H in Hw. unfold check_edge in Hw. inv_ok Hw.
  match goal with H : NewPosition _ _ = Ok _ |- _ => apply NewPosition_Ok in H as (?&?&_) end.
  done.
Qed.

(** The start of an in-range edge lies on the edge. *)
Lemma pointOnSegment_start a b :
  machine_position a → machine_position b →
  within (f_of_Z 180) (Latitude a) = true → within (f_of_Z 180) (Longitude a) = true →
  within (f_of_Z 180) (Latitude b) = true → within (f_of_Z 180) (Longitude b) = true →
  is_finite (Latitude a) = true → is_finite (Longitude a) = true →
  is_finite (Latitude b) = true → is_finite (Longitude b) = true →
  pointOnSegment a a b = true.
Proof.
  intros [Va1 Va2] [Vb1 Vb2] Wa1 Wa2 Wb1 Wb2 Fa1 Fa2 Fb1 Fb2. unfold pointOnSegment.
  rewrite !fsub_diag by done.
  assert (Hx : is_finite (fsub (Longitude b) (Longitude a)) = true) by (by apply fsub_180_finite).
  assert (Hy : is_finite (fsub (Latitude b) (Latitude a)) = true) by (by apply fsub_180_finite).
  assert (Hx' : is_finite (fsub (Longitude a) (Longitude b)) = true) by (by apply fsub_180_finite).
  assert (Hy' : is_finite (fsub (Latitude a) (Latitude b)) = true) by (by apply fsub_180_finite).
  set (dx := fsub (Longitude b) (Longitude a)) in *.
  set (dy := fsub (Latitude b) (Latitude a)) in *.
  rewrite fgt_zero_signed.
  - rewrite signed_false_fge, signed_true_fle. apply andb_true_iff. split.
    + apply is_zero_signed, fadd_zero; by apply fmul_zero_l.
    + apply fadd_signed; by apply fmul_opposite.
  - assert (Hz : is_zero (fsub (fmul dx fzero) (fmul dy fzero)) = true)
      by (apply fsub_zero; by apply fmul_zero_r).
    by destruct (fsub (fmul dx fzero) (fmul dy fzero)).
  - replace boundaryCrossTolerance with (S754_finite false 4951760157141521 (-92))
      by (by vm_compute).
    apply fmul_const_signed, math_max_signed; [|done].
    apply fadd_signed; by apply fmul_square.
Qed.

Lemma ray_parity position es b :
  foldl (λ inside e, if ray_crosses position e then negb inside else inside) b es =
  xorb b (Nat.odd (length (filter (λ e, ray_crosses position e = true) es))).
Proof.
  revert b. induction es as [|e es IH]; intros b; simpl; [by destruct b|].
  rewrite IH, filter_cons. destruct (ray_crosses position e); simpl.
  - rewrite Nat.odd_succ, <- Nat.negb_odd. by destruct b, (Nat.odd _).
  - done.
Qed.

(** ** Properties *)

(** The validated-zone predicate [NewZone] decides. *)
Record zone_wf (z : Zone) : Prop := {
  wf_id : zoneIDPattern (ZoneID z) = true;
  wf_kind : zone_kind z = ZoneKindEEZ ∨ zone_kind z = ZoneKindRestricted;
  wf_size : 3 <= Z.of_nat (length (Vertices z)) <= MaxZoneVertices;
  wf_range : ∀ v, v ∈ Vertices z →
    in_range 90 (Latitude v) = true ∧ in_range 180 (Longitude v) = true;
  wf_distinct : ∀ e, e ∈ edges (Vertices z) → position_eqb e.1 e.2 = false
}.

Lemma NewZone_Ok id kind vs z :
  NewZone id kind vs = Ok z ↔ z = mkZone id kind vs ∧ zone_wf z.
Proof.
  unfold NewZone. split.
  - intros H. inv_ok H. bprop.
    match goal with H : check_all _ _ = Ok _ |- _ => rename H into Hc end.
    split; [done|]. split; simpl; try done; try lia.
    + by destruct kind; auto.
    + intros v Hv. by eapply vertices_in_range.
    + intros e He. rewrite check_all_Ok, Forall_forall in Hc. specialize (Hc e He).
      unfold check_edge in Hc. by inv_ok Hc.
  - intros [-> [H1 H2 H3 H4 H5]]. simpl in *. rewrite H1. simpl.
    replace (match kind with ZoneKindOther _ => true | _ => false end) with false
      by (by destruct H2 as [-> | ->]). simpl.
    destruct (Z.ltb_spec (Z.of_nat (length vs)) 3); [lia|].
    destruct (Z.ltb_spec MaxZoneVertices (Z.of_nat (length vs))); [lia|]. simpl.
    replace (check_all check_edge (edges vs)) with (@Ok unit tt); [done|].
    symmetry. apply check_all_Ok, Forall_forall. intros e He. unfold check_edge.
    destruct (H4 e.1 (proj1 (edges_vertices _ _ He))) as [Hlat Hlon].
    assert (Hp : NewPosition (Latitude e.1) (Longitude e.1) = Ok e.1).
    { apply NewPosition_Ok. by destruct e as [[] ?]. }
    rewrite Hp. simpl. by rewrite (H5 e He).
Qed.

(** [NewZone] accepts exactly the well-formed polygons: a canonical
    identifier, a known kind, 3 to 10000 vertices, every coordinate finite and
    in range, no repeated consecutive vertex (cyclically); and it returns the
    polygon unchanged. *)
Theorem NewZone_accepts_iff id kind vs z :
  NewZone id kind vs = Ok z ↔ z = mkZone id kind vs ∧ zone_wf z.
Proof. apply NewZone_Ok. Qed.

(** The containment test is boundary-inclusive at the corners: every vertex
    of a zone that [NewZone] accepted lies inside the zone, for all binary64
    coordinates. *)
Theorem Contains_vertex id kind vs z v :
  Forall machine_position vs → NewZone id kind vs = Ok z → v ∈ Vertices z →
  Contains z v = true.
Proof.
  intros Hm [-> Hwf]%NewZone_Ok Hv. destruct Hwf as [_ _ Hs Hr _]. simpl in *.
  unfold Contains. simpl. destruct (Z.ltb_spec (Z.of_nat (length vs)) 3); [lia|].
  destruct (vertex_edge vs v Hv) as [w Hw].
  assert (Hw2 : w ∈ vs) by (by apply edges_vertices in Hw as [_ ?]).
  replace (existsb _ _) with true; [done|]. symmetry. apply existsb_exists.
  exists (v, w). split; [by apply list_elem_of_In|]. simpl.
  rewrite Forall_forall in Hm.
  destruct (Hr v Hv) as [Rv1 Rv2], (Hr w Hw2) as [Rw1 Rw2].
  apply pointOnSegment_start; eauto using in_range_180, in_range_90, in_range_finite.
Qed.

Definition sample_square : list Position :=
  [mkPosition (f_of_Z 4) (f_of_Z 3); mkPosition (f_of_Z 4) (f_of_Z 5); mkPosition (f_of_Z 6) (f_of_Z 5);
   mkPosition (f_of_Z 6) (f_of_Z 3)].

Lemma Contains_vertex_witness :
  Contains (mkZone "zone-1" ZoneKindEEZ sample_square) (mkPosition (f_of_Z 6) (f_of_Z 5)) = true.
Proof.
  apply (Contains_vertex "zone-1" ZoneKindEEZ sample_square).
  - repeat (apply Forall_cons_2; [split; vm_compute; reflexivity|]). apply Forall_nil_2.
  - vm_compute. reflexivity.
  - right. right. left.
Defined.

(** [Contains] is the even-odd rule with the boundary included: a position
    is inside exactly when the polygon has at least three vertices and the
    position lies on an edge or the eastward ray crosses an odd number of
    edges. *)
Theorem Contains_even_odd z p :
  Contains z p =
  (3 <=? Z.of_nat (length (Vertices z))) &&
  (existsb (λ e, pointOnSegment p e.1 e.2) (edges (Vertices z)) ||
   Nat.odd (length (filter (λ e, ray_crosses p e = true) (edges (Vertices z))))).
Proof.
  unfold Contains. rewrite ray_parity, xorb_false_l.
  destruct (Z.ltb_spec (Z.of_nat (length (Vertices z))) 3),
    (Z.leb_spec 3 (Z.of_nat (length (Vertices z)))); try lia.
  by destruct (existsb _ _).
Qed.

(** The distance does not depend on the order of the two positions, bit for
    bit: the pair rules may be evaluated from either track. *)
Lemma DistanceMeters_sym a b : DistanceMeters a b = DistanceMeters b a.
Proof.
  unfold DistanceMeters. rewrite (fadd_comm (Latitude b)).
  set (c := if flt _ _ then _ else _).
  rewrite <- math_hypot_abs, !fabs_fmul, (fabs_fsub_comm (Latitude b)), (fabs_fsub_comm (Longitude b)).
  by rewrite <- !fabs_fmul, math_hypot_abs.
Qed.
