(* ===== verification/Classification.v ===== *)
(** * Classification labels and principals
    ([internal/isr/classification.go], [internal/isr/access.go])

    The clearance lattice: labels, their rank, the covering relation and the
    maximum, then the role- and clearance-based decisions on a principal. *)

From S2P Require Import Prelude GoStrings.

(** ** Labels

    A label is a Go string type; the four approved values are constants. *)

Definition Classification : Type := string.

Definition ClassificationUnclassified : Classification := "UNCLASSIFIED".
Definition ClassificationRestricted : Classification := "RESTRICTED".
Definition ClassificationConfidential : Classification := "CONFIDENTIAL".
Definition ClassificationSecret : Classification := "SECRET".

Definition all_labels : list Classification :=
  [ClassificationUnclassified; ClassificationRestricted; ClassificationConfidential;
   ClassificationSecret].

Definition ErrInvalidClassification : error := ESentinel "isr.ErrInvalidClassification".

Definition ParseClassification (raw : string) : result Classification :=
  if (raw =s ClassificationUnclassified) || (raw =s ClassificationRestricted) ||
     (raw =s ClassificationConfidential) || (raw =s ClassificationSecret)
  then Ok raw
  else Err ErrInvalidClassification.

Definition Rank (label : Classification) : Z :=
  if label =s ClassificationUnclassified then 0
  else if label =s ClassificationRestricted then 1
  else if label =s ClassificationConfidential then 2
  else 3.

Definition Covers (label event : Classification) : bool :=
  match ParseClassification label with
  | Err _ => false
  | Ok _ =>
      match ParseClassification event with
      | Err _ => false
      | Ok _ => Rank event <=? Rank label
      end
  end.

Definition MaxClassification (a b : Classification) : Classification :=
  if Rank b <=? Rank a then a else b.

Definition CanonicalClassificationList : string :=
  String.concat ", " all_labels.

(** ** Roles *)

Definition RoleNIMASAOfficer : string := "nimasa-officer".
Definition RoleDefenceHQObserver : string := "defence-hq-observer".
Definition RoleNNOfficer : string := "nn-officer".
Definition RoleONSAObserver : string := "onsa-observer".
Definition RoleMarinePolice : string := "marine-police".
Definition RoleFleetOperator : string := "fleet-operator".
Definition RoleInsurerAggregator : string := "insurer-aggregator".
Definition RoleAuditor : string := "auditor".
Definition RoleFeedSourceAdmin : string := "feed-source-admin".

Definition readOnlyRoles : gset string :=
  {[RoleDefenceHQObserver; RoleONSAObserver; RoleInsurerAggregator; RoleAuditor]}.

Definition trackReaderRoles : gset string :=
  {[RoleNIMASAOfficer; RoleDefenceHQObserver; RoleNNOfficer; RoleONSAObserver;
    RoleMarinePolice; RoleFleetOperator; RoleAuditor]}.

Definition outcomeAggregateReaderRoles : gset string :=
  {[RoleNIMASAOfficer; RoleDefenceHQObserver; RoleNNOfficer; RoleONSAObserver;
    RoleMarinePolice; RoleFleetOperator; RoleInsurerAggregator; RoleAuditor]}.

(** ** Principals *)

Record Principal : Type := mkPrincipal {
  Subject : string;
  Roles : gset string;
  Clearance : Classification
}.

Definition ErrForbidden : error := ESentinel "isr.ErrForbidden".

Definition HasRole (principal : Principal) (role : string) : bool :=
  bool_decide (role ∈ Roles principal).

(** A range over the role map that stops at the first role of [allowed]. *)
Definition any_role (principal : Principal) (allowed : gset string) : bool :=
  existsb (λ role, bool_decide (role ∈ allowed)) (elements (Roles principal)).

Definition IsReadOnly (principal : Principal) : bool :=
  if Z.of_nat (size (Roles principal)) =? 0 then true
  else forallb (λ role, bool_decide (role ∈ readOnlyRoles)) (elements (Roles principal)).

Definition CanReadTracks (principal : Principal) (eventClassification : Classification)
    : result unit :=
  _ ← fail_if (negb (any_role principal trackReaderRoles)) ErrForbidden;
  _ ← fail_if (HasRole principal RoleInsurerAggregator &&
               (Z.of_nat (size (Roles principal)) =? 1)) ErrForbidden;
  fail_if (negb (Covers (Clearance principal) eventClassification)) ErrForbidden.

Definition CanReadOutcomeAggregates (principal : Principal) : result unit :=
  fail_if (negb (any_role principal outcomeAggregateReaderRoles)) ErrForbidden.

Definition CanAdministerFeedSources (principal : Principal) : result unit :=
  fail_if (negb (HasRole principal RoleFeedSourceAdmin)) ErrForbidden.

Definition clearanceCeiling (principal : Principal) : result Classification :=
  match ParseClassification (Clearance principal) with
  | Err _ => Err ErrForbidden
  | Ok _ => Ok (Clearance principal)
  end.

Definition coveredLabels (ceiling : Classification) : list string :=
  filter (λ label, Covers ceiling label = true) all_labels.

(** ** Lemmas *)

Definition valid_label (c : Classification) : Prop := c ∈ all_labels.

#[export] Instance valid_label_dec c : Decision (valid_label c).
Proof. unfold valid_label. apply _. Defined.

(** Case analysis on an approved label. *)
Lemma valid_label_cases c :
  valid_label c →
  c = ClassificationUnclassified ∨ c = ClassificationRestricted ∨
  c = ClassificationConfidential ∨ c = ClassificationSecret.
Proof.
  unfold valid_label, all_labels. rewrite !list_elem_of_In. simpl. intuition.
Qed.

Ltac label_cases H :=
  apply valid_label_cases in H; destruct H as [-> | [-> | [-> | ->]]].

Lemma ParseClassification_Ok raw c : ParseClassification raw = Ok c ↔ valid_label raw ∧ c = raw.
Proof.
  unfold ParseClassification. split.
  - case_match; [|done]. intros [= <-]. bprop. split; [|done].
    unfold valid_label, all_labels. rewrite !list_elem_of_In. simpl. intuition.
  - intros [H ->]. label_cases H; done.
Qed.

Lemma ParseClassification_Err raw e :
  ParseClassification raw = Err e ↔ ¬ valid_label raw ∧ e = ErrInvalidClassification.
Proof.
  destruct (ParseClassification raw) as [c|e'] eqn:E.
  - apply ParseClassification_Ok in E as [? ->]. naive_solver.
  - split.
    + intros [= <-]. split.
      * intros H. assert (ParseClassification raw = Ok raw)
          by (apply ParseClassification_Ok; auto). congruence.
      * revert E. unfold ParseClassification. case_match; intros [=]; congruence.
    + intros [_ ->]. revert E. unfold ParseClassification. case_match; intros [=]; congruence.
Qed.

Lemma Covers_iff label event :
  Covers label event = true ↔
  valid_label label ∧ valid_label event ∧ Rank event <= Rank label.
Proof.
  unfold Covers.
  destruct (ParseClassification label) as [l|] eqn:E1.
  - apply ParseClassification_Ok in E1 as [? ->].
    destruct (ParseClassification event) as [v|] eqn:E2.
    + apply ParseClassification_Ok in E2 as [? ->]. rewrite Z.leb_le. naive_solver.
    + apply ParseClassification_Err in E2 as [? _]. naive_solver.
  - apply ParseClassification_Err in E1 as [? _]. naive_solver.
Qed.

Lemma Rank_range c : 0 <= Rank c <= 3.
Proof. unfold Rank. repeat case_match; lia. Qed.

(** On approved labels the rank is injective. *)
Lemma Rank_inj a b : valid_label a → valid_label b → Rank a = Rank b → a = b.
Proof. intros Ha Hb. label_cases Ha; label_cases Hb; done. Qed.

Lemma MaxClassification_rank a b : Rank (MaxClassification a b) = Z.max (Rank a) (Rank b).
Proof. unfold MaxClassification. case_match; lia. Qed.

Lemma MaxClassification_valid a b :
  valid_label a → valid_label b → valid_label (MaxClassification a b).
Proof. unfold MaxClassification. by case_match. Qed.

Lemma MaxClassification_cases a b : MaxClassification a b = a ∨ MaxClassification a b = b.
Proof. unfold MaxClassification. case_match; auto. Qed.

#[export] Hint Resolve MaxClassification_valid : maritime_auto.

Lemma any_role_iff p allowed : any_role p allowed = true ↔ ∃ r, r ∈ Roles p ∧ r ∈ allowed.
Proof.
  unfold any_role. rewrite existsb_exists. setoid_rewrite <- list_elem_of_In.
  setoid_rewrite elem_of_elements. setoid_rewrite bool_decide_eq_true. done.
Qed.

(** ** Properties *)

(** Parsing accepts exactly the four approved labels, verbatim; every other
    text (blank, mixed case, padded) is [ErrInvalidClassification]. *)
Lemma ParseClassification_spec raw :
  ParseClassification raw =
  if decide (valid_label raw) then Ok raw else Err ErrInvalidClassification.
Proof.
  case_decide as H.
  - apply ParseClassification_Ok; auto.
  - apply ParseClassification_Err; auto.
Qed.

(** The maximum is the join of the clearance order: a clearance covers the
    maximum of two approved labels exactly when it covers both, so a track
    labelled with the maximum over its detections is readable only by those
    who may read every one of them. *)
Lemma MaxClassification_join a b c :
  valid_label a → valid_label b →
  Covers c (MaxClassification a b) = Covers c a && Covers c b.
Proof.
  intros Ha Hb. apply eq_true_iff_eq. rewrite andb_true_iff, !Covers_iff, MaxClassification_rank.
  pose proof (MaxClassification_valid a b Ha Hb). split.
  - intros (?&?&?). repeat split; try done; lia.
  - intros [(?&?&?) (?&?&?)]. repeat split; try done; lia.
Qed.

(** The label set of the SQL filter is exactly the set of labels the
    clearance covers, for any clearance text, valid or not. *)
Lemma coveredLabels_spec ceiling label :
  label ∈ coveredLabels ceiling ↔ Covers ceiling label = true.
Proof.
  unfold coveredLabels. rewrite list_elem_of_filter. split; [by intros [? _]|].
  intros H. split; [done|]. by apply Covers_iff in H as (_&?&_).
Qed.

(** Track reads are granted exactly to a principal that holds a
    track-reader role and whose clearance covers the label; every refusal is
    [ErrForbidden]. *)
Theorem CanReadTracks_spec p c :
  CanReadTracks p c =
  if bool_decide (∃ r, r ∈ Roles p ∧ r ∈ trackReaderRoles) && Covers (Clearance p) c
  then Ok tt else Err ErrForbidden.
Proof.
  unfold CanReadTracks. destruct (any_role p trackReaderRoles) eqn:E; simpl.
  - pose proof E as (r & Hr & Ht)%any_role_iff.
    rewrite bool_decide_eq_true_2 by eauto. simpl.
    replace (HasRole p RoleInsurerAggregator && (Z.of_nat (size (Roles p)) =? 1)) with false.
    + simpl. by destruct (Covers _ _).
    + symmetry. apply andb_false_iff. unfold HasRole. case_bool_decide as Hi; [right|by left].
      apply Z.eqb_neq. intros Hs.
      assert (Hs1 : size (Roles p) = 1%nat) by lia.
      apply size_1_elem_of in Hs1 as [x Hx]. rewrite Hx in Hi, Hr.
      apply elem_of_singleton in Hi, Hr. subst r. subst x.
      revert Ht. by vm_compute.
  - rewrite bool_decide_eq_false_2; [done|]. intros H.
    apply any_role_iff in H. congruence.
Qed.
