(* ===== verification/Detection.v ===== *)
(** * Multi-modal detections ([internal/isr/events.go])

    The detection record with its five optional modality payloads and the
    fail-closed validation of each of them. *)

From S2P Require Import Prelude GoStrings GoTime Float64 Classification.

(** ** Modalities and payloads *)

Definition Modality : Type := string.
Definition ModalityAIS : Modality := "AIS".
Definition ModalitySAR : Modality := "SAR".
Definition ModalityRF : Modality := "RF".
Definition ModalityAcoustic : Modality := "ACOUSTIC".
Definition ModalityOptical : Modality := "OPTICAL".

(** [^[A-Za-z0-9][A-Za-z0-9._:-]{0,127}$] and [^[0-9]{9}$] *)
Definition identifierPattern (s : string) : bool := ident_pattern 127 s.
Definition mmsiPattern (s : string) : bool := mmsi_pattern s.

Record AISPayload : Type := mkAIS {
  ais_mmsi : string;
  ais_speed_knots : f64;
  ais_heading_deg : f64;
  ais_nav_status : string;
  ais_call_sign : string;
  ais_destination : string
}.

Record SARPayload : Type := mkSAR {
  sar_scene_ref : string;
  sar_confidence : f64;
  sar_vessel_class : string;
  sar_length_m : f64
}.

Record RFPayload : Type := mkRF {
  rf_frequency_band : string;
  rf_bearing_deg : f64;
  rf_signal_dbm : f64;
  rf_emitter_ref : string
}.

Record AcousticPayload : Type := mkAcoustic {
  ac_signature_ref : string;
  ac_confidence : f64;
  ac_bearing_deg : f64
}.

Record DetectionBox : Type := mkBox {
  box_x : f64;
  box_y : f64;
  box_width : f64;
  box_height : f64;
  box_confidence : f64
}.

Record OpticalPayload : Type := mkOptical {
  opt_image_ref : string;
  opt_boxes : list DetectionBox
}.

Record Detection : Type := mkDetection {
  EventID : string;
  SourceID : string;
  SourceEventID : string;
  det_modality : Modality;
  det_classification : Classification;
  ObservedAt : Z;
  HasPosition : bool;
  det_latitude : f64;
  det_longitude : f64;
  MMSI : string;
  AIS : option AISPayload;
  SAR : option SARPayload;
  RF : option RFPayload;
  Acoustic : option AcousticPayload;
  Optical : option OpticalPayload;
  CorrelationRefs : list string
}.

Definition approvedFrequencyBands : gset string :=
  {["HF"; "VHF"; "UHF"; "L"; "S"; "C"; "X"; "KU"; "KA"]}.

(** ** Field validation *)

Definition isFinite (value : f64) : bool := negb (is_nan value) && negb (is_inf value).

(** [!isFinite(v) || v < 0 || v > hi] *)
Definition outside_unit (value hi : f64) : bool :=
  negb (isFinite value) || flt value fzero || fgt value hi.

Definition validateUnitInterval (name : string) (value : f64) : result unit :=
  fail_if (outside_unit value fone) (EText (name +:+ " must be a finite value within [0,1]")).

Definition validateHeading (name : string) (value : f64) : result unit :=
  fail_if (outside_unit value (f_of_Z 360))
    (EText (name +:+ " must be a finite bearing within [0,360] degrees")).

Definition validateCanonicalID (name value : string) : result unit :=
  fail_if (negb (identifierPattern value)) (EText (name +:+ " must be a canonical identifier")).

Definition AISPayload_validate (payload : AISPayload) : result unit :=
  _ ← fail_if (negb (mmsiPattern (ais_mmsi payload)))
        (EText "ais.mmsi must be a 9-digit maritime mobile service identity");
  _ ← fail_if (outside_unit (ais_speed_knots payload) (f_of_Q 1022 10))
        (EText "ais.speed_knots must be a finite value within [0,102.2]");
  _ ← validateHeading "ais.heading_deg" (ais_heading_deg payload);
  fail_if ((64 <? str_len (ais_nav_status payload)) || negb (canonical_text (ais_nav_status payload)))
    (EText "ais.nav_status must be canonical text of at most 64 characters").

Definition SARPayload_validate (payload : SARPayload) : result unit :=
  _ ← validateCanonicalID "sar.scene_ref" (sar_scene_ref payload);
  _ ← validateUnitInterval "sar.confidence" (sar_confidence payload);
  fail_if (negb (feq (sar_length_m payload) fzero) &&
           outside_unit (sar_length_m payload) (f_of_Z 500))
    (EText "sar.length_m must be a finite value within [0,500]").

Definition RFPayload_validate (payload : RFPayload) : result unit :=
  _ ← fail_if (bool_decide (to_upper (rf_frequency_band payload) ∉ approvedFrequencyBands))
        (EText "rf.frequency_band is not an approved band");
  validateHeading "rf.bearing_deg" (rf_bearing_deg payload).

Definition AcousticPayload_validate (payload : AcousticPayload) : result unit :=
  _ ← validateCanonicalID "acoustic.signature_ref" (ac_signature_ref payload);
  validateUnitInterval "acoustic.confidence" (ac_confidence payload).

(** The five fields are checked in a random map order in the code; the order
    only decides which field the error names. *)
Definition validate_box (index : nat) (box : DetectionBox) : result unit :=
  let field name := "optical.detection_boxes[" +:+ dec (Z.of_nat index) +:+ "]." +:+ name in
  _ ← validateUnitInterval (field "x") (box_x box);
  _ ← validateUnitInterval (field "y") (box_y box);
  _ ← validateUnitInterval (field "width") (box_width box);
  _ ← validateUnitInterval (field "height") (box_height box);
  _ ← validateUnitInterval (field "confidence") (box_confidence box);
  let limit := f_of_Q 1000000001 1000000000 in
  fail_if (fgt (fadd (box_x box) (box_width box)) limit ||
           fgt (fadd (box_y box) (box_height box)) limit)
    (EText ("optical.detection_boxes[" +:+ dec (Z.of_nat index) +:+ "] exceeds the image bounds")).

Definition OpticalPayload_validate (payload : OpticalPayload) : result unit :=
  _ ← validateCanonicalID "optical.image_ref" (opt_image_ref payload);
  _ ← fail_if ((Z.of_nat (length (opt_boxes payload)) =? 0) || (64 <? Z.of_nat (length (opt_boxes payload))))
        (EText "optical.detection_boxes must contain between 1 and 64 boxes");
  check_all (λ ib : nat * DetectionBox, validate_box ib.1 ib.2) (imap pair (opt_boxes payload)).

(** ** Detection validation *)

(** The switch on the modality: is the payload of that modality present, and
    what does its validation say?  [None] is an unknown modality. *)
Definition modality_payload (detection : Detection) : option (option (result unit)) :=
  let m := det_modality detection in
  if m =s ModalityAIS then Some (AISPayload_validate <$> AIS detection)
  else if m =s ModalitySAR then Some (SARPayload_validate <$> SAR detection)
  else if m =s ModalityRF then Some (RFPayload_validate <$> RF detection)
  else if m =s ModalityAcoustic then Some (AcousticPayload_validate <$> Acoustic detection)
  else if m =s ModalityOptical then Some (OpticalPayload_validate <$> Optical detection)
  else None.

(** The name/presence table of the exclusivity loop. *)
Definition payload_table (detection : Detection) : list (string * bool) :=
  [("ais", bool_decide (is_Some (AIS detection)));
   ("sar", bool_decide (is_Some (SAR detection)));
   ("rf", bool_decide (is_Some (RF detection)));
   ("acoustic", bool_decide (is_Some (Acoustic detection)));
   ("optical", bool_decide (is_Some (Optical detection)))].

Definition check_exclusive (detection : Detection) (other : string * bool) : result unit :=
  fail_if (other.2 && negb (to_lower_ascii other.1 =s to_lower_ascii (det_modality detection)))
    (EText (other.1 +:+ " payload must not accompany modality " +:+ det_modality detection)).

(** [Validate] has a value receiver: the assignment of the AIS identity to the
    top-level [MMSI] inside the switch changes the callee's copy only, so the
    function has no effect besides its verdict. *)
Definition Validate (detection : Detection) : result unit :=
  _ ← validateCanonicalID "event_id" (EventID detection);
  _ ← validateCanonicalID "source_id" (SourceID detection);
  _ ← validateCanonicalID "source_event_id" (SourceEventID detection);
  _ ← ParseClassification (det_classification detection);
  _ ← fail_if (time_is_zero (ObservedAt detection)) (EText "observed_at must be RFC3339");
  _ ← fail_if (HasPosition detection &&
        (negb (isFinite (det_latitude detection)) || flt (det_latitude detection) (f_of_Z (-90)) ||
         fgt (det_latitude detection) (f_of_Z 90) ||
         negb (isFinite (det_longitude detection)) || flt (det_longitude detection) (f_of_Z (-180)) ||
         fgt (det_longitude detection) (f_of_Z 180)))
        (EText "latitude/longitude must be finite WGS-84 coordinates");
  _ ← fail_if (negb (MMSI detection =s "") && negb (mmsiPattern (MMSI detection)))
        (EText "mmsi must be a 9-digit identifier when present");
  _ ← match modality_payload detection with
      | None => Err (EText "modality must be one of AIS, SAR, RF, ACOUSTIC, OPTICAL")
      | Some None => Err (EText (det_modality detection +:+ " modality payload is required"))
      | Some (Some verdict) => verdict
      end;
  _ ← check_all (check_exclusive detection) (payload_table detection);
  _ ← check_all (validateCanonicalID "correlation_refs") (CorrelationRefs detection);
  fail_if (32 <? Z.of_nat (length (CorrelationRefs detection)))
    (EText "correlation_refs must contain at most 32 references").

(** ** The contract [Validate] decides *)

Definition count_payloads (d : Detection) : nat :=
  length (filter (λ p : string * bool, p.2 = true) (payload_table d)).

(** The payload announced by the modality is present and passes its own
    validation. *)
Definition announced_payload_ok (d : Detection) : Prop :=
  (det_modality d = ModalityAIS ∧ ∃ p, AIS d = Some p ∧ AISPayload_validate p = Ok tt) ∨
  (det_modality d = ModalitySAR ∧ ∃ p, SAR d = Some p ∧ SARPayload_validate p = Ok tt) ∨
  (det_modality d = ModalityRF ∧ ∃ p, RF d = Some p ∧ RFPayload_validate p = Ok tt) ∨
  (det_modality d = ModalityAcoustic ∧ ∃ p, Acoustic d = Some p ∧ AcousticPayload_validate p = Ok tt) ∨
  (det_modality d = ModalityOptical ∧ ∃ p, Optical d = Some p ∧ OpticalPayload_validate p = Ok tt).

Definition wgs84 (d : Detection) : Prop :=
  is_finite (det_latitude d) = true ∧ is_finite (det_longitude d) = true ∧
  within (f_of_Z 90) (det_latitude d) = true ∧ within (f_of_Z 180) (det_longitude d) = true.

Record detection_wf (d : Detection) : Prop := {
  dwf_event_id : identifierPattern (EventID d) = true;
  dwf_source_id : identifierPattern (SourceID d) = true;
  dwf_source_event_id : identifierPattern (SourceEventID d) = true;
  dwf_label : valid_label (det_classification d);
  dwf_observed : ObservedAt d ≠ 0;
  dwf_position : HasPosition d = true → wgs84 d;
  dwf_mmsi : MMSI d = "" ∨ mmsiPattern (MMSI d) = true;
  dwf_payload : announced_payload_ok d;
  dwf_exclusive : count_payloads d = 1%nat;
  dwf_refs : Forall (λ r, identifierPattern r = true) (CorrelationRefs d);
  dwf_refs_len : Z.of_nat (length (CorrelationRefs d)) <= 32
}.

(** ** Lemmas *)

Lemma validateCanonicalID_Ok name v u :
  validateCanonicalID name v = Ok u ↔ identifierPattern v = true.
Proof. unfold validateCanonicalID. rewrite fail_if_Ok, negb_false_iff. done. Qed.

Lemma isFinite_is_finite x : isFinite x = is_finite x.
Proof. by destruct x. Qed.

(** The coordinate guard, as a pair of closed intervals. *)
Lemma range_guard b x :
  negb (isFinite x) || flt x (f_of_Z (- b)) || fgt x (f_of_Z b) = false →
  fneg (f_of_Z b) = f_of_Z (- b) → is_nan (f_of_Z b) = false →
  is_finite x = true ∧ within (f_of_Z b) x = true.
Proof.
  rewrite isFinite_is_finite. bprop. intros [[H1 H2] H3] Hn Hb. split; [done|].
  apply within_intro; [by destruct x|done|by rewrite Hn|done].
Qed.

Lemma fle_flt_false x y : fle y x = true → flt x y = false.
Proof. intros H. destruct (flt x y) eqn:E; [|done]. apply fgt_fle in E. congruence. Qed.

Lemma position_guard d :
  negb (isFinite (det_latitude d)) || flt (det_latitude d) (f_of_Z (-90)) ||
    fgt (det_latitude d) (f_of_Z 90) ||
    negb (isFinite (det_longitude d)) || flt (det_longitude d) (f_of_Z (-180)) ||
    fgt (det_longitude d) (f_of_Z 180) = false ↔ wgs84 d.
Proof.
  unfold wgs84. split.
  - rewrite !orb_false_iff. intros [[[[[H1 H2] H3] H4] H5] H6].
    destruct (range_guard 90 (det_latitude d)); [change (- (90)) with (-90); by rewrite H1, H2, H3|done..|].
    destruct (range_guard 180 (det_longitude d)); [change (- (180)) with (-180); by rewrite H4, H5, H6|done..|]. done.
  - intros (H1&H2&H3&H4). rewrite !isFinite_is_finite, H1, H2. simpl.
    unfold within in *. bprop. destruct H3, H4.
    split_and!; try done; unfold fgt; by apply fle_flt_false.
Qed.

Lemma announced_payload_spec d :
  (∃ u, match modality_payload d with
        | None => Err (EText "modality must be one of AIS, SAR, RF, ACOUSTIC, OPTICAL")
        | Some None => Err (EText (det_modality d +:+ " modality payload is required"))
        | Some (Some verdict) => verdict
        end = Ok u) ↔ announced_payload_ok d.
Proof.
  unfold modality_payload, announced_payload_ok. split.
  - intros [[] H]. repeat case_match; simplify_eq; bprop;
      repeat match goal with
      | E : _ <$> _ = Some _ |- _ => apply fmap_Some in E as (?&?&?); subst
      end; naive_solver.
  - intros H. exists tt. destruct H as [[-> (p&->&E)]|[[-> (p&->&E)]|[[-> (p&->&E)]|
      [[-> (p&->&E)]|[-> (p&->&E)]]]]]; exact E.
Qed.

Lemma exclusive_count d :
  announced_payload_ok d →
  check_all (check_exclusive d) (payload_table d) = Ok tt ↔ count_payloads d = 1%nat.
Proof.
  unfold announced_payload_ok, count_payloads, check_exclusive, payload_table.
  intros [[-> (p&->&_)]|[[-> (p&->&_)]|[[-> (p&->&_)]|[[-> (p&->&_)]|[-> (p&->&_)]]]]];
    (destruct (AIS d) as [?|]) || idtac; (destruct (SAR d) as [?|]) || idtac;
    (destruct (RF d) as [?|]) || idtac; (destruct (Acoustic d) as [?|]) || idtac;
    (destruct (Optical d) as [?|]) || idtac; vm_compute; split; congruence.
Qed.

Lemma detection_contract d : Validate d = Ok tt ↔ detection_wf d.
Proof.
  unfold Validate. split.
  - intros H. inv_ok H. rewrite ?validateCanonicalID_Ok in *.
    match goal with E : HasPosition d && _ = false |- _ =>
      assert (HasPosition d = true → wgs84 d)
        by (intros Hpos; rewrite Hpos in E; by apply position_guard); clear E end.
    bprop.
    match goal with E : ParseClassification _ = Ok _ |- _ =>
      apply ParseClassification_Ok in E as [? _] end.
    match goal with E : match modality_payload d with _ => _ end = Ok ?u |- _ =>
      assert (Hp : announced_payload_ok d) by (apply announced_payload_spec; eauto) end.
    split; try done.
    + unfold time_is_zero in *. by bprop.
    + by apply exclusive_count.
    + match goal with E : check_all (validateCanonicalID _) _ = _ |- _ =>
        rewrite check_all_Ok in E; eapply Forall_impl; [exact E|] end.
      intros r. apply validateCanonicalID_Ok.
  - intros [H1 H2 H3 H4 H5 H6 H7 H8 H9 H10 H11].
    apply announced_payload_spec in H8 as H8'. destruct H8' as [u Hu].
    rewrite !(proj2 (validateCanonicalID_Ok _ _ tt)) by done. simpl.
    apply bind_Ok; eexists; split; [by apply ParseClassification_Ok|].
    apply bind_Ok; exists tt; split.
    { apply fail_if_Ok. unfold time_is_zero. by bprop. }
    apply bind_Ok; exists tt; split.
    { apply fail_if_Ok. destruct (HasPosition d); [|done]. apply position_guard. by apply H6. }
    apply bind_Ok; exists tt; split.
    { apply fail_if_Ok. bprop. destruct H7; auto. }
    apply bind_Ok; eexists; split; [exact Hu|].
    apply bind_Ok; eexists; split; [by apply exclusive_count|].
    apply bind_Ok; exists tt; split.
    { apply check_all_Ok. eapply Forall_impl; [exact H10|].
      intros r. apply validateCanonicalID_Ok. }
    apply fail_if_Ok. lia.
Qed.

(** ** Properties *)

(** [Validate] accepts exactly the detections of the multi-modal contract:
    canonical identifiers, an approved label, a non-zero observation time,
    finite in-range coordinates when a position is present, a nine-digit MMSI
    when present, the payload the modality announces and no other one, and at
    most 32 canonical correlation references. *)
Theorem Validate_iff d : Validate d = Ok tt ↔ detection_wf d.
Proof. apply detection_contract. Qed.
