(* ===== verification/Fusion.v ===== *)
(** * Vessel-track fusion and anomaly rules ([internal/tracks/fusion.go])

    The in-memory engine: association of a detection with a track, the
    bookkeeping of the ingest-time rules, the dark-vessel scan and the replay
    of persisted associations after a restart.

    The engine's [map\[string\]*Track] is a [gmap] keyed by track identity.  The
    code's [*Track] pointers are the map's own entries, so an update through a
    pointer is an update of the entry.  Go leaves the order of a [range] over a
    map open: every loop over the tracks takes the order of the keys as an
    argument.  A track pointer that does not exist (a nil dereference) makes
    [Ingest] return [None]. *)

From S2P Require Import Prelude GoStrings GoTime Float64 Geo Classification Detection.

(** ** Configuration *)

Record Config : Type := mkConfig {
  CorrelationWindow : Z;
  CorrelationRadiusMeters : f64;
  RendezvousRadiusMeters : f64;
  RendezvousMinDuration : Z;
  LoiteringMinDuration : Z;
  DarkVesselAISGap : Z;
  BaselineMaxSpeedKnots : f64
}.

Definition DefaultConfig : Config := {|
  CorrelationWindow := 10 * Minute;
  CorrelationRadiusMeters := f_of_Z 2000;
  RendezvousRadiusMeters := f_of_Z 500;
  RendezvousMinDuration := 10 * Minute;
  LoiteringMinDuration := 30 * Minute;
  DarkVesselAISGap := 30 * Minute;
  BaselineMaxSpeedKnots := f_of_Z 45
|}.

Definition positiveFinite (value : f64) : bool :=
  fgt value fzero && feq value value && flt value (f_of_Z 1000000000000000).

Definition Config_Validate (config : Config) : result unit :=
  _ ← fail_if ((CorrelationWindow config <=? 0) || (24 * Hour <? CorrelationWindow config))
        (EText "correlation window must be within (0, 24h]");
  _ ← fail_if (negb (positiveFinite (CorrelationRadiusMeters config)) ||
               fgt (CorrelationRadiusMeters config) (f_of_Z 50000))
        (EText "correlation radius must be within (0, 50000] meters");
  _ ← fail_if (negb (positiveFinite (RendezvousRadiusMeters config)) ||
               fgt (RendezvousRadiusMeters config) (f_of_Z 10000))
        (EText "rendezvous radius must be within (0, 10000] meters");
  _ ← fail_if ((RendezvousMinDuration config <=? 0) || (24 * Hour <? RendezvousMinDuration config))
        (EText "rendezvous minimum duration must be within (0, 24h]");
  _ ← fail_if ((LoiteringMinDuration config <=? 0) || (72 * Hour <? LoiteringMinDuration config))
        (EText "loitering minimum duration must be within (0, 72h]");
  _ ← fail_if ((DarkVesselAISGap config <=? 0) || (7 * 24 * Hour <? DarkVesselAISGap config))
        (EText "dark-vessel AIS gap must be within (0, 168h]");
  fail_if (negb (positiveFinite (BaselineMaxSpeedKnots config)) ||
           fgt (BaselineMaxSpeedKnots config) (f_of_Q 1022 10))
    (EText "baseline max speed must be within (0, 102.2] knots").

(** ** Tracks, anomalies and the engine *)

Inductive AnomalyKind : Type :=
| AnomalyDarkVessel
| AnomalySpeedOutlier
| AnomalyRendezvous
| AnomalyLoitering.

#[export] Instance AnomalyKind_eq_dec : EqDecision AnomalyKind.
Proof. solve_decision. Defined.

Definition kind_string (kind : AnomalyKind) : string :=
  match kind with
  | AnomalyDarkVessel => "dark-vessel"
  | AnomalySpeedOutlier => "speed-outlier"
  | AnomalyRendezvous => "rendezvous"
  | AnomalyLoitering => "loitering"
  end.

(** The [Detail] text, as the arguments of its format string; the last one is
    that of [cvconsumer.HandleDarkVessel]. *)
Inductive AnomalyDetail : Type :=
| DetailSpeed (knots baseline : f64)
| DetailLoitering (zoneID : string) (duration : Z)
| DetailRendezvous (radius : f64) (duration : Z)
| DetailDarkVessel (gap : Z) (zoneID : string)
| DetailObservation (camera track : string) (confidence : f64) (model : string).

Record TrackPoint : Type := mkPoint {
  DetectionRef : string;
  pt_modality : Modality;
  pt_observed : Z;
  pt_position : Position;
  SpeedKnots : f64;
  HeadingDeg : f64
}.

Record Track : Type := mkTrack {
  TrackID : string;
  trk_mmsi : string;
  trk_class : Classification;
  Points : list TrackPoint;
  lastAISAt : Z;
  zoneEnter : gmap string Z;
  loiterAlerted : gset string;
  nearSince : gmap string Z;
  rendezAlerted : gset string;
  darkAlerted : bool
}.

(** [track.Last()] *)
Definition Last (track : Track) : option TrackPoint := last (Points track).

Record Anomaly : Type := mkAnomaly {
  AnomalyID : string;
  an_kind : AnomalyKind;
  TrackIDs : list string;
  an_zone : string;
  an_class : Classification;
  DetectedAt : Z;
  Detail : AnomalyDetail;
  an_refs : list string
}.

Record Engine : Type := mkEngine {
  eng_config : Config;
  zones : list Zone;
  tracks : gmap string Track;
  byMMSI : gmap string string
}.

(** Field assignments through the track and engine pointers. *)
Definition with_mmsi (t : Track) (m : string) : Track :=
  mkTrack (TrackID t) m (trk_class t) (Points t) (lastAISAt t) (zoneEnter t) (loiterAlerted t)
    (nearSince t) (rendezAlerted t) (darkAlerted t).
Definition with_class (t : Track) (c : Classification) : Track :=
  mkTrack (TrackID t) (trk_mmsi t) c (Points t) (lastAISAt t) (zoneEnter t) (loiterAlerted t)
    (nearSince t) (rendezAlerted t) (darkAlerted t).
Definition with_points (t : Track) (ps : list TrackPoint) : Track :=
  mkTrack (TrackID t) (trk_mmsi t) (trk_class t) ps (lastAISAt t) (zoneEnter t) (loiterAlerted t)
    (nearSince t) (rendezAlerted t) (darkAlerted t).
Definition with_ais (t : Track) (at_ : Z) (dark : bool) : Track :=
  mkTrack (TrackID t) (trk_mmsi t) (trk_class t) (Points t) at_ (zoneEnter t) (loiterAlerted t)
    (nearSince t) (rendezAlerted t) dark.
Definition with_zones (t : Track) (ze : gmap string Z) (la : gset string) : Track :=
  mkTrack (TrackID t) (trk_mmsi t) (trk_class t) (Points t) (lastAISAt t) ze la
    (nearSince t) (rendezAlerted t) (darkAlerted t).
Definition with_near (t : Track) (ns : gmap string Z) : Track :=
  mkTrack (TrackID t) (trk_mmsi t) (trk_class t) (Points t) (lastAISAt t) (zoneEnter t)
    (loiterAlerted t) ns (rendezAlerted t) (darkAlerted t).
Definition with_rendez (t : Track) (ra : gset string) : Track :=
  mkTrack (TrackID t) (trk_mmsi t) (trk_class t) (Points t) (lastAISAt t) (zoneEnter t)
    (loiterAlerted t) (nearSince t) ra (darkAlerted t).
Definition with_dark (t : Track) (b : bool) : Track := with_ais t (lastAISAt t) b.
Definition set_tracks (e : Engine) (ts : gmap string Track) : Engine :=
  mkEngine (eng_config e) (zones e) ts (byMMSI e).
Definition bind_mmsi (e : Engine) (m id : string) : Engine :=
  mkEngine (eng_config e) (zones e) (tracks e) (<[m := id]> (byMMSI e)).
(** Write a track back through its pointer. *)
Definition store_track (e : Engine) (t : Track) : Engine :=
  set_tracks e (<[TrackID t := t]> (tracks e)).

Definition NewEngine (config : Config) (zs : list Zone) : result Engine :=
  _ ← Config_Validate config;
  _ ← check_all (λ z,
        match NewZone (ZoneID z) (zone_kind z) (Vertices z) with
        | Ok _ => Ok tt
        | Err err => Err (EWrap ("zone " +:+ ZoneID z) err)
        end) zs;
  Ok (mkEngine config zs ∅ ∅).

Definition newTrack (trackID : string) (classification : Classification) : Track :=
  mkTrack trackID "" classification [] 0 ∅ ∅ ∅ ∅ false.

(** ** Association *)

(** [gap := d.ObservedAt.Sub(last.ObservedAt); if gap < 0 { gap = -gap }] *)
Definition abs_gap (observed last : Z) : Z :=
  let gap := time_sub observed last in
  if gap <? 0 then dur_neg gap else gap.

(** One candidate of the association loop; [best] is the identity and distance
    kept so far. *)
Definition associate_step (e : Engine) (detection : Detection) (position : Position)
    (acc : option string * f64) (candidateID : string) : option string * f64 :=
  match tracks e !! candidateID with
  | None => acc
  | Some candidate =>
      if negb (MMSI detection =s "") && negb (trk_mmsi candidate =s "") &&
         negb (trk_mmsi candidate =s MMSI detection) then acc
      else match Last candidate with
      | None => acc
      | Some lastp =>
          if CorrelationWindow (eng_config e) <? abs_gap (ObservedAt detection) (pt_observed lastp)
          then acc
          else
            let distance := DistanceMeters (pt_position lastp) position in
            if fle distance acc.2 then (Some candidateID, distance) else acc
      end
  end.

(** The nearest track inside the correlation window. *)
Definition associate_scan (order : list string) (e : Engine) (detection : Detection)
    (position : Position) : option string * f64 :=
  foldl (associate_step e detection position) (None, CorrelationRadiusMeters (eng_config e)) order.

(** [newID] is the identity the injected generator returns if it is called. *)
Definition associate (order : list string) (newID : string) (e : Engine) (detection : Detection)
    (position : Position) : string * Engine :=
  let bound := if negb (MMSI detection =s "") then byMMSI e !! MMSI detection else None in
  match bound with
  | Some trackID => (trackID, e)
  | None =>
      match (associate_scan order e detection position).1 with
      | Some best => (best, e)
      | None =>
          let track := newTrack newID (det_classification detection) in
          if negb (MMSI detection =s "") then
            (newID, bind_mmsi (store_track e (with_mmsi track (MMSI detection))) (MMSI detection) newID)
          else (newID, store_track e track)
      end
  end.

(** ** Absorbing a point *)

Definition MaxPoints : nat := Z.to_nat 4096.

(** Append the point, raise the label, keep the newest 4096 points. *)
Definition push_point (track : Track) (point : TrackPoint) (label : Classification) : Track :=
  let track := with_points track (Points track ++ [point]) in
  let track := with_class track (MaxClassification (trk_class track) label) in
  if (4096 <? Z.of_nat (length (Points track)))
  then with_points track (drop (length (Points track) - MaxPoints) (Points track))
  else track.

#[global] Arguments push_point : simpl never.

Definition absorbPointLocked (e : Engine) (track : Track) (detection : Detection)
    (position : Position) : TrackPoint * Track * Engine :=
  let point := mkPoint (SourceID detection +:+ ":" +:+ SourceEventID detection)
    (det_modality detection) (ObservedAt detection) position
    (match AIS detection with Some a => ais_speed_knots a | None => fzero end)
    (match AIS detection with Some a => ais_heading_deg a | None => fzero end) in
  let '(track, e) :=
    match AIS detection with
    | Some a =>
        let dark := if negb (time_before (ObservedAt detection) (lastAISAt track)) then false
                    else darkAlerted track in
        let track := with_ais track (ObservedAt detection) dark in
        if trk_mmsi track =s "" then (with_mmsi track (ais_mmsi a), bind_mmsi e (ais_mmsi a) (TrackID track))
        else (track, e)
    | None => (track, e)
    end in
  let '(track, e) :=
    if negb (MMSI detection =s "") && (trk_mmsi track =s "")
    then (with_mmsi track (MMSI detection), bind_mmsi e (MMSI detection) (TrackID track))
    else (track, e) in
  let track := push_point track point (det_classification detection) in
  (point, track, store_track e track).

(** ** Ingest-time rules *)

(** [Duration.Seconds()]: the truncated quotient and remainder, as floats. *)
Definition Seconds (d : Z) : f64 :=
  fadd (f_of_Z (Z.quot d Second)) (fdiv (f_of_Z (Z.rem d Second)) (f_of_Z 1000000000)).

(** The latency handed to the recorder, clamped below at zero. *)
Definition latency (now observed : Z) : f64 :=
  let s := Seconds (time_sub now observed) in if flt s fzero then fzero else s.

(** An anomaly together with the latency observation recorded for it. *)
Definition Emission : Type := Anomaly * f64.

Definition anomaly_id (kind : AnomalyKind) (trackID : string) (now : Z) : string :=
  "anomaly-" +:+ kind_string kind +:+ "-" +:+ trackID +:+ "-" +:+ dec (unix_nano now).

Definition emit (now : Z) (track : Track) (point : TrackPoint) (refs : list string)
    (kind : AnomalyKind) (ids : list string) (zoneID : string) (detail : AnomalyDetail) : Emission :=
  (mkAnomaly (anomaly_id kind (TrackID track) now) kind ids zoneID (trk_class track) now detail refs,
   latency now (pt_observed point)).

(** Implied speed of the last leg, when it took a positive time. *)
Definition leg_knots (track : Track) (point : TrackPoint) : option f64 :=
  if 2 <=? Z.of_nat (length (Points track)) then
    match Points track !! (length (Points track) - 2)%nat with
    | Some previous =>
        let seconds := Seconds (time_sub (pt_observed point) (pt_observed previous)) in
        if fgt seconds fzero then
          let distanceM := DistanceMeters (pt_position previous) (pt_position point) in
          Some (fmul (fdiv distanceM seconds) (f_of_Q 194384 100000))
        else None
    | None => None
    end
  else None.

Definition speed_rule (config : Config) (now : Z) (refs : list string) (track : Track)
    (point : TrackPoint) : list Emission :=
  match leg_knots track point with
  | Some knots =>
      if fgt knots (BaselineMaxSpeedKnots config)
      then [emit now track point refs AnomalySpeedOutlier [TrackID track] ""
              (DetailSpeed knots (BaselineMaxSpeedKnots config))]
      else []
  | None => []
  end.

(** One zone of the loitering loop: the track, the set of restricted zones that
    contain the point, and the emissions so far. *)
Definition loiter_step (config : Config) (now : Z) (refs : list string) (point : TrackPoint)
    (acc : Track * gset string * list Emission) (zone : Zone) : Track * gset string * list Emission :=
  let '(track, inside, out) := acc in
  if negb (Contains zone (pt_position point)) then acc
  else if bool_decide (zone_kind zone = ZoneKindRestricted) then
    let id := ZoneID zone in
    let inside := {[id]} ∪ inside in
    let track := match zoneEnter track !! id with
                 | Some _ => track
                 | None => with_zones track (<[id := pt_observed point]> (zoneEnter track)) (loiterAlerted track)
                 end in
    if negb (bool_decide (id ∈ loiterAlerted track)) &&
       (LoiteringMinDuration config <=? time_sub (pt_observed point) (default 0 (zoneEnter track !! id)))
    then
      let track := with_zones track (zoneEnter track) ({[id]} ∪ loiterAlerted track) in
      (track, inside, out ++ [emit now track point refs AnomalyLoitering [TrackID track] id
                                (DetailLoitering id (LoiteringMinDuration config))])
    else (track, inside, out)
  else acc.

(** [for zoneID := range track.zoneEnter { if !inside[zoneID] { delete .. } }] *)
Definition leave_zones (track : Track) (inside : gset string) : Track :=
  with_zones track (filter (λ kv, kv.1 ∈ inside) (zoneEnter track)) (loiterAlerted track).

Definition loiter_rule (config : Config) (now : Z) (refs : list string) (zs : list Zone)
    (track : Track) (point : TrackPoint) : Track * list Emission :=
  let '(track, inside, out) := foldl (loiter_step config now refs point) (track, ∅, []) zs in
  (leave_zones track inside, out).

(** Proximity of the new point to another track: [None] when the pair is
    separated, otherwise the start of the proximity episode. *)
Definition proximity (config : Config) (track other : Track) (point lastp : TrackPoint) : option Z :=
  if (RendezvousMinDuration config <? time_sub (pt_observed point) (pt_observed lastp)) ||
     (RendezvousMinDuration config <? time_sub (pt_observed lastp) (pt_observed point))
  then None
  else if fgt (DistanceMeters (pt_position lastp) (pt_position point)) (RendezvousRadiusMeters config)
  then None
  else
    let seen := nearSince track !! TrackID other in
    let seen := match nearSince other !! TrackID track with
                | Some otherSince =>
                    match seen with
                    | Some since => if time_before otherSince since then Some otherSince else Some since
                    | None => Some otherSince
                    end
                | None => seen
                end in
    Some (match seen with
          | Some since => since
          | None => if time_before (pt_observed lastp) (pt_observed point)
                    then pt_observed lastp else pt_observed point
          end).

Definition separated (track other : Track) : Track * Track :=
  (with_near track (delete (TrackID other) (nearSince track)),
   with_near other (delete (TrackID track) (nearSince other))).

Definition together (track other : Track) (since : Z) : Track * Track :=
  (with_near track (<[TrackID other := since]> (nearSince track)),
   with_near other (<[TrackID track := since]> (nearSince other))).

(** One iteration of the rendezvous loop over the engine's tracks. *)
Definition rendezvous_step (now : Z) (refs : list string) (trackID : string) (point : TrackPoint)
    (acc : Engine * list Emission) (otherID : string) : Engine * list Emission :=
  let '(e, out) := acc in
  match tracks e !! trackID, tracks e !! otherID with
  | Some track, Some other =>
      if TrackID other =s TrackID track then acc
      else match Last other with
      | None => acc
      | Some lastp =>
          match proximity (eng_config e) track other point lastp with
          | None =>
              let '(track, other) := separated track other in
              (store_track (store_track e other) track, out)
          | Some since =>
              let '(track, other) := together track other since in
              if negb (bool_decide (TrackID other ∈ rendezAlerted track)) &&
                 (RendezvousMinDuration (eng_config e) <=? time_sub (pt_observed point) since)
              then
                let track := with_rendez track ({[TrackID other]} ∪ rendezAlerted track) in
                let other := with_rendez other ({[TrackID track]} ∪ rendezAlerted other) in
                let track := with_class track (MaxClassification (trk_class track) (trk_class other)) in
                (store_track (store_track e other) track,
                 out ++ [emit now track point refs AnomalyRendezvous [TrackID track; TrackID other] ""
                           (DetailRendezvous (RendezvousRadiusMeters (eng_config e))
                              (RendezvousMinDuration (eng_config e)))])
              else (store_track (store_track e other) track, out)
          end
      end
  | _, _ => acc
  end.

Definition evaluateLocked (order : list string) (now : Z) (e : Engine) (track : Track)
    (point : TrackPoint) (detection : Detection) : Engine * list Emission :=
  let refs := CorrelationRefs detection in
  let speed := speed_rule (eng_config e) now refs track point in
  let '(track', loiter) := loiter_rule (eng_config e) now refs (zones e) track point in
  foldl (rendezvous_step now refs (TrackID track) point) (store_track e track', speed ++ loiter) order.

(** ** Ingest *)

(** The two range orders an ingest meets, the identity the generator would
    return and the clock. *)
Record IngestEnv : Type := mkIngestEnv {
  associate_order : list string;
  evaluate_order : list string;
  env_newID : string;
  env_now : Z
}.

Definition Ingest (env : IngestEnv) (e : Engine) (detection : Detection)
    : option (result (string * list Emission) * Engine) :=
  match Validate detection with
  | Err err => Some (Err err, e)
  | Ok _ =>
      if negb (HasPosition detection)
      then Some (Err (EText "detections without a position cannot enter track fusion"), e)
      else match NewPosition (det_latitude detection) (det_longitude detection) with
      | Err err => Some (Err err, e)
      | Ok position =>
          let '(trackID, e) := associate (associate_order env) (env_newID env) e detection position in
          match tracks e !! trackID with
          | None => None
          | Some track =>
              let '(point, track, e) := absorbPointLocked e track detection position in
              let '(e, out) := evaluateLocked (evaluate_order env) (env_now env) e track point detection in
              Some (Ok (trackID, out), e)
          end
      end
  end.

(** ** Replay *)

Definition restore_zone_step (point : TrackPoint) (acc : Track * gset string) (zone : Zone)
    : Track * gset string :=
  let '(track, inside) := acc in
  if bool_decide (zone_kind zone = ZoneKindRestricted) && Contains zone (pt_position point) then
    let id := ZoneID zone in
    (match zoneEnter track !! id with
     | Some _ => track
     | None => with_zones track (<[id := pt_observed point]> (zoneEnter track)) (loiterAlerted track)
     end, {[id]} ∪ inside)
  else acc.

Definition restore_pair_step (trackID : string) (point : TrackPoint) (e : Engine) (otherID : string)
    : Engine :=
  match tracks e !! trackID, tracks e !! otherID with
  | Some track, Some other =>
      if TrackID other =s TrackID track then e
      else match Last other with
      | None => e
      | Some lastp =>
          let '(track, other) :=
            match proximity (eng_config e) track other point lastp with
            | None => separated track other
            | Some since => together track other since
            end in
          store_track (store_track e other) track
      end
  | _, _ => e
  end.

Definition restoreRuleStateLocked (order : list string) (e : Engine) (track : Track)
    (point : TrackPoint) : Engine :=
  let '(track', inside) := foldl (restore_zone_step point) (track, ∅) (zones e) in
  foldl (restore_pair_step (TrackID track) point) (store_track e (leave_zones track' inside)) order.

Definition Replay (order : list string) (e : Engine) (trackID : string) (detection : Detection)
    : result unit * Engine :=
  match Validate detection with
  | Err err => (Err err, e)
  | Ok _ =>
      if negb (HasPosition detection) then (Err (EText "replayed association has no position"), e)
      else if (trim_space trackID =s "") || (128 <? str_len trackID)
      then (Err (EText "replay requires the persisted track identity"), e)
      else match NewPosition (det_latitude detection) (det_longitude detection) with
      | Err err => (Err err, e)
      | Ok position =>
          let '(track, e) := match tracks e !! trackID with
                             | Some track => (track, e)
                             | None => let track := newTrack trackID (det_classification detection) in
                                       (track, store_track e track)
                             end in
          let '(point, track, e) := absorbPointLocked e track detection position in
          (Ok tt, restoreRuleStateLocked order e track point)
      end
  end.

(** ** The dark-vessel scan *)

Definition scan_step (now : Z) (acc : Engine * list Emission) (trackID : string)
    : Engine * list Emission :=
  let '(e, out) := acc in
  match tracks e !! trackID with
  | None => acc
  | Some track =>
      if darkAlerted track || (trk_mmsi track =s "") || time_is_zero (lastAISAt track) then acc
      else match Last track with
      | None => acc
      | Some lastp =>
          if time_sub now (lastAISAt track) <? DarkVesselAISGap (eng_config e) then acc
          else match ZonesContaining (pt_position lastp) (zones e) with
          | [] => acc
          | first :: _ =>
              let track := with_dark track true in
              let anomaly := mkAnomaly (anomaly_id AnomalyDarkVessel (TrackID track) now)
                AnomalyDarkVessel [TrackID track] (ZoneID first) (trk_class track) now
                (DetailDarkVessel (DarkVesselAISGap (eng_config e)) (ZoneID first)) [] in
              (store_track e track, out ++ [(anomaly, latency now (pt_observed lastp))])
          end
      end
  end.

Definition ScanDarkVessels (order : list string) (now : Z) (e : Engine) : Engine * list Emission :=
  foldl (scan_step now) (e, []) order.

(** ** Views *)

(** [engine.Track(id)]: a copy of the entry. *)
Definition Track_view (e : Engine) (trackID : string) : option Track := tracks e !! trackID.

Definition Tracks (order : list string) (e : Engine) : list Track :=
  omap (λ id, tracks e !! id) order.

Definition FusionIdentity (track : Track) : string :=
  if negb (trim_space (trk_mmsi track) =s "") then "mmsi:" +:+ trk_mmsi track else TrackID track.
