(* ===== verification/FusionInv.v ===== *)
(** * The fusion engine's invariant

    Lemmas on the engine's operations and the invariant that every operation
    of [Fusion] keeps: the map keys are the track identities, the MMSI index
    points at tracks that carry the MMSI, the pair bookkeeping is symmetric and
    refers to live tracks, every track has 1 to 4096 points, an approved label
    and exactly the zone entries its last point justifies. *)

From S2P Require Import Prelude GoStrings GoTime Float64 Geo Classification Detection Fusion.

(** ** The invariant *)

(** What holds of one track at every moment, also in the middle of an ingest. *)
Record track_ok (t : Track) : Prop := {
  tok_size : Z.of_nat (length (Points t)) <= 4096;
  tok_label : valid_label (trk_class t);
  tok_mmsi : trk_mmsi t = "" ∨ mmsiPattern (trk_mmsi t) = true
}.

(** A restricted zone of [zs] with identity [z] that contains [p]. *)
Definition in_restricted (zs : list Zone) (p : Position) (z : string) : Prop :=
  ∃ zone, zone ∈ zs ∧ zone_kind zone = ZoneKindRestricted ∧ ZoneID zone = z ∧
          Contains zone p = true.

(** The track has a point and its zone entries are those of its last point. *)
Definition settled (zs : list Zone) (t : Track) : Prop :=
  ∃ p, Last t = Some p ∧
  ∀ z, is_Some (zoneEnter t !! z) ↔ in_restricted zs (pt_position p) z.

Record engine_core (e : Engine) : Prop := {
  core_key : ∀ id t, tracks e !! id = Some t → TrackID t = id;
  core_track : ∀ id t, tracks e !! id = Some t → track_ok t;
  core_mmsi : ∀ m id, byMMSI e !! m = Some id →
    m ≠ "" ∧ ∃ t, tracks e !! id = Some t ∧ trk_mmsi t = m;
  core_near : ∀ a b ta tb, tracks e !! a = Some ta → tracks e !! b = Some tb →
    nearSince ta !! b = nearSince tb !! a;
  core_rendez : ∀ a b ta tb, tracks e !! a = Some ta → tracks e !! b = Some tb →
    (b ∈ rendezAlerted ta ↔ a ∈ rendezAlerted tb);
  core_near_live : ∀ a ta b, tracks e !! a = Some ta → is_Some (nearSince ta !! b) →
    b ≠ a ∧ is_Some (tracks e !! b);
  core_rendez_live : ∀ a ta b, tracks e !! a = Some ta → b ∈ rendezAlerted ta →
    b ≠ a ∧ is_Some (tracks e !! b)
}.

Record engine_inv (e : Engine) : Prop := {
  inv_core : engine_core e;
  inv_settled : ∀ id t, tracks e !! id = Some t → settled (zones e) t
}.

(** The moment between association and absorption: the associated track may
    still be empty. *)
Definition settled_except (e : Engine) (trackID : string) : Prop :=
  ∀ id t, tracks e !! id = Some t → id ≠ trackID → settled (zones e) t.

(** ** Float order of the association loop *)

Lemma positiveFinite_not_nan x : positiveFinite x = true → is_nan x = false.
Proof. by destruct x. Qed.

(** ** Lemmas on storing tracks *)

Lemma tracks_store e t : tracks (store_track e t) = <[TrackID t := t]> (tracks e).
Proof. done. Qed.

Lemma tracks_store_self e t : tracks (store_track e t) !! TrackID t = Some t.
Proof. by rewrite tracks_store, lookup_insert_eq. Qed.

(** A rewrite of one track that leaves the pair bookkeeping alone. *)
Lemma core_update e t t' :
  engine_core e → tracks e !! TrackID t = Some t → TrackID t' = TrackID t →
  trk_mmsi t' = trk_mmsi t → nearSince t' = nearSince t → rendezAlerted t' = rendezAlerted t →
  track_ok t' → engine_core (store_track e t').
Proof.
  intros [K T M N R NL RL] Ht Hid Hm Hn Hr Hok.
  assert (L : ∀ a ta, tracks (store_track e t') !! a = Some ta →
    ∃ ta0, tracks e !! a = Some ta0 ∧ nearSince ta = nearSince ta0 ∧
           rendezAlerted ta = rendezAlerted ta0 ∧ TrackID ta = a ∧ track_ok ta).
  { intros a ta. rewrite tracks_store, Hid. intros [[<- <-]|[Hne Ha]]%lookup_insert_Some; [by eauto 6|].
    exists ta. split_and!; eauto. }
  assert (D : ∀ b, is_Some (tracks e !! b) → is_Some (tracks (store_track e t') !! b)).
  { intros b Hb. rewrite tracks_store. destruct (decide (TrackID t' = b)) as [->|].
    - rewrite lookup_insert_eq; eauto.
    - by rewrite lookup_insert_ne. }
  split.
  - intros a ta (?&?&?&?&?&?)%L. done.
  - intros a ta (?&?&?&?&?&?)%L. done.
  - intros m id Hb. apply M in Hb as (?&t0&Ht0&<-). split; [done|].
    rewrite tracks_store, Hid. destruct (decide (TrackID t = id)) as [<-|].
    + rewrite lookup_insert_eq. simplify_eq. eauto.
    + rewrite lookup_insert_ne by done. eauto.
  - intros a b ta tb (ta0&?&->&_)%L (tb0&?&->&_)%L. eauto.
  - intros a b ta tb (ta0&?&_&->&_)%L (tb0&?&_&->&_)%L. eauto.
  - intros a ta b (ta0&?&->&_)%L Hb. edestruct NL; eauto.
  - intros a ta b (ta0&?&_&->&_)%L Hb. edestruct RL; eauto.
Qed.

(** Binding an MMSI to a live track that carries it. *)
Lemma core_bind e m id t :
  engine_core e → tracks e !! id = Some t → trk_mmsi t = m → m ≠ "" →
  engine_core (bind_mmsi e m id).
Proof.
  intros [K T M N R NL RL] Ht Hm Hne. split; try done. simpl.
  intros m' id' [[<- <-]|[? ?]]%lookup_insert_Some; eauto.
Qed.

(** Naming a nameless track: no index entry pointed at it. *)
Lemma core_name e t t' m :
  engine_core e → tracks e !! TrackID t = Some t → trk_mmsi t = "" →
  TrackID t' = TrackID t → trk_mmsi t' = m → m ≠ "" →
  nearSince t' = nearSince t → rendezAlerted t' = rendezAlerted t → track_ok t' →
  engine_core (bind_mmsi (store_track e t') m (TrackID t)).
Proof.
  intros HC Ht Hm0 Hid Hm Hne Hn Hr Hok.
  pose proof (core_update e t (with_mmsi t' (trk_mmsi t)) HC Ht Hid eq_refl Hn Hr) as HC'.
  assert (Hok' : track_ok (with_mmsi t' (trk_mmsi t))).
  { destruct Hok. split; simpl; auto. }
  specialize (HC' Hok'). destruct HC as [K T M _ _ _ _]. destruct HC' as [K' T' M' N' R' NL' RL'].
  assert (L : ∀ a ta, tracks (store_track e t') !! a = Some ta →
    ∃ ta0, tracks (store_track e (with_mmsi t' (trk_mmsi t))) !! a = Some ta0 ∧
      nearSince ta = nearSince ta0 ∧ rendezAlerted ta = rendezAlerted ta0 ∧
      TrackID ta = a ∧ track_ok ta).
  { intros a ta. rewrite !tracks_store. simpl. rewrite !Hid.
    intros [[<- <-]|[Hna Ha]]%lookup_insert_Some.
    - rewrite lookup_insert_eq. eauto 7.
    - rewrite lookup_insert_ne by done. eauto 8. }
  assert (D : ∀ b, is_Some (tracks (store_track e (with_mmsi t' (trk_mmsi t))) !! b) →
                   is_Some (tracks (store_track e t') !! b)).
  { intros b. rewrite !tracks_store. simpl. rewrite !Hid. rewrite !lookup_insert_is_Some. tauto. }
  split; simpl.
  - intros a ta (?&?&?&?&?&?)%L. done.
  - intros a ta (?&?&?&?&?&?)%L. done.
  - intros m' id [[<- <-]|[? Hb]]%lookup_insert_Some.
    + split; [done|]. rewrite Hid, lookup_insert_eq. eauto.
    + apply M in Hb as (?&t0&Ht0&<-). split; [done|]. rewrite Hid, lookup_insert_ne; [by eauto|].
      intros <-. simplify_eq.
  - intros a b ta tb (ta0&?&->&_)%L (tb0&?&->&_)%L. eauto.
  - intros a b ta tb (ta0&?&_&->&_)%L (tb0&?&_&->&_)%L. eauto.
  - intros a ta b (ta0&?&->&_)%L Hb. edestruct NL'; eauto.
  - intros a ta b (ta0&?&_&->&_)%L Hb. edestruct RL'; eauto.
Qed.

(** Adding a track under a fresh identity. *)
Lemma core_add e t :
  engine_core e → tracks e !! TrackID t = None → nearSince t = ∅ → rendezAlerted t = ∅ →
  track_ok t → engine_core (store_track e t).
Proof.
  intros [K T M N R NL RL] Hf Hn Hr Hok.
  assert (D : ∀ b, is_Some (tracks e !! b) → is_Some (tracks (store_track e t) !! b)).
  { intros b. rewrite tracks_store, lookup_insert_is_Some'. auto. }
  assert (NN : ∀ a ta, tracks e !! a = Some ta → nearSince ta !! TrackID t = None).
  { intros a ta Ha. apply eq_None_not_Some. intros [_ [? ?]]%(NL _ _ _ Ha). congruence. }
  assert (RN : ∀ a ta, tracks e !! a = Some ta → TrackID t ∉ rendezAlerted ta).
  { intros a ta Ha [_ [? ?]]%(RL _ _ _ Ha). congruence. }
  assert (C : ∀ a ta, tracks (store_track e t) !! a = Some ta →
    (a = TrackID t ∧ ta = t) ∨ tracks e !! a = Some ta).
  { intros a ta. rewrite tracks_store. intros [[<- <-]|[? ?]]%lookup_insert_Some; auto. }
  split.
  - intros a ta [[-> ->]|?]%C; eauto.
  - intros a ta [[-> ->]|?]%C; eauto.
  - intros m id (?&t0&?&?)%M. split; [done|]. exists t0. split; [|done].
    rewrite tracks_store, lookup_insert_ne; [done|]. intros <-. congruence.
  - intros a b ta tb [[-> ->]|Ha]%C [[-> ->]|Hb]%C; eauto.
    + by rewrite Hn, lookup_empty, (NN _ _ Hb).
    + by rewrite Hn, lookup_empty, (NN _ _ Ha).
  - intros a b ta tb [[-> ->]|Ha]%C [[-> ->]|Hb]%C; eauto.
    + rewrite Hr. split; [set_solver|]. by intros ?%(RN _ _ Hb).
    + rewrite Hr. split; [|set_solver]. by intros ?%(RN _ _ Ha).
  - intros a ta b [[-> ->]|Ha]%C.
    + rewrite Hn, lookup_empty. by intros [].
    + intros Hb. edestruct NL; eauto.
  - intros a ta b [[-> ->]|Ha]%C.
    + rewrite Hr. set_solver.
    + intros Hb. edestruct RL; eauto.
Qed.

(** Rewriting a pair of tracks whose mutual bookkeeping agrees. *)
Lemma core_pair e t o t' o' :
  engine_core e → tracks e !! TrackID t = Some t → tracks e !! TrackID o = Some o →
  TrackID t ≠ TrackID o → TrackID t' = TrackID t → TrackID o' = TrackID o →
  trk_mmsi t' = trk_mmsi t → trk_mmsi o' = trk_mmsi o →
  (∀ b, b ≠ TrackID o → nearSince t' !! b = nearSince t !! b) →
  (∀ b, b ≠ TrackID t → nearSince o' !! b = nearSince o !! b) →
  nearSince t' !! TrackID o = nearSince o' !! TrackID t →
  (∀ b, b ≠ TrackID o → b ∈ rendezAlerted t' ↔ b ∈ rendezAlerted t) →
  (∀ b, b ≠ TrackID t → b ∈ rendezAlerted o' ↔ b ∈ rendezAlerted o) →
  (TrackID o ∈ rendezAlerted t' ↔ TrackID t ∈ rendezAlerted o') →
  track_ok t' → track_ok o' →
  engine_core (store_track (store_track e o') t').
Proof.
  intros [K T M N R NL RL] Ht Ho Hto It Io Mt Mo Nt No Nto Rt Ro Rto Okt Oko.
  set (e' := store_track _ _).
  assert (D : ∀ b, is_Some (tracks e !! b) → is_Some (tracks e' !! b)).
  { intros b. unfold e'. rewrite !tracks_store, !lookup_insert_is_Some'. auto. }
  assert (C : ∀ a ta, tracks e' !! a = Some ta →
    (a = TrackID t ∧ ta = t') ∨ (a = TrackID o ∧ ta = o') ∨
    (a ≠ TrackID t ∧ a ≠ TrackID o ∧ tracks e !! a = Some ta)).
  { intros a ta. unfold e'. rewrite !tracks_store, It, Io.
    intros [[<- <-]|[? [[<- <-]|[? ?]]%lookup_insert_Some]]%lookup_insert_Some; auto 6. }
  split.
  - intros a ta [[-> ->]|[[-> ->]|(?&?&?)]]%C; eauto.
  - intros a ta [[-> ->]|[[-> ->]|(?&?&?)]]%C; eauto.
  - intros m id (?&t0&H0&<-)%M. split; [done|]. unfold e'. rewrite !tracks_store, It, Io.
    destruct (decide (TrackID t = id)) as [<-|].
    { rewrite lookup_insert_eq. simplify_eq. eauto. }
    rewrite lookup_insert_ne by done. destruct (decide (TrackID o = id)) as [<-|].
    { rewrite lookup_insert_eq. simplify_eq. eauto. }
    rewrite lookup_insert_ne by done. eauto.
  - intros a b ta tb [[-> ->]|[[-> ->]|(?&?&?)]]%C [[-> ->]|[[-> ->]|(?&?&?)]]%C;
      rewrite ?Nt, ?No by done; eauto.
  - intros a b ta tb [[-> ->]|[[-> ->]|(?&?&?)]]%C [[-> ->]|[[-> ->]|(?&?&?)]]%C;
      rewrite ?Rt, ?Ro by done; eauto.
  - intros a ta b [[-> ->]|[[-> ->]|(?&?&?)]]%C Hb.
    + destruct (decide (b = TrackID o)) as [->|]; [split; [done|by apply D; rewrite Ho]|].
      rewrite Nt in Hb by done. destruct (NL _ _ _ Ht Hb); eauto.
    + destruct (decide (b = TrackID t)) as [->|]; [split; [done|by apply D; rewrite Ht]|].
      rewrite No in Hb by done. destruct (NL _ _ _ Ho Hb); eauto.
    + edestruct NL; eauto.
  - intros a ta b [[-> ->]|[[-> ->]|(?&?&?)]]%C Hb.
    + destruct (decide (b = TrackID o)) as [->|]; [split; [done|by apply D; rewrite Ho]|].
      rewrite Rt in Hb by done. destruct (RL _ _ _ Ht Hb); eauto.
    + destruct (decide (b = TrackID t)) as [->|]; [split; [done|by apply D; rewrite Ht]|].
      rewrite Ro in Hb by done. destruct (RL _ _ _ Ho Hb); eauto.
    + edestruct RL; eauto.
Qed.

(** ** Association *)

(** Distance of a candidate that the association loop considers. *)
Definition candidate_distance (e : Engine) (d : Detection) (p : Position) (id : string)
    : option f64 :=
  match tracks e !! id with
  | None => None
  | Some c =>
      if negb (MMSI d =s "") && negb (trk_mmsi c =s "") && negb (trk_mmsi c =s MMSI d) then None
      else match Last c with
      | None => None
      | Some lastp =>
          if CorrelationWindow (eng_config e) <? abs_gap (ObservedAt d) (pt_observed lastp) then None
          else Some (DistanceMeters (pt_position lastp) p)
      end
  end.

Lemma associate_step_eq e d p acc id :
  associate_step e d p acc id =
  match candidate_distance e d p id with
  | Some dist => if fle dist acc.2 then (Some id, dist) else acc
  | None => acc
  end.
Proof. unfold associate_step, candidate_distance. by repeat case_match. Qed.

(** The loop keeps a candidate that is nearest among those seen. *)
Lemma associate_scan_nearest e d p order radius best dist :
  foldl (associate_step e d p) (None, radius) order = (best, dist) →
  is_nan radius = false →
  is_nan dist = false ∧ fle dist radius = true ∧
  (∀ id d', id ∈ order → candidate_distance e d p id = Some d' → fle d' radius = true →
     best ≠ None ∧ fle dist d' = true) ∧
  match best with
  | Some id => id ∈ order ∧ candidate_distance e d p id = Some dist
  | None => dist = radius
  end.
Proof.
  revert best dist. induction order as [|x order IH] using rev_ind; intros best dist; simpl.
  - intros [= <- <-] Hn. split_and!; [done|by apply fle_refl|set_solver|done].
  - rewrite foldl_app. simpl. rewrite associate_step_eq.
    destruct (foldl _ _ order) as [b0 d0] eqn:E. intros H Hn.
    destruct (IH _ _ eq_refl Hn) as (N0&F0&A0&B0). clear IH. simpl in H.
    destruct (candidate_distance e d p x) as [dx|] eqn:Ex.
    + destruct (fle dx d0) eqn:Ef; simplify_eq.
      * apply fle_not_nan in Ef as Hx. destruct Hx as [Hx _].
        split_and!; [done|by eapply fle_trans| |set_solver|done].
        intros id d' [Hid|Hid]%elem_of_app Hc Hr.
        -- split; [done|]. destruct (A0 id d' Hid Hc Hr) as [_ ?]. by eapply fle_trans.
        -- apply list_elem_of_singleton in Hid as ->. simplify_eq. split; [done|by apply fle_refl].
      * split_and!; try done.
        -- intros id d' [Hid|Hid]%elem_of_app Hc Hr; [by eapply A0|].
           apply list_elem_of_singleton in Hid as ->. rewrite Ex in Hc. injection Hc as ->.
           destruct (fle_total d' dist) as [?|?]; try done; [by apply fle_not_nan in Hr as []|congruence|].
           split; [|done]. intros ->. subst. congruence.
        -- destruct best; [|done]. destruct B0. split; [set_solver|done].
    + simplify_eq. split_and!; try done.
      * intros id d' [Hid|Hid]%elem_of_app Hc Hr; [by eapply A0|].
        apply list_elem_of_singleton in Hid as ->. congruence.
      * destruct best; [|done]. destruct B0. split; [set_solver|done].
Qed.

Lemma candidate_live e d p id dist : candidate_distance e d p id = Some dist → is_Some (tracks e !! id).
Proof. unfold candidate_distance. destruct (tracks e !! id); [eauto|done]. Qed.

(** What the association leaves: the engine unchanged and a live track, or one
    new, empty track under the generated identity. *)
Definition fresh_track (newID : string) (d : Detection) : Track :=
  with_mmsi (newTrack newID (det_classification d)) (MMSI d).

Definition add_fresh (e : Engine) (newID : string) (d : Detection) : Engine :=
  let e' := store_track e (fresh_track newID d) in
  if MMSI d =s "" then e' else bind_mmsi e' (MMSI d) newID.

Lemma associate_cases order newID e d p id e' :
  engine_inv e → is_nan (CorrelationRadiusMeters (eng_config e)) = false →
  associate order newID e d p = (id, e') →
  (e' = e ∧ is_Some (tracks e !! id)) ∨ (id = newID ∧ e' = add_fresh e newID d).
Proof.
  intros HI Hr. unfold associate, associate_scan, add_fresh, fresh_track.
  destruct (if negb (MMSI d =s "") then byMMSI e !! MMSI d else None) as [bound|] eqn:Eb.
  - intros [= <- <-]. left. split; [done|]. destruct (MMSI d =s ""); simpl in Eb; [done|].
    apply HI in Eb as (_&t&?&_). eauto.
  - destruct (foldl _ _ order) as [[best|] dist] eqn:E; simpl.
    + intros [= <- <-]. left. split; [done|].
      apply associate_scan_nearest in E as (_&_&_&_&?); [|done]. by eapply candidate_live.
    + destruct (MMSI d =s "") eqn:Em; simpl; intros [= <- <-]; right; split; try done.
      bprop. by rewrite Em.
Qed.

(** What a validated detection provides to the engine. *)
Record detection_ok (d : Detection) : Prop := {
  dok_label : valid_label (det_classification d);
  dok_mmsi : MMSI d = "" ∨ mmsiPattern (MMSI d) = true;
  dok_ais : ∀ a, AIS d = Some a → mmsiPattern (ais_mmsi a) = true
}.

Lemma mmsi_nonempty m : mmsiPattern m = true → m ≠ "".
Proof. by intros H ->. Qed.

Lemma Validate_detection_ok d : Validate d = Ok tt → detection_ok d.
Proof.
  intros H. apply detection_contract in H as [_ _ _ HL _ _ HM HP HC _ _]. split; try done.
  intros a Ha. destruct HP as [(_&p&Hp&HV)|HP].
  - rewrite Ha in Hp. simplify_eq. unfold AISPayload_validate in HV. inv_ok HV. by bprop.
  - exfalso. revert HC. unfold count_payloads, payload_table. rewrite Ha.
    destruct HP as [(_&p&->&_)|[(_&p&->&_)|[(_&p&->&_)|(_&p&->&_)]]];
      destruct (SAR d), (RF d), (Acoustic d), (Optical d); by vm_compute.
Qed.

Lemma fresh_track_ok newID d : detection_ok d → track_ok (fresh_track newID d).
Proof. intros [HL HM _]. split; simpl; [lia|done|done]. Qed.

Lemma associate_core order newID e d p id e' :
  engine_inv e → is_nan (CorrelationRadiusMeters (eng_config e)) = false →
  detection_ok d → tracks e !! newID = None →
  associate order newID e d p = (id, e') →
  engine_core e' ∧ settled_except e' id ∧ eng_config e' = eng_config e ∧ zones e' = zones e ∧
  ∃ t, tracks e' !! id = Some t.
Proof.
  intros HI Hr Hd Hf H.
  destruct (associate_cases _ _ _ _ _ _ _ HI Hr H) as [[-> [t Ht]]|[-> ->]].
  - destruct HI as [HC HS]. split_and!; try done; [|by eauto]. intros i u Hu _. eauto.
  - destruct HI as [HC HS].
    pose proof (fresh_track_ok newID d Hd) as Hok.
    assert (HC' : engine_core (store_track e (fresh_track newID d))) by (by apply core_add).
    assert (HL : tracks (add_fresh e newID d) = <[newID := fresh_track newID d]> (tracks e)).
    { unfold add_fresh. by destruct (MMSI d =s ""). }
    split_and!.
    + unfold add_fresh. destruct (MMSI d =s "") eqn:Em; [done|]. bprop.
      eapply core_bind; [done|by rewrite tracks_store, lookup_insert_eq|done|done].
    + intros i u. rewrite HL. intros [[<- <-]|[? ?]]%lookup_insert_Some; [done|].
      intros _. unfold add_fresh. destruct (MMSI d =s ""); simpl; eauto.
    + unfold add_fresh. by destruct (MMSI d =s "").
    + unfold add_fresh. by destruct (MMSI d =s "").
    + rewrite HL, lookup_insert_eq. eauto.
Qed.

(** ** Absorbing a point *)

(** The MMSI the detection brings: the AIS payload's, else the top-level one. *)
Definition observed_mmsi (d : Detection) : string :=
  match AIS d with Some a => ais_mmsi a | None => MMSI d end.

Definition point_of (d : Detection) (p : Position) : TrackPoint :=
  mkPoint (SourceID d +:+ ":" +:+ SourceEventID d) (det_modality d) (ObservedAt d) p
    (match AIS d with Some a => ais_speed_knots a | None => fzero end)
    (match AIS d with Some a => ais_heading_deg a | None => fzero end).

(** The newest 4096 points. *)
Definition keep_newest (ps : list TrackPoint) : list TrackPoint :=
  drop (length ps - MaxPoints) ps.

Lemma keep_newest_length ps : Z.of_nat (length (keep_newest ps)) <= 4096.
Proof. unfold keep_newest, MaxPoints. rewrite length_drop. lia. Qed.

Lemma keep_newest_last ps p : last (keep_newest (ps ++ [p])) = Some p.
Proof.
  unfold keep_newest, MaxPoints. rewrite drop_app_le by (rewrite length_app; simpl; lia).
  apply last_snoc.
Qed.

Definition absorbed (t : Track) (d : Detection) (p : Position) : Track :=
  mkTrack (TrackID t)
    (if trk_mmsi t =s "" then observed_mmsi d else trk_mmsi t)
    (MaxClassification (trk_class t) (det_classification d))
    (keep_newest (Points t ++ [point_of d p]))
    (match AIS d with Some _ => ObservedAt d | None => lastAISAt t end)
    (zoneEnter t) (loiterAlerted t) (nearSince t) (rendezAlerted t)
    (match AIS d with
     | Some _ => if time_before (ObservedAt d) (lastAISAt t) then darkAlerted t else false
     | None => darkAlerted t
     end).

Lemma push_point_spec t p c :
  push_point t p c =
  mkTrack (TrackID t) (trk_mmsi t) (MaxClassification (trk_class t) c)
    (keep_newest (Points t ++ [p])) (lastAISAt t) (zoneEnter t) (loiterAlerted t)
    (nearSince t) (rendezAlerted t) (darkAlerted t).
Proof.
  unfold push_point, keep_newest, MaxPoints. simpl. case_match eqn:E; [done|].
  replace (length (Points t ++ [p]) - Z.to_nat 4096)%nat with 0%nat by lia. by rewrite drop_0.
Qed.

(** [absorbPointLocked] in closed form. *)
Lemma absorb_spec e t d p :
  detection_ok d →
  absorbPointLocked e t d p =
  (point_of d p, absorbed t d p,
   let e' := store_track e (absorbed t d p) in
   if (trk_mmsi t =s "") && negb (observed_mmsi d =s "")
   then bind_mmsi e' (observed_mmsi d) (TrackID t) else e').
Proof.
  intros [_ _ HA]. unfold absorbPointLocked, absorbed, observed_mmsi.
  destruct (AIS d) as [a|] eqn:EA.
  - assert (Ha : (ais_mmsi a =s "") = false).
    { apply String.eqb_neq, mmsi_nonempty. eauto. }
    destruct (trk_mmsi t =s "") eqn:Et; do 3 (simpl; rewrite ?Ha, ?Et, ?andb_false_r); simpl;
      rewrite push_point_spec; unfold point_of; rewrite EA; simpl;
      by destruct (time_before (ObservedAt d) (lastAISAt t)).
  - destruct (trk_mmsi t =s "") eqn:Et, (MMSI d =s "") eqn:Em; simpl;
      rewrite push_point_spec; unfold point_of; rewrite EA; bprop; rewrite ?Em, ?Et; done.
Qed.

Lemma absorbed_ok t d p : track_ok t → detection_ok d → track_ok (absorbed t d p).
Proof.
  intros [Hs Hl Hm] [HL HM HA]. split; simpl.
  - apply keep_newest_length.
  - by apply MaxClassification_valid.
  - unfold observed_mmsi. destruct (trk_mmsi t =s ""); [|done].
    destruct (AIS d) as [a|]; [right; eauto|done].
Qed.

Lemma absorbed_last t d p : Last (absorbed t d p) = Some (point_of d p).
Proof. apply keep_newest_last. Qed.

Lemma absorb_core e t d p point t' e' :
  engine_core e → tracks e !! TrackID t = Some t → detection_ok d →
  absorbPointLocked e t d p = (point, t', e') →
  point = point_of d p ∧ t' = absorbed t d p ∧ engine_core e' ∧
  tracks e' = <[TrackID t := t']> (tracks e) ∧ eng_config e' = eng_config e ∧ zones e' = zones e.
Proof.
  intros HC Ht Hd. rewrite (absorb_spec e t d p Hd). intros [= <- <- <-].
  assert (Hok : track_ok (absorbed t d p)) by (apply absorbed_ok; [by eapply HC|done]).
  split_and!; try done; [|by case_match..].
  destruct (trk_mmsi t =s "") eqn:Et; simpl.
  - bprop. destruct (observed_mmsi d =s "") eqn:Eo; simpl; bprop.
    + apply (core_update e t); try done. simpl. by rewrite Et.
    + eapply core_name; try done. simpl. by rewrite Et.
  - apply (core_update e t); try done. simpl. by rewrite Et.
Qed.

(** ** The loitering rule *)

Definition restricted_containing (zs : list Zone) (p : Position) : gset string :=
  list_to_set (ZoneID <$> filter (λ z, zone_kind z = ZoneKindRestricted ∧ Contains z p = true) zs).

Lemma elem_of_restricted_containing zs p z :
  z ∈ restricted_containing zs p ↔ in_restricted zs p z.
Proof.
  unfold restricted_containing, in_restricted. rewrite elem_of_list_to_set, list_elem_of_fmap.
  setoid_rewrite list_elem_of_filter. split.
  - intros (zone&->&[? ?]&?). eauto.
  - intros (zone&?&?&<-&?). eauto.
Qed.

Lemma restricted_containing_snoc zs zone p :
  restricted_containing (zs ++ [zone]) p =
  if bool_decide (zone_kind zone = ZoneKindRestricted) && Contains zone p
  then {[ZoneID zone]} ∪ restricted_containing zs p else restricted_containing zs p.
Proof.
  unfold restricted_containing. rewrite filter_app, fmap_app, list_to_set_app_L, filter_cons, filter_nil.
  case_decide as Hd; case_bool_decide as Hk; destruct (Contains zone p) eqn:E; simpl;
    try (exfalso; tauto); set_solver.
Qed.

#[export] Instance in_restricted_dec zs p z : Decision (in_restricted zs p z).
Proof.
  destruct (decide (z ∈ restricted_containing zs p)) as [H|H];
    [left|right]; by rewrite <- elem_of_restricted_containing.
Defined.

(** The zone entries after the loop, before the stale ones are deleted. *)
Definition entries (zs : list Zone) (t : Track) (point : TrackPoint) : gmap string Z :=
  zoneEnter t ∪ gset_to_gmap (pt_observed point) (restricted_containing zs (pt_position point)).

Definition loiter_due (config : Config) (t : Track) (point : TrackPoint) (z : string) : Prop :=
  LoiteringMinDuration config <=
  time_sub (pt_observed point) (default (pt_observed point) (zoneEnter t !! z)).

Lemma entries_lookup zs t point z :
  entries zs t point !! z =
  match zoneEnter t !! z with
  | Some v => Some v
  | None => if decide (in_restricted zs (pt_position point) z) then Some (pt_observed point) else None
  end.
Proof.
  unfold entries. rewrite lookup_union, lookup_gset_to_gmap.
  pose proof (elem_of_restricted_containing zs (pt_position point) z) as Hz.
  destruct (zoneEnter t !! z); simpl; case_guard; try case_decide; try done; tauto.
Qed.

Lemma in_restricted_snoc zs zone p z :
  bool_decide (zone_kind zone = ZoneKindRestricted) && Contains zone p = true →
  in_restricted (zs ++ [zone]) p z ↔ z = ZoneID zone ∨ in_restricted zs p z.
Proof.
  intros H. rewrite <- !elem_of_restricted_containing, restricted_containing_snoc, H. set_solver.
Qed.

Lemma enter_zone zs t point zone :
  bool_decide (zone_kind zone = ZoneKindRestricted) && Contains zone (pt_position point) = true →
  match entries zs t point !! ZoneID zone with
  | Some _ => entries zs t point
  | None => <[ZoneID zone := pt_observed point]> (entries zs t point)
  end = entries (zs ++ [zone]) t point.
Proof.
  intros Hz. apply map_eq. intros z. rewrite (entries_lookup (zs ++ [zone])).
  pose proof (in_restricted_snoc zs zone (pt_position point) z Hz) as Hsn.
  destruct (entries zs t point !! ZoneID zone) as [v|] eqn:E; rewrite entries_lookup in E.
  - rewrite entries_lookup. destruct (zoneEnter t !! z) eqn:Ez; [done|].
    destruct (decide (z = ZoneID zone)) as [->|Hne].
    + rewrite Ez in E. rewrite E. rewrite decide_True; [|tauto]. by case_decide; simplify_eq.
    + repeat case_decide; try done; tauto.
  - destruct (decide (z = ZoneID zone)) as [->|Hne].
    + rewrite lookup_insert_eq. destruct (zoneEnter t !! ZoneID zone); [done|].
      rewrite decide_True; [done|tauto].
    + rewrite lookup_insert_ne, entries_lookup by done. destruct (zoneEnter t !! z); [done|].
      repeat case_decide; try done; tauto.
Qed.

Definition loiter_emission (config : Config) (now : Z) (refs : list string) (t : Track)
    (point : TrackPoint) (z : string) : Emission :=
  emit now t point refs AnomalyLoitering [TrackID t] z
    (DetailLoitering z (LoiteringMinDuration config)).

(** The zone loop in closed form: every containing restricted zone is entered,
    and each one that is due and not yet alerted fires exactly once. *)
Lemma loiter_loop config now refs point t zs :
  ∃ fired,
    foldl (loiter_step config now refs point) (t, ∅, []) zs =
    (with_zones t (entries zs t point) (loiterAlerted t ∪ list_to_set fired),
     restricted_containing zs (pt_position point),
     loiter_emission config now refs t point <$> fired) ∧
    NoDup fired ∧
    ∀ z, z ∈ fired ↔ in_restricted zs (pt_position point) z ∧ (z ∉ loiterAlerted t) ∧
                     loiter_due config t point z.
Proof.
  induction zs as [|zone zs (fired&IH&ND&Hf)] using rev_ind.
  - exists []. simpl. split_and!; [|constructor|].
    + f_equal. f_equal. destruct t. unfold with_zones. simpl. f_equal; [|set_solver].
      apply map_eq. intros z. rewrite entries_lookup. simpl.
      destruct (_ !! z); [done|]. rewrite decide_False; [done|].
      rewrite <- elem_of_restricted_containing. unfold restricted_containing. simpl. set_solver.
    + intros z. rewrite <- elem_of_restricted_containing. unfold restricted_containing. simpl. set_solver.
  - rewrite foldl_app, IH. cbn [foldl]. unfold loiter_step at 1.
    rewrite restricted_containing_snoc.
    destruct (bool_decide (zone_kind zone = ZoneKindRestricted) && Contains zone (pt_position point)) eqn:Hz.
    + pose proof (enter_zone zs t point zone Hz) as Hent. pose proof Hz as [Hk Hc]%andb_true_iff.
      rewrite Hc, Hk. cbn [negb]. set (id := ZoneID zone) in *.
      set (t1 := match zoneEnter (with_zones _ _ _) !! id with Some _ => _ | None => _ end).
      assert (Ht1 : t1 = with_zones t (entries (zs ++ [zone]) t point) (loiterAlerted t ∪ list_to_set fired)).
      { unfold t1. cbn [zoneEnter with_zones]. rewrite <- Hent. by destruct (entries zs t point !! id). }
      clearbody t1. subst t1. cbn [zoneEnter loiterAlerted with_zones].
      assert (Hin : in_restricted (zs ++ [zone]) (pt_position point) id).
      { apply in_restricted_snoc; auto. }
      assert (Hdef : default 0 (entries (zs ++ [zone]) t point !! id) =
                     default (pt_observed point) (zoneEnter t !! id)).
      { rewrite entries_lookup. destruct (zoneEnter t !! id); [done|]. by rewrite decide_True. }
      rewrite Hdef.
      match goal with |- context [if ?b then _ else _] => destruct b eqn:Ef end.
      * apply andb_true_iff in Ef as [E1%negb_true_iff E2%Z.leb_le].
        apply bool_decide_eq_false in E1.
        exists (fired ++ [id]). split_and!.
        -- unfold with_zones. simpl. f_equal; [f_equal|by rewrite fmap_app].
           f_equal. rewrite list_to_set_app_L. set_solver.
        -- apply NoDup_app. split_and!; [done|set_solver|apply NoDup_singleton].
        -- intros z. rewrite elem_of_app, list_elem_of_singleton, in_restricted_snoc, Hf by done.
           unfold loiter_due. split; [|naive_solver]. intros [?| ->]; [naive_solver|].
           split_and!; [by left|set_solver|done].
      * exists fired. split_and!; [done|done|]. intros z.
        rewrite in_restricted_snoc, Hf by done. split; [naive_solver|].
        intros ([-> | ?]&?&?); [|done].
        apply andb_false_iff in Ef as [E1%negb_false_iff|E2%Z.leb_gt].
        -- apply bool_decide_eq_true in E1. apply elem_of_union in E1 as [?|E1]; [done|].
           by apply elem_of_list_to_set, Hf in E1.
        -- unfold loiter_due, id in *. lia.
    + assert (He : entries (zs ++ [zone]) t point = entries zs t point).
      { unfold entries. by rewrite restricted_containing_snoc, Hz. }
      exists fired. rewrite He. split_and!; [|done|].
      * destruct (Contains zone (pt_position point)); [|done].
        by rewrite andb_true_r in Hz; rewrite Hz.
      * intros z. rewrite Hf, <- !elem_of_restricted_containing, restricted_containing_snoc, Hz. done.
Qed.

(** The zone entries once the stale ones are gone: exactly the containing
    zones, each with the time of its first point. *)
Definition entries_after (zs : list Zone) (t : Track) (point : TrackPoint) : gmap string Z :=
  filter (λ kv, kv.1 ∈ restricted_containing zs (pt_position point)) (entries zs t point).

Lemma entries_after_lookup zs t point z :
  entries_after zs t point !! z =
  if decide (in_restricted zs (pt_position point) z)
  then Some (default (pt_observed point) (zoneEnter t !! z)) else None.
Proof.
  unfold entries_after. rewrite map_lookup_filter, entries_lookup. case_decide as Hin.
  - destruct (zoneEnter t !! z); simpl; by rewrite option_guard_True
      by (by apply elem_of_restricted_containing).
  - destruct (zoneEnter t !! z); simpl; [|done]. rewrite option_guard_False; [done|].
    by rewrite elem_of_restricted_containing.
Qed.

Lemma loiter_rule_spec config now refs zs t point :
  ∃ fired,
    loiter_rule config now refs zs t point =
    (with_zones t (entries_after zs t point) (loiterAlerted t ∪ list_to_set fired),
     loiter_emission config now refs t point <$> fired) ∧
    NoDup fired ∧
    ∀ z, z ∈ fired ↔ in_restricted zs (pt_position point) z ∧ (z ∉ loiterAlerted t) ∧
                     loiter_due config t point z.
Proof.
  destruct (loiter_loop config now refs point t zs) as (fired&Hl&HN&Hf).
  exists fired. unfold loiter_rule. by rewrite Hl.
Qed.

(** ** The rendezvous loop *)

(** A step either leaves the engine alone or rewrites the pair; in both cases
    the points, zone entries and MMSI of every track stay. *)
Record same_record (t t' : Track) : Prop := {
  sr_id : TrackID t' = TrackID t;
  sr_mmsi : trk_mmsi t' = trk_mmsi t;
  sr_points : Points t' = Points t;
  sr_zones : zoneEnter t' = zoneEnter t
}.

Definition same_records (e e' : Engine) : Prop :=
  eng_config e' = eng_config e ∧ zones e' = zones e ∧ byMMSI e' = byMMSI e ∧
  (∀ id, tracks e' !! id = None ↔ tracks e !! id = None) ∧
  ∀ id t t', tracks e !! id = Some t → tracks e' !! id = Some t' → same_record t t'.

#[export] Instance same_records_refl : Reflexive same_records.
Proof. intros e. split_and!; try done. intros. by simplify_eq. Qed.

#[export] Instance same_records_trans : Transitive same_records.
Proof.
  intros e1 e2 e3 (C1&Z1&B1&D1&R1) (C2&Z2&B2&D2&R2).
  split_and!; [congruence..| |]; [intros id; by rewrite D2|].
  intros id t t' Ht Ht'. destruct (tracks e2 !! id) as [t2|] eqn:E2.
  - destruct (R1 _ _ _ Ht E2), (R2 _ _ _ E2 Ht'). split; congruence.
  - apply D1 in E2. congruence.
Qed.

Lemma pair_same_records e t o t' o' :
  engine_core e → tracks e !! TrackID t = Some t → tracks e !! TrackID o = Some o →
  TrackID t ≠ TrackID o → same_record t t' → same_record o o' →
  same_records e (store_track (store_track e o') t').
Proof.
  intros HC Ht Ho Hne St So. unfold same_records. rewrite !tracks_store.
  rewrite (sr_id _ _ St), (sr_id _ _ So). split_and!; try done.
  - intros id. destruct (decide (TrackID t = id)) as [<-|].
    + rewrite lookup_insert_eq. naive_solver.
    + rewrite lookup_insert_ne by done. destruct (decide (TrackID o = id)) as [<-|].
      * rewrite lookup_insert_eq. naive_solver.
      * by rewrite lookup_insert_ne.
  - intros id u u' Hu [[<- <-]|[_ [[<- <-]|[_ ?]]%lookup_insert_Some]]%lookup_insert_Some;
      by simplify_eq.
Qed.

Lemma label_ok t t' :
  track_ok t → Points t' = Points t → trk_mmsi t' = trk_mmsi t → valid_label (trk_class t') →
  track_ok t'.
Proof. intros [? ? ?] HP HM HL. split; [by rewrite HP|done|by rewrite HM]. Qed.

Lemma rendezvous_step_core now refs id point e out o e' out' :
  engine_core e → rendezvous_step now refs id point (e, out) o = (e', out') →
  engine_core e' ∧ same_records e e'.
Proof.
  intros HC. unfold rendezvous_step.
  destruct (tracks e !! id) as [t|] eqn:Et; [|by intros [= <- <-]].
  destruct (tracks e !! o) as [u|] eqn:Eu; [|by intros [= <- <-]].
  pose proof (core_key _ HC _ _ Et) as <-. pose proof (core_key _ HC _ _ Eu) as <-.
  destruct (TrackID u =s TrackID t) eqn:Eid; [by intros [= <- <-]|].
  apply String.eqb_neq in Eid.
  destruct (Last u) as [lastp|]; [|by intros [= <- <-]].
  pose proof (core_track _ HC _ _ Et) as Okt. pose proof (core_track _ HC _ _ Eu) as Oku.
  assert (Hr : TrackID u ∈ rendezAlerted t ↔ TrackID t ∈ rendezAlerted u)
    by (by apply (core_rendez e HC)).
  assert (Ht' : ∀ t', Points t' = Points t → trk_mmsi t' = trk_mmsi t →
    trk_class t' = trk_class t ∨ trk_class t' = MaxClassification (trk_class t) (trk_class u) →
    track_ok t').
  { intros t' HP HM HL. apply (label_ok t); try done. destruct Okt, Oku.
    destruct HL as [-> | ->]; auto with maritime_auto. }
  assert (Hu' : ∀ u', Points u' = Points u → trk_mmsi u' = trk_mmsi u →
    trk_class u' = trk_class u → track_ok u').
  { intros u' HP HM HL. apply (label_ok u); try done. rewrite HL. by destruct Oku. }
  destruct (proximity _ _ _ _ _) as [since|]; simpl.
  - destruct (_ && _); intros [= <- <-]; (split;
      [apply (core_pair e t u)|apply (pair_same_records e t u)]); simpl; try done; auto;
      try (by intros b Hb; rewrite lookup_insert_ne by done);
      try (by rewrite !lookup_insert_eq); set_solver.
  - intros [= <- <-]; (split;
      [apply (core_pair e t u)|apply (pair_same_records e t u)]); simpl; try done; auto;
      try (by intros b Hb; rewrite lookup_delete_ne by done);
      try (by rewrite !lookup_delete_eq).
Qed.

Lemma rendezvous_loop_core now refs id point order e out e' out' :
  engine_core e → foldl (rendezvous_step now refs id point) (e, out) order = (e', out') →
  engine_core e' ∧ same_records e e'.
Proof.
  revert e out. induction order as [|o order IH]; intros e out HC; cbn [foldl].
  - by intros [= <- <-].
  - destruct (rendezvous_step now refs id point (e, out) o) as [e1 out1] eqn:E.
    apply rendezvous_step_core in E as [HC1 HS1]; [|done]. intros H.
    apply IH in H as [HC2 HS2]; [|done]. split; [done|]. by etrans.
Qed.

Lemma settled_same zs t t' : same_record t t' → settled zs t → settled zs t'.
Proof.
  intros [_ _ HP HZ] (p&Hp&Hz). exists p. unfold Last in *. by rewrite HP, HZ.
Qed.

Lemma evaluate_core order now e t point d e' out :
  engine_core e → tracks e !! TrackID t = Some t → Last t = Some point →
  settled_except e (TrackID t) →
  evaluateLocked order now e t point d = (e', out) →
  engine_inv e' ∧ eng_config e' = eng_config e ∧ zones e' = zones e ∧ byMMSI e' = byMMSI e ∧
  (∀ id, tracks e' !! id = None ↔ tracks e !! id = None) ∧
  ∀ id u u', tracks e !! id = Some u → tracks e' !! id = Some u' →
    TrackID u' = TrackID u ∧ trk_mmsi u' = trk_mmsi u ∧ Points u' = Points u.
Proof.
  intros HC Ht Hp HS. unfold evaluateLocked.
  destruct (loiter_rule_spec (eng_config e) now (CorrelationRefs d) (zones e) t point)
    as (fired&->&_&_).
  set (t1 := with_zones t _ _).
  assert (Ok1 : track_ok t1) by (by destruct (core_track _ HC _ _ Ht)).
  assert (HC1 : engine_core (store_track e t1)) by (by apply (core_update e t)).
  intros H. apply rendezvous_loop_core in H as [HC2 (C2&Z2&B2&D2&R2)]; [|done]. simpl in *.
  assert (Hdom : ∀ id, tracks e' !! id = None ↔ tracks e !! id = None).
  { intros id. rewrite D2. destruct (decide (TrackID t = id)) as [<-|].
    - rewrite lookup_insert_eq. naive_solver.
    - by rewrite lookup_insert_ne. }
  split_and!; try done.
  - split; [done|]. intros id u' Hu'.
    destruct (decide (TrackID t = id)) as [<-|Hne].
    + eapply settled_same; [eapply R2; [apply lookup_insert_eq|done]|].
      exists point. split; [done|]. intros z. simpl. rewrite entries_after_lookup, Z2.
      by case_decide; [split; eauto|split; [intros []|]].
    + destruct (tracks e !! id) as [u|] eqn:Eu.
      * eapply settled_same; [eapply R2; [by rewrite lookup_insert_ne|done]|].
        rewrite Z2. by eapply HS.
      * apply Hdom in Eu. congruence.
  - intros id u u' Hu Hu'. destruct (decide (TrackID t = id)) as [<-|Hne].
    + destruct (R2 _ _ _ (lookup_insert_eq _ _ _) Hu') as [S1 S2 S3 _]. simplify_eq. done.
    + assert (Hu1 : <[TrackID t := t1]> (tracks e) !! id = Some u) by (by rewrite lookup_insert_ne).
      by destruct (R2 _ _ _ Hu1 Hu').
Qed.

(** ** Restoring rule state *)

Lemma restore_pair_core e id point o :
  engine_core e →
  engine_core (restore_pair_step id point e o) ∧ same_records e (restore_pair_step id point e o).
Proof.
  intros HC. unfold restore_pair_step.
  destruct (tracks e !! id) as [t|] eqn:Et; [|done].
  destruct (tracks e !! o) as [u|] eqn:Eu; [|done].
  pose proof (core_key _ HC _ _ Et) as <-. pose proof (core_key _ HC _ _ Eu) as <-.
  destruct (TrackID u =s TrackID t) eqn:Eid; [done|]. apply String.eqb_neq in Eid.
  destruct (Last u) as [lastp|]; [|done].
  assert (Hr : TrackID u ∈ rendezAlerted t ↔ TrackID t ∈ rendezAlerted u)
    by (by apply (core_rendez e HC)).
  assert (Hok : ∀ t0 t', track_ok t0 → Points t' = Points t0 → trk_mmsi t' = trk_mmsi t0 →
    trk_class t' = trk_class t0 → track_ok t').
  { intros t0 t' [? ? ?] HP HM HL. split; [by rewrite HP|by rewrite HL|by rewrite HM]. }
  pose proof (core_track _ HC _ _ Et) as Okt. pose proof (core_track _ HC _ _ Eu) as Oku.
  destruct (proximity _ _ _ _ _) as [since|]; simpl; (split;
    [apply (core_pair e t u)|apply (pair_same_records e t u)]); simpl; try done; eauto;
    try (by intros b Hb; rewrite lookup_delete_ne by done);
    try (by intros b Hb; rewrite lookup_insert_ne by done);
    try (by rewrite !lookup_delete_eq); by rewrite !lookup_insert_eq.
Qed.

Lemma restore_loop_core id point order e :
  engine_core e →
  engine_core (foldl (restore_pair_step id point) e order) ∧
  same_records e (foldl (restore_pair_step id point) e order).
Proof.
  revert e. induction order as [|o order IH]; intros e HC; simpl; [done|].
  destruct (restore_pair_core e id point o HC) as [HC1 HS1].
  destruct (IH _ HC1) as [HC2 HS2]. split; [done|]. by etrans.
Qed.

(** The zone loop of the replay reaches the same entries as the ingest one. *)
Lemma restore_zone_loop point t zs :
  foldl (restore_zone_step point) (t, ∅) zs =
  (with_zones t (entries zs t point) (loiterAlerted t), restricted_containing zs (pt_position point)).
Proof.
  induction zs as [|zone zs IH] using rev_ind.
  - simpl. f_equal. destruct t. unfold with_zones. simpl. f_equal.
    apply map_eq. intros z. rewrite entries_lookup. simpl.
    destruct (_ !! z); [done|]. rewrite decide_False; [done|].
    rewrite <- elem_of_restricted_containing. unfold restricted_containing. simpl. set_solver.
  - rewrite foldl_app, IH. cbn [foldl]. unfold restore_zone_step.
    rewrite restricted_containing_snoc.
    destruct (_ && _) eqn:Hz.
    + rewrite <- (enter_zone zs t point zone Hz). cbn [zoneEnter with_zones].
      by destruct (entries zs t point !! ZoneID zone).
    + unfold entries. by rewrite restricted_containing_snoc, Hz.
Qed.

Lemma restore_spec order e t point :
  restoreRuleStateLocked order e t point =
  foldl (restore_pair_step (TrackID t) point)
    (store_track e (with_zones t (entries_after (zones e) t point) (loiterAlerted t))) order.
Proof. unfold restoreRuleStateLocked. by rewrite restore_zone_loop. Qed.

Lemma restore_core order e t point :
  engine_core e → tracks e !! TrackID t = Some t → Last t = Some point →
  settled_except e (TrackID t) →
  let e' := restoreRuleStateLocked order e t point in
  engine_inv e' ∧ eng_config e' = eng_config e ∧
  ∀ k, tracks e' !! k = None ↔ tracks e !! k = None.
Proof.
  intros HC Ht Hp HS. rewrite restore_spec. set (t1 := with_zones t _ _).
  assert (Ok1 : track_ok t1) by (by destruct (core_track _ HC _ _ Ht)).
  assert (HC1 : engine_core (store_track e t1)) by (by apply (core_update e t)).
  destruct (restore_loop_core (TrackID t) point order _ HC1) as [HC2 (C2&Z2&_&D2&R2)].
  cbn zeta. set (e' := foldl _ _ _) in *. simpl in *.
  assert (Hdom : ∀ k, tracks e' !! k = None ↔ tracks e !! k = None).
  { intros k. rewrite D2. destruct (decide (TrackID t = k)) as [<-|].
    - rewrite lookup_insert_eq. naive_solver.
    - by rewrite lookup_insert_ne. }
  split; [|done]. split; [done|]. intros id u' Hu'.
  destruct (decide (TrackID t = id)) as [<-|Hne].
  - eapply settled_same; [eapply R2; [apply lookup_insert_eq|done]|].
    exists point. split; [done|]. intros z. simpl. rewrite entries_after_lookup, Z2.
    by case_decide; [split; eauto|split; [intros []|]].
  - destruct (tracks e !! id) as [u|] eqn:Eu.
    + eapply settled_same; [eapply R2; [by rewrite lookup_insert_ne|done]|].
      rewrite Z2. by eapply HS.
    + apply Hdom in Eu. congruence.
Qed.

(** ** Every operation keeps the invariant *)

Lemma config_radius c : Config_Validate c = Ok tt → is_nan (CorrelationRadiusMeters c) = false.
Proof.
  intros H. unfold Config_Validate in H. inv_ok H. apply positiveFinite_not_nan.
  match goal with E : negb (positiveFinite (CorrelationRadiusMeters c)) || _ = false |- _ =>
    by apply orb_false_iff in E as [?%negb_false_iff _] end.
Qed.

(** A successful ingest, decomposed into its three phases. *)
Record ingest_phases (env : IngestEnv) (e : Engine) (d : Detection) (id : string)
    (out : list Emission) (e1 : Engine) (p : Position) (t : Track) (e0 ea : Engine) : Prop := {
  ip_position : NewPosition (det_latitude d) (det_longitude d) = Ok p;
  ip_detection : detection_ok d;
  ip_associate : associate (associate_order env) (env_newID env) e d p = (id, e0);
  ip_core0 : engine_core e0;
  ip_track : tracks e0 !! id = Some t;
  ip_id : TrackID t = id;
  ip_absorb : absorbPointLocked e0 t d p = (point_of d p, absorbed t d p, ea);
  ip_core : engine_core ea;
  ip_tracks : tracks ea = <[id := absorbed t d p]> (tracks e0);
  ip_except : settled_except ea id;
  ip_config : eng_config ea = eng_config e;
  ip_zones : zones ea = zones e;
  ip_evaluate : evaluateLocked (evaluate_order env) (env_now env) ea (absorbed t d p) (point_of d p) d
                = (e1, out)
}.

Lemma Ingest_run env e d :
  engine_inv e → is_nan (CorrelationRadiusMeters (eng_config e)) = false →
  tracks e !! env_newID env = None →
  (∃ err, Ingest env e d = Some (Err err, e)) ∨
  ∃ id out e1 p t e0 ea, Ingest env e d = Some (Ok (id, out), e1) ∧
    ingest_phases env e d id out e1 p t e0 ea.
Proof.
  intros HI Hr Hf. unfold Ingest.
  destruct (Validate d) as [[]|err] eqn:HV; [|by eauto].
  destruct (HasPosition d); simpl; [|by eauto].
  destruct (NewPosition _ _) as [p|err] eqn:EP; [|by eauto]. right.
  apply Validate_detection_ok in HV as Hd.
  destruct (associate _ _ e d p) as [id e0] eqn:EA.
  destruct (associate_core _ _ _ _ _ _ _ HI Hr Hd Hf EA) as (HC1&HS1&C1&Z1&t&Ht).
  rewrite Ht. pose proof (core_key _ HC1 _ _ Ht) as Hid.
  destruct (absorbPointLocked e0 t d p) as [[point t'] ea] eqn:EB.
  assert (Ht' : tracks e0 !! TrackID t = Some t) by (by rewrite Hid).
  destruct (absorb_core _ _ _ _ _ _ _ HC1 Ht' Hd EB) as (->&->&HC2&T2&C2&Z2).
  destruct (evaluateLocked _ _ ea _ _ d) as [e1 out] eqn:EV.
  exists id, out, e1, p, t, e0, ea. split; [done|].
  assert (T2' : tracks ea = <[id := absorbed t d p]> (tracks e0)) by (by rewrite T2, Hid).
  split; try done; [|congruence|congruence].
  intros i u. rewrite T2', Z2. intros [[<- <-]|[? ?]]%lookup_insert_Some; [done|].
  intros _. eapply HS1; eauto.
Qed.

Lemma Ingest_Err env e d err e' : Ingest env e d = Some (Err err, e') → e' = e.
Proof.
  unfold Ingest. repeat case_match; intros [=]; congruence.
Qed.

Lemma Ingest_Ok env e d id out e1 :
  engine_inv e → is_nan (CorrelationRadiusMeters (eng_config e)) = false →
  tracks e !! env_newID env = None →
  Ingest env e d = Some (Ok (id, out), e1) →
  ∃ p t e0 ea, ingest_phases env e d id out e1 p t e0 ea.
Proof.
  intros HI Hr Hf H. destruct (Ingest_run env e d HI Hr Hf) as
    [[err Herr]|(id'&out'&e1'&p&t&e0&ea&Hin&HP)]; [congruence|].
  rewrite Hin in H. injection H as -> -> ->. eauto.
Qed.

Lemma phases_inv env e d id out e1 p t e0 ea :
  ingest_phases env e d id out e1 p t e0 ea →
  engine_inv e1 ∧ eng_config e1 = eng_config e ∧ zones e1 = zones e ∧
  (∀ k, tracks e1 !! k = None ↔ tracks ea !! k = None) ∧
  ∀ k u u', tracks ea !! k = Some u → tracks e1 !! k = Some u' →
    TrackID u' = TrackID u ∧ trk_mmsi u' = trk_mmsi u ∧ Points u' = Points u.
Proof.
  intros [_ _ _ _ _ Hid _ HC HT HS HCf HZ HE].
  assert (Ht : tracks ea !! TrackID (absorbed t d p) = Some (absorbed t d p)).
  { rewrite HT. simpl. rewrite Hid. apply lookup_insert_eq. }
  assert (HS' : settled_except ea (TrackID (absorbed t d p))) by (simpl; by rewrite Hid).
  destruct (evaluate_core _ _ _ _ _ _ _ _ HC Ht (absorbed_last _ _ _) HS' HE) as (HI&C&Z&_&HN&HR).
  split_and!; try done; congruence.
Qed.

(** An ingest adds at most the track it reports. *)
Lemma phases_dom env e d id out e1 p t e0 ea :
  engine_inv e → is_nan (CorrelationRadiusMeters (eng_config e)) = false →
  ingest_phases env e d id out e1 p t e0 ea →
  (is_Some (tracks e !! id) ∨ id = env_newID env) ∧
  ∀ k, is_Some (tracks e1 !! k) ↔ k = id ∨ is_Some (tracks e !! k).
Proof.
  intros HI Hr HP. destruct (phases_inv _ _ _ _ _ _ _ _ _ _ HP) as (_&_&_&HN&_).
  destruct HP as [_ Hd HA _ Ht _ _ _ HT _ _ _ _].
  assert (H1 : ∀ k, is_Some (tracks e1 !! k) ↔ k = id ∨ is_Some (tracks e0 !! k)).
  { intros k. rewrite <- !not_eq_None_Some, HN, HT, !not_eq_None_Some, lookup_insert_is_Some'. naive_solver. }
  destruct (associate_cases _ _ _ _ _ _ _ HI Hr HA) as [[-> ?]|[-> ->]];
    [split; [by left|exact H1]|].
  split; [by right|]. intros k. rewrite H1.
  replace (tracks (add_fresh e (env_newID env) d))
    with (<[env_newID env := fresh_track (env_newID env) d]> (tracks e))
    by (unfold add_fresh; by destruct (MMSI d =s "")).
  rewrite lookup_insert_is_Some'. naive_solver.
Qed.

Lemma Ingest_inv env e d :
  engine_inv e → is_nan (CorrelationRadiusMeters (eng_config e)) = false →
  tracks e !! env_newID env = None →
  ∃ r e', Ingest env e d = Some (r, e') ∧ engine_inv e' ∧ eng_config e' = eng_config e.
Proof.
  intros HI Hr Hf. destruct (Ingest_run env e d HI Hr Hf) as
    [[err Herr]|(id'&out'&e1'&p&t&e0&ea&Hin&HP)]; [by eauto|].
  apply phases_inv in HP as (HI1&HC1&_). eauto.
Qed.

Lemma replay_start e id d :
  engine_inv e → detection_ok d →
  let '(t, e1) := match tracks e !! id with
                  | Some t => (t, e)
                  | None => let t := newTrack id (det_classification d) in (t, store_track e t)
                  end in
  engine_core e1 ∧ settled_except e1 id ∧ tracks e1 !! TrackID t = Some t ∧ TrackID t = id ∧
  eng_config e1 = eng_config e ∧ zones e1 = zones e ∧
  ∀ k, is_Some (tracks e1 !! k) ↔ k = id ∨ is_Some (tracks e !! k).
Proof.
  intros [HC HS] Hd. destruct (tracks e !! id) as [t|] eqn:Et.
  - pose proof (core_key _ HC _ _ Et) as <-. split_and!; try done; [by intros i u Hu _; eauto|].
    intros k. split; [by right|]. intros [->|?]; eauto.
  - split_and!; try done.
    + apply core_add; try done. destruct Hd. split; simpl; [lia|done|by left].
    + intros i u. rewrite tracks_store.
      intros [[<- <-]|[? ?]]%lookup_insert_Some; [done|]. intros _. simpl. eauto.
    + by rewrite tracks_store, lookup_insert_eq.
    + intros k. rewrite tracks_store, lookup_insert_is_Some'. naive_solver.
Qed.

Lemma Replay_inv order e id d r e' :
  engine_inv e → Replay order e id d = (r, e') →
  engine_inv e' ∧ eng_config e' = eng_config e ∧
  (r = Ok tt → ∀ k, is_Some (tracks e' !! k) ↔ k = id ∨ is_Some (tracks e !! k)).
Proof.
  intros HI. unfold Replay.
  destruct (Validate d) as [[]|err] eqn:HV; [|by intros [= <- <-]].
  destruct (negb (HasPosition d)); [by intros [= <- <-]|].
  destruct ((trim_space id =s "") || _); [by intros [= <- <-]|].
  destruct (NewPosition _ _) as [p|err]; [|by intros [= <- <-]].
  apply Validate_detection_ok in HV as Hd.
  pose proof (replay_start e id d HI Hd) as HR.
  destruct (match tracks e !! id with Some _ => _ | None => _ end) as [t e1].
  destruct HR as (HC1&HS1&Ht&<-&C1&Z1&D1).
  destruct (absorbPointLocked e1 t d p) as [[point t'] e2] eqn:EB.
  destruct (absorb_core _ _ _ _ _ _ _ HC1 Ht Hd EB) as (->&->&HC2&T2&C2&Z2).
  intros [= <- <-].
  destruct (restore_core order e2 (absorbed t d p) (point_of d p)) as (HI3&C3&D3); try done.
  - rewrite T2. apply lookup_insert_eq.
  - apply absorbed_last.
  - intros i u. rewrite T2, Z2. intros [[<- <-]|[? ?]]%lookup_insert_Some; [done|].
    intros _. eapply HS1; eauto.
  - split_and!; [done|congruence|]. intros _ k.
    rewrite <- !not_eq_None_Some, D3, T2, !not_eq_None_Some, lookup_insert_is_Some', D1.
    naive_solver.
Qed.

Lemma scan_step_inv now e out id e' out' :
  engine_inv e → scan_step now (e, out) id = (e', out') →
  engine_inv e' ∧ eng_config e' = eng_config e.
Proof.
  intros [HC HS]. unfold scan_step.
  destruct (tracks e !! id) as [t|] eqn:Et; [|by intros [= <- <-]].
  pose proof (core_key _ HC _ _ Et) as <-.
  repeat (case_match; [by intros [= <- <-]|]). 
  destruct (Last t) as [lastp|]; [|by intros [= <- <-]].
  case_match; [by intros [= <- <-]|]. case_match; [by intros [= <- <-]|].
  intros [= <- <-]. split; [|done]. split.
  - apply (core_update e t); try done. by destruct (core_track _ HC _ _ Et).
  - intros i u. rewrite tracks_store. intros [[<- <-]|[? Hu]]%lookup_insert_Some; [|by eapply HS].
    by apply (settled_same _ t), (HS _ _ Et).
Qed.

Lemma ScanDarkVessels_inv order now e :
  engine_inv e → engine_inv (ScanDarkVessels order now e).1 ∧
  eng_config (ScanDarkVessels order now e).1 = eng_config e.
Proof.
  unfold ScanDarkVessels. generalize (@nil Emission).
  revert e. induction order as [|id order IH]; intros e out HI; cbn [foldl]; [done|].
  destruct (scan_step now (e, out) id) as [e1 out1] eqn:E.
  apply scan_step_inv in E as [HI1 C1]; [|done].
  destruct (IH e1 out1 HI1) as [? ?]. split; [done|congruence].
Qed.

Lemma NewEngine_inv config zs e :
  NewEngine config zs = Ok e →
  engine_inv e ∧ eng_config e = config ∧ Config_Validate config = Ok tt ∧ tracks e = ∅ ∧ zones e = zs.
Proof.
  unfold NewEngine. intros H. inv_ok H. split_and!; done.
Qed.
