(* ===== verification/FusionSamples.v ===== *)
(** * Concrete inputs for the fusion engine

    A square zone in the Gulf of Guinea, detections of several modalities and
    a clock, used by the witnesses and examples of the fusion files. *)

From S2P Require Import Prelude GoStrings GoTime Float64 Geo Classification Detection Fusion.

(** Minutes after 1 January 2026, 00:00 UTC. *)
Definition sample_time (minutes : Z) : Z := unix_epoch + 1767225600 * Second + minutes * Minute.

(** Degrees north of 3.0 N, in thousandths, on the meridian 3.5 E. *)
Definition sample_lat (milli : Z) : f64 := f_of_Q (3000 + milli) 1000.
Definition sample_lon : f64 := f_of_Q 3500 1000.

Definition sample_square (id : string) (kind : ZoneKind) : Zone :=
  mkZone id kind [mkPosition (f_of_Z 3) (f_of_Z 3); mkPosition (f_of_Z 3) (f_of_Z 4);
                  mkPosition (f_of_Z 4) (f_of_Z 4); mkPosition (f_of_Z 4) (f_of_Z 3)].

Definition sample_zone : Zone := sample_square "zone-1" ZoneKindRestricted.

Definition sample_detection (event : string) (m : Modality) (label : Classification)
    (milli minutes : Z) (mmsi : string) : Detection :=
  mkDetection event "feed-1" event m label (sample_time minutes) true (sample_lat milli) sample_lon
    mmsi None None None None None [].

Definition with_ais_payload (d : Detection) (m : string) : Detection :=
  mkDetection (EventID d) (SourceID d) (SourceEventID d) (det_modality d) (det_classification d)
    (ObservedAt d) (HasPosition d) (det_latitude d) (det_longitude d) (MMSI d)
    (Some (mkAIS m (f_of_Z 10) (f_of_Z 90) "under way" "" "")) None None None None
    (CorrelationRefs d).

Definition with_sar_payload (d : Detection) : Detection :=
  mkDetection (EventID d) (SourceID d) (SourceEventID d) (det_modality d) (det_classification d)
    (ObservedAt d) (HasPosition d) (det_latitude d) (det_longitude d) (MMSI d)
    None (Some (mkSAR "scene-1" (f_of_Q 9 10) "" (f_of_Z 0))) None None None (CorrelationRefs d).

Definition with_label (d : Detection) (label : Classification) : Detection :=
  mkDetection (EventID d) (SourceID d) (SourceEventID d) (det_modality d) label
    (ObservedAt d) (HasPosition d) (det_latitude d) (det_longitude d) (MMSI d)
    (AIS d) (SAR d) (RF d) (Acoustic d) (Optical d) (CorrelationRefs d).

(** An AIS report whose MMSI is given at the top level and in the payload. *)
Definition sample_ais (event mmsi : string) (milli minutes : Z) : Detection :=
  with_ais_payload
    (sample_detection event ModalityAIS ClassificationRestricted milli minutes mmsi) mmsi.

(** An AIS report whose MMSI is given in the payload only. *)
Definition sample_ais_bare (event mmsi : string) (milli minutes : Z) : Detection :=
  with_ais_payload
    (sample_detection event ModalityAIS ClassificationRestricted milli minutes "") mmsi.

(** A radar detection of an unknown vessel. *)
Definition sample_sar (event : string) (milli minutes : Z) : Detection :=
  with_sar_payload (sample_detection event ModalitySAR ClassificationConfidential milli minutes "").

(** ** Runs *)

Definition sample_engine : Engine :=
  match NewEngine DefaultConfig [sample_zone] with
  | Ok e => e
  | Err _ => mkEngine DefaultConfig [] ∅ ∅
  end.

(** The engine and the emissions an accepted ingest leaves. *)
Definition engine_after (env : IngestEnv) (e : Engine) (d : Detection) : Engine :=
  match Ingest env e d with Some (_, e') => e' | None => e end.

Definition ingest_out (env : IngestEnv) (e : Engine) (d : Detection) : list Emission :=
  match Ingest env e d with Some (Ok (_, out), _) => out | _ => [] end.

Definition sample_env (order1 order2 : list string) (id : string) (minutes : Z) : IngestEnv :=
  mkIngestEnv order1 order2 id (sample_time minutes).

Lemma sample_engine_new : NewEngine DefaultConfig [sample_zone] = Ok sample_engine.
Proof. by vm_compute. Qed.

(** A sequence of ingests, and the check that each generated identity is new. *)
Definition sample_ingests (inputs : list (IngestEnv * Detection)) (e : Engine) : Engine :=
  foldl (λ e x, engine_after x.1 e x.2) e inputs.

Fixpoint fresh_run (inputs : list (IngestEnv * Detection)) (e : Engine) : bool :=
  match inputs with
  | [] => true
  | (env, d) :: rest =>
      bool_decide (tracks e !! env_newID env = None) && fresh_run rest (engine_after env e d)
  end.

(** Two vessels sail together for eleven minutes. *)
Definition rendezvous_inputs : list (IngestEnv * Detection) :=
  [(sample_env [] ["t1"] "t1" 60, sample_ais "a1" "636012345" 0 60);
   (sample_env ["t1"] ["t1"; "t2"] "t2" 61, sample_ais "b1" "538009876" 2 61);
   (sample_env ["t1"; "t2"] ["t2"; "t1"] "t3" 68, sample_ais "a2" "636012345" 1 68)].

Definition rendezvous_engine : Engine := sample_ingests rendezvous_inputs sample_engine.

Definition rendezvous_detection : Detection := sample_ais "b2" "538009876" 3 71.

Definition rendezvous_point : TrackPoint :=
  mkPoint "feed-1:b2" ModalityAIS (sample_time 71) (mkPosition (sample_lat 3) sample_lon)
    (f_of_Z 10) (f_of_Z 90).

Definition track_of (e : Engine) (id : string) : Track := default (newTrack id "") (tracks e !! id).
