(* ===== verification/FusionReplay.v ===== *)
(** * Replaying the persisted associations ([Engine.Replay])

    After a restart the engine is rebuilt from the associations that its
    ingests persisted.  The rebuilt engine agrees with the engine before the
    restart on everything but the alert latches and the labels: the same
    tracks, points, MMSI bindings, last AIS reports, zone entries and pair
    proximity. *)

From S2P Require Import Prelude GoStrings GoTime Float64 Geo Classification Detection Fusion FusionInv FusionSamples.

(** ** What the replay promises to restore *)

Definition erase_track (t : Track) : Track :=
  mkTrack (TrackID t) (trk_mmsi t) "" (Points t) (lastAISAt t) (zoneEnter t) ∅ (nearSince t) ∅ false.

Definition erase (e : Engine) : Engine :=
  mkEngine (eng_config e) (zones e) (erase_track <$> tracks e) (byMMSI e).

(** The top-level MMSI and the one of the AIS payload do not contradict each
    other ([Validate] does not compare them). *)
Definition mmsi_consistent (d : Detection) : Prop :=
  ∀ a, AIS d = Some a → MMSI d = "" ∨ MMSI d = ais_mmsi a.

(** Ingests and scans, with the associations they persist. *)
Inductive ingest_run : Engine → list (string * Detection) → Engine → Prop :=
| run_nil e : ingest_run e [] e
| run_ingest env e d id out e1 l e2 :
    tracks e !! env_newID env = None →
    trim_space (env_newID env) ≠ "" → str_len (env_newID env) <= 128 →
    Ingest env e d = Some (Ok (id, out), e1) →
    range_order (evaluate_order env) (tracks e1) →
    ingest_run e1 l e2 → ingest_run e ((id, d) :: l) e2
| run_reject env e d err e1 l e2 :
    Ingest env e d = Some (Err err, e1) → ingest_run e1 l e2 → ingest_run e l e2
| run_scan order now e l e2 :
    ingest_run (ScanDarkVessels order now e).1 l e2 → ingest_run e l e2.

Inductive replay_run : Engine → list (string * Detection) → Engine → Prop :=
| replay_nil e : replay_run e [] e
| replay_cons order e id d e1 l e2 :
    Replay order e id d = (Ok tt, e1) → range_order order (tracks e1) →
    replay_run e1 l e2 → replay_run e ((id, d) :: l) e2.

(** ** Erasure commutes with the operations *)

Definition keyed (e : Engine) : Prop := ∀ id t, tracks e !! id = Some t → TrackID t = id.

Lemma erase_store e t : erase (store_track e t) = store_track (erase e) (erase_track t).
Proof. unfold erase, store_track, set_tracks. simpl. by rewrite fmap_insert. Qed.

Lemma erase_lookup e id : tracks (erase e) !! id = erase_track <$> tracks e !! id.
Proof. apply lookup_fmap. Qed.

Lemma restore_pair_erase id point e o :
  erase (restore_pair_step id point e o) = restore_pair_step id point (erase e) o.
Proof.
  unfold restore_pair_step. rewrite !erase_lookup.
  destruct (tracks e !! id) as [t|]; [|done]. destruct (tracks e !! o) as [u|]; [|done].
  simpl. destruct (TrackID u =s TrackID t); [done|].
  change (Last (erase_track u)) with (Last u). destruct (Last u) as [lp|]; [|done].
  change (proximity (eng_config e) (erase_track t) (erase_track u) point lp)
    with (proximity (eng_config e) t u point lp).
  destruct (proximity _ _ _ _ _); simpl; by rewrite !erase_store.
Qed.

Lemma rendezvous_erase now refs id point e out o :
  erase (rendezvous_step now refs id point (e, out) o).1 = restore_pair_step id point (erase e) o.
Proof.
  unfold rendezvous_step, restore_pair_step. rewrite !erase_lookup.
  destruct (tracks e !! id) as [t|]; [|done]. destruct (tracks e !! o) as [u|]; [|done].
  simpl. destruct (TrackID u =s TrackID t); [done|].
  change (Last (erase_track u)) with (Last u). destruct (Last u) as [lp|]; [|done].
  change (proximity (eng_config e) (erase_track t) (erase_track u) point lp)
    with (proximity (eng_config e) t u point lp).
  destruct (proximity _ _ _ _ _); simpl; [destruct (_ && _)|]; simpl; by rewrite !erase_store.
Qed.

Lemma rendezvous_loop_erase now refs id point order e out :
  erase (foldl (rendezvous_step now refs id point) (e, out) order).1 =
  foldl (restore_pair_step id point) (erase e) order.
Proof.
  revert e out. induction order as [|o order IH]; intros e out; cbn [foldl]; [done|].
  rewrite <- (rendezvous_erase now refs id point e out).
  destruct (rendezvous_step now refs id point (e, out) o) as [e1 out1]. apply IH.
Qed.

Lemma restore_loop_erase id point order e :
  erase (foldl (restore_pair_step id point) e order) =
  foldl (restore_pair_step id point) (erase e) order.
Proof.
  revert e. induction order as [|o order IH]; intros e; simpl; [done|].
  by rewrite IH, restore_pair_erase.
Qed.

(** Evaluation and restoration erase to the same loop. *)
Lemma evaluate_erase order now e t point d :
  erase (evaluateLocked order now e t point d).1 =
  foldl (restore_pair_step (TrackID t) point)
    (store_track (erase e) (erase_track (with_zones t (entries_after (zones e) t point) ∅))) order.
Proof.
  unfold evaluateLocked.
  destruct (loiter_rule_spec (eng_config e) now (CorrelationRefs d) (zones e) t point)
    as (fired&->&_&_).
  by rewrite rendezvous_loop_erase, erase_store.
Qed.

Lemma restore_erase order e t point :
  erase (restoreRuleStateLocked order e t point) =
  foldl (restore_pair_step (TrackID t) point)
    (store_track (erase e) (erase_track (with_zones t (entries_after (zones e) t point) ∅))) order.
Proof. by rewrite restore_spec, restore_loop_erase, erase_store. Qed.

(** A scan only moves latches. *)
Lemma scan_step_erase now e out id :
  keyed e → erase (scan_step now (e, out) id).1 = erase e ∧ keyed (scan_step now (e, out) id).1.
Proof.
  intros HK. unfold scan_step. destruct (tracks e !! id) as [t|] eqn:Et; [|done].
  pose proof (HK _ _ Et) as <-. destruct (_ || _); [done|].
  destruct (Last t); [|done]. destruct (_ <? _); [done|]. destruct (ZonesContaining _ _); [done|].
  simpl. rewrite erase_store. split.
  - unfold store_track, set_tracks, erase. simpl. f_equal. apply insert_id.
    by rewrite lookup_fmap, Et.
  - intros i u. rewrite tracks_store. simpl. intros [[<- <-]|[? ?]]%lookup_insert_Some; [done|by apply HK].
Qed.

Lemma scan_erase order now e : keyed e → erase (ScanDarkVessels order now e).1 = erase e.
Proof.
  unfold ScanDarkVessels. generalize (@nil Emission). revert e.
  induction order as [|id order IH]; intros e out HK; cbn [foldl]; [done|].
  destruct (scan_step_erase now e out id HK) as [HE HK'].
  destruct (scan_step now (e, out) id) as [e1 out1]. by rewrite IH.
Qed.

(** ** The pair loop does not depend on its order *)

Definition set_near (o : string) (v : option Z) (t : Track) : Track :=
  with_near t (partial_alter (λ _, v) o (nearSince t)).

(** The new proximity start of a pair, when the pair is evaluated at all. *)
Definition pair_value (id : string) (point : TrackPoint) (e : Engine) (o : string)
    : option (option Z) :=
  match tracks e !! id, tracks e !! o with
  | Some t, Some u =>
      if decide (o = id) then None
      else (λ lp, proximity (eng_config e) t u point lp) <$> Last u
  | _, _ => None
  end.

Definition apply_pair (id o : string) (v : option Z) (e : Engine) : Engine :=
  set_tracks e (alter (set_near o v) id (alter (set_near id v) o (tracks e))).

Lemma restore_pair_eq id point e o :
  keyed e →
  restore_pair_step id point e o =
  match pair_value id point e o with None => e | Some v => apply_pair id o v e end.
Proof.
  intros HK. unfold restore_pair_step, pair_value.
  destruct (tracks e !! id) as [t|] eqn:Et; [|done].
  destruct (tracks e !! o) as [u|] eqn:Eu; [|done].
  pose proof (HK _ _ Et) as <-. pose proof (HK _ _ Eu) as <-.
  case_decide as Hd.
  - rewrite Hd, String.eqb_refl. done.
  - replace (TrackID u =s TrackID t) with false by (symmetry; by apply String.eqb_neq).
    destruct (Last u) as [lp|]; [|done]. cbn [fmap option_fmap option_map].
    unfold store_track, set_tracks, apply_pair, set_tracks. simpl.
    assert (E : ∀ t' u', TrackID t' = TrackID t → TrackID u' = TrackID u →
      t' = set_near (TrackID u) (proximity (eng_config e) t u point lp) t →
      u' = set_near (TrackID t) (proximity (eng_config e) t u point lp) u →
      <[TrackID t' := t']> (<[TrackID u' := u']> (tracks e)) =
      alter (set_near (TrackID u) (proximity (eng_config e) t u point lp)) (TrackID t)
        (alter (set_near (TrackID t) (proximity (eng_config e) t u point lp)) (TrackID u) (tracks e))).
    { intros t' u' -> -> -> ->. apply map_eq. intros i.
      destruct (decide (i = TrackID t)) as [->|].
      - rewrite lookup_insert_eq, lookup_alter_eq, lookup_alter_ne, Et by done. done.
      - rewrite lookup_insert_ne, lookup_alter_ne by done.
        destruct (decide (i = TrackID u)) as [->|].
        + by rewrite lookup_insert_eq, lookup_alter_eq, Eu.
        + by rewrite lookup_insert_ne, lookup_alter_ne by done. }
    destruct (proximity _ _ _ _ _) as [since|] eqn:Ep; simpl;
      apply (f_equal (λ m, mkEngine (eng_config e) (zones e) m (byMMSI e)));
      by apply (E (with_near t _) (with_near u _)).
Qed.

Lemma restore_pair_keyed id point e o : keyed e → keyed (restore_pair_step id point e o).
Proof.
  intros HK. rewrite restore_pair_eq by done. destruct (pair_value _ _ _ _); [|done].
  intros i w. simpl. rewrite !lookup_alter. repeat case_decide; subst; intros Hw;
    repeat match goal with
    | E : _ <$> _ = Some _ |- _ => apply fmap_Some in E as (?&?&->)
    end; simpl; by apply HK.
Qed.

(** The evaluation of one pair does not see the update of another. *)
Lemma pair_value_other id point e a b v :
  keyed e → a ≠ b → a ≠ id → pair_value id point (apply_pair id a v e) b = pair_value id point e b.
Proof.
  intros HK Hab Hai. unfold pair_value, apply_pair. simpl.
  rewrite lookup_alter_eq, lookup_alter_ne by done.
  destruct (tracks e !! id) as [t|]; [|done]. simpl.
  destruct (decide (b = id)) as [->|Hb].
  - by repeat case_match.
  - rewrite !lookup_alter_ne by done. destruct (tracks e !! b) as [u|] eqn:Eu; [|done].
    pose proof (HK _ _ Eu) as <-.
    destruct (Last u) as [lp|]; [|done]. simpl. f_equal. unfold proximity. simpl.
    by rewrite lookup_partial_alter_ne.
Qed.

Lemma apply_pair_comm id a b v w e :
  a ≠ b → a ≠ id → b ≠ id →
  apply_pair id a v (apply_pair id b w e) = apply_pair id b w (apply_pair id a v e).
Proof.
  intros Hab Ha Hb. unfold apply_pair, set_tracks. simpl. f_equal. apply map_eq. intros i.
  rewrite !lookup_alter. repeat case_decide; subst; try done.
  rewrite <- !option_fmap_compose. destruct (tracks e !! _); [|done]. simpl. f_equal.
  unfold set_near, with_near. simpl. f_equal. by rewrite partial_alter_partial_alter, decide_False by done.
Qed.

Lemma pair_value_ne id point e o v : pair_value id point e o = Some v → o ≠ id.
Proof.
  unfold pair_value. destruct (tracks e !! id); [|done]. destruct (tracks e !! o); [|done].
  by case_decide.
Qed.

Lemma restore_pair_comm id point e a b :
  keyed e →
  restore_pair_step id point (restore_pair_step id point e a) b =
  restore_pair_step id point (restore_pair_step id point e b) a.
Proof.
  intros HK. destruct (decide (a = b)) as [->|Hab]; [done|].
  rewrite !(restore_pair_eq _ _ (restore_pair_step _ _ _ _)) by (by apply restore_pair_keyed).
  rewrite !restore_pair_eq by done.
  destruct (pair_value id point e a) as [va|] eqn:Ea, (pair_value id point e b) as [vb|] eqn:Eb;
    try apply pair_value_ne in Ea as Na; try apply pair_value_ne in Eb as Nb;
    rewrite ?pair_value_other, ?Ea, ?Eb by done; try done.
  by rewrite apply_pair_comm.
Qed.

Lemma restore_loop_perm id point e order1 order2 :
  keyed e → order1 ≡ₚ order2 →
  foldl (restore_pair_step id point) e order1 = foldl (restore_pair_step id point) e order2.
Proof.
  intros HK Hp. apply (foldl_perm keyed); auto using restore_pair_keyed, restore_pair_comm.
Qed.

(** ** One association: ingest and replay agree up to erasure *)

Lemma erase_tracks_None e f id : erase e = erase f → tracks e !! id = None ↔ tracks f !! id = None.
Proof.
  intros H. pose proof (erase_lookup e id) as E1. pose proof (erase_lookup f id) as E2.
  rewrite H, E2 in E1. by destruct (tracks e !! id), (tracks f !! id).
Qed.

Lemma erase_lookup_Some e f id t :
  erase e = erase f → tracks e !! id = Some t →
  ∃ u, tracks f !! id = Some u ∧ erase_track u = erase_track t.
Proof.
  intros H Ht. assert (E : tracks (erase e) !! id = Some (erase_track t)) by (by rewrite erase_lookup, Ht).
  rewrite H, erase_lookup in E. apply fmap_Some in E as (u&?&?). eauto.
Qed.

Lemma erase_absorbed t u d p :
  erase_track t = erase_track u → erase_track (absorbed t d p) = erase_track (absorbed u d p).
Proof.
  intros H. unfold erase_track in *. simpl. injection H as -> -> -> -> -> ->. done.
Qed.

Lemma erase_absorb e f t u d p :
  detection_ok d → erase e = erase f → erase_track t = erase_track u →
  erase (absorbPointLocked e t d p).2 = erase (absorbPointLocked f u d p).2.
Proof.
  intros Hd He Ht. rewrite !absorb_spec by done. simpl.
  pose proof (erase_absorbed t u d p Ht) as Ha.
  assert (Hs : erase (store_track e (absorbed t d p)) = erase (store_track f (absorbed u d p)))
    by (by rewrite !erase_store, He, Ha).
  assert (TrackID t = TrackID u ∧ trk_mmsi t = trk_mmsi u) as [-> ->]
    by (by injection Ht).
  destruct (_ && _); [|done]. unfold erase, bind_mmsi in *. simpl in *. by injection Hs as -> -> -> ->.
Qed.

(** The evaluation loop and the replay loop, from erased-equal engines. *)
Lemma erase_evaluate order1 order2 now e f t u point d :
  erase e = erase f → erase_track t = erase_track u → keyed e →
  order1 ≡ₚ order2 →
  erase (evaluateLocked order1 now e t point d).1 = erase (restoreRuleStateLocked order2 f u point).
Proof.
  intros He Ht HK Hp. rewrite evaluate_erase, restore_erase, He.
  assert (Hz : zones e = zones f) by (by injection He).
  assert (Hu : erase_track (with_zones t (entries_after (zones e) t point) ∅) =
               erase_track (with_zones u (entries_after (zones f) u point) ∅)).
  { unfold entries_after, entries, erase_track in *. simpl in *. rewrite Hz.
    injection Ht as -> -> -> -> -> ->. done. }
  assert (TrackID t = TrackID u) as -> by (by injection Ht).
  rewrite Hu. apply restore_loop_perm; [|done]. rewrite <- He.
  intros i w. rewrite tracks_store. intros [[<- <-]|[_ Hw]]%lookup_insert_Some; [done|].
  rewrite erase_lookup in Hw. apply fmap_Some in Hw as (x&Hx&->). exact (HK _ _ Hx).
Qed.

(** The track an association starts from, on either side. *)
Lemma erase_start e f id t newID d p e1 :
  engine_inv e → is_nan (CorrelationRadiusMeters (eng_config e)) = false →
  erase e = erase f → mmsi_consistent d → detection_ok d → tracks e !! newID = None →
  (∃ order, associate order newID e d p = (id, e1)) → tracks e1 !! id = Some t →
  let '(u, f1) := match tracks f !! id with
                  | Some u => (u, f)
                  | None => let u := newTrack id (det_classification d) in (u, store_track f u)
                  end in
  erase (absorbPointLocked e1 t d p).2 = erase (absorbPointLocked f1 u d p).2 ∧
  erase_track (absorbed t d p) = erase_track (absorbed u d p).
Proof.
  intros HI Hr He Hm Hd Hf [order EA] Ht.
  destruct (associate_cases _ _ _ _ _ _ _ HI Hr EA) as [[-> _]|[-> ->]].
  - destruct (erase_lookup_Some _ _ _ _ He Ht) as (u&->&Hu). split.
    + by apply erase_absorb.
    + by apply erase_absorbed.
  - apply (erase_tracks_None e f newID He) in Hf as ->.
    assert (HL : tracks (add_fresh e newID d) = <[newID := fresh_track newID d]> (tracks e)).
    { unfold add_fresh. by destruct (MMSI d =s ""). }
    rewrite HL, lookup_insert_eq in Ht. injection Ht as <-.
    assert (HA : erase_track (absorbed (fresh_track newID d) d p) =
                 erase_track (absorbed (newTrack newID (det_classification d)) d p)).
    { unfold erase_track, absorbed, fresh_track. simpl. f_equal.
      destruct (MMSI d =s "") eqn:Em; [done|]. bprop. unfold observed_mmsi.
      destruct (AIS d) as [a|] eqn:Ea; [|done]. by destruct (Hm a Ea). }
    split; [|done]. rewrite !absorb_spec by done. simpl. unfold add_fresh.
    assert (Ho : MMSI d ≠ "" → observed_mmsi d = MMSI d).
    { intros. unfold observed_mmsi. destruct (AIS d) as [a|] eqn:Ea; [|done]. by destruct (Hm a Ea). }
    assert (HT : ∀ e', tracks e' = <[newID := fresh_track newID d]> (tracks e) →
      erase_track <$> tracks (store_track e' (absorbed (fresh_track newID d) d p)) =
      erase_track <$> tracks (store_track (store_track f (newTrack newID (det_classification d)))
        (absorbed (newTrack newID (det_classification d)) d p))).
    { intros e' He'. rewrite !tracks_store, He'. simpl. rewrite !insert_insert_eq, !fmap_insert, HA.
      f_equal. by injection He. }
    destruct (MMSI d =s "") eqn:Em; bprop.
    + destruct (negb (observed_mmsi d =s "")); unfold erase;
        simpl; f_equal; try (by injection He);
        try exact (HT (store_track e (fresh_track newID d)) eq_refl).
      f_equal. by injection He.
    + rewrite (Ho Em). replace (MMSI d =s "") with false by (symmetry; by apply String.eqb_neq).
      unfold erase; simpl; f_equal; try (by injection He);
        try exact (HT (store_track e (fresh_track newID d)) eq_refl).
      f_equal. by injection He.
Qed.

Lemma inv_keyed e : engine_inv e → keyed e.
Proof. intros [HC _] id t. apply (core_key _ HC). Qed.

Lemma replay_step env order e f d id out e1 :
  engine_inv e → engine_inv f → is_nan (CorrelationRadiusMeters (eng_config e)) = false →
  erase e = erase f → mmsi_consistent d → tracks e !! env_newID env = None →
  trim_space id ≠ "" → str_len id <= 128 →
  Ingest env e d = Some (Ok (id, out), e1) → range_order (evaluate_order env) (tracks e1) →
  range_order order (tracks e1) →
  ∃ f1, Replay order f id d = (Ok tt, f1) ∧ erase e1 = erase f1.
Proof.
  intros HI HF Hr He Hm Hfr Hid1 Hid2. unfold Ingest, Replay.
  destruct (Validate d) as [[]|err] eqn:HV; [|done].
  destruct (negb (HasPosition d)); [done|].
  destruct (NewPosition _ _) as [p|err]; [|done].
  apply Validate_detection_ok in HV as Hd.
  destruct (associate _ _ e d p) as [id0 e0] eqn:EA.
  destruct (tracks e0 !! id0) as [t|] eqn:Et; [|done].
  destruct (associate_core _ _ _ _ _ _ _ HI Hr Hd Hfr EA) as (HC1&HS1&C1&Z1&_).
  destruct (absorbPointLocked e0 t d p) as [[point t'] ea] eqn:EB.
  destruct (evaluateLocked _ _ ea t' point d) as [e3 out3] eqn:EV.
  intros [= -> -> ->] Ho1 Ho2.
  assert ((trim_space id =s "") || (128 <? str_len id) = false) as ->.
  { apply orb_false_iff. split; [by apply String.eqb_neq|]. lia. }
  pose proof (erase_start e f id t (env_newID env) d p e0 HI Hr He Hm Hd Hfr
                (ex_intro _ _ EA) Et) as HS.
  pose proof (replay_start f id d HF Hd) as HR.
  destruct (match tracks f !! id with Some _ => _ | None => _ end) as [u f0].
  destruct HR as (HCf&_&Hu&<-&_). destruct HS as [HS1' HS2].
  pose proof (core_key _ HC1 _ _ Et) as Hkey.
  rewrite EB in HS1'. destruct (absorbPointLocked f0 u d p) as [[pointf u'] fa] eqn:EBf.
  assert (Et' : tracks e0 !! TrackID t = Some t) by (by rewrite Hkey).
  destruct (absorb_core _ _ _ _ _ _ _ HC1 Et' Hd EB) as (->&->&HCa&Ta&_&_).
  destruct (absorb_core _ _ _ _ _ _ _ HCf Hu Hd EBf) as (->&->&_&_&_&_).
  exists (restoreRuleStateLocked order fa (absorbed u d p) (point_of d p)). split; [done|].
  replace e1 with (evaluateLocked (evaluate_order env) (env_now env) ea (absorbed t d p) (point_of d p) d).1
    by (by rewrite EV).
  apply erase_evaluate; [done|done|intros i w; apply (core_key _ HCa)|].
  unfold range_order in *. by rewrite Ho1, Ho2.
Qed.

Definition id_ok (id : string) : Prop := trim_space id ≠ "" ∧ str_len id <= 128.

Lemma Ingest_ids env e d id out e1 :
  engine_inv e → is_nan (CorrelationRadiusMeters (eng_config e)) = false →
  tracks e !! env_newID env = None → id_ok (env_newID env) →
  (∀ k, is_Some (tracks e !! k) → id_ok k) →
  Ingest env e d = Some (Ok (id, out), e1) →
  id_ok id ∧ ∀ k, is_Some (tracks e1 !! k) → id_ok k.
Proof.
  intros HI Hr Hf Hnew Hold Hin.
  destruct (Ingest_Ok _ _ _ _ _ _ HI Hr Hf Hin) as (p&t&e0&ea&HP).
  destruct (phases_dom _ _ _ _ _ _ _ _ _ _ HI Hr HP) as [Hid Hdom].
  assert (id_ok id) by (destruct Hid as [?| ->]; auto).
  split; [done|]. intros k [->|?]%Hdom; auto.
Qed.

(** A whole run, from engines that agree up to erasure. *)
Lemma replay_run_ok e l e2 f :
  ingest_run e l e2 → engine_inv e → engine_inv f →
  is_nan (CorrelationRadiusMeters (eng_config e)) = false →
  (∀ k, is_Some (tracks e !! k) → id_ok k) →
  erase e = erase f → Forall (λ a, mmsi_consistent a.2) l →
  (∃ f2, replay_run f l f2) ∧ ∀ f2, replay_run f l f2 → erase f2 = erase e2.
Proof.
  intros Hrun. revert f. induction Hrun as
    [e|env e d id out e1 l e2 Hfr Ht1 Ht2 Hin Hord Hrun IH|env e d err e1 l e2 Hin Hrun IH
    |order now e l e2 Hrun IH]; intros f HI HF Hr Hids He Hl.
  - split; [exists f; constructor|]. intros f2 Hf2. inversion Hf2; subst. done.
  - apply Forall_cons in Hl as [Hm Hl].
    destruct (Ingest_ids env e d id out e1 HI Hr Hfr (conj Ht1 Ht2) Hids Hin) as [[Hid1 Hid2] Hids1].
    destruct (Ingest_inv env e d HI Hr Hfr) as (r&e'&Hin'&HI1&HC1).
    rewrite Hin in Hin'. injection Hin' as <- <-.
    destruct (Ingest_Ok _ _ _ _ _ _ HI Hr Hfr Hin) as (p&t&e0&ea&HP).
    destruct (phases_dom _ _ _ _ _ _ _ _ _ _ HI Hr HP) as [_ Hdom].
    assert (Hord' : ∀ order f1, Replay order f id d = (Ok tt, f1) →
      range_order order (tracks f1) ↔ range_order order (tracks e1)).
    { intros order f1 Hf1. destruct (Replay_inv _ _ _ _ _ _ HF Hf1) as (_&_&HD).
      unfold range_order. replace (dom (tracks f1)) with (dom (tracks e1)); [done|].
      apply set_eq. intros k. rewrite !elem_of_dom, Hdom, HD by done.
      rewrite <- !not_eq_None_Some, (erase_tracks_None e f k He). done. }
    assert (Hnext : ∀ order f1, Replay order f id d = (Ok tt, f1) → range_order order (tracks e1) →
      (∃ f2, replay_run f1 l f2) ∧ ∀ f2, replay_run f1 l f2 → erase f2 = erase e2).
    { intros order f1 Hf1 Ho.
      destruct (replay_step env order e f d id out e1) as (f1'&Hf1'&He1); try done.
      rewrite Hf1 in Hf1'. injection Hf1' as <-.
      destruct (Replay_inv _ _ _ _ _ _ HF Hf1) as (HF1&_). apply IH; try done. by rewrite HC1. }
    split.
    + destruct (replay_step env (evaluate_order env) e f d id out e1) as (f1&Hf1&_); try done.
      destruct (Hnext _ _ Hf1 Hord) as [[f2 Hf2] _]. exists f2.
      econstructor; [done|by apply (Hord' _ _ Hf1)|done].
    + intros f2 Hf2. inversion Hf2 as [|order ? ? ? f1 ? ? Hf1 Ho Hf1']; subst.
      apply (Hord' _ _ Hf1) in Ho. by apply (Hnext _ _ Hf1 Ho).
  - apply Ingest_Err in Hin as ->. by apply IH.
  - destruct (ScanDarkVessels_inv order now e HI) as [HI1 HC1].
    pose proof (scan_erase order now e (inv_keyed e HI)) as HE.
    apply IH; try done; [by rewrite HC1| |by rewrite HE].
    intros k Hk. apply Hids. rewrite <- !not_eq_None_Some in *. intros Hn. apply Hk.
    by apply (erase_tracks_None _ _ k HE).
Qed.

(** ** Property *)

(** Replaying the associations of a run onto a new engine is accepted
    entry by entry and rebuilds the engine of the run: the same tracks with
    the same points, MMSI bindings, last AIS reports, zone entries and pair
    proximity, whatever order the map loops take.  Only the alert latches and
    the labels may differ.  The detections must not carry two different MMSIs. *)
Theorem Replay_restores config zs e0 l e :
  NewEngine config zs = Ok e0 → ingest_run e0 l e → Forall (λ a, mmsi_consistent a.2) l →
  (∃ e', replay_run e0 l e') ∧ ∀ e', replay_run e0 l e' → erase e' = erase e.
Proof.
  intros (HI&<-&HV&HT&_)%NewEngine_inv Hrun Hl.
  apply config_radius in HV as Hr.
  assert (Hids : ∀ k, is_Some (tracks e0 !! k) → id_ok k) by (intros k; rewrite HT; by intros [? ?]).
  by eapply replay_run_ok.
Qed.

Definition sample_associations : list (string * Detection) :=
  [("t1", sample_ais "ev1" "636012345" 0 60); ("t2", sample_sar "ev2" 100 61)].
Definition sample_env1 : IngestEnv := sample_env [] ["t1"] "t1" 60.
Definition sample_env2 : IngestEnv := sample_env ["t1"] ["t2"; "t1"] "t2" 61.
Definition sample_engine1 : Engine :=
  engine_after sample_env1 sample_engine (sample_ais "ev1" "636012345" 0 60).
Definition sample_engine2 : Engine :=
  engine_after sample_env2 sample_engine1 (sample_sar "ev2" 100 61).

Lemma sample_run : ingest_run sample_engine sample_associations sample_engine2.
Proof.
  apply (run_ingest sample_env1 _ _ _ (ingest_out sample_env1 sample_engine
           (sample_ais "ev1" "636012345" 0 60)) sample_engine1); [by vm_compute..|].
  apply (run_ingest sample_env2 _ _ _ (ingest_out sample_env2 sample_engine1
           (sample_sar "ev2" 100 61)) sample_engine2); [by vm_compute..| |constructor].
  vm_compute. apply perm_swap || reflexivity.
Qed.

Lemma Replay_restores_witness :
  ∃ e', replay_run sample_engine sample_associations e'.
Proof.
  apply (Replay_restores DefaultConfig [sample_zone] _ _ sample_engine2 sample_engine_new sample_run).
  apply Forall_cons_2; [|apply Forall_cons_2; [|apply Forall_nil_2]].
  - intros a [= <-]. by right.
  - done.
Defined.
