(* ===== verification/FusionRules.v ===== *)
(** * What the fusion engine promises

    Reachable states, association, the emission rules, the labels of the
    anomalies and the independence of the pair loop from the map order. *)

From S2P Require Import Prelude GoStrings GoTime Float64 Geo Classification Detection Fusion.
From S2P Require Import FusionInv FusionSamples FusionReplay.

(** ** Reachability *)

Inductive engine_step : Engine → Engine → Prop :=
| step_ingest env e d r e' :
    tracks e !! env_newID env = None → Ingest env e d = Some (r, e') → engine_step e e'
| step_replay order e id d r e' : Replay order e id d = (r, e') → engine_step e e'
| step_scan order now e : engine_step e (ScanDarkVessels order now e).1.

Lemma engine_step_inv e e' :
  engine_step e e' → engine_inv e → is_nan (CorrelationRadiusMeters (eng_config e)) = false →
  engine_inv e' ∧ eng_config e' = eng_config e.
Proof.
  intros Hs HI Hr. destruct Hs as [env e d r e' Hf Hin|order e id d r e' H|order now e].
  - destruct (Ingest_inv env e d HI Hr Hf) as (r'&e''&Hin'&?&?). rewrite Hin in Hin'. by simplify_eq.
  - by apply Replay_inv in H as (?&?&_).
  - by apply ScanDarkVessels_inv.
Qed.

Lemma reachable_core config zs e0 e :
  NewEngine config zs = Ok e0 → rtc engine_step e0 e →
  engine_inv e ∧ is_nan (CorrelationRadiusMeters (eng_config e)) = false.
Proof.
  intros (HI&<-&HV&_)%NewEngine_inv Hs. apply config_radius in HV.
  induction Hs as [e|e1 e2 e3 H12 _ IH]; [done|].
  destruct (engine_step_inv _ _ H12 HI HV) as [HI2 HC2]. apply IH; [done|by rewrite HC2].
Qed.

(** ** The pair loop in closed form *)

(** The label and latch side of a rendezvous, and the proximity update. *)
Definition update_self (o : string) (v : option Z) (alert : bool) (label : Classification)
    (t : Track) : Track :=
  let t := set_near o v t in
  if alert then with_class (with_rendez t ({[o]} ∪ rendezAlerted t)) (MaxClassification (trk_class t) label)
  else t.

Definition update_other (id : string) (v : option Z) (alert : bool) (u : Track) : Track :=
  let u := set_near id v u in
  if alert then with_rendez u ({[id]} ∪ rendezAlerted u) else u.

(** Does the pair with [o] raise a rendezvous? *)
Definition rendezvous_due (id : string) (point : TrackPoint) (e : Engine) (o : string) : bool :=
  match tracks e !! id, pair_value id point e o with
  | Some t, Some (Some since) =>
      negb (bool_decide (o ∈ rendezAlerted t)) &&
      (RendezvousMinDuration (eng_config e) <=? time_sub (pt_observed point) since)
  | _, _ => false
  end.

Definition label_of (e : Engine) (o : string) : Classification :=
  match tracks e !! o with Some u => trk_class u | None => "" end.

Definition pair_update (id o : string) (v : option Z) (alert : bool) (label : Classification)
    (e : Engine) : Engine :=
  set_tracks e (alter (update_self o v alert label) id (alter (update_other id v alert) o (tracks e))).

Definition pair_engine (id : string) (point : TrackPoint) (e : Engine) (o : string) : Engine :=
  match pair_value id point e o with
  | None => e
  | Some v => pair_update id o v (rendezvous_due id point e o) (label_of e o) e
  end.

Definition rendezvous_emission (now : Z) (refs : list string) (id : string) (point : TrackPoint)
    (e : Engine) (o : string) : Emission :=
  (mkAnomaly (anomaly_id AnomalyRendezvous id now) AnomalyRendezvous [id; o] ""
     (MaxClassification (label_of e id) (label_of e o)) now
     (DetailRendezvous (RendezvousRadiusMeters (eng_config e)) (RendezvousMinDuration (eng_config e))) refs,
   latency now (pt_observed point)).

Lemma insert_pair e t u t' u' f g :
  keyed e → tracks e !! TrackID t = Some t → tracks e !! TrackID u = Some u →
  TrackID u ≠ TrackID t → TrackID t' = TrackID t → TrackID u' = TrackID u → t' = f t → u' = g u →
  store_track (store_track e u') t' =
  set_tracks e (alter f (TrackID t) (alter g (TrackID u) (tracks e))).
Proof.
  intros HK Ht Hu Hne It Iu Ef Eg. unfold store_track, set_tracks. simpl. f_equal.
  rewrite It, Iu, Ef, Eg. apply map_eq. intros i. destruct (decide (i = TrackID t)) as [->|].
  - by rewrite lookup_insert_eq, lookup_alter_eq, lookup_alter_ne, Ht by done.
  - rewrite lookup_insert_ne, lookup_alter_ne by done. destruct (decide (i = TrackID u)) as [->|].
    + by rewrite lookup_insert_eq, lookup_alter_eq, Hu.
    + by rewrite lookup_insert_ne, lookup_alter_ne by done.
Qed.

(** One iteration of the code's loop. *)
Lemma rendezvous_step_spec now refs id point e out o :
  keyed e →
  rendezvous_step now refs id point (e, out) o =
  (pair_engine id point e o,
   if rendezvous_due id point e o then out ++ [rendezvous_emission now refs id point e o] else out).
Proof.
  intros HK. unfold rendezvous_step, pair_engine, rendezvous_due, pair_value, rendezvous_emission, label_of.
  destruct (tracks e !! id) as [t|] eqn:Et; [|done].
  destruct (tracks e !! o) as [u|] eqn:Eu; [|done].
  pose proof (HK _ _ Et) as <-. pose proof (HK _ _ Eu) as <-.
  case_decide as Hd; [by rewrite Hd, String.eqb_refl|].
  replace (TrackID u =s TrackID t) with false by (symmetry; by apply String.eqb_neq).
  destruct (Last u) as [lp|]; [|done]. cbn [fmap option_fmap option_map].
  destruct (proximity _ _ _ _ _) as [since|]; simpl.
  - destruct (_ && _); f_equal.
    + by apply (insert_pair e t u).
    + by apply (insert_pair e t u).
  - f_equal. by apply (insert_pair e t u).
Qed.

Lemma pair_engine_keyed id point e o : keyed e → keyed (pair_engine id point e o).
Proof.
  intros HK. unfold pair_engine. destruct (pair_value _ _ _ _) as [v|]; [|done].
  intros i w. simpl. rewrite !lookup_alter.
  assert (S1 : ∀ b l t, TrackID (update_self o v b l t) = TrackID t)
    by (intros [] ? ?; done).
  assert (S2 : ∀ b t, TrackID (update_other id v b t) = TrackID t) by (intros [] ?; done).
  repeat case_decide; subst; intros Hw;
    repeat match goal with
    | E : _ <$> _ = Some _ |- _ => apply fmap_Some in E as (?&?&->)
    end; rewrite ?S1, ?S2; by apply HK.
Qed.

(** ** Pairs do not interfere *)

Definition labelled (e : Engine) : Prop :=
  keyed e ∧ ∀ id t, tracks e !! id = Some t → valid_label (trk_class t).

Lemma Max_swap c a b :
  valid_label c → valid_label a → valid_label b →
  MaxClassification (MaxClassification c a) b = MaxClassification (MaxClassification c b) a.
Proof.
  intros Hc Ha Hb. apply Rank_inj; auto with maritime_auto. rewrite !MaxClassification_rank. lia.
Qed.

Lemma update_self_near o v alert l t : nearSince (update_self o v alert l t) = nearSince (set_near o v t).
Proof. by destruct alert. Qed.
Lemma update_self_id o v alert l t : TrackID (update_self o v alert l t) = TrackID t.
Proof. by destruct alert. Qed.
Lemma update_self_rendez o v alert l t b :
  b ≠ o → b ∈ rendezAlerted (update_self o v alert l t) ↔ b ∈ rendezAlerted t.
Proof. destruct alert; simpl; set_solver. Qed.
Lemma update_other_class id v alert u : trk_class (update_other id v alert u) = trk_class u.
Proof. by destruct alert. Qed.

Lemma pair_update_lookup id a v x l e i :
  a ≠ id →
  tracks (pair_update id a v x l e) !! i =
  if decide (i = id) then update_self a v x l <$> tracks e !! id
  else if decide (i = a) then update_other id v x <$> tracks e !! a
  else tracks e !! i.
Proof.
  intros Ha. simpl. destruct (decide (i = id)) as [->|].
  - by rewrite lookup_alter_eq, lookup_alter_ne.
  - rewrite lookup_alter_ne by done. destruct (decide (i = a)) as [->|].
    + by rewrite lookup_alter_eq.
    + by rewrite lookup_alter_ne.
Qed.

(** What the loop reads at [b] is the same before and after the update of
    another pair. *)
Lemma pair_update_other id point e a b v x l :
  keyed e → a ≠ b → a ≠ id →
  pair_value id point (pair_update id a v x l e) b = pair_value id point e b ∧
  (b ≠ id → label_of (pair_update id a v x l e) b = label_of e b) ∧
  rendezvous_due id point (pair_update id a v x l e) b = rendezvous_due id point e b.
Proof.
  intros HK Hab Hai.
  assert (HV : pair_value id point (pair_update id a v x l e) b = pair_value id point e b).
  { unfold pair_value. rewrite !(pair_update_lookup id a) by done.
    rewrite decide_True by done. destruct (tracks e !! id) as [t|]; [|done]. simpl.
    destruct (decide (b = id)) as [->|Hb]; [by repeat case_match|].
    rewrite decide_False by done. destruct (tracks e !! b) as [u|] eqn:Eu; [|done].
    pose proof (HK _ _ Eu) as <-. destruct (Last u) as [lp|]; [|done]. simpl. f_equal.
    unfold proximity. rewrite update_self_near, update_self_id. simpl.
    by rewrite lookup_partial_alter_ne. }
  split_and!; [done| |].
  - intros Hb. unfold label_of. rewrite pair_update_lookup by done.
    by rewrite !decide_False by done.
  - unfold rendezvous_due. rewrite HV, pair_update_lookup, decide_True by done.
    destruct (tracks e !! id) as [t|]; [|done]. simpl.
    destruct (pair_value id point e b) as [[since|]|]; [|done..].
    by rewrite (bool_decide_ext _ _ (update_self_rendez a v x l t b (not_eq_sym Hab))).
Qed.

Lemma update_self_comm a b v w x y la lb t :
  a ≠ b → valid_label (trk_class t) → valid_label la → valid_label lb →
  update_self a v x la (update_self b w y lb t) = update_self b w y lb (update_self a v x la t).
Proof.
  intros Hab Hc Ha Hb. unfold update_self, set_near, with_near, with_rendez, with_class.
  destruct x, y; simpl; f_equal; try (by apply Max_swap);
    try (by rewrite partial_alter_partial_alter, decide_False by done); set_solver.
Qed.

Lemma pair_engine_labelled id point e o : labelled e → labelled (pair_engine id point e o).
Proof.
  intros [HK HL]. split; [by apply pair_engine_keyed|]. intros i w.
  unfold pair_engine. destruct (pair_value id point e o) as [v|] eqn:Ev; [|by apply HL].
  pose proof (pair_value_ne _ _ _ _ _ Ev) as Hne. rewrite pair_update_lookup by done.
  destruct (tracks e !! id) as [t|] eqn:Et;
    [|unfold pair_value in Ev; by rewrite Et in Ev].
  assert (is_Some (tracks e !! o)) as [u Eu].
  { unfold pair_value in Ev. rewrite Et in Ev. destruct (tracks e !! o); [eauto|done]. }
  unfold label_of. rewrite Eu. simpl. repeat case_decide; intros [= <-] || (intros Hw; by eapply HL).
  - unfold update_self. case_match; simpl; [apply MaxClassification_valid|]; by eapply HL.
  - rewrite update_other_class. by eapply HL.
Qed.

Lemma pair_engine_comm id point e a b :
  labelled e →
  pair_engine id point (pair_engine id point e a) b = pair_engine id point (pair_engine id point e b) a.
Proof.
  intros [HK HL]. destruct (decide (a = b)) as [->|Hab]; [done|].
  unfold pair_engine at 2 4.
  destruct (pair_value id point e a) as [va|] eqn:Ea, (pair_value id point e b) as [vb|] eqn:Eb.
  - pose proof (pair_value_ne _ _ _ _ _ Ea) as Na. pose proof (pair_value_ne _ _ _ _ _ Eb) as Nb.
    set (xa := rendezvous_due id point e a). set (xb := rendezvous_due id point e b).
    destruct (pair_update_other id point e a b va xa (label_of e a) HK Hab Na) as (V1&L1&D1).
    destruct (pair_update_other id point e b a vb xb (label_of e b) HK (not_eq_sym Hab) Nb) as (V2&L2&D2).
    unfold pair_engine. rewrite V1, V2, Ea, Eb, (L1 Nb), (L2 Na), D1, D2. fold xa xb.
    assert (is_Some (tracks e !! id) ∧ is_Some (tracks e !! a) ∧ is_Some (tracks e !! b))
      as ([t Et]&[ua Eua]&[ub Eub]).
    { unfold pair_value in Ea, Eb. destruct (tracks e !! id), (tracks e !! a), (tracks e !! b);
        try done; eauto. }
    unfold label_of. rewrite Eua, Eub.
    unfold pair_update at 1 3. unfold set_tracks. simpl. f_equal. apply map_eq. intros i.
    rewrite !lookup_alter. repeat case_decide; subst; try done.
    rewrite Et. simpl. f_equal. apply update_self_comm; eauto.
  - pose proof (pair_value_ne _ _ _ _ _ Ea) as Na.
    destruct (pair_update_other id point e a b va (rendezvous_due id point e a) (label_of e a) HK Hab Na)
      as (V1&_&_).
    unfold pair_engine. by rewrite V1, Eb, Ea.
  - pose proof (pair_value_ne _ _ _ _ _ Eb) as Nb.
    destruct (pair_update_other id point e b a vb (rendezvous_due id point e b) (label_of e b) HK
      (not_eq_sym Hab) Nb) as (V1&_&_).
    unfold pair_engine. by rewrite V1, Ea, Eb.
  - unfold pair_engine. by rewrite Ea, Eb.
Qed.

Lemma rendezvous_loop_engine now refs id point order e out :
  keyed e → (foldl (rendezvous_step now refs id point) (e, out) order).1 =
            foldl (pair_engine id point) e order.
Proof.
  revert e out. induction order as [|o order IH]; intros e out HK; cbn [foldl]; [done|].
  rewrite rendezvous_step_spec by done. apply IH. by apply pair_engine_keyed.
Qed.

Lemma pair_loop_perm id point e order1 order2 :
  labelled e → order1 ≡ₚ order2 →
  foldl (pair_engine id point) e order1 = foldl (pair_engine id point) e order2.
Proof.
  intros HL Hp. apply (foldl_perm labelled); auto using pair_engine_labelled, pair_engine_comm.
Qed.

(** A pair that was not visited yet is as it was. *)
Lemma pair_engine_other id point e a b :
  keyed e → a ≠ b →
  rendezvous_due id point (pair_engine id point e a) b = rendezvous_due id point e b ∧
  (b ≠ id → label_of (pair_engine id point e a) b = label_of e b).
Proof.
  intros HK Hab. unfold pair_engine. destruct (pair_value id point e a) as [v|] eqn:Ev; [|done].
  pose proof (pair_value_ne _ _ _ _ _ Ev) as Hne.
  destruct (pair_update_other id point e a b v (rendezvous_due id point e a) (label_of e a) HK Hab Hne)
    as (_&?&?). done.
Qed.

(** The label of the evaluated track never falls during the loop. *)
Lemma pair_engine_label id point e o :
  Rank (label_of e id) <= Rank (label_of (pair_engine id point e o) id).
Proof.
  unfold pair_engine. destruct (pair_value id point e o) as [v|] eqn:Ev; [|lia].
  pose proof (pair_value_ne _ _ _ _ _ Ev) as Hne. unfold label_of at 1 2.
  rewrite pair_update_lookup, decide_True by done. destruct (tracks e !! id) as [t|]; simpl; [|lia].
  unfold update_self. case_match; simpl; [rewrite MaxClassification_rank; lia|lia].
Qed.

Lemma pair_engine_config id point e o : eng_config (pair_engine id point e o) = eng_config e.
Proof. unfold pair_engine. by destruct (pair_value id point e o). Qed.

(** The emissions of the loop: one per due pair, in loop order, each labelled
    at least as high as either track. *)
Record emission_for (now : Z) (refs : list string) (id : string) (point : TrackPoint) (e : Engine)
    (o : string) (em : Emission) : Prop := {
  ef_id : AnomalyID em.1 = anomaly_id AnomalyRendezvous id now;
  ef_kind : an_kind em.1 = AnomalyRendezvous;
  ef_tracks : TrackIDs em.1 = [id; o];
  ef_refs : an_refs em.1 = refs;
  ef_self : Rank (label_of e id) <= Rank (an_class em.1);
  ef_other : Rank (label_of e o) <= Rank (an_class em.1);
  ef_latency : em.2 = latency now (pt_observed point)
}.

Lemma rendezvous_loop_out now refs id point order e out :
  keyed e → NoDup order →
  ∃ ems, (foldl (rendezvous_step now refs id point) (e, out) order).2 = out ++ ems ∧
    Forall2 (emission_for now refs id point e)
      (filter (λ o, rendezvous_due id point e o = true) order) ems.
Proof.
  revert e out. induction order as [|o order IH]; intros e out HK HN.
  - exists []. rewrite app_nil_r. split; [done|constructor].
  - apply NoDup_cons in HN as [Ho HN]. cbn [foldl]. rewrite rendezvous_step_spec by done.
    destruct (IH (pair_engine id point e o)
      (if rendezvous_due id point e o then out ++ [rendezvous_emission now refs id point e o] else out)
      (pair_engine_keyed _ _ _ _ HK) HN) as (ems&->&HF).
    assert (Hfil : filter (λ b, rendezvous_due id point (pair_engine id point e o) b = true) order =
                   filter (λ b, rendezvous_due id point e b = true) order).
    { apply filter_ext_in. intros b Hb.
      by destruct (pair_engine_other id point e o b HK) as [-> _]; [intros ->|]. }
    rewrite Hfil in HF.
    assert (HF' : Forall2 (emission_for now refs id point e)
      (filter (λ b, rendezvous_due id point e b = true) order) ems).
    { eapply Forall2_impl_elem; [exact HF|]. intros b em Hb [? ? ? ? H1 H2 ?]. split; try done.
      - pose proof (pair_engine_label id point e o). lia.
      - apply list_elem_of_filter in Hb as [Hdue Hb].
        assert (b ≠ id).
        { intros ->. unfold rendezvous_due, pair_value in Hdue.
          destruct (tracks e !! id); [|done]. by rewrite decide_True in Hdue. }
        destruct (pair_engine_other id point e o b HK) as [_ HL]; [by intros ->|].
        by rewrite <- HL. }
    rewrite filter_cons. destruct (rendezvous_due id point e o) eqn:Ed.
    + exists (rendezvous_emission now refs id point e o :: ems).
      rewrite decide_True by done. split; [by rewrite <- app_assoc|]. constructor; [|done].
      split; try done; simpl; rewrite MaxClassification_rank; lia.
    + exists ems. rewrite decide_False by done. done.
Qed.

(** ** The evaluation of one point *)

Definition settled_engine (e : Engine) (t : Track) (point : TrackPoint) (fired : list string) : Engine :=
  store_track e (with_zones t (entries_after (zones e) t point) (loiterAlerted t ∪ list_to_set fired)).

Lemma settled_engine_labelled e t point fired :
  engine_core e → tracks e !! TrackID t = Some t → labelled (settled_engine e t point fired).
Proof.
  intros HC Ht. split; intros i u; unfold settled_engine; rewrite tracks_store; simpl;
    intros [[<- <-]|[_ Hu]]%lookup_insert_Some; try done.
  - by apply (core_key _ HC).
  - by destruct (core_track _ HC _ _ Ht).
  - by destruct (core_track _ HC _ _ Hu).
Qed.

(** The zone rule does not touch what the pair rule reads. *)
Lemma settled_engine_pairs e t point fired o :
  tracks e !! TrackID t = Some t →
  rendezvous_due (TrackID t) point (settled_engine e t point fired) o =
    rendezvous_due (TrackID t) point e o ∧
  label_of (settled_engine e t point fired) o = label_of e o.
Proof.
  intros Ht. unfold rendezvous_due, pair_value, label_of, settled_engine.
  rewrite tracks_store. simpl. rewrite lookup_insert_eq, Ht.
  destruct (decide (o = TrackID t)) as [->|Hne].
  - rewrite lookup_insert_eq, Ht. done.
  - rewrite lookup_insert_ne by done. destruct (tracks e !! o); done.
Qed.

Lemma evaluate_run order now e t point d :
  engine_core e → tracks e !! TrackID t = Some t → NoDup order →
  ∃ fired rendez,
    evaluateLocked order now e t point d =
    (foldl (pair_engine (TrackID t) point) (settled_engine e t point fired) order,
     speed_rule (eng_config e) now (CorrelationRefs d) t point ++
     (loiter_emission (eng_config e) now (CorrelationRefs d) t point <$> fired) ++ rendez) ∧
    NoDup fired ∧
    (∀ z, z ∈ fired ↔ in_restricted (zones e) (pt_position point) z ∧ (z ∉ loiterAlerted t) ∧
                      loiter_due (eng_config e) t point z) ∧
    Forall2 (emission_for now (CorrelationRefs d) (TrackID t) point e)
      (filter (λ o, rendezvous_due (TrackID t) point e o = true) order) rendez.
Proof.
  intros HC Ht HN.
  destruct (loiter_rule_spec (eng_config e) now (CorrelationRefs d) (zones e) t point)
    as (fired&HL&HF&Hz).
  pose proof (settled_engine_labelled e t point fired HC Ht) as HS.
  set (out0 := speed_rule (eng_config e) now (CorrelationRefs d) t point ++
               (loiter_emission (eng_config e) now (CorrelationRefs d) t point <$> fired)).
  destruct (rendezvous_loop_out now (CorrelationRefs d) (TrackID t) point order _ out0 (proj1 HS) HN)
    as (rendez&HR&HF2).
  exists fired, rendez. split_and!; try done.
  - unfold evaluateLocked. rewrite HL. rewrite (surjective_pairing (foldl _ _ order)). f_equal.
    + apply rendezvous_loop_engine, HS.
    + unfold out0 in HR. rewrite <- app_assoc in HR. exact HR.
  - assert (HE : filter (λ o, rendezvous_due (TrackID t) point e o = true) order =
      filter (λ o, rendezvous_due (TrackID t) point (settled_engine e t point fired) o = true) order).
    { apply filter_ext_in. intros o _. by destruct (settled_engine_pairs e t point fired o Ht). }
    rewrite HE. eapply Forall2_impl; [exact HF2|]. intros o em [? ? ? ? H1 H2 ?].
    destruct (settled_engine_pairs e t point fired o Ht) as [_ Ho].
    destruct (settled_engine_pairs e t point fired (TrackID t) Ht) as [_ Hi].
    rewrite Ho in H2. rewrite Hi in H1. done.
Qed.

(** Only the pair rule emits rendezvous anomalies. *)
Lemma rendezvous_pairs config now refs t point e fired order rendez :
  Forall2 (emission_for now refs (TrackID t) point e)
    (filter (λ o, rendezvous_due (TrackID t) point e o = true) order) rendez →
  (λ em : Emission, TrackIDs em.1) <$> filter (λ em : Emission, an_kind em.1 = AnomalyRendezvous)
    (speed_rule config now refs t point ++
     (loiter_emission config now refs t point <$> fired) ++ rendez) =
  (λ o, [TrackID t; o]) <$> filter (λ o, rendezvous_due (TrackID t) point e o = true) order.
Proof.
  intros HF. rewrite !filter_app.
  assert (H1 : filter (λ em : Emission, an_kind em.1 = AnomalyRendezvous)
                 (speed_rule config now refs t point) = []).
  { unfold speed_rule. by repeat case_match. }
  assert (H2 : filter (λ em : Emission, an_kind em.1 = AnomalyRendezvous)
                 (loiter_emission config now refs t point <$> fired) = []).
  { induction fired as [|z fired IH]; [done|]. rewrite fmap_cons, filter_cons. by rewrite decide_False. }
  rewrite H1, H2. simpl. induction HF as [|o em os ems [] _ IH]; [done|].
  rewrite filter_cons, decide_True by done. rewrite !fmap_cons, IH. congruence.
Qed.

(** ** Properties: invariants and association *)

(** A valid detection that carries a position carries an accepted one. *)
Lemma wgs84_position d : wgs84 d → ∃ p, NewPosition (det_latitude d) (det_longitude d) = Ok p.
Proof.
  intros H%position_guard. unfold NewPosition.
  replace (out_of_range 90 (det_latitude d) || out_of_range 180 (det_longitude d)) with false; [eauto|].
  rewrite <- H. unfold out_of_range, isFinite. simpl (- _).
  destruct (is_nan (det_latitude d)), (is_inf (det_latitude d)), (flt (det_latitude d) _),
    (fgt (det_latitude d) _), (is_nan (det_longitude d)), (is_inf (det_longitude d)); reflexivity.
Qed.

(** When an ingest is accepted, and what a refused one leaves. *)
Lemma Ingest_accepts env e d r e' :
  Ingest env e d = Some (r, e') →
  (is_ok r = true ↔ Validate d = Ok tt ∧ HasPosition d = true) ∧ (is_ok r = false → e' = e).
Proof.
  unfold Ingest. destruct (Validate d) as [[]|err] eqn:HV;
    [|intros [= <- <-]; split; [split; [done|by intros []]|done]].
  destruct (HasPosition d) eqn:HP; simpl; [|intros [= <- <-]; split; [split; [done|by intros []]|done]].
  destruct (wgs84_position d) as [p ->]; [by apply detection_contract in HV as []; auto|].
  destruct (associate _ _ _ _ _) as [id e0]. destruct (tracks e0 !! id) as [t|]; [|done].
  destruct (absorbPointLocked e0 t d p) as [[point t'] ea].
  destruct (evaluateLocked _ _ _ _ _ _) as [e1 out]. intros [= <- <-]. done.
Qed.

(** C1: Every reachable engine state satisfies the invariant: from a new engine,
    after any sequence of ingests under fresh identities, replays and
    dark-vessel scans, the map keys are the track identities, the MMSI index
    names tracks that carry the MMSI, the pair bookkeeping is symmetric and
    mentions live tracks only, and each track has 1 to 4096 points, an approved
    label, a valid MMSI or none, and exactly the zone entries of its last
    point.  An ingest on such an engine never dereferences a missing track, is
    accepted exactly when the detection passes its validation and has a
    position, and leaves the engine as it is when it is refused. *)
Theorem reachable_inv config zs e0 e :
  NewEngine config zs = Ok e0 → rtc engine_step e0 e →
  engine_inv e ∧
  ∀ env d, tracks e !! env_newID env = None →
    ∃ r e', Ingest env e d = Some (r, e') ∧
      (is_ok r = true ↔ Validate d = Ok tt ∧ HasPosition d = true) ∧ (is_ok r = false → e' = e).
Proof.
  intros HN Hs. destruct (reachable_core _ _ _ _ HN Hs) as [HI Hr]. split; [done|].
  intros env d Hf. destruct (Ingest_inv env e d HI Hr Hf) as (r&e'&Hin&_).
  exists r, e'. split; [done|]. exact (Ingest_accepts _ _ _ _ _ Hin).
Qed.

Lemma sample_ingests_steps inputs e :
  fresh_run inputs e = true → rtc engine_step e (sample_ingests inputs e).
Proof.
  revert e. induction inputs as [|[env d] inputs IH]; intros e; simpl; [by intros; apply rtc_refl|].
  intros [Hf%bool_decide_eq_true Hrest]%andb_true_iff.
  etrans; [|by apply IH]. unfold engine_after.
  destruct (Ingest env e d) as [[r e']|] eqn:E; [|apply rtc_refl]. by eapply rtc_once, step_ingest.
Qed.

Lemma sample_reachable inputs :
  fresh_run inputs sample_engine = true →
  rtc engine_step sample_engine (sample_ingests inputs sample_engine) ∧
  engine_inv (sample_ingests inputs sample_engine).
Proof.
  intros H%sample_ingests_steps. split; [done|]. apply (reachable_core _ _ _ _ sample_engine_new H).
Qed.

Lemma sample_inv : engine_inv sample_engine2.
Proof.
  by apply (sample_reachable [(sample_env1, sample_ais "ev1" "636012345" 0 60);
                              (sample_env2, sample_sar "ev2" 100 61)]).
Qed.

Lemma rendezvous_inv : engine_inv rendezvous_engine.
Proof. by apply sample_reachable. Qed.

Lemma reachable_inv_witness :
  engine_inv rendezvous_engine ∧
  ∃ r e', Ingest (sample_env ["t1"; "t2"] ["t1"; "t2"] "t3" 71) rendezvous_engine rendezvous_detection =
          Some (r, e') ∧ is_ok r = true.
Proof.
  assert (Hs : rtc engine_step sample_engine rendezvous_engine) by (by apply sample_reachable).
  destruct (reachable_inv _ _ _ _ sample_engine_new Hs) as [HI HR]. split; [exact HI|].
  destruct (HR (sample_env ["t1"; "t2"] ["t1"; "t2"] "t3" 71) rendezvous_detection) as (r&e'&H1&H2&_);
    [by vm_compute|].
  exists r, e'. split; [exact H1|]. apply H2. split; by vm_compute.
Defined.

(** No track inside the window is nearer to the detection. *)
Definition nearest (e : Engine) (d : Detection) (p : Position) (id : string) (dist : f64) : Prop :=
  candidate_distance e d p id = Some dist ∧ fle dist (CorrelationRadiusMeters (eng_config e)) = true ∧
  ∀ id' dist', candidate_distance e d p id' = Some dist' →
    fle dist' (CorrelationRadiusMeters (eng_config e)) = true → fle dist dist' = true.

Definition none_in_window (e : Engine) (d : Detection) (p : Position) : Prop :=
  ∀ id' dist', candidate_distance e d p id' = Some dist' →
    fle dist' (CorrelationRadiusMeters (eng_config e)) = false.

(** C37: A detection joins the track its MMSI is bound to; without a bound MMSI
    it joins a nearest track of the correlation window that carries no other
    MMSI, whatever order the map is visited in; and only when the window is
    empty it founds a new track, under the generated identity, with its label
    and its MMSI.  A detection that joins a track leaves the engine as it is. *)
Theorem associate_spec order newID e d p id e' :
  engine_inv e → is_nan (CorrelationRadiusMeters (eng_config e)) = false →
  range_order order (tracks e) → associate order newID e d p = (id, e') →
  (MMSI d ≠ "" ∧ byMMSI e !! MMSI d = Some id ∧ e' = e) ∨
  ((MMSI d = "" ∨ byMMSI e !! MMSI d = None) ∧
   ((∃ dist, nearest e d p id dist ∧ e' = e) ∨
    (none_in_window e d p ∧ id = newID ∧ e' = add_fresh e newID d))).
Proof.
  intros HI Hr Ho H. unfold associate, associate_scan in H.
  destruct (if negb (MMSI d =s "") then byMMSI e !! MMSI d else None) as [bound|] eqn:Eb.
  { left. injection H as <- <-. destruct (MMSI d =s "") eqn:Em; simpl in Eb; [done|]. by bprop. }
  right. split.
  { destruct (MMSI d =s "") eqn:Em; bprop; auto. }
  destruct (foldl _ _ order) as [best dist] eqn:E.
  destruct (associate_scan_nearest _ _ _ _ _ _ _ E Hr) as (Hn&Hf&Hall&Hb).
  assert (Hin : ∀ id' d', candidate_distance e d p id' = Some d' → id' ∈ order).
  { intros id' d' Hc. apply (range_order_elem order (tracks e)); [done|]. by eapply candidate_live. }
  destruct best as [best|]; simpl in H.
  - injection H as <- <-. left. exists dist. destruct Hb as [_ Hc]. split; [|done].
    split_and!; [done|done|]. intros id' d' Hc' Hd'. by eapply Hall; [eapply Hin| |].
  - right. split.
    + intros id' d' Hc'. destruct (fle d' _) eqn:Ef; [|done].
      destruct (Hall id' d' (Hin _ _ Hc') Hc' Ef) as [? _]. done.
    + unfold add_fresh, fresh_track. destruct (MMSI d =s "") eqn:Em; simpl in H;
        injection H as <- <-; [|done]. split; [done|]. bprop. by rewrite Em.
Qed.

Lemma associate_spec_witness :
  (associate ["t2"; "t1"] "t3" sample_engine2 (sample_sar "ev3" 104 62)
     (mkPosition (sample_lat 104) sample_lon)).1 = "t2" ∧
  ((∃ dist, nearest sample_engine2 (sample_sar "ev3" 104 62)
     (mkPosition (sample_lat 104) sample_lon) "t2" dist) ∨
   none_in_window sample_engine2 (sample_sar "ev3" 104 62) (mkPosition (sample_lat 104) sample_lon)).
Proof.
  assert (HO : range_order ["t2"; "t1"] (tracks sample_engine2))
    by (vm_compute; apply perm_swap || reflexivity).
  split; [by vm_compute|].
  destruct (associate_spec ["t2"; "t1"] "t3" sample_engine2 (sample_sar "ev3" 104 62)
    (mkPosition (sample_lat 104) sample_lon) "t2" sample_engine2 sample_inv eq_refl HO
    ltac:(by vm_compute)) as [(H&_)|[_ [(dist&H&_)|(H&_)]]].
  - by destruct H.
  - left. eauto.
  - by right.
Defined.

(** ** Properties: the emission rules *)

(** The newest leg of the track took a positive time and its mean speed lies
    above the baseline.  1.94384 knots are one metre per second. *)
Definition speed_outlier (config : Config) (t : Track) (point : TrackPoint) (knots : f64) : Prop :=
  ∃ older previous newest, Points t = older ++ [previous; newest] ∧
    flt fzero (Seconds (time_sub (pt_observed point) (pt_observed previous))) = true ∧
    knots = fmul (fdiv (DistanceMeters (pt_position previous) (pt_position point))
                    (Seconds (time_sub (pt_observed point) (pt_observed previous))))
              (f_of_Q 194384 100000) ∧
    flt (BaselineMaxSpeedKnots config) knots = true.

(** An anomaly on the evaluated track alone. *)
Record alert_on (now : Z) (refs : list string) (t : Track) (point : TrackPoint) (kind : AnomalyKind)
    (zone : string) (detail : AnomalyDetail) (em : Emission) : Prop := {
  al_id : AnomalyID em.1 = anomaly_id kind (TrackID t) now;
  al_kind : an_kind em.1 = kind;
  al_tracks : TrackIDs em.1 = [TrackID t];
  al_zone : an_zone em.1 = zone;
  al_class : an_class em.1 = trk_class t;
  al_at : DetectedAt em.1 = now;
  al_detail : Detail em.1 = detail;
  al_refs : an_refs em.1 = refs;
  al_latency : em.2 = latency now (pt_observed point)
}.

(** The newest point of [t] and the last point of [u] lie within the radius
    and within the minimum duration of each other; the episode began at the
    retained start, or at the earlier of the two observations. *)
Definition close_since (config : Config) (t u : Track) (point : TrackPoint) (since : Z) : Prop :=
  ∃ lastp, Last u = Some lastp ∧
    time_sub (pt_observed point) (pt_observed lastp) <= RendezvousMinDuration config ∧
    time_sub (pt_observed lastp) (pt_observed point) <= RendezvousMinDuration config ∧
    flt (RendezvousRadiusMeters config) (DistanceMeters (pt_position lastp) (pt_position point)) = false ∧
    since = default (Z.min (pt_observed lastp) (pt_observed point)) (nearSince t !! TrackID u).

(** The tracks have been close for the minimum duration, and not alerted. *)
Definition new_rendezvous (e : Engine) (t : Track) (point : TrackPoint) (o : string) : Prop :=
  o ≠ TrackID t ∧ o ∉ rendezAlerted t ∧
  ∃ u since, tracks e !! o = Some u ∧ close_since (eng_config e) t u point since ∧
    RendezvousMinDuration (eng_config e) <= time_sub (pt_observed point) since.

Lemma speed_rule_spec config now refs t point :
  (speed_rule config now refs t point = [] ∧ ∀ knots, ¬ speed_outlier config t point knots) ∨
  ∃ knots em, speed_rule config now refs t point = [em] ∧ speed_outlier config t point knots ∧
    alert_on now refs t point AnomalySpeedOutlier ""
      (DetailSpeed knots (BaselineMaxSpeedKnots config)) em.
Proof.
  unfold speed_rule, leg_knots.
  destruct (2 <=? Z.of_nat (length (Points t))) eqn:Hl; bprop.
  2: { left. split; [done|]. intros k (o&p&n&E&_). rewrite E, length_app in Hl. simpl in Hl. lia. }
  assert (∃ older previous newest, Points t = older ++ [previous; newest]) as (o&p&n&E).
  { destruct (Points t) as [|n l _] using rev_ind; [simpl in Hl; lia|].
    destruct l as [|p l _] using rev_ind; [simpl in Hl; lia|]. exists l, p, n. by rewrite <- app_assoc. }
  rewrite E. rewrite length_app. simpl.
  replace (length o + 2 - 2)%nat with (length o) by lia. rewrite list_lookup_middle by done.
  assert (HU : ∀ knots, speed_outlier config t point knots →
    flt fzero (Seconds (time_sub (pt_observed point) (pt_observed p))) = true ∧
    knots = fmul (fdiv (DistanceMeters (pt_position p) (pt_position point))
                    (Seconds (time_sub (pt_observed point) (pt_observed p)))) (f_of_Q 194384 100000) ∧
    flt (BaselineMaxSpeedKnots config) knots = true).
  { intros knots (o'&p'&n'&E'&H). rewrite E in E'.
    destruct (app_inj_2 o o' [p; n] [p'; n'] eq_refl E') as [_ [= <- <-]]. exact H. }
  unfold fgt. change SFltb with flt. cbv beta iota zeta.
  set (secs := Seconds (time_sub (pt_observed point) (pt_observed p))) in *.
  destruct (flt fzero secs) eqn:Hs.
  2: { left. split; [done|]. intros knots [H _]%HU. congruence. }
  set (kn := fmul (fdiv _ secs) _) in *. destruct (flt (BaselineMaxSpeedKnots config) kn) eqn:Hk.
  - right. eexists _, _. split; [done|]. split; [|by split]. exists o, p, n. eauto.
  - left. split; [done|]. intros knots (_&->&H)%HU. congruence.
Qed.

Lemma rendezvous_due_spec e t point o :
  engine_core e → tracks e !! TrackID t = Some t →
  rendezvous_due (TrackID t) point e o = true ↔ new_rendezvous e t point o.
Proof.
  intros HC Ht. unfold rendezvous_due, pair_value, new_rendezvous, close_since. rewrite Ht.
  destruct (tracks e !! o) as [u|] eqn:Eu; [|naive_solver].
  case_decide as Hd; [naive_solver|].
  destruct (Last u) as [lp|] eqn:El; simpl; [|naive_solver].
  pose proof (core_key _ HC _ _ Eu) as Hk.
  pose proof (core_near _ HC _ _ _ _ Ht Eu) as HN. rewrite <- Hk in HN at 1.
  unfold proximity, fgt, time_before. change SFltb with flt. rewrite <- HN.
  set (d1 := time_sub (pt_observed point) (pt_observed lp)).
  set (d2 := time_sub (pt_observed lp) (pt_observed point)).
  destruct (flt (RendezvousRadiusMeters (eng_config e)) _) eqn:Er.
  { assert (∀ b : bool, (if b then None else None) = @None Z) as -> by (by intros []).
    split; [done|]. naive_solver congruence. }
  assert (HS : (match nearSince t !! TrackID u with
                | Some s => if s <? s then Some s else Some s | None => None end) = nearSince t !! TrackID u)
    by (destruct (nearSince t !! TrackID u) as [s|]; [by destruct (s <? s)|done]).
  split.
  - destruct ((_ <? d1) || _) eqn:Ed; [done|]. bprop. intros [Ha Hb].
    rewrite bool_decide_eq_false in Ha. split_and!; [done|done|]. eexists u, _. split; [done|]. split.
    + exists lp. split_and!; [done|lia|lia|done|reflexivity].
    + destruct (nearSince t !! TrackID u) as [s|]; simpl in *.
      * by rewrite Z.ltb_irrefl in Hb.
      * case_match; bprop; [rewrite Z.min_l by lia|rewrite Z.min_r by lia]; lia.
  - intros (_&Ha&u'&since&Hu'&(lp'&Hl&H1&H2&_&->)&H3). injection Hu' as <-.
    assert (lp' = lp) as -> by congruence. fold d1 in H1. fold d2 in H2.
    replace ((_ <? d1) || _) with false by (symmetry; apply orb_false_iff; lia).
    rewrite andb_true_iff, negb_true_iff, bool_decide_eq_false, Z.leb_le. split; [done|].
    destruct (nearSince t !! TrackID u) as [s|]; simpl in *.
    + by rewrite Z.ltb_irrefl.
    + case_match; bprop; [rewrite Z.min_l in H3 by lia|rewrite Z.min_r in H3 by lia]; lia.
Qed.

(** C38: One ingest-time evaluation emits, in this order and nothing else: the
    speed outlier of the newest leg exactly when that leg took a positive time
    and its mean speed lies above the baseline; one loitering anomaly for
    each restricted zone around the point that is not alerted yet and whose
    presence has lasted the minimum duration; and one rendezvous anomaly for
    each other track that stayed within the radius for the minimum duration
    and is not alerted yet, in the order the tracks are visited. *)
Theorem evaluateLocked_emissions order now e t point d e' out :
  engine_core e → tracks e !! TrackID t = Some t → range_order order (tracks e) →
  evaluateLocked order now e t point d = (e', out) →
  ∃ speeds fired loiters partners rendez,
    out = speeds ++ loiters ++ rendez ∧
    ((speeds = [] ∧ ∀ knots, ¬ speed_outlier (eng_config e) t point knots) ∨
     ∃ knots em, speeds = [em] ∧ speed_outlier (eng_config e) t point knots ∧
       alert_on now (CorrelationRefs d) t point AnomalySpeedOutlier ""
         (DetailSpeed knots (BaselineMaxSpeedKnots (eng_config e))) em) ∧
    NoDup fired ∧
    (∀ z, z ∈ fired ↔ in_restricted (zones e) (pt_position point) z ∧ (z ∉ loiterAlerted t) ∧
                      loiter_due (eng_config e) t point z) ∧
    Forall2 (λ z, alert_on now (CorrelationRefs d) t point AnomalyLoitering z
                    (DetailLoitering z (LoiteringMinDuration (eng_config e)))) fired loiters ∧
    sublist partners order ∧ (∀ o, o ∈ partners ↔ new_rendezvous e t point o) ∧
    Forall2 (emission_for now (CorrelationRefs d) (TrackID t) point e) partners rendez.
Proof.
  intros HC Ht Ho HE.
  destruct (evaluate_run order now e t point d HC Ht (range_order_NoDup _ _ Ho))
    as (fired&rendez&HR&?&?&?).
  rewrite HE in HR. injection HR as -> ->. eexists _, fired, _,
    (filter (λ o, rendezvous_due (TrackID t) point e o = true) order), rendez.
  split; [reflexivity|]. split; [apply speed_rule_spec|]. split_and!; try done.
  - apply Forall2_fmap_r, Forall_Forall2_diag, Forall_true. by intros z.
  - apply sublist_filter.
  - intros o. rewrite list_elem_of_filter, (rendezvous_due_spec e t point o HC Ht).
    split; [by intros []|]. intros Hm. split; [done|].
    destruct Hm as (_&_&u&since&Hu&_). apply (range_order_elem order (tracks e)); [done|]. eauto.
Qed.

Lemma evaluateLocked_emissions_witness :
  ∃ speeds fired loiters rendez,
    (evaluateLocked ["t1"; "t2"] (sample_time 71) rendezvous_engine (track_of rendezvous_engine "t2")
       rendezvous_point rendezvous_detection).2 = speeds ++ loiters ++ rendez ∧
    NoDup (fired : list string) ∧ length loiters = length fired ∧
    new_rendezvous rendezvous_engine (track_of rendezvous_engine "t2") rendezvous_point "t1" ∧
    rendez ≠ [].
Proof.
  pose proof (inv_core _ rendezvous_inv) as HC.
  assert (Ht : tracks rendezvous_engine !! TrackID (track_of rendezvous_engine "t2") =
               Some (track_of rendezvous_engine "t2")) by (by vm_compute).
  destruct (evaluateLocked_emissions ["t1"; "t2"] (sample_time 71) rendezvous_engine
    (track_of rendezvous_engine "t2") rendezvous_point rendezvous_detection _ _
    HC Ht ltac:(by vm_compute) (surjective_pairing _))
    as (speeds&fired&loiters&partners&rendez&HO&_&HN&_&HL&_&HP&HF).
  exists speeds, fired, loiters, rendez.
  assert (Hm : new_rendezvous rendezvous_engine (track_of rendezvous_engine "t2") rendezvous_point "t1").
  { apply (rendezvous_due_spec _ _ _ _ HC Ht). by vm_compute. }
  split; [exact HO|]. split; [exact HN|]. split; [symmetry; by eapply Forall2_length|].
  split; [exact Hm|]. apply HP in Hm. intros ->. apply Forall2_nil_inv_r in HF as ->.
  by apply elem_of_nil in Hm.
Defined.

(** The engine an ingest leaves does not depend on the order in which the
    map of tracks is visited: labels, latches, proximity and all; and the pairs
    that raise a rendezvous are the same up to order. *)
Theorem evaluateLocked_order order1 order2 now e t point d e1 e2 out1 out2 :
  engine_core e → tracks e !! TrackID t = Some t →
  range_order order1 (tracks e) → range_order order2 (tracks e) →
  evaluateLocked order1 now e t point d = (e1, out1) →
  evaluateLocked order2 now e t point d = (e2, out2) →
  e1 = e2 ∧
  (λ em : Emission, TrackIDs em.1) <$> filter (λ em : Emission, an_kind em.1 = AnomalyRendezvous) out1 ≡ₚ
  (λ em : Emission, TrackIDs em.1) <$> filter (λ em : Emission, an_kind em.1 = AnomalyRendezvous) out2.
Proof.
  intros HC Ht Ho1 Ho2 E1 E2.
  destruct (evaluate_run order1 now e t point d HC Ht (range_order_NoDup _ _ Ho1))
    as (f1&r1&R1&_&Hf1&F1).
  destruct (evaluate_run order2 now e t point d HC Ht (range_order_NoDup _ _ Ho2))
    as (f2&r2&R2&_&Hf2&F2).
  rewrite E1 in R1. rewrite E2 in R2. injection R1 as -> ->. injection R2 as -> ->.
  assert (Hp : order1 ≡ₚ order2) by (unfold range_order in *; by rewrite Ho1, Ho2).
  split.
  - rewrite (pair_loop_perm _ _ _ order1 order2);
      [|by apply settled_engine_labelled|done].
    assert (HS : settled_engine e t point f1 = settled_engine e t point f2); [|by rewrite HS].
    unfold settled_engine. do 2 f_equal. apply set_eq. intros z.
    rewrite !elem_of_union, !elem_of_list_to_set, Hf1, Hf2. done.
  - erewrite !rendezvous_pairs by done. by rewrite Hp.
Qed.

Lemma evaluateLocked_order_witness :
  (evaluateLocked ["t1"; "t2"] (sample_time 71) rendezvous_engine (track_of rendezvous_engine "t2")
     rendezvous_point rendezvous_detection).1 =
  (evaluateLocked ["t2"; "t1"] (sample_time 71) rendezvous_engine (track_of rendezvous_engine "t2")
     rendezvous_point rendezvous_detection).1.
Proof.
  apply (evaluateLocked_order ["t1"; "t2"] ["t2"; "t1"] (sample_time 71) rendezvous_engine
    (track_of rendezvous_engine "t2") rendezvous_point rendezvous_detection _ _
    (evaluateLocked ["t1"; "t2"] (sample_time 71) rendezvous_engine (track_of rendezvous_engine "t2")
       rendezvous_point rendezvous_detection).2
    (evaluateLocked ["t2"; "t1"] (sample_time 71) rendezvous_engine (track_of rendezvous_engine "t2")
       rendezvous_point rendezvous_detection).2 (inv_core _ rendezvous_inv)).
  - by vm_compute.
  - by vm_compute.
  - vm_compute. apply perm_swap || reflexivity.
  - apply surjective_pairing.
  - apply surjective_pairing.
Defined.

(** ** Labels only rise *)

Lemma Covers_mono c hi lo :
  Covers c hi = true → valid_label lo → Rank lo <= Rank hi → Covers c lo = true.
Proof. rewrite !Covers_iff. intros (?&?&?) ? ?. split_and!; [done|done|lia]. Qed.

Lemma pair_engine_labels id point e o k :
  Rank (label_of e k) <= Rank (label_of (pair_engine id point e o) k).
Proof.
  destruct (decide (k = id)) as [->|Hk]; [apply pair_engine_label|].
  unfold pair_engine. destruct (pair_value id point e o) as [v|] eqn:Ev; [|lia].
  pose proof (pair_value_ne _ _ _ _ _ Ev) as Hne. unfold label_of at 1 2.
  rewrite pair_update_lookup, decide_False by done. case_decide as Hd; [subst|lia].
  destruct (tracks e !! o); simpl; [rewrite update_other_class; lia|lia].
Qed.

Lemma pair_loop_labels id point order e k :
  Rank (label_of e k) <= Rank (label_of (foldl (pair_engine id point) e order) k).
Proof.
  revert e. induction order as [|o order IH]; intros e; simpl; [lia|].
  etrans; [apply pair_engine_labels|apply IH].
Qed.

Lemma phases_label env e d id out e1 p t e0 ea :
  engine_inv e → is_nan (CorrelationRadiusMeters (eng_config e)) = false →
  tracks e !! env_newID env = None →
  ingest_phases env e d id out e1 p t e0 ea →
  Rank (det_classification d) <= Rank (label_of ea id) ∧
  ∀ k u, tracks e !! k = Some u → Rank (trk_class u) <= Rank (label_of ea k).
Proof.
  intros HI Hr Hf [_ Hd HA _ Ht _ _ _ HT _ _ _ _].
  unfold label_of. rewrite HT, lookup_insert_eq. simpl. rewrite MaxClassification_rank. split; [lia|].
  intros k u Hu. destruct (decide (k = id)) as [->|Hne].
  - rewrite lookup_insert_eq. simpl. rewrite MaxClassification_rank.
    destruct (associate_cases _ _ _ _ _ _ _ HI Hr HA) as [[-> _]|[-> _]]; [|congruence].
    assert (t = u) as -> by congruence. lia.
  - rewrite lookup_insert_ne by done.
    destruct (associate_cases _ _ _ _ _ _ _ HI Hr HA) as [[-> _]|[-> ->]]; [rewrite Hu; lia|].
    replace (tracks (add_fresh e (env_newID env) d))
      with (<[env_newID env := fresh_track (env_newID env) d]> (tracks e))
      by (unfold add_fresh; by destruct (MMSI d =s "")).
    rewrite lookup_insert_ne, Hu by done. lia.
Qed.

(** C39: A clearance that covers an emitted anomaly covers the detection that
    triggered it and the label every track the anomaly names had before the
    ingest; a clearance that covers a track after the ingest covers it before
    and, for the detection's track, covers the detection.  A label that a
    rendezvous raises later in the same evaluation is not covered by the
    anomalies emitted before it, see [speed_alert_below_raised_label]. *)
Theorem Ingest_labels env e d id out e1 c :
  engine_inv e → is_nan (CorrelationRadiusMeters (eng_config e)) = false →
  tracks e !! env_newID env = None → Ingest env e d = Some (Ok (id, out), e1) →
  range_order (evaluate_order env) (tracks e1) →
  (∀ em, em ∈ out → Covers c (an_class em.1) = true →
     Covers c (det_classification d) = true ∧
     ∀ k u, k ∈ TrackIDs em.1 → tracks e !! k = Some u → Covers c (trk_class u) = true) ∧
  (Covers c (label_of e1 id) = true → Covers c (det_classification d) = true) ∧
  (∀ k u, tracks e !! k = Some u → Covers c (label_of e1 k) = true → Covers c (trk_class u) = true).
Proof.
  intros HI Hr Hf Hin Ho. destruct (Ingest_Ok _ _ _ _ _ _ HI Hr Hf Hin) as (p&t&e0&ea&HP).
  destruct (phases_label _ _ _ _ _ _ _ _ _ _ HI Hr Hf HP) as [HLd HLt].
  assert (Hval : ∀ k u, tracks e !! k = Some u → valid_label (trk_class u)).
  { intros k u Hu. destruct HI as [HC _]. by destruct (core_track _ HC _ _ Hu). }
  destruct HP as [_ [Hvd _ _] _ _ _ Hid _ HC HT _ _ _ HE].
  assert (Ht : tracks ea !! TrackID (absorbed t d p) = Some (absorbed t d p)).
  { rewrite HT. simpl. rewrite Hid. apply lookup_insert_eq. }
  assert (HL : label_of ea id = trk_class (absorbed t d p)).
  { unfold label_of. by rewrite HT, lookup_insert_eq. }
  destruct (evaluate_run (evaluate_order env) (env_now env) ea (absorbed t d p) (point_of d p) d HC Ht
    (range_order_NoDup _ _ Ho)) as (fired&rendez&HR&_&_&HF).
  rewrite HE in HR. injection HR as He1 Hout. simpl in HF, He1. rewrite Hid in HF, He1.
  assert (HLe : ∀ k, Rank (label_of ea k) <= Rank (label_of e1 k)).
  { intros k. rewrite He1. etrans; [|apply pair_loop_labels].
    destruct (settled_engine_pairs ea (absorbed t d p) (point_of d p) fired k Ht) as [_ ->]. lia. }
  split_and!.
  - intros em Hem Hc.
    assert (Hem' : Rank (label_of ea id) <= Rank (an_class em.1) ∧
      ∀ k, k ∈ TrackIDs em.1 → Rank (label_of ea k) <= Rank (an_class em.1)).
    { rewrite Hout in Hem. apply elem_of_app in Hem as [Hem|[Hem|Hem]%elem_of_app].
      - unfold speed_rule in Hem. repeat case_match; try (by apply elem_of_nil in Hem).
        apply list_elem_of_singleton in Hem as ->. simpl. rewrite Hid, HL. split; [done|].
        intros k ->%list_elem_of_singleton. by rewrite HL.
      - apply list_elem_of_fmap in Hem as (z&->&_). simpl. rewrite Hid, HL. split; [done|].
        intros k ->%list_elem_of_singleton. by rewrite HL.
      - apply list_elem_of_lookup in Hem as [i Hi].
        destruct (Forall2_lookup_r _ _ _ _ _ HF Hi) as (o&_&[_ _ Htr _ H1 H2 _]).
        split; [done|]. rewrite Htr. intros k [->|[->|[]%elem_of_nil]%elem_of_cons]%elem_of_cons; done. }
    destruct Hem' as [HA HB]. split.
    + eapply Covers_mono; [exact Hc|done|lia].
    + intros k u Hk Hu. eapply Covers_mono; [exact Hc|by eapply Hval|].
      specialize (HB k Hk). specialize (HLt k u Hu). lia.
  - intros Hc. eapply Covers_mono; [exact Hc|done|]. specialize (HLe id). lia.
  - intros k u Hu Hc. eapply Covers_mono; [exact Hc|by eapply Hval|].
    specialize (HLe k). specialize (HLt k u Hu). lia.
Qed.

Definition rendezvous_env : IngestEnv := sample_env ["t1"; "t2"] ["t1"; "t2"] "t3" 71.
Definition rendezvous_after : Engine :=
  engine_after rendezvous_env rendezvous_engine rendezvous_detection.

Lemma Ingest_labels_witness :
  Covers "RESTRICTED" (label_of rendezvous_after "t2") = true ∧
  Covers "RESTRICTED" (det_classification rendezvous_detection) = true.
Proof.
  split; [by vm_compute|].
  apply (Ingest_labels rendezvous_env rendezvous_engine rendezvous_detection "t2"
    (ingest_out rendezvous_env rendezvous_engine rendezvous_detection) rendezvous_after "RESTRICTED"
    rendezvous_inv ltac:(by vm_compute) ltac:(by vm_compute) ltac:(by vm_compute) ltac:(by vm_compute)).
  by vm_compute.
Defined.

(** A SECRET vessel at anchor and a RESTRICTED one that races towards it. *)
Definition raising_engine : Engine :=
  sample_ingests
    [(sample_env [] ["t1"] "t1" 60, with_label (sample_ais "s1" "636012345" 0 60) ClassificationSecret);
     (sample_env ["t1"] ["t1"; "t2"] "t2" 65, sample_ais "r1" "538009876" 500 65)]
    sample_engine.

Definition raising_env : IngestEnv := sample_env ["t1"; "t2"] ["t1"; "t2"] "t3" 70.
Definition raising_detection : Detection := sample_ais "r2" "538009876" 1 70.

(** The rules run in order on one label: the speed outlier is emitted before
    the rendezvous raises the label of the track (fusion.go, line 507), so the
    anomalies of one ingest carry two labels, and the first lies below the
    label of the track it names. *)
Example speed_alert_below_raised_label :
  (λ em : Emission, (an_kind em.1, TrackIDs em.1, an_class em.1)) <$>
    ingest_out raising_env raising_engine raising_detection =
  [(AnomalySpeedOutlier, ["t2"], ClassificationRestricted);
   (AnomalyRendezvous, ["t2"; "t1"], ClassificationSecret)] ∧
  label_of (engine_after raising_env raising_engine raising_detection) "t2" = ClassificationSecret.
Proof. split; by vm_compute. Qed.
