(* ===== verification/FusionDark.v ===== *)
(** * Dark vessels, time bounds and boundary cases of the fusion engine

    The dark-vessel scan and its latch, the width of the correlation window on
    saturating durations, and inputs on which the engine does not do what its
    comments say. *)

From S2P Require Import Prelude GoStrings GoTime Float64 Geo Classification Detection Fusion.
From S2P Require Import FusionInv FusionSamples FusionReplay FusionRules.

(** ** The scan in closed form *)

(** The zone a track is reported dark in, when it is due. *)
Definition dark_zone (now : Z) (e : Engine) (t : Track) : option string :=
  if darkAlerted t || (trk_mmsi t =s "") || time_is_zero (lastAISAt t) then None
  else match Last t with
  | None => None
  | Some lastp =>
      if time_sub now (lastAISAt t) <? DarkVesselAISGap (eng_config e) then None
      else ZoneID <$> head (ZonesContaining (pt_position lastp) (zones e))
  end.

Definition dark_emission (now : Z) (e : Engine) (t : Track) (zoneID : string) : Emission :=
  (mkAnomaly (anomaly_id AnomalyDarkVessel (TrackID t) now) AnomalyDarkVessel [TrackID t] zoneID
     (trk_class t) now (DetailDarkVessel (DarkVesselAISGap (eng_config e)) zoneID) [],
   latency now (match Last t with Some p => pt_observed p | None => 0 end)).

Definition scan_emission (now : Z) (e : Engine) (id : string) : option Emission :=
  t ← tracks e !! id; z ← dark_zone now e t; Some (dark_emission now e t z).

Definition scan_mark (now : Z) (e : Engine) (t : Track) : Track :=
  match dark_zone now e t with Some _ => with_dark t true | None => t end.

Lemma scan_step_eq now e out id :
  keyed e →
  scan_step now (e, out) id =
  (set_tracks e (alter (scan_mark now e) id (tracks e)),
   match scan_emission now e id with Some em => out ++ [em] | None => out end).
Proof.
  intros HK. unfold scan_step, scan_emission.
  assert (Hsame : (∀ t, tracks e !! id = Some t → scan_mark now e t = t) →
    set_tracks e (alter (scan_mark now e) id (tracks e)) = e).
  { intros Hm. rewrite alter_id by done. by destruct e. }
  destruct (tracks e !! id) as [t|] eqn:Et; [|by rewrite Hsame].
  assert (Hsame' : scan_mark now e t = t →
    set_tracks e (alter (scan_mark now e) id (tracks e)) = e).
  { intros Hm. apply Hsame. by intros ? [= <-]. }
  clear Hsame. unfold scan_mark, dark_zone, dark_emission in *. simpl.
  destruct (darkAlerted t || _ || _) eqn:E1; [by rewrite Hsame'|].
  destruct (Last t) as [lp|] eqn:El; [|by rewrite Hsame'].
  destruct (time_sub _ _ <? _) eqn:E2; [by rewrite Hsame'|].
  destruct (ZonesContaining _ _) as [|z zs] eqn:E3; simpl; [by rewrite Hsame'|].
  f_equal. pose proof (HK _ _ Et) as <-. unfold store_track, set_tracks. simpl. f_equal.
  apply map_eq. intros i. destruct (decide (TrackID t = i)) as [<-|].
  - rewrite lookup_insert_eq, lookup_alter_eq, Et. simpl. by rewrite E1, El, E2, E3.
  - by rewrite lookup_insert_ne, lookup_alter_ne.
Qed.

(** ** The scan over all tracks *)

Definition scan_state (now : Z) (e : Engine) (done_ : list string) : gmap string Track :=
  map_imap (λ id t, Some (if bool_decide (id ∈ done_) then scan_mark now e t else t)) (tracks e).

Lemma scan_mark_id now e t : TrackID (scan_mark now e t) = TrackID t.
Proof. unfold scan_mark. by case_match. Qed.

Lemma scan_fold now e order :
  keyed e → NoDup order →
  foldl (scan_step now) (e, []) order =
  (set_tracks e (scan_state now e order), omap (scan_emission now e) order).
Proof.
  intros HK. induction order as [|id order IH] using rev_ind; intros HN.
  - simpl. f_equal. destruct e; unfold set_tracks, scan_state; simpl. f_equal.
    apply map_eq. intros i. rewrite map_lookup_imap. by destruct (_ !! i).
  - apply NoDup_app in HN as (HN&Hd&_). rewrite foldl_app, IH by done. cbn [foldl].
    assert (Hid : id ∉ order) by set_solver.
    assert (HK' : keyed (set_tracks e (scan_state now e order))).
    { intros i u. unfold scan_state. simpl. rewrite map_lookup_imap.
      intros (t&Ht&[= <-])%bind_Some. pose proof (HK _ _ Ht).
      case_bool_decide; by rewrite ?scan_mark_id. }
    rewrite scan_step_eq by done.
    assert (Hl : tracks (set_tracks e (scan_state now e order)) !! id = tracks e !! id).
    { unfold scan_state. simpl. rewrite map_lookup_imap. destruct (tracks e !! id); [|done].
      simpl. by rewrite bool_decide_eq_false_2. }
    f_equal.
    + unfold set_tracks. simpl. f_equal. unfold scan_state. apply map_eq. intros i.
      rewrite lookup_alter, !map_lookup_imap. case_decide as Hi; subst.
      * destruct (tracks e !! i); [|done]. simpl.
        by rewrite bool_decide_eq_false_2, bool_decide_eq_true_2 by set_solver.
      * destruct (tracks e !! i); [|done]. simpl. f_equal.
        by rewrite (bool_decide_ext (i ∈ order ++ [id]) (i ∈ order)) by set_solver.
    + assert (Hs : scan_emission now (set_tracks e (scan_state now e order)) id = scan_emission now e id)
        by (unfold scan_emission; by rewrite Hl).
      rewrite Hs, omap_app. simpl. destruct (scan_emission now e id); [done|by rewrite app_nil_r].
Qed.

(** ** What keeps a latch closed *)

Definition latched (k : string) (e : Engine) : Prop :=
  ∃ t, tracks e !! k = Some t ∧ darkAlerted t = true.

(** Operations that are not a new AIS report of track [k]. *)
Inductive silent_step (k : string) : Engine → Engine → Prop :=
| silent_scan order now e : NoDup order → silent_step k e (ScanDarkVessels order now e).1
| silent_reject env e d err e' : Ingest env e d = Some (Err err, e') → silent_step k e e'
| silent_ingest env e d id out e' :
    tracks e !! env_newID env = None → Ingest env e d = Some (Ok (id, out), e') →
    range_order (evaluate_order env) (tracks e') →
    (id = k → ∀ t, tracks e !! k = Some t → AIS d = None ∨ ObservedAt d < lastAISAt t) →
    silent_step k e e'.

Lemma pair_engine_dark id point e o k t :
  tracks e !! k = Some t → ∃ t', tracks (pair_engine id point e o) !! k = Some t' ∧
    darkAlerted t' = darkAlerted t.
Proof.
  intros Hk. unfold pair_engine. destruct (pair_value id point e o) as [v|] eqn:Ev; [|eauto].
  pose proof (pair_value_ne _ _ _ _ _ Ev) as Hne. rewrite pair_update_lookup by done.
  repeat case_decide; subst; rewrite ?Hk; simpl; (eexists; split; [done|]); try done.
  - unfold update_self. by case_match.
  - unfold update_other. by case_match.
Qed.

Lemma pair_loop_dark id point order e k t :
  tracks e !! k = Some t → ∃ t', tracks (foldl (pair_engine id point) e order) !! k = Some t' ∧
    darkAlerted t' = darkAlerted t.
Proof.
  revert e t. induction order as [|o order IH]; intros e t Hk; simpl; [eauto|].
  destruct (pair_engine_dark id point e o k t Hk) as (t1&Ht1&<-). by apply IH.
Qed.

Lemma scan_keeps_latch order now k e :
  keyed e → NoDup order → latched k e → latched k (ScanDarkVessels order now e).1.
Proof.
  intros HK HN (t&Ht&Hd). unfold ScanDarkVessels. rewrite scan_fold by done. simpl.
  unfold latched, scan_state. simpl. rewrite map_lookup_imap, Ht. simpl. eexists. split; [done|].
  case_match; [|done]. unfold scan_mark. by case_match.
Qed.

Lemma silent_step_latch k e e' :
  engine_inv e → is_nan (CorrelationRadiusMeters (eng_config e)) = false →
  silent_step k e e' → latched k e →
  latched k e' ∧ engine_inv e' ∧ is_nan (CorrelationRadiusMeters (eng_config e')) = false.
Proof.
  intros HI Hr Hs Hl. destruct Hs as [order now e HN|env e d err e' H|env e d id out e' Hf H Ho Hq].
  - destruct (ScanDarkVessels_inv order now e HI) as [? Hc].
    split_and!; [|done|by rewrite Hc]. apply scan_keeps_latch; [by apply inv_keyed|done|done].
  - by apply Ingest_Err in H as ->.
  - destruct (Ingest_Ok _ _ _ _ _ _ HI Hr Hf H) as (p&t&e0&ea&HP).
    destruct (phases_inv _ _ _ _ _ _ _ _ _ _ HP) as (HI'&HC'&_).
    split_and!; [|done|by rewrite HC'].
    destruct Hl as (u&Hu&Hd). destruct HP as [_ _ HA _ Ht Hid _ HC HT _ _ _ HE].
    assert (Hu0 : tracks e0 !! k = Some u).
    { destruct (associate_cases _ _ _ _ _ _ _ HI Hr HA) as [[-> _]|[_ ->]]; [done|].
      replace (tracks (add_fresh e (env_newID env) d))
        with (<[env_newID env := fresh_track (env_newID env) d]> (tracks e))
        by (unfold add_fresh; by destruct (MMSI d =s "")).
      rewrite lookup_insert_ne; [done|]. intros <-. congruence. }
    assert (Hua : ∃ w, tracks ea !! k = Some w ∧ darkAlerted w = true).
    { rewrite HT. destruct (decide (id = k)) as [->|Hne].
      - rewrite lookup_insert_eq. eexists. split; [done|]. assert (u = t) as <- by congruence. simpl.
        destruct (Hq eq_refl u Hu) as [->|Hlt]; [done|]. destruct (AIS d); [|done].
        unfold time_before. by rewrite (proj2 (Z.ltb_lt _ _) Hlt).
      - rewrite lookup_insert_ne by done. eauto. }
    destruct Hua as (w&Hw&Hdw).
    assert (Ht' : tracks ea !! TrackID (absorbed t d p) = Some (absorbed t d p)).
    { rewrite HT. simpl. rewrite Hid. apply lookup_insert_eq. }
    destruct (evaluate_run (evaluate_order env) (env_now env) ea (absorbed t d p) (point_of d p) d HC Ht'
      (range_order_NoDup _ _ Ho)) as (fired&rendez&HR&_).
    rewrite HE in HR. injection HR as -> _.
    assert (Hs : ∃ w', tracks (settled_engine ea (absorbed t d p) (point_of d p) fired) !! k = Some w'
                       ∧ darkAlerted w' = true).
    { unfold settled_engine. rewrite tracks_store. simpl. rewrite Hid, HT.
      destruct (decide (id = k)) as [->|Hne].
      - rewrite lookup_insert_eq. eexists. split; [done|].
        rewrite HT, lookup_insert_eq in Hw. by injection Hw as <-.
      - rewrite !lookup_insert_ne by done. rewrite HT, lookup_insert_ne in Hw by done. eauto. }
    destruct Hs as (w'&Hw'&Hdw').
    destruct (pair_loop_dark (TrackID (absorbed t d p)) (point_of d p) (evaluate_order env) _ k w' Hw')
      as (w2&Hw2&Hd2). exists w2. split; [done|congruence].
Qed.

(** A reported track is latched, a latched one is not reported, and the latch
    lasts through silent steps. *)
Lemma scan_latches order now e k em :
  keyed e → NoDup order → em ∈ (ScanDarkVessels order now e).2 → TrackIDs em.1 = [k] →
  latched k (ScanDarkVessels order now e).1.
Proof.
  intros HK HN Hem Hk. unfold ScanDarkVessels in *. rewrite scan_fold in * by done. simpl in *.
  apply list_elem_of_omap in Hem as (id&Hid&Hem). unfold scan_emission in Hem.
  apply bind_Some in Hem as (t&Ht&Hem). apply bind_Some in Hem as (z&Hz&[= <-]).
  simpl in Hk. injection Hk as Hk. pose proof (HK _ _ Ht). assert (id = k) as -> by congruence.
  unfold latched, scan_state. simpl. rewrite map_lookup_imap, Ht. simpl.
  rewrite bool_decide_eq_true_2 by done. eexists. split; [done|]. unfold scan_mark. by rewrite Hz.
Qed.

Lemma latched_quiet order now e k em :
  keyed e → NoDup order → latched k e → em ∈ (ScanDarkVessels order now e).2 → TrackIDs em.1 ≠ [k].
Proof.
  intros HK HN (u&Hu&Hd) Hem Hk. unfold ScanDarkVessels in Hem. rewrite scan_fold in Hem by done. simpl in Hem.
  apply list_elem_of_omap in Hem as (id&Hid&Hem). unfold scan_emission in Hem.
  apply bind_Some in Hem as (t&Ht&Hem). apply bind_Some in Hem as (z&Hz&[= <-]).
  simpl in Hk. injection Hk as Hk. pose proof (HK _ _ Ht). assert (id = k) as -> by congruence.
  assert (t = u) as -> by congruence. unfold dark_zone in Hz. by rewrite Hd in Hz.
Qed.

Lemma silent_run_latch k e e2 :
  engine_inv e → is_nan (CorrelationRadiusMeters (eng_config e)) = false →
  rtc (silent_step k) e e2 → latched k e → latched k e2 ∧ engine_inv e2.
Proof.
  intros HI Hr Hrun. induction Hrun as [e1|e1 e1' e2 H12 _ IH]; intros Hl; [done|].
  destruct (silent_step_latch k e1 e1' HI Hr H12 Hl) as (?&?&?). by apply IH.
Qed.

(** ** Properties *)

(** C40: The scan reports exactly the tracks that are due (not latched, with an
    MMSI, a last AIS report older than the gap and a last point inside a
    zone), once each, in visiting order, and changes nothing but their
    latches. *)
Theorem ScanDarkVessels_spec order now e :
  engine_inv e → range_order order (tracks e) →
  (ScanDarkVessels order now e).2 = omap (scan_emission now e) order ∧
  (ScanDarkVessels order now e).1 =
    mkEngine (eng_config e) (zones e) (scan_mark now e <$> tracks e) (byMMSI e).
Proof.
  intros HI Ho. unfold ScanDarkVessels.
  rewrite scan_fold by (eauto using inv_keyed, range_order_NoDup). split; [done|].
  simpl. unfold set_tracks. f_equal. unfold scan_state. apply map_eq. intros i.
  rewrite map_lookup_imap, lookup_fmap. destruct (tracks e !! i) as [t|] eqn:Et; [|done]. simpl.
  rewrite bool_decide_eq_true_2; [done|]. apply (range_order_elem order (tracks e)); eauto.
Qed.

Definition dark_engine : Engine :=
  sample_ingests [(sample_env [] ["t1"] "t1" 60, sample_ais "a1" "636012345" 0 60)] sample_engine.

Lemma dark_inv : engine_inv dark_engine.
Proof. by apply sample_reachable. Qed.

Lemma ScanDarkVessels_spec_witness :
  length (ScanDarkVessels ["t1"] (sample_time 90) dark_engine).2 = 1%nat.
Proof.
  rewrite (proj1 (ScanDarkVessels_spec ["t1"] (sample_time 90) dark_engine dark_inv ltac:(by vm_compute))).
  by vm_compute.
Defined.

(** A vessel is reported dark at most once per silence episode: from the
    scan that reports it, through any further scans, rejected detections and
    ingests that bring its track no AIS report at least as new as the last
    one, no later scan reports it again. *)
Theorem dark_once order1 now1 e e2 order2 now2 k em :
  engine_inv e → is_nan (CorrelationRadiusMeters (eng_config e)) = false →
  NoDup order1 → NoDup order2 →
  em ∈ (ScanDarkVessels order1 now1 e).2 → TrackIDs em.1 = [k] →
  rtc (silent_step k) (ScanDarkVessels order1 now1 e).1 e2 →
  ∀ em', em' ∈ (ScanDarkVessels order2 now2 e2).2 → TrackIDs em'.1 ≠ [k].
Proof.
  intros HI Hr HN1 HN2 Hem Hk Hrun em'.
  destruct (ScanDarkVessels_inv order1 now1 e HI) as [HI1 HC1].
  destruct (silent_run_latch k _ e2 HI1 ltac:(by rewrite HC1) Hrun) as [Hl HI2].
  { eapply scan_latches; eauto using inv_keyed. }
  apply latched_quiet; eauto using inv_keyed.
Qed.

Definition dark_scanned : Engine := (ScanDarkVessels ["t1"] (sample_time 90) dark_engine).1.
Definition dark_env : IngestEnv := sample_env ["t1"] ["t1"] "t2" 65.
Definition dark_sar : Detection := sample_sar "s1" 1 65.

Lemma dark_once_witness :
  (∃ em, em ∈ (ScanDarkVessels ["t1"] (sample_time 90) dark_engine).2 ∧ TrackIDs em.1 = ["t1"]) ∧
  ∀ em', em' ∈ (ScanDarkVessels ["t1"] (sample_time 120) (engine_after dark_env dark_scanned dark_sar)).2 →
    TrackIDs em'.1 ≠ ["t1"].
Proof.
  assert (Hem : ∃ em, em ∈ (ScanDarkVessels ["t1"] (sample_time 90) dark_engine).2 ∧ TrackIDs em.1 = ["t1"]).
  { eexists. split; [vm_compute; apply list_elem_of_here|reflexivity]. }
  split; [exact Hem|]. destruct Hem as (em&Hem&Hk).
  apply (dark_once ["t1"] (sample_time 90) dark_engine (engine_after dark_env dark_scanned dark_sar)
    ["t1"] (sample_time 120) "t1" em dark_inv); [by vm_compute|by apply NoDup_singleton..|exact Hem|exact Hk|].
  apply rtc_once. apply (silent_ingest "t1" dark_env dark_scanned dark_sar "t1"
    (ingest_out dark_env dark_scanned dark_sar)); [by vm_compute..|].
  intros _ t _. by left.
Defined.

(** ** The correlation window on saturating durations *)

(** For a valid window the association loop's time test admits a candidate
    exactly when the two instants are at most the window apart, or the
    detection is 2^63 nanoseconds (292 years) or more older than the track's
    last point: there the saturated difference is the most negative duration,
    whose negation is itself, and the test lets it pass. *)
Theorem correlation_window_width window observed last :
  0 < window <= 24 * Hour →
  (window <? abs_gap observed last) = false ↔
  Z.abs (observed - last) <= window ∨ 2 ^ 63 <= last - observed.
Proof.
  unfold Hour, Minute, Second. intros Hw. rewrite Z.ltb_ge. unfold abs_gap.
  destruct (Z.ltb_spec (time_sub observed last) 0) as [Hn|Hn].
  - destruct (Z.eq_dec (time_sub observed last) min_int64) as [He|He].
    + rewrite He, dur_neg_min. unfold time_sub, min_int64, max_int64 in *. lia.
    + rewrite dur_neg_exact; unfold time_sub, min_int64, max_int64 in *; lia.
  - unfold time_sub, min_int64, max_int64 in *. lia.
Qed.

Lemma correlation_window_width_witness :
  (0 < 10 * Minute <= 24 * Hour) ∧
  (10 * Minute <? abs_gap (sample_time 60 - 2 ^ 63) (sample_time 60)) = false.
Proof.
  assert (H : 0 < 10 * Minute <= 24 * Hour) by (unfold Hour, Minute, Second; lia).
  split; [exact H|]. apply (correlation_window_width _ _ _ H). right. unfold sample_time. lia.
Defined.

(** ** Inputs on which the engine departs from its comments *)

(** An AIS report that carries its MMSI in the payload only is associated as
    if it had none: next to a track of another MMSI it joins that track, which
    then holds the points of two vessels under the first vessel's MMSI.  The
    comment in the association loop rules this out for MMSI-bearing
    detections; [Validate] assigns the payload's MMSI to the top-level field of
    its own copy only. *)
Theorem bare_ais_joins_foreign_track :
  let d := sample_ais_bare "b1" "538009876" 1 61 in
  let env := sample_env ["t1"] ["t1"] "t2" 61 in
  Validate d = Ok tt ∧
  trk_mmsi (track_of dark_engine "t1") = "636012345" ∧
  (∃ out, Ingest env dark_engine d = Some (Ok ("t1", out), engine_after env dark_engine d)) ∧
  trk_mmsi (track_of (engine_after env dark_engine d) "t1") = "636012345" ∧
  (DetectionRef <$> Points (track_of (engine_after env dark_engine d) "t1")) =
    ["feed-1:a1"; "feed-1:b1"] ∧
  byMMSI (engine_after env dark_engine d) !! "538009876" = None.
Proof.
  split_and!; [by vm_compute..| |by vm_compute|by vm_compute|by vm_compute].
  exists (ingest_out (sample_env ["t1"] ["t1"] "t2" 61) dark_engine (sample_ais_bare "b1" "538009876" 1 61)).
  by vm_compute.
Qed.

(** A late AIS report moves the last-AIS mark backwards: a vessel that
    reported one minute ago, and whose report of forty-one minutes ago arrives
    only now, is reported dark at once. *)
Theorem late_ais_raises_dark :
  let late := sample_ais "a0" "636012345" 0 20 in
  let env := sample_env ["t1"] ["t1"] "t2" 61 in
  let e := engine_after env dark_engine late in
  (DetectionRef <$> Points (track_of e "t1")) = ["feed-1:a1"; "feed-1:a0"] ∧
  lastAISAt (track_of dark_engine "t1") = sample_time 60 ∧
  lastAISAt (track_of e "t1") = sample_time 20 ∧
  (ScanDarkVessels ["t1"] (sample_time 61) dark_engine).2 = [] ∧
  (λ em : Emission, (an_kind em.1, TrackIDs em.1)) <$> (ScanDarkVessels ["t1"] (sample_time 61) e).2 =
    [(AnomalyDarkVessel, ["t1"])].
Proof. by vm_compute. Qed.

Definition raised_inputs : list (IngestEnv * Detection) :=
  [(sample_env [] ["t1"] "t1" 60, sample_ais "a1" "636012345" 0 60);
   (sample_env ["t1"] ["t1"; "t2"] "t2" 64, sample_sar "s1" 40 64);
   (sample_env ["t1"; "t2"] ["t1"; "t2"] "t3" 65, sample_ais "a2" "636012345" 38 65);
   (sample_env ["t1"; "t2"] ["t1"; "t2"] "t3" 74, sample_ais "a3" "636012345" 38 74)].

(** The engine that replays the associations of [raised_inputs]. *)
Definition raised_replay : Engine :=
  foldl (λ e (a : string * Detection), (Replay ["t1"; "t2"] e a.1 a.2).2) sample_engine
    (zip ["t1"; "t2"; "t1"; "t1"] (snd <$> raised_inputs)).

(** A track's label is not the maximum over its detections once it took part
    in a rendezvous, and a restart loses the difference: the AIS track, all of
    whose detections are RESTRICTED, is CONFIDENTIAL after its rendezvous with
    a radar track, and RESTRICTED in the engine that replays the same
    associations, with the same points. *)
Theorem rendezvous_label_lost_on_replay :
  let e := sample_ingests raised_inputs sample_engine in
  trk_class (track_of e "t1") = ClassificationConfidential ∧
  Forall (λ d, MMSI d = "636012345" → det_classification d = ClassificationRestricted)
    (snd <$> raised_inputs) ∧
  trk_class (track_of raised_replay "t1") = ClassificationRestricted ∧
  Points (track_of raised_replay "t1") = Points (track_of e "t1").
Proof.
  split_and!; [by vm_compute| |by vm_compute..].
  repeat (apply Forall_cons_2; [by vm_compute|]). apply Forall_nil_2.
Qed.
