(* ===== verification/Outbox.v ===== *)
(** * Leased outbox tables ([internal/incident/outbox.go], [internal/isr/isr_outbox.go])

    Both services keep their outgoing events in a table of rows that workers
    lease, publish and release.  The two stores run the same three SQL
    statements on tables with different payload columns; this file models the
    statements once, over the type [I] of those columns, together with the
    interface the publisher relies on.

    A transaction runs as one atomic step.  [locked] is the set of rows that
    [FOR UPDATE SKIP LOCKED] skips because another transaction holds them;
    [db_now] is PostgreSQL's [now()] and [app_now] the worker's own clock. *)

From S2P Require Import Prelude GoStrings GoTime.

(** ** Rows and statements *)

Record Row (I : Type) : Type := mkRow {
  row_info : I;
  row_created : Z;
  row_published : option Z;
  row_available : Z;
  row_attempts : Z;
  row_claimed_at : option Z;
  row_claimed_by : option string;
  row_error : option string
}.
Arguments mkRow {I}.
Arguments row_info {I}.
Arguments row_created {I}.
Arguments row_published {I}.
Arguments row_available {I}.
Arguments row_attempts {I}.
Arguments row_claimed_at {I}.
Arguments row_claimed_by {I}.
Arguments row_error {I}.

(** A claimed event, as handed to the worker. *)
Record OutboxEvent (I : Type) : Type := mkEvent { ev_id : string; ev_info : I; ev_attempts : Z }.
Arguments mkEvent {I}.
Arguments ev_id {I}.
Arguments ev_info {I}.
Arguments ev_attempts {I}.

Record ClaimEnv : Type := mkClaimEnv { db_now : Z; app_now : Z; locked : gset string }.

Section statements.
Context {I : Type}.
Implicit Types (r : Row I) (t : gmap string (Row I)).

(** [INSERT INTO ..outbox (event_id, .., created_at) VALUES ..]: the lease
    columns take their defaults. *)
Definition new_row (info : I) (created now : Z) : Row I :=
  mkRow info created None now 0 None None None.

(** [published_at IS NULL AND available_at <= now() AND
    (claimed_at IS NULL OR claimed_at < cutoff)] *)
Definition claimable (env : ClaimEnv) (cutoff : Z) (id : string) r : bool :=
  bool_decide (id ∉ locked env) &&
  bool_decide (row_published r = None) && (row_available r <=? db_now env) &&
  match row_claimed_at r with None => true | Some at_ => at_ <? cutoff end.

(** [ORDER BY created_at, event_id] *)
Definition row_before (a b : string * Row I) : bool :=
  (row_created a.2 <? row_created b.2) ||
  ((row_created a.2 =? row_created b.2) && String.ltb a.1 b.1).

Definition earlier (best : option (string * Row I)) (x : string * Row I) : option (string * Row I) :=
  match best with
  | None => Some x
  | Some b => if row_before x b then Some x else Some b
  end.

(** [SELECT .. ORDER BY .. FOR UPDATE SKIP LOCKED LIMIT 1] *)
Definition select_claimable (env : ClaimEnv) (cutoff : Z) t : option (string * Row I) :=
  foldl earlier None
    (filter (λ x : string * Row I, claimable env cutoff x.1 x.2 = true) (map_to_list t)).

(** [SET claimed_at = now(), claimed_by = $1, attempts = attempts + 1] *)
Definition claim_row (now : Z) (worker : string) r : Row I :=
  mkRow (row_info r) (row_created r) (row_published r) (row_available r) (row_attempts r + 1)
    (Some now) (Some worker) (row_error r).

(** [SET published_at = now(), claimed_at = NULL, claimed_by = NULL, last_error = NULL] *)
Definition publish_row (now : Z) r : Row I :=
  mkRow (row_info r) (row_created r) (Some now) (row_available r) (row_attempts r) None None None.

(** [SET available_at = $1, claimed_at = NULL, claimed_by = NULL, last_error = $2] *)
Definition fail_row (retryAt : Z) (failure : string) r : Row I :=
  mkRow (row_info r) (row_created r) (row_published r) retryAt (row_attempts r) None None (Some failure).

(** [WHERE event_id = $1 AND claimed_by = $2 AND published_at IS NULL] *)
Definition owned_by (worker : string) r : bool :=
  bool_decide (row_claimed_by r = Some worker) && bool_decide (row_published r = None).

(** The claim transaction. *)
Definition sql_claim (none : error) (env : ClaimEnv) (worker : string) (lease : Z) t
    : result (OutboxEvent I) * gmap string (Row I) :=
  match select_claimable env (time_add (app_now env) (- lease)) t with
  | None => (Err none, t)
  | Some (id, r) =>
      (Ok (mkEvent id (row_info r) (row_attempts r + 1)), <[id := claim_row (db_now env) worker r]> t)
  end.

(** An [UPDATE .. WHERE event_id = .. AND claimed_by = .. AND published_at IS
    NULL] whose row count is checked. *)
Definition sql_update_owned (ownership : error) (f : Row I → Row I) (id worker : string) t
    : result unit * gmap string (Row I) :=
  match t !! id with
  | Some r => if owned_by worker r then (Ok tt, <[id := f r]> t) else (Err ownership, t)
  | None => (Err ownership, t)
  end.

End statements.

(** ** Argument checks shared by the methods *)

Definition canonical_worker (workerID : string) : bool :=
  negb (trim_space workerID =s "") && canonical_text workerID.

Definition lease_ok (lease : Z) : bool := (0 <? lease) && (lease <=? 24 * Hour).

Definition failure_ok (failure : string) : bool :=
  negb (failure =s "") && (str_len failure <=? 2048).

Definition ErrWorkerID : error := EText "worker_id must be canonical non-empty text".
Definition ErrLease : error := EText "lease must be between one nanosecond and 24 hours".
Definition ErrFailure : error := EText "failure must be non-empty and at most 2048 characters".

(** The argument checks of the methods, as the interface states them. *)
Lemma worker_check w : (trim_space w =s "") || negb (canonical_text w) = negb (canonical_worker w).
Proof. unfold canonical_worker. by destruct (trim_space w =s ""), (canonical_text w). Qed.

Lemma lease_check l : (l <=? 0) || (24 * Hour <? l) = negb (lease_ok l).
Proof. unfold lease_ok. lia. Qed.

Lemma failure_check f : (f =s "") || (2048 <? str_len f) = negb (failure_ok f).
Proof. unfold failure_ok. destruct (f =s ""); simpl; lia. Qed.

(** ** Lemmas *)

Section outbox_lemmas.
Context {I : Type}.
Implicit Types (r : Row I) (t : gmap string (Row I)).

Lemma str_ltb_trans a b c : String.ltb a b = true → String.ltb b c = true → String.ltb a c = true.
Proof.
  unfold String.ltb. revert b c. induction a as [|x a IH]; intros [|y b] [|z c]; simpl; try done.
  destruct (Ascii.compare x y) eqn:E1; try done.
  - apply Ascii.compare_eq_iff in E1 as ->.
    destruct (Ascii.compare y z); try done. apply IH.
  - intros _. destruct (Ascii.compare y z) eqn:E2; try done.
    + apply Ascii.compare_eq_iff in E2 as <-. by rewrite E1.
    + intros _. unfold Ascii.compare in *. rewrite N.compare_lt_iff in E1, E2.
      by rewrite (proj2 (N.compare_lt_iff _ _)) by lia.
Qed.

Lemma str_ltb_total a b : String.ltb a b = false → a ≠ b → String.ltb b a = true.
Proof.
  unfold String.ltb. rewrite (String.compare_antisym b a).
  destruct (String.compare a b) eqn:E; simpl; try done.
  by apply String.compare_eq_iff in E.
Qed.

Lemma str_ltb_irrefl a : String.ltb a a = false.
Proof.
  destruct (String.ltb a a) eqn:E; [|done]. exfalso. unfold String.ltb in E.
  pose proof (String.compare_antisym a a) as H. by destruct (String.compare a a).
Qed.

(** Not being preceded is a preorder. *)
Lemma str_nlt_trans a b c : String.ltb b a = false → String.ltb c b = false → String.ltb c a = false.
Proof.
  intros H1 H2. destruct (String.ltb c a) eqn:E; [|done].
  destruct (decide (a = b)) as [->|Hab]; [congruence|].
  assert (Hlt : String.ltb a b = true) by (apply (str_ltb_total b a); congruence).
  rewrite (str_ltb_trans c a b) in H2; congruence.
Qed.

Lemma row_nbefore_trans (a b c : string * Row I) :
  row_before b a = false → row_before c b = false → row_before c a = false.
Proof.
  unfold row_before. rewrite !orb_false_iff, !andb_false_iff, !Z.ltb_ge, !Z.eqb_neq.
  intros [H1 H2] [H3 H4]. split; [lia|].
  destruct (Z.eq_dec (row_created c.2) (row_created a.2)); [right|by left].
  destruct H2 as [?|H2]; [lia|]. destruct H4 as [?|H4]; [lia|]. by eapply str_nlt_trans.
Qed.

(** The scan keeps a row that no other one precedes. *)
Lemma earlier_fold (xs : list (string * Row I)) b :
  ∃ m, foldl earlier (Some b) xs = Some m ∧ (m = b ∨ m ∈ xs) ∧
  ∀ x, x = b ∨ x ∈ xs → row_before x m = false.
Proof.
  assert (Hirr : ∀ x : string * Row I, row_before x x = false).
  { intros x. unfold row_before. by rewrite Z.ltb_irrefl, Z.eqb_refl, str_ltb_irrefl. }
  revert b. induction xs as [|x xs IH]; intros b; cbn [foldl].
  - exists b. split_and!; [done|by left|]. intros x [->|?%elem_of_nil]; [apply Hirr|done].
  - unfold earlier at 2. destruct (row_before x b) eqn:E.
    + destruct (IH x) as (m&->&Hm&Hall). exists m. split_and!; [done|set_solver|].
      intros y [->|Hy]; [|apply Hall; set_solver].
      apply (row_nbefore_trans m x b); [by apply Hall; left|].
      unfold row_before in *. rewrite orb_true_iff, andb_true_iff, Z.ltb_lt, Z.eqb_eq in E.
      rewrite orb_false_iff, andb_false_iff, Z.ltb_ge, Z.eqb_neq. split; [lia|].
      destruct E as [?|[? Hlt]]; [left; lia|right].
      destruct (String.ltb b.1 x.1) eqn:E2; [|done].
      pose proof (str_ltb_trans _ _ _ Hlt E2) as Hbb. by rewrite str_ltb_irrefl in Hbb.
    + destruct (IH b) as (m&->&Hm&Hall). exists m. split_and!; [done|set_solver|].
      intros y [->|[->|Hy]%elem_of_cons]; [by apply Hall; left| |apply Hall; by right].
      apply (row_nbefore_trans m b x); [by apply Hall; left|done].
Qed.

Lemma select_claimable_Some env cutoff t id r :
  select_claimable env cutoff t = Some (id, r) →
  t !! id = Some r ∧ claimable env cutoff id r = true ∧
  ∀ id' r', t !! id' = Some r' → claimable env cutoff id' r' = true → row_before (id', r') (id, r) = false.
Proof.
  unfold select_claimable. set (xs := filter _ _).
  assert (Hxs : ∀ x, x ∈ xs ↔ t !! x.1 = Some x.2 ∧ claimable env cutoff x.1 x.2 = true).
  { intros [i w]. unfold xs. rewrite list_elem_of_filter, elem_of_map_to_list. simpl. tauto. }
  destruct xs as [|x xs']; simpl; [done|]. intros H.
  destruct (earlier_fold xs' x) as (m&Hm&Hin&Hall). rewrite H in Hm. injection Hm as <-.
  assert (Hin' : (id, r) ∈ x :: xs') by (destruct Hin as [->|?]; set_solver).
  apply Hxs in Hin' as [? ?]. split_and!; [done|done|].
  intros id' r' Ht Hc. apply Hall.
  assert (Hx : (id', r') ∈ x :: xs') by (by apply Hxs). apply elem_of_cons in Hx as [<-|?]; auto.
Qed.

Lemma select_claimable_None env cutoff t :
  select_claimable env cutoff t = None →
  ∀ id r, t !! id = Some r → claimable env cutoff id r = false.
Proof.
  unfold select_claimable. set (xs := filter _ _). intros H id r Ht.
  destruct (claimable env cutoff id r) eqn:E; [|done]. exfalso.
  assert (Hx : (id, r) ∈ xs).
  { unfold xs. rewrite list_elem_of_filter, elem_of_map_to_list. done. }
  destruct xs as [|x xs']; [by apply elem_of_nil in Hx|]. simpl in H.
  destruct (earlier_fold xs' x) as (m&Hm&_). congruence.
Qed.

End outbox_lemmas.

(** ** The interface of a leased store

    What a store promises its publisher: on valid arguments its methods are the
    statements above on its table, on other arguments they fail and change
    nothing. *)

Class OutboxStore (S I : Type) : Type := {
  ob_rows : S → gmap string (Row I);
  ob_set : S → gmap string (Row I) → S;
  ob_none : error;
  ob_ownership : error;
  ob_claim : ClaimEnv → string → Z → M S (OutboxEvent I);
  ob_publish : Z → string → string → M S unit;
  ob_fail : string → string → string → Z → M S unit
}.

Class OutboxLaws (S I : Type) {H : OutboxStore S I} : Prop := {
  ob_rows_set s t : ob_rows (ob_set s t) = t;
  ob_claim_law env worker lease s :
    canonical_worker worker = true → lease_ok lease = true →
    ob_claim env worker lease s =
    let '(r, t) := sql_claim ob_none env worker lease (ob_rows s) in (r, ob_set s t);
  ob_claim_reject env worker lease s :
    canonical_worker worker && lease_ok lease = false →
    ∃ e, ob_claim env worker lease s = (Err e, s) ∧ errors_is e ob_none = false;
  ob_publish_law now id worker s :
    canonical_worker worker = true →
    ob_publish now id worker s =
    let '(r, t) := sql_update_owned ob_ownership (publish_row now) id worker (ob_rows s) in
    (r, ob_set s t);
  ob_fail_law id worker failure retryAt s :
    canonical_worker worker = true → failure_ok (trim_space failure) = true →
    ob_fail id worker failure retryAt s =
    let '(r, t) := sql_update_owned ob_ownership (fail_row retryAt (trim_space failure)) id worker
                     (ob_rows s) in
    (r, ob_set s t);
  ob_fail_reject id worker failure retryAt s :
    failure_ok (trim_space failure) = false → ∃ e, ob_fail id worker failure retryAt s = (Err e, s)
}.

(** ** The lease as a state machine *)

Inductive outbox_label : Type :=
| LInsert (id : string)
| LClaim (id worker : string) (at_ cutoff : Z)
| LPublish (id worker : string)
| LFail (id worker : string).

Inductive outbox_step {I} : gmap string (Row I) → outbox_label → gmap string (Row I) → Prop :=
| os_insert t id info created now :
    t !! id = None → outbox_step t (LInsert id) (<[id := new_row info created now]> t)
| os_claim t none env worker lease ev t' :
    sql_claim none env worker lease t = (Ok ev, t') →
    outbox_step t (LClaim (ev_id ev) worker (db_now env) (time_add (app_now env) (- lease))) t'
| os_publish t ownership now id worker t' :
    sql_update_owned ownership (publish_row now) id worker t = (Ok tt, t') →
    outbox_step t (LPublish id worker) t'
| os_fail t ownership retryAt failure id worker t' :
    sql_update_owned ownership (fail_row retryAt failure) id worker t = (Ok tt, t') →
    outbox_step t (LFail id worker) t'.

(** A run, with the labels of its steps. *)
Inductive outbox_run {I} : gmap string (Row I) → list outbox_label → gmap string (Row I) → Prop :=
| or_nil t : outbox_run t [] t
| or_cons t l t' ls t'' : outbox_step t l t' → outbox_run t' ls t'' → outbox_run t (l :: ls) t''.

(** The label ends a claim of [id]. *)
Definition settles (id : string) (l : outbox_label) : Prop :=
  match l with
  | LPublish id' _ | LFail id' _ => id' = id
  | _ => False
  end.

Definition claims (id : string) (l : outbox_label) : Prop :=
  match l with LClaim id' _ _ _ => id' = id | _ => False end.

#[export] Instance claims_dec id l : Decision (claims id l).
Proof. destruct l; simpl; apply _. Defined.

Section machine.
Context {I : Type}.
Implicit Types (r : Row I) (t : gmap string (Row I)).

Lemma sql_claim_Ok none env worker lease t ev t' :
  sql_claim none env worker lease t = (Ok ev, t') →
  ∃ r, t !! ev_id ev = Some r ∧
    claimable env (time_add (app_now env) (- lease)) (ev_id ev) r = true ∧
    t' = <[ev_id ev := claim_row (db_now env) worker r]> t ∧
    ev_info ev = row_info r ∧ ev_attempts ev = row_attempts r + 1.
Proof.
  unfold sql_claim. destruct (select_claimable _ _ t) as [[id r]|] eqn:E; [|done].
  intros [= <- <-]. apply select_claimable_Some in E as (?&?&_). simpl. eauto 6.
Qed.

Lemma sql_update_Ok ownership (f : Row I → Row I) id worker t t' :
  sql_update_owned ownership f id worker t = (Ok tt, t') ↔
  ∃ r, t !! id = Some r ∧ row_claimed_by r = Some worker ∧ row_published r = None ∧ t' = <[id := f r]> t.
Proof.
  unfold sql_update_owned, owned_by. destruct (t !! id) as [r|]; [|naive_solver].
  do 2 case_bool_decide; simpl; naive_solver.
Qed.

(** Every row a step touches, and how. *)
Lemma outbox_step_row t l t' id r :
  outbox_step t l t' → t !! id = Some r →
  t' !! id = Some r ∨
  (row_published r = None ∧
   ((∃ w at_ cutoff, l = LClaim id w at_ cutoff ∧ t' !! id = Some (claim_row at_ w r) ∧
       match row_claimed_at r with None => True | Some at0 => at0 < cutoff end) ∨
    (∃ w now, l = LPublish id w ∧ row_claimed_by r = Some w ∧ t' !! id = Some (publish_row now r)) ∨
    (∃ w retryAt failure, l = LFail id w ∧ row_claimed_by r = Some w ∧
       t' !! id = Some (fail_row retryAt failure r)))).
Proof.
  intros Hs Hr. destruct Hs as [t id' info created now Hn|t none env w lease ev t' H
    |t own now id' w t' H|t own retryAt failure id' w t' H].
  - left. rewrite lookup_insert_ne; [done|]. intros ->. congruence.
  - apply sql_claim_Ok in H as (r0&H0&Hc&->&_). destruct (decide (ev_id ev = id)) as [<-|Hne].
    + right. assert (r0 = r) as -> by congruence. unfold claimable in Hc.
      apply andb_true_iff in Hc as [[[_ Hp]%andb_true_iff _]%andb_true_iff Hc].
      apply bool_decide_eq_true in Hp. split; [done|]. left. do 3 eexists. split; [done|].
      rewrite lookup_insert_eq. split; [done|]. destruct (row_claimed_at r); [lia|done].
    + left. by rewrite lookup_insert_ne.
  - apply sql_update_Ok in H as (r0&H0&?&?&->). destruct (decide (id' = id)) as [->|Hne].
    + right. assert (r0 = r) as -> by congruence. split; [done|]. right. left.
      do 2 eexists. by rewrite lookup_insert_eq.
    + left. by rewrite lookup_insert_ne.
  - apply sql_update_Ok in H as (r0&H0&?&?&->). destruct (decide (id' = id)) as [->|Hne].
    + right. assert (r0 = r) as -> by congruence. split; [done|]. right. right.
      do 3 eexists. by rewrite lookup_insert_eq.
    + left. by rewrite lookup_insert_ne.
Qed.

(** Every step keeps the rows and their payloads. *)
Lemma outbox_step_info t l t' id r :
  outbox_step t l t' → t !! id = Some r → ∃ r', t' !! id = Some r' ∧ row_info r' = row_info r.
Proof.
  intros Hs Hr.
  destruct (outbox_step_row _ _ _ _ _ Hs Hr) as [?|[_ [(w&a&c&_&?&_)|[(w&a&_&_&?)|(w&a&f&_&_&?)]]]];
    eexists; (split; [eassumption|done]).
Qed.

Lemma outbox_run_app t ls1 ls2 t'' :
  outbox_run t (ls1 ++ ls2) t'' ↔ ∃ t', outbox_run t ls1 t' ∧ outbox_run t' ls2 t''.
Proof.
  revert t. induction ls1 as [|l ls1 IH]; intros t; simpl.
  - split; [intros; exists t; split; [constructor|done]|].
    intros (t'&H&?). by inversion H; subst.
  - split.
    + intros H. inversion H; subst. match goal with H : outbox_run _ (ls1 ++ ls2) _ |- _ =>
        apply IH in H as (t1&?&?) end. exists t1. split; [by econstructor|done].
    + intros (t'&H&?). inversion H; subst. econstructor; [done|]. apply IH. eauto.
Qed.

(** Between two claims of a row that nobody settles, the claim stands. *)
Lemma claim_stands t ls t' id r at_ :
  outbox_run t ls t' → t !! id = Some r → row_claimed_at r = Some at_ →
  Forall (λ l, ¬ settles id l ∧ ¬ claims id l) ls →
  t' !! id = Some r.
Proof.
  induction 1 as [t|t l t1 ls t' Hs _ IH]; intros Hr Ha Hl; [done|].
  apply Forall_cons in Hl as [[Hl1 Hl2] Hl].
  destruct (outbox_step_row _ _ _ _ _ Hs Hr) as [H1|[_ [(w&a&c&->&_)|[(w&a&->&_)|(w&a&c&->&_)]]]].
  - by apply IH.
  - by destruct Hl2.
  - by destruct Hl1.
  - by destruct Hl1.
Qed.

End machine.

(** ** Properties *)

Definition count_claims (id : string) (ls : list outbox_label) : Z :=
  Z.of_nat (length (filter (claims id) ls)).

(** C35: A lease is exclusive: when a row is claimed twice and neither published
    nor failed in between, the second claim's cutoff (its clock minus its
    lease) lies strictly after the first claim's time, whatever the other
    workers did to other rows. *)
Theorem lease_exclusive {I} (t t' : gmap string (Row I)) ls id w1 w2 at1 at2 cut1 cut2 :
  outbox_run t (LClaim id w1 at1 cut1 :: ls ++ [LClaim id w2 at2 cut2]) t' →
  Forall (λ l, ¬ settles id l ∧ ¬ claims id l) ls →
  at1 < cut2.
Proof.
  intros H Hl. inversion H as [|? ? t1 ? ? Hs Hrun]; subst.
  apply outbox_run_app in Hrun as (t2&Hrun&Hlast).
  inversion Hlast as [|? ? t3 ? ? Hs2 Hnil]; subst.
  inversion Hs as [|? none env ? lease ev ? Hc| |]; subst.
  apply sql_claim_Ok in Hc as (r&Hr&_&->&_).
  assert (Hr2 : t2 !! ev_id ev = Some (claim_row (db_now env) w1 r)).
  { eapply claim_stands; [exact Hrun|by rewrite lookup_insert_eq|done|done]. }
  destruct (outbox_step_row _ _ _ _ _ Hs2 Hr2) as [Hsame|[_ [(w&a&c&[= -> -> ->]&_&Hlt)|[(w&a&[=]&_)|(w&a&c&[=]&_)]]]].
  - exfalso. inversion Hs2 as [|? none2 env2 ? lease2 ev2 ? Hc2| |]; subst.
    apply sql_claim_Ok in Hc2 as (r2&Hr3&_&->&_).
    match goal with E : ev_id ev2 = ev_id ev |- _ => rewrite E in * end.
    rewrite lookup_insert_eq in Hsame. assert (r2 = claim_row (db_now env) w1 r) as -> by congruence.
    injection Hsame as Hat Hw. lia.
  - exact Hlt.
Qed.

(** An outbox never loses or rewrites an event: through any run a row stays
    in the table with its payload and creation time, its attempt counter is the
    number of its claims, and once published it never changes again. *)
Theorem outbox_rows_kept {I} (t t' : gmap string (Row I)) ls id r :
  outbox_run t ls t' → t !! id = Some r →
  ∃ r', t' !! id = Some r' ∧ row_info r' = row_info r ∧ row_created r' = row_created r ∧
    row_attempts r' = row_attempts r + count_claims id ls ∧ (row_published r ≠ None → r' = r).
Proof.
  intros H. revert r. induction H as [t|t l t1 ls t' Hs _ IH]; intros r Hr.
  - exists r. unfold count_claims. simpl. split_and!; try done. lia.
  - assert (Hcount : count_claims id (l :: ls) =
      (if decide (claims id l) then 1 else 0) + count_claims id ls).
    { unfold count_claims. rewrite filter_cons. case_decide; simpl; lia. }
    rewrite Hcount.
    destruct (outbox_step_row _ _ _ _ _ Hs Hr) as
      [H1|[Hp [(w&a&c&->&H1&_)|[(w&a&->&_&H1)|(w&a&f&->&_&H1)]]]];
      destruct (IH _ H1) as (r'&Hr'&Hi&Hc&Ha&Hf); exists r';
      (split_and!; [done|done|done| |intros; try done; by apply Hf]).
    + rewrite decide_False; [lia|]. intros Hd. destruct l as [|id' w a c| |]; try done. simpl in Hd. subst id'.
      inversion Hs as [|? none env ? lease ev ? Hcl| |]; subst.
      apply sql_claim_Ok in Hcl as (r2&Hr2&_&->&_). rewrite Hr2 in Hr. injection Hr as <-.
      rewrite lookup_insert_eq in H1. injection H1 as H1.
      apply (f_equal row_attempts) in H1. simpl in H1. lia.
    + rewrite decide_True by done. simpl in Ha. lia.
    + rewrite decide_False by tauto. simpl in Ha. lia.
    + rewrite decide_False by tauto. simpl in Ha. lia.
Qed.

(** A claim takes the earliest row, by creation time then identity, among
    the rows that are unpublished, due, unlocked and not under an unexpired
    lease, records the worker and counts the attempt; it reports that nothing
    is pending exactly when there is no such row, and then changes nothing. *)
Theorem sql_claim_spec {I} none env worker lease (t : gmap string (Row I)) :
  match sql_claim none env worker lease t with
  | (Ok ev, t') =>
      ∃ r, t !! ev_id ev = Some r ∧
        claimable env (time_add (app_now env) (- lease)) (ev_id ev) r = true ∧
        (∀ id' r', t !! id' = Some r' →
           claimable env (time_add (app_now env) (- lease)) id' r' = true →
           row_before (id', r') (ev_id ev, r) = false) ∧
        ev = mkEvent (ev_id ev) (row_info r) (row_attempts r + 1) ∧
        t' = <[ev_id ev := claim_row (db_now env) worker r]> t
  | (Err e, t') =>
      e = none ∧ t' = t ∧
      ∀ id r, t !! id = Some r → claimable env (time_add (app_now env) (- lease)) id r = false
  end.
Proof.
  unfold sql_claim. destruct (select_claimable _ _ t) as [[id r]|] eqn:E.
  - apply select_claimable_Some in E as (?&?&?). exists r. done.
  - split_and!; [done|done|]. by apply select_claimable_None.
Qed.

Definition sample_rows : gmap string (Row string) :=
  <["e2" := new_row "second" 20 20]> (<["e1" := new_row "first" 10 10]> ∅).
Definition sample_claim_env (now : Z) : ClaimEnv := mkClaimEnv now now ∅.
Definition sample_none : error := EText "none".

Lemma sample_double_claim :
  outbox_run sample_rows [LClaim "e1" "w1" 100 40; LClaim "e2" "w2" 101 41; LClaim "e1" "w2" 161 101]
    (sql_claim sample_none (sample_claim_env 161) "w2" 60
      (sql_claim sample_none (sample_claim_env 101) "w2" 60
        (sql_claim sample_none (sample_claim_env 100) "w1" 60 sample_rows).2).2).2.
Proof.
  eapply or_cons; [apply (os_claim _ sample_none (sample_claim_env 100) "w1" 60
    (mkEvent "e1" "first" 1)); vm_compute; reflexivity|].
  eapply or_cons; [apply (os_claim _ sample_none (sample_claim_env 101) "w2" 60
    (mkEvent "e2" "second" 1)); vm_compute; reflexivity|].
  eapply or_cons; [apply (os_claim _ sample_none (sample_claim_env 161) "w2" 60
    (mkEvent "e1" "first" 2)); vm_compute; reflexivity|]. apply or_nil.
Qed.

Lemma lease_exclusive_witness : 100 < 101.
Proof.
  apply (lease_exclusive sample_rows _ [LClaim "e2" "w2" 101 41] "e1" "w1" "w2" 100 161 40 101
    sample_double_claim).
  apply Forall_cons_2; [|apply Forall_nil_2]. split; intros H; [exact H|discriminate H].
Defined.

Lemma outbox_rows_kept_witness :
  ∃ r', (sql_claim sample_none (sample_claim_env 161) "w2" 60
      (sql_claim sample_none (sample_claim_env 101) "w2" 60
        (sql_claim sample_none (sample_claim_env 100) "w1" 60 sample_rows).2).2).2 !! "e1" = Some r' ∧
    row_attempts r' = 2.
Proof.
  destruct (outbox_rows_kept _ _ _ "e1" (new_row "first" 10 10) sample_double_claim eq_refl)
    as (r'&Hr&_&_&Ha&_). exists r'. split; [exact Hr|]. rewrite Ha. reflexivity.
Defined.
