(* ===== verification/Incident.v ===== *)
(** * Incident casework ([internal/incident/model.go], [store.go], [outbox.go])

    The incident records with their lifecycle, and the PostgreSQL store: each
    method is the composition of the SQL statements the code runs, inside the
    transaction it opens.  A statement sees the tables, the uniqueness and
    foreign-key constraints of [db/migrations] included.  [pg_time] is the
    resolution at which PostgreSQL keeps a timestamp. *)

From S2P Require Import Prelude GoStrings GoTime Float64 Outbox.

(** ** Model *)

Definition Severity : Type := string.
Definition SeverityLow : Severity := "LOW".
Definition SeverityMedium : Severity := "MEDIUM".
Definition SeverityHigh : Severity := "HIGH".
Definition SeverityCritical : Severity := "CRITICAL".

Definition Status : Type := string.
Definition StatusOpen : Status := "OPEN".
Definition StatusAcknowledged : Status := "ACKNOWLEDGED".
Definition StatusInvestigating : Status := "INVESTIGATING".
Definition StatusResolved : Status := "RESOLVED".
Definition StatusClosed : Status := "CLOSED".

Definition ErrIdempotencyConflict : error := ESentinel "incident.ErrIdempotencyConflict".
Definition ErrNotFound : error := ESentinel "incident.ErrNotFound".
Definition ErrInvalidTransition : error := ESentinel "incident.ErrInvalidTransition".
Definition ErrOptimisticConflict : error := ESentinel "incident.ErrOptimisticConflict".
Definition ErrCorrelationConflict : error := ESentinel "incident.ErrCorrelationConflict".
Definition ErrNoPendingOutbox : error := ESentinel "incident.ErrNoPendingOutbox".
Definition ErrOutboxOwnership : error := ESentinel "incident.ErrOutboxOwnership".

Definition incidentIDPattern (s : string) : bool := ident_pattern 127 s.

Record CreateRequest : Type := mkCreate {
  cr_incident : string;
  cr_source_event : string;
  cr_category : string;
  cr_severity : Severity;
  cr_title : string;
  cr_description : string;
  cr_occurred : Z;
  cr_created_by : string
}.

Record Incident : Type := mkIncident {
  in_request : CreateRequest;
  in_status : Status;
  in_created : Z;
  in_updated : Z;
  in_version : Z
}.

Record CorrelationRequest : Type := mkCorrelation {
  co_geofence : string;
  co_relation : string;
  co_latitude : f64;
  co_longitude : f64;
  co_evidence : string;
  co_by : string
}.

Record SpatialCorrelation : Type := mkSpatial {
  sc_id : string;
  sc_incident : string;
  sc_request : CorrelationRequest;
  sc_created : Z
}.

Record AssignmentRequest : Type := mkAssignment {
  as_expected : Z;
  as_analyst : string;
  as_by : string
}.

Record AnalystAssignment : Type := mkAnalyst {
  aa_incident : string;
  aa_analyst : string;
  aa_by : string;
  aa_at : Z;
  aa_version : Z
}.

(** [value == "" || strings.TrimSpace(value) != value || len(value) > n] *)
Definition canonical_field (n : Z) (name_value : string * string) : result unit :=
  fail_if ((name_value.2 =s "") || negb (canonical_text name_value.2) || (n <? str_len name_value.2))
    (EText (name_value.1 +:+ " must be canonical non-empty text of at most " +:+ dec n +:+ " characters")).

Definition isFiniteCoordinate (latitude longitude : f64) : bool :=
  negb (is_nan latitude) && negb (is_inf latitude) && fge latitude (f_of_Z (-90)) &&
  fle latitude (f_of_Z 90) && negb (is_nan longitude) && negb (is_inf longitude) &&
  fge longitude (f_of_Z (-180)) && fle longitude (f_of_Z 180).

(** The fields are checked in a random map order in the code; the order only
    decides which field the error names. *)
Definition CorrelationRequest_Validate (request : CorrelationRequest) : result unit :=
  _ ← check_all (canonical_field 256)
        [("geofence_id", co_geofence request); ("relation", co_relation request);
         ("evidence_sha256", co_evidence request); ("correlated_by", co_by request)];
  _ ← fail_if ((co_relation request <>s "INSIDE") && (co_relation request <>s "OUTSIDE") &&
               (co_relation request <>s "BOUNDARY")) (EText "relation is not supported");
  _ ← fail_if (negb (has_prefix (co_evidence request) "sha256:") || negb (str_len (co_evidence request) =? 71))
        (EText "evidence_sha256 must be sha256: followed by 64 hexadecimal characters");
  _ ← fail_if (negb (all_chars is_lower_hex (str_drop 7 (co_evidence request))))
        (EText "evidence_sha256 must use lowercase hexadecimal");
  fail_if (negb (isFiniteCoordinate (co_latitude request) (co_longitude request)))
    (EText "coordinates must be finite latitude/longitude values").

Definition analyst_field (name_value : string * string) : result unit :=
  fail_if ((name_value.2 =s "") || negb (canonical_text name_value.2) || (256 <? str_len name_value.2) ||
           negb (incidentIDPattern name_value.2))
    (EText (name_value.1 +:+ " must be a canonical analyst identifier")).

Definition AssignmentRequest_Validate (request : AssignmentRequest) : result unit :=
  _ ← fail_if (as_expected request <? 1) (EText "expected_version must be positive");
  _ ← check_all analyst_field
        [("analyst_id", as_analyst request); ("assigned_by", as_by request)];
  fail_if (as_analyst request =s as_by request)
    (EText "analyst and assigning principal must be distinct").

Definition CreateRequest_Validate (request : CreateRequest) : result unit :=
  _ ← check_all (canonical_field 4096)
        [("incident_id", cr_incident request); ("source_event_id", cr_source_event request);
         ("category", cr_category request); ("title", cr_title request);
         ("description", cr_description request); ("created_by", cr_created_by request)];
  _ ← fail_if (negb (incidentIDPattern (cr_incident request)) ||
               negb (incidentIDPattern (cr_source_event request)))
        (EText "incident_id and source_event_id contain unsupported characters");
  _ ← fail_if ((cr_severity request <>s SeverityLow) && (cr_severity request <>s SeverityMedium) &&
               (cr_severity request <>s SeverityHigh) && (cr_severity request <>s SeverityCritical))
        (EText "severity is not supported");
  fail_if (time_is_zero (cr_occurred request)) (EText "occurred_at must be RFC3339").

Definition Matches (incident : Incident) (request : CreateRequest) : bool :=
  let r := in_request incident in
  (cr_incident r =s cr_incident request) && (cr_source_event r =s cr_source_event request) &&
  (cr_category r =s cr_category request) && (cr_severity r =s cr_severity request) &&
  (cr_title r =s cr_title request) && (cr_description r =s cr_description request) &&
  time_equal (cr_occurred r) (cr_occurred request) && (cr_created_by r =s cr_created_by request).

Definition ValidTransition (current next : Status) : bool :=
  if current =s StatusOpen then (next =s StatusAcknowledged) || (next =s StatusResolved)
  else if current =s StatusAcknowledged then (next =s StatusInvestigating) || (next =s StatusResolved)
  else if current =s StatusInvestigating then next =s StatusResolved
  else if current =s StatusResolved then next =s StatusClosed
  else false.

(** ** Tables *)

Inductive IncidentPayload : Type :=
| PIncident (incident : Incident)
| PCorrelation (correlation : SpatialCorrelation)
| PAssignment (assignment : AnalystAssignment).

(** The payload columns of [maritime_incident_outbox]; the JSONB payload is the
    JSON document of the named record. *)
Record IncidentEvent : Type := mkIncidentEvent {
  ie_incident : string;
  ie_type : string;
  ie_payload : IncidentPayload
}.

Record IncidentDB : Type := mkIncidentDB {
  incidents : gmap string Incident;
  correlations : gmap (string * string) SpatialCorrelation;
  assignments : gmap string AnalystAssignment;
  incident_outbox : gmap string (Row IncidentEvent)
}.

Definition set_incidents (db : IncidentDB) (x : gmap string Incident) : IncidentDB :=
  mkIncidentDB x (correlations db) (assignments db) (incident_outbox db).
Definition set_correlations (db : IncidentDB) (x : gmap (string * string) SpatialCorrelation) : IncidentDB :=
  mkIncidentDB (incidents db) x (assignments db) (incident_outbox db).
Definition set_assignments (db : IncidentDB) (x : gmap string AnalystAssignment) : IncidentDB :=
  mkIncidentDB (incidents db) (correlations db) x (incident_outbox db).
Definition set_outbox (db : IncidentDB) (x : gmap string (Row IncidentEvent)) : IncidentDB :=
  mkIncidentDB (incidents db) (correlations db) (assignments db) x.

(** The clocks and the generated identities of one method call. *)
Record TxEnv : Type := mkTxEnv { tx_now : Z; tx_db_now : Z; tx_event : string; tx_uuid : string }.

(** [WHERE source_event_id = $1]; the column is UNIQUE. *)
Definition find_source (db : IncidentDB) (source_event : string) : option Incident :=
  head (filter (λ i, cr_source_event (in_request i) = source_event) (map_to_list (incidents db)).*2).

Definition outbox_types : list string :=
  ["incident.created"; "incident.status_changed"; "incident.spatial_correlated"; "incident.assigned"].

(** [INSERT INTO maritime_incident_outbox]: primary key, foreign key and the
    CHECK on the event type. *)
Definition insert_outbox (context : string) (env : TxEnv) (created : Z) (e : IncidentEvent)
    : M IncidentDB unit :=
  db ← get_state;
  _ ← check (bool_decide (is_Some (incident_outbox db !! tx_event env)))
        (EWrap context (EText "duplicate key value: event_id"));
  _ ← check (bool_decide (incidents db !! ie_incident e = None))
        (EWrap context (EText "foreign key violation: incident_id"));
  _ ← check (bool_decide (ie_type e ∉ outbox_types)) (EWrap context (EText "check violation: event_type"));
  put_state (set_outbox db (<[tx_event env := new_row e created (tx_db_now env)]> (incident_outbox db))).

Section store.
Context (pg_time : Z → Z).

(** The row an INSERT of the request stores. *)
Definition stored_request (request : CreateRequest) : CreateRequest :=
  mkCreate (cr_incident request) (cr_source_event request) (cr_category request) (cr_severity request)
    (cr_title request) (cr_description request) (pg_time (cr_occurred request)) (cr_created_by request).

Definition new_incident (createdAt : Z) (request : CreateRequest) : Incident :=
  mkIncident (stored_request request) StatusOpen (pg_time createdAt) (pg_time createdAt) 1.

Definition createIncidentInTransaction (env : TxEnv) (request : CreateRequest)
    : M IncidentDB Incident :=
  let createdAt := tx_now env in
  db ← get_state;
  match find_source db (cr_source_event request) with
  | Some retained =>
      (* ON CONFLICT (source_event_id) DO NOTHING, then the SELECT .. FOR UPDATE *)
      if negb (Matches retained request) then throw ErrIdempotencyConflict else mret retained
  | None =>
      match incidents db !! cr_incident request with
      | Some _ => throw (EWrap "insert incident" (EText "duplicate key value: incident_id"))
      | None =>
          let retained := new_incident createdAt request in
          _ ← put_state (set_incidents db (<[cr_incident request := retained]> (incidents db)));
          _ ← insert_outbox "write incident event" env createdAt
                (mkIncidentEvent (cr_incident request) "incident.created" (PIncident retained));
          mret retained
      end
  end.

Definition Create (env : TxEnv) (request : CreateRequest) : M IncidentDB Incident :=
  _ ← lift (CreateRequest_Validate request);
  atomically (createIncidentInTransaction env request).

Definition Get (incidentID : string) : M IncidentDB Incident :=
  db ← get_state;
  match incidents db !! incidentID with Some i => mret i | None => throw ErrNotFound end.

(** The first phase of [Transition]: the read and the checks, outside the
    transaction. *)
Definition transition_check (incidentID : string) (expectedVersion : Z) (next : Status)
    : M IncidentDB Incident :=
  current ← Get incidentID;
  _ ← check (negb (in_version current =? expectedVersion)) ErrOptimisticConflict;
  _ ← check (negb (ValidTransition (in_status current) next)) ErrInvalidTransition;
  mret current.

(** The second phase: the conditional UPDATE and the event. *)
Definition transition_commit (env : TxEnv) (incidentID : string) (current : Incident)
    (expectedVersion : Z) (next : Status) : M IncidentDB Incident :=
  atomically (
    let updatedAt := tx_now env in
    db ← get_state;
    match incidents db !! incidentID with
    | Some i =>
        if (in_status i =s in_status current) && (in_version i =? expectedVersion) then
          let updated := mkIncident (in_request i) next (in_created i) (pg_time updatedAt)
                           (in_version i + 1) in
          _ ← put_state (set_incidents db (<[incidentID := updated]> (incidents db)));
          _ ← insert_outbox "write status event" env updatedAt
                (mkIncidentEvent (cr_incident (in_request updated)) "incident.status_changed"
                   (PIncident updated));
          mret updated
        else throw ErrOptimisticConflict
    | None => throw ErrOptimisticConflict
    end).

Definition Transition (env : TxEnv) (incidentID : string) (expectedVersion : Z) (next : Status)
    : M IncidentDB Incident :=
  current ← transition_check incidentID expectedVersion next;
  transition_commit env incidentID current expectedVersion next.

Definition same_correlation (retained : SpatialCorrelation) (request : CorrelationRequest) : bool :=
  (co_relation (sc_request retained) =s co_relation request) &&
  feq (co_latitude (sc_request retained)) (co_latitude request) &&
  feq (co_longitude (sc_request retained)) (co_longitude request) &&
  (co_evidence (sc_request retained) =s co_evidence request) &&
  (co_by (sc_request retained) =s co_by request).

Definition Correlate (env : TxEnv) (incidentID : string) (request : CorrelationRequest)
    : M IncidentDB SpatialCorrelation :=
  _ ← check (negb (incidentIDPattern incidentID)) ErrNotFound;
  _ ← lift (CorrelationRequest_Validate request);
  atomically (
    let createdAt := tx_now env in
    db ← get_state;
    match correlations db !! (incidentID, co_geofence request) with
    | Some retained =>
        if negb (same_correlation retained request) then throw ErrCorrelationConflict else mret retained
    | None =>
        _ ← check (bool_decide (incidents db !! incidentID = None))
              (EWrap "insert correlation" (EText "foreign key violation: incident_id"));
        let retained := mkSpatial (tx_uuid env) incidentID request (pg_time createdAt) in
        _ ← put_state (set_correlations db
              (<[(incidentID, co_geofence request) := retained]> (correlations db)));
        _ ← insert_outbox "write correlation event" env createdAt
              (mkIncidentEvent incidentID "incident.spatial_correlated" (PCorrelation retained));
        mret retained
    end).

Definition Assign (env : TxEnv) (incidentID : string) (request : AssignmentRequest)
    : M IncidentDB AnalystAssignment :=
  _ ← check (negb (incidentIDPattern incidentID)) ErrNotFound;
  _ ← lift (AssignmentRequest_Validate request);
  atomically (
    let assignedAt := tx_now env in
    db ← get_state;
    match incidents db !! incidentID with
    | None => throw ErrNotFound
    | Some i =>
        if (in_version i =? as_expected request) && negb (in_status i =s StatusClosed) then
          let version := in_version i + 1 in
          let updated := mkIncident (in_request i) (in_status i) (in_created i) (pg_time assignedAt) version in
          let assignment := mkAnalyst incidentID (as_analyst request) (as_by request) assignedAt version in
          _ ← put_state (set_assignments
                (set_incidents db (<[incidentID := updated]> (incidents db)))
                (<[incidentID := mkAnalyst incidentID (as_analyst request) (as_by request)
                                   (pg_time assignedAt) version]> (assignments db)));
          _ ← insert_outbox "write assignment event" env assignedAt
                (mkIncidentEvent incidentID "incident.assigned" (PAssignment assignment));
          mret assignment
        else if negb (in_version i =? as_expected request) then throw ErrOptimisticConflict
        else throw ErrInvalidTransition
    end).

End store.

(** ** The outbox methods *)

(** One statement on the outbox table. *)
Definition on_outbox {A}
    (f : gmap string (Row IncidentEvent) → result A * gmap string (Row IncidentEvent)) : M IncidentDB A :=
  λ db, let '(r, t) := f (incident_outbox db) in (r, set_outbox db t).

Definition ClaimOutbox (env : ClaimEnv) (workerID : string) (lease : Z)
    : M IncidentDB (OutboxEvent IncidentEvent) :=
  _ ← check ((trim_space workerID =s "") || negb (canonical_text workerID)) ErrWorkerID;
  _ ← check ((lease <=? 0) || (24 * Hour <? lease)) ErrLease;
  on_outbox (sql_claim ErrNoPendingOutbox env workerID lease).

Definition MarkOutboxPublished (now : Z) (eventID workerID : string) : M IncidentDB unit :=
  _ ← check ((trim_space workerID =s "") || negb (canonical_text workerID)) ErrWorkerID;
  on_outbox (sql_update_owned ErrOutboxOwnership (publish_row now) eventID workerID).

Definition MarkOutboxFailed (eventID workerID failure : string) (retryAt : Z) : M IncidentDB unit :=
  _ ← check ((trim_space workerID =s "") || negb (canonical_text workerID)) ErrWorkerID;
  let failure := trim_space failure in
  _ ← check ((failure =s "") || (2048 <? str_len failure)) ErrFailure;
  on_outbox (sql_update_owned ErrOutboxOwnership (fail_row retryAt failure) eventID workerID).

#[export] Instance incident_outbox_store : OutboxStore IncidentDB IncidentEvent := {
  ob_rows := incident_outbox;
  ob_set := set_outbox;
  ob_none := ErrNoPendingOutbox;
  ob_ownership := ErrOutboxOwnership;
  ob_claim := ClaimOutbox;
  ob_publish := MarkOutboxPublished;
  ob_fail := MarkOutboxFailed
}.

(** The store discharges the publisher's interface. *)
#[export] Instance incident_outbox_laws : OutboxLaws IncidentDB IncidentEvent.
Proof.
  split; simpl.
  - done.
  - intros env w l s Hw Hl. unfold ClaimOutbox. rewrite worker_check, lease_check, Hw, Hl. done.
  - intros env w l s H. unfold ClaimOutbox. rewrite worker_check, lease_check.
    destruct (canonical_worker w); simpl in *; [rewrite H|]; eexists; split; reflexivity.
  - intros now id w s Hw. unfold MarkOutboxPublished. rewrite worker_check, Hw. done.
  - intros id w f at_ s Hw Hf. unfold MarkOutboxFailed. rewrite worker_check, failure_check, Hw, Hf. done.
  - intros id w f at_ s Hf. unfold MarkOutboxFailed. rewrite worker_check, failure_check, Hf.
    destruct (canonical_worker w); eexists; reflexivity.
Qed.
