(* ===== verification/IncidentProofs.v ===== *)
(** * What the incident store guarantees

    The tables' invariant, the outcome of each method on every branch, and the
    behaviour of concurrent callers: a [Transition] reads and checks before it
    opens its transaction, so other calls may run in between. *)

From S2P Require Import Prelude GoStrings GoTime Float64 Outbox Incident.

(** ** The invariant *)

Definition statuses : list Status :=
  [StatusOpen; StatusAcknowledged; StatusInvestigating; StatusResolved; StatusClosed].

(** The incident version an event announces. *)
Definition event_version (e : IncidentEvent) : option (string * Z) :=
  match ie_payload e with
  | PIncident i => Some (ie_incident e, in_version i)
  | PAssignment a => Some (ie_incident e, aa_version a)
  | PCorrelation _ => None
  end.

Definition announced (db : IncidentDB) (ev : string) (id : string) (v : Z) : Prop :=
  ∃ row, incident_outbox db !! ev = Some row ∧ event_version (row_info row) = Some (id, v).

Record db_inv (db : IncidentDB) : Prop := {
  di_key : ∀ id i, incidents db !! id = Some i → cr_incident (in_request i) = id;
  di_source : ∀ id1 id2 i1 i2, incidents db !! id1 = Some i1 → incidents db !! id2 = Some i2 →
    cr_source_event (in_request i1) = cr_source_event (in_request i2) → id1 = id2;
  di_version : ∀ id i, incidents db !! id = Some i → 1 <= in_version i;
  di_status : ∀ id i, incidents db !! id = Some i → in_status i ∈ statuses;
  di_events : ∀ id i v, incidents db !! id = Some i →
    (∃ ev, announced db ev id v) ↔ 1 <= v <= in_version i;
  di_once : ∀ ev1 ev2 id v, announced db ev1 id v → announced db ev2 id v → ev1 = ev2;
  di_live : ∀ ev id v, announced db ev id v → is_Some (incidents db !! id);
  di_correlations : ∀ k c, correlations db !! k = Some c →
    is_Some (incidents db !! k.1) ∧ sc_incident c = k.1 ∧ co_geofence (sc_request c) = k.2;
  di_assignments : ∀ id a, assignments db !! id = Some a →
    ∃ i, incidents db !! id = Some i ∧ 1 <= aa_version a <= in_version i
}.

Definition empty_db : IncidentDB := mkIncidentDB ∅ ∅ ∅ ∅.

(** ** Runs of the statements *)

Lemma insert_outbox_Ok ctx env created e db u db' :
  insert_outbox ctx env created e db = (Ok u, db') →
  incident_outbox db !! tx_event env = None ∧ is_Some (incidents db !! ie_incident e) ∧
  db' = set_outbox db (<[tx_event env := new_row e created (tx_db_now env)]> (incident_outbox db)).
Proof.
  unfold insert_outbox, get_state, put_state. rewrite !mbind_run, check_run.
  case_bool_decide as H1; [done|]. rewrite mbind_run, check_run.
  case_bool_decide as H2; [done|]. rewrite mbind_run, check_run.
  case_bool_decide as H3; [done|]. intros [= _ <-]. split_and!; [|by apply not_eq_None_Some|done].
  by apply eq_None_not_Some.
Qed.

Lemma find_source_Some db s i :
  find_source db s = Some i → ∃ id, incidents db !! id = Some i ∧ cr_source_event (in_request i) = s.
Proof.
  unfold find_source. intros H%head_Some_elem_of.
  apply list_elem_of_filter in H as [Hs Hi]. apply list_elem_of_fmap in Hi as ([id i']&->&Hi).
  apply elem_of_map_to_list in Hi. eauto.
Qed.

Lemma find_source_None db s id i :
  find_source db s = None → incidents db !! id = Some i → cr_source_event (in_request i) ≠ s.
Proof.
  unfold find_source. rewrite head_None. intros H Hi Hs.
  assert (Hin : i ∈ filter (λ i, cr_source_event (in_request i) = s) (map_to_list (incidents db)).*2).
  { apply list_elem_of_filter. split; [done|]. apply list_elem_of_fmap. exists (id, i).
    split; [done|]. by apply elem_of_map_to_list. }
  rewrite H in Hin. by apply elem_of_nil in Hin.
Qed.

Section methods.
Context (pg_time : Z → Z).

(** The event row a method writes next to its change. *)
Definition with_event (env : TxEnv) (created : Z) (e : IncidentEvent) (db : IncidentDB) : IncidentDB :=
  set_outbox db (<[tx_event env := new_row e created (tx_db_now env)]> (incident_outbox db)).

Lemma create_in_tx_Ok env req db i db' :
  createIncidentInTransaction pg_time env req db = (Ok i, db') →
  (db' = db ∧ find_source db (cr_source_event req) = Some i ∧ Matches i req = true) ∨
  (find_source db (cr_source_event req) = None ∧ incidents db !! cr_incident req = None ∧
   i = new_incident pg_time (tx_now env) req ∧ incident_outbox db !! tx_event env = None ∧
   db' = with_event env (tx_now env) (mkIncidentEvent (cr_incident req) "incident.created" (PIncident i))
           (set_incidents db (<[cr_incident req := i]> (incidents db)))).
Proof.
  unfold createIncidentInTransaction, get_state. rewrite mbind_run.
  destruct (find_source db (cr_source_event req)) as [r|].
  - destruct (Matches r req) eqn:EM; [|done]. intros [= <- <-]. auto.
  - destruct (incidents db !! cr_incident req) as [x|] eqn:Ei; [done|].
    cbn zeta. unfold put_state. rewrite mbind_run. cbn iota beta. rewrite mbind_run.
    destruct (insert_outbox _ _ _ _ _) as [[[]|e] db1] eqn:E; [|done].
    apply insert_outbox_Ok in E as (H1&_&->). intros [= <- <-]. right. done.
Qed.

Lemma transition_commit_Ok env id cur v next db upd db' :
  transition_commit pg_time env id cur v next db = (Ok upd, db') →
  ∃ i, incidents db !! id = Some i ∧ in_status i = in_status cur ∧ in_version i = v ∧
    upd = mkIncident (in_request i) next (in_created i) (pg_time (tx_now env)) (v + 1) ∧
    incident_outbox db !! tx_event env = None ∧
    db' = with_event env (tx_now env)
            (mkIncidentEvent (cr_incident (in_request i)) "incident.status_changed" (PIncident upd))
            (set_incidents db (<[id := upd]> (incidents db))).
Proof.
  unfold transition_commit. rewrite atomically_Ok. unfold get_state. rewrite mbind_run.
  destruct (incidents db !! id) as [i|] eqn:Ei; [|done].
  destruct ((in_status i =s in_status cur) && (in_version i =? v)) eqn:Ec; [|done].
  apply andb_true_iff in Ec as [Hs%String.eqb_eq Hv%Z.eqb_eq].
  cbn zeta. unfold put_state. rewrite mbind_run. cbn iota beta. rewrite mbind_run.
  destruct (insert_outbox _ _ _ _ _) as [[[]|e] db1] eqn:E; [|done].
  apply insert_outbox_Ok in E as (H1&_&->). intros [= <- <-]. exists i. by rewrite Hv.
Qed.

Lemma transition_check_Ok id v next db cur db' :
  transition_check id v next db = (Ok cur, db') ↔
  db' = db ∧ incidents db !! id = Some cur ∧ in_version cur = v ∧
  ValidTransition (in_status cur) next = true.
Proof.
  unfold transition_check, Get. run_store.
  destruct (incidents db !! id) as [i|]; run_store; [|naive_solver].
  destruct (Z.eqb_spec (in_version i) v); simpl; run_store;
    [|split; [done|by intros (_&[= ->]&?&_)]].
  destruct (ValidTransition (in_status i) next) eqn:E; simpl; run_store.
  - split; [by intros [= -> ->]|by intros (->&[= ->]&_)].
  - split; [done|intros (_&[= ->]&_&?); congruence].
Qed.

Lemma Assign_Ok env id req db a db' :
  Assign pg_time env id req db = (Ok a, db') →
  AssignmentRequest_Validate req = Ok tt ∧
  ∃ i, incidents db !! id = Some i ∧ in_version i = as_expected req ∧ in_status i ≠ StatusClosed ∧
    a = mkAnalyst id (as_analyst req) (as_by req) (tx_now env) (in_version i + 1) ∧
    incident_outbox db !! tx_event env = None ∧
    db' = with_event env (tx_now env) (mkIncidentEvent id "incident.assigned" (PAssignment a))
      (set_assignments
        (set_incidents db (<[id := mkIncident (in_request i) (in_status i) (in_created i)
                                    (pg_time (tx_now env)) (in_version i + 1)]> (incidents db)))
        (<[id := mkAnalyst id (as_analyst req) (as_by req) (pg_time (tx_now env)) (in_version i + 1)]>
           (assignments db))).
Proof.
  unfold Assign. rewrite mbind_run, check_run. destruct (negb _); [done|].
  unfold lift. rewrite mbind_run. destruct (AssignmentRequest_Validate req) as [[]|e]; [|done].
  rewrite atomically_Ok. unfold get_state. rewrite mbind_run.
  destruct (incidents db !! id) as [i|] eqn:Ei; [|done].
  destruct ((in_version i =? as_expected req) && negb (in_status i =s StatusClosed)) eqn:Ec;
    [|by case_match].
  apply andb_true_iff in Ec as [Hv%Z.eqb_eq Hs%negb_true_iff%String.eqb_neq].
  cbn zeta. unfold put_state. rewrite mbind_run. cbn iota beta. rewrite mbind_run.
  destruct (insert_outbox _ _ _ _ _) as [[[]|e] db1] eqn:E; [|done].
  apply insert_outbox_Ok in E as (H1&_&->). intros [= <- <-]. split; [done|]. exists i. done.
Qed.

Lemma Correlate_Ok env id req db c db' :
  Correlate pg_time env id req db = (Ok c, db') →
  (db' = db ∧ correlations db !! (id, co_geofence req) = Some c ∧ same_correlation c req = true) ∨
  (correlations db !! (id, co_geofence req) = None ∧ is_Some (incidents db !! id) ∧
   c = mkSpatial (tx_uuid env) id req (pg_time (tx_now env)) ∧ incident_outbox db !! tx_event env = None ∧
   db' = with_event env (tx_now env) (mkIncidentEvent id "incident.spatial_correlated" (PCorrelation c))
           (set_correlations db (<[(id, co_geofence req) := c]> (correlations db)))).
Proof.
  unfold Correlate. rewrite mbind_run, check_run. destruct (negb _); [done|].
  unfold lift. rewrite mbind_run. destruct (CorrelationRequest_Validate req) as [[]|e]; [|done].
  rewrite atomically_Ok. unfold get_state. rewrite mbind_run.
  destruct (correlations db !! (id, co_geofence req)) as [r|].
  - destruct (same_correlation r req) eqn:EM; [|done]. intros [= <- <-]. auto.
  - rewrite mbind_run, check_run. case_bool_decide as Hi; [done|].
    cbn zeta. unfold put_state. rewrite mbind_run. cbn iota beta. rewrite mbind_run.
    destruct (insert_outbox _ _ _ _ _) as [[[]|e] db1] eqn:E; [|done].
    apply insert_outbox_Ok in E as (H1&_&->). intros [= <- <-]. right. split_and!; try done.
    by apply not_eq_None_Some.
Qed.

End methods.

(** ** The invariant is kept *)

Lemma announced_insert db env created e ev id v :
  incident_outbox db !! tx_event env = None →
  announced (with_event env created e db) ev id v ↔
  (ev = tx_event env ∧ event_version e = Some (id, v)) ∨ announced db ev id v.
Proof.
  intros Hf. unfold announced, with_event. simpl. split.
  - intros (row&[[<- <-]|[? ?]]%lookup_insert_Some&Hv); [by left|right; eauto].
  - intros [[-> Hv]|(row&Hr&Hv)].
    + rewrite lookup_insert_eq. eauto.
    + exists row. rewrite lookup_insert_ne; [done|]. intros <-. congruence.
Qed.

Lemma announced_set_incidents db x ev id v : announced (set_incidents db x) ev id v ↔ announced db ev id v.
Proof. done. Qed.

(** A new incident, announced as version 1. *)
Lemma inv_create db env created id i ty :
  db_inv db → incidents db !! id = None → incident_outbox db !! tx_event env = None →
  cr_incident (in_request i) = id → find_source db (cr_source_event (in_request i)) = None →
  in_version i = 1 → in_status i ∈ statuses →
  db_inv (with_event env created (mkIncidentEvent id ty (PIncident i))
            (set_incidents db (<[id := i]> (incidents db)))).
Proof.
  intros [K S V T E O L C A] Hn Hf Hk Hs Hv Hst.
  assert (HA : ∀ ev id' v, announced (with_event env created (mkIncidentEvent id ty (PIncident i))
    (set_incidents db (<[id := i]> (incidents db)))) ev id' v ↔
    (ev = tx_event env ∧ id' = id ∧ v = 1) ∨ announced db ev id' v).
  { intros. rewrite announced_insert by done. unfold event_version. simpl. rewrite Hv. naive_solver. }
  assert (Hdead : ∀ ev v, ¬ announced db ev id v).
  { intros ev v [? ?]%L. congruence. }
  assert (HL : ∀ k, is_Some (incidents db !! k) → is_Some (<[id := i]> (incidents db) !! k)).
  { intros k. rewrite lookup_insert_is_Some'. auto. }
  split; simpl.
  - intros k j [[<- <-]|[? ?]]%lookup_insert_Some; eauto.
  - intros k1 k2 j1 j2 [[<- <-]|[? ?]]%lookup_insert_Some [[<- <-]|[? ?]]%lookup_insert_Some Hsrc; eauto.
    + exfalso. by eapply (find_source_None db _ k2 j2).
    + exfalso. by eapply (find_source_None db _ k1 j1).
  - intros k j [[<- <-]|[? ?]]%lookup_insert_Some; eauto. lia.
  - intros k j [[<- <-]|[? ?]]%lookup_insert_Some; eauto.
  - intros k j v Hj. setoid_rewrite HA. apply lookup_insert_Some in Hj as [[<- <-]|[Hne Hj]].
    + rewrite Hv. split.
      * intros (ev&[(_&_&->)|H]); [lia|]. by apply Hdead in H.
      * intros ?. exists (tx_event env). left. split_and!; [done|done|lia].
    + rewrite <- (E k j v Hj). split; [intros (ev&[(_&->&_)|?]); [done|eauto]|intros [ev ?]; eauto].
  - intros ev1 ev2 k v. rewrite !HA. intros [(->&->&->)|H1] [(->&?&?)|H2]; subst; try done.
    + by apply Hdead in H2.
    + by apply Hdead in H1.
    + by eapply O.
  - intros ev k v. rewrite HA. intros [(->&->&->)|H1%L]; [rewrite lookup_insert_eq; eauto|auto].
  - intros k c (?&?&?)%C. auto.
  - intros k a (j&Hj&?)%A. exists j. rewrite lookup_insert_ne; [done|]. intros <-. congruence.
Qed.

(** A change of an incident, announced as its next version. *)
Lemma inv_advance db env created id i i' e asg :
  db_inv db → incidents db !! id = Some i → incident_outbox db !! tx_event env = None →
  in_request i' = in_request i → in_version i' = in_version i + 1 → in_status i' ∈ statuses →
  event_version e = Some (id, in_version i + 1) →
  (asg = assignments db ∨ ∃ a, asg = <[id := a]> (assignments db) ∧ aa_version a = in_version i + 1) →
  db_inv (with_event env created e
            (set_assignments (set_incidents db (<[id := i']> (incidents db))) asg)).
Proof.
  intros [K S V T E O L C A] Hi Hf Hq Hv Hst He Ha.
  set (db' := with_event _ _ _ _).
  assert (HA : ∀ ev id' v, announced db' ev id' v ↔
    (ev = tx_event env ∧ id' = id ∧ v = in_version i + 1) ∨ announced db ev id' v).
  { intros. unfold db'. rewrite announced_insert by done. rewrite He. naive_solver. }
  assert (Hlast : ∀ ev v, announced db ev id v → 1 <= v <= in_version i).
  { intros ev v H. apply (E id i v Hi). eauto. }
  assert (HI : ∀ k j, <[id := i']> (incidents db) !! k = Some j →
    ∃ j0, incidents db !! k = Some j0 ∧ in_request j = in_request j0 ∧ in_version j0 <= in_version j).
  { intros k j [[<- <-]|[? ?]]%lookup_insert_Some; [exists i; split_and!; [done|done|lia]|].
    exists j. split_and!; [done|done|lia]. }
  assert (HL : ∀ k, is_Some (incidents db !! k) → is_Some (<[id := i']> (incidents db) !! k)).
  { intros k. rewrite lookup_insert_is_Some'. auto. }
  split; simpl.
  - intros k j (j0&?&->&_)%HI. eauto.
  - intros k1 k2 j1 j2 (l1&?&->&_)%HI (l2&?&->&_)%HI. eauto.
  - intros k j (j0&?%V&_&?)%HI. lia.
  - intros k j [[<- <-]|[? ?]]%lookup_insert_Some; eauto.
  - intros k j v Hj. setoid_rewrite HA. apply lookup_insert_Some in Hj as [[<- <-]|[Hne Hj]].
    + rewrite Hv. split.
      * intros (ev&[(_&_&->)|H%Hlast]); [pose proof (V _ _ Hi)|]; lia.
      * intros Hr. destruct (decide (v = in_version i + 1)) as [->|]; [eauto|].
        destruct (proj2 (E id i v Hi)) as [ev ?]; [lia|eauto].
    + rewrite <- (E k j v Hj). split; [intros (ev&[(_&->&_)|?]); [done|eauto]|intros [ev ?]; eauto].
  - intros ev1 ev2 k v. rewrite !HA. intros [(->&->&->)|H1] [(->&?&?)|H2]; subst; try done.
    + apply Hlast in H2. lia.
    + apply Hlast in H1. lia.
    + by eapply O.
  - intros ev k v. rewrite HA. intros [(->&->&->)|H1%L]; [rewrite lookup_insert_eq; eauto|auto].
  - intros k c (?&?&?)%C. auto.
  - intros k a Hk.
    assert (Hcase : assignments db !! k = Some a ∨ (k = id ∧ aa_version a = in_version i + 1)).
    { destruct Ha as [->|(a0&->&Ha)]; [by left|].
      apply lookup_insert_Some in Hk as [[<- <-]|[? ?]]; auto. }
    destruct (decide (k = id)) as [->|Hne].
    + rewrite lookup_insert_eq. exists i'. split; [done|].
      destruct Hcase as [(j&Hj&?)%A|[_ ?]]; [|pose proof (V _ _ Hi); lia].
      assert (j = i) as -> by congruence. lia.
    + rewrite lookup_insert_ne by done. destruct Hcase as [?%A|[? _]]; [done|done].
Qed.

(** Steps that write no incident: correlations and the outbox methods. *)
Lemma inv_same_events db db' :
  db_inv db → incidents db' = incidents db → assignments db' = assignments db →
  (∀ ev id v, announced db' ev id v ↔ announced db ev id v) →
  (∀ k c, correlations db' !! k = Some c → correlations db !! k = Some c ∨
     is_Some (incidents db !! k.1) ∧ sc_incident c = k.1 ∧ co_geofence (sc_request c) = k.2) →
  db_inv db'.
Proof.
  intros [K S V T E O L C A] HI HAs HA HC. split; rewrite ?HI, ?HAs; try done.
  - intros id i v Hi. setoid_rewrite HA. by apply E.
  - intros ev1 ev2 id v. rewrite !HA. apply O.
  - intros ev id v. rewrite HA. apply L.
  - intros k c [?%C|?]%HC; done.
Qed.

(** ** Concurrent callers *)

(** A [Transition] between its check and its transaction. *)
Record Pending : Type := mkPending {
  p_id : string;
  p_current : Incident;
  p_expected : Z;
  p_next : Status
}.

Definition World : Type := IncidentDB * list Pending.

Inductive call_step (pg_time : Z → Z) : World → World → Prop :=
| cs_create env req r db db' ps :
    Create pg_time env req db = (r, db') → call_step pg_time (db, ps) (db', ps)
| cs_assign env id req r db db' ps :
    Assign pg_time env id req db = (r, db') → call_step pg_time (db, ps) (db', ps)
| cs_correlate env id req r db db' ps :
    Correlate pg_time env id req db = (r, db') → call_step pg_time (db, ps) (db', ps)
| cs_begin id v next cur db ps :
    transition_check id v next db = (Ok cur, db) →
    call_step pg_time (db, ps) (db, mkPending id cur v next :: ps)
| cs_commit env p r db db' ps1 ps2 :
    transition_commit pg_time env (p_id p) (p_current p) (p_expected p) (p_next p) db = (r, db') →
    call_step pg_time (db, ps1 ++ p :: ps2) (db', ps1 ++ ps2)
| cs_claim env worker lease r db db' ps :
    ClaimOutbox env worker lease db = (r, db') → call_step pg_time (db, ps) (db', ps)
| cs_published now ev worker r db db' ps :
    MarkOutboxPublished now ev worker db = (r, db') → call_step pg_time (db, ps) (db', ps)
| cs_failed ev worker failure retryAt r db db' ps :
    MarkOutboxFailed ev worker failure retryAt db = (r, db') → call_step pg_time (db, ps) (db', ps).

Definition pending_ok (ps : list Pending) : Prop :=
  Forall (λ p, ValidTransition (in_status (p_current p)) (p_next p) = true) ps.

(** How one step may change one incident. *)
Definition advances (i i' : Incident) : Prop :=
  i' = i ∨
  (in_request i' = in_request i ∧ in_created i' = in_created i ∧ in_version i' = in_version i + 1 ∧
   ((in_status i' = in_status i ∧ in_status i ≠ StatusClosed) ∨
    ValidTransition (in_status i) (in_status i') = true)).

Lemma ValidTransition_status s n : ValidTransition s n = true → n ∈ statuses.
Proof.
  unfold ValidTransition, statuses. intros H. rewrite !elem_of_cons.
  repeat case_match; bprop; naive_solver.
Qed.

(** Failed method calls leave the tables alone. *)
Lemma Create_Err pg env req db e db' : Create pg env req db = (Err e, db') → db' = db.
Proof.
  unfold Create. run_store. destruct (CreateRequest_Validate req); run_store; [|congruence].
  apply atomically_Err.
Qed.

Lemma Assign_Err pg env id req db e db' : Assign pg env id req db = (Err e, db') → db' = db.
Proof.
  unfold Assign. run_store. destruct (negb _); run_store; [congruence|].
  destruct (AssignmentRequest_Validate req); run_store; [|congruence]. apply atomically_Err.
Qed.

Lemma Correlate_Err pg env id req db e db' : Correlate pg env id req db = (Err e, db') → db' = db.
Proof.
  unfold Correlate. run_store. destruct (negb _); run_store; [congruence|].
  destruct (CorrelationRequest_Validate req); run_store; [|congruence]. apply atomically_Err.
Qed.

Lemma transition_commit_Err pg env id cur v next db e db' :
  transition_commit pg env id cur v next db = (Err e, db') → db' = db.
Proof. apply atomically_Err. Qed.

Lemma Create_Ok pg env req db i db' :
  Create pg env req db = (Ok i, db') →
  CreateRequest_Validate req = Ok tt ∧ createIncidentInTransaction pg env req db = (Ok i, db').
Proof.
  unfold Create. run_store. destruct (CreateRequest_Validate req) as [[]|]; run_store; [|done].
  by rewrite atomically_Ok.
Qed.

(** The outbox methods only move leases. *)
Definition lease_only (db db' : IncidentDB) : Prop :=
  incidents db' = incidents db ∧ assignments db' = assignments db ∧ correlations db' = correlations db ∧
  ∀ ev, row_info <$> incident_outbox db' !! ev = row_info <$> incident_outbox db !! ev.

Lemma lease_only_refl db : lease_only db db.
Proof. done. Qed.

Lemma sql_claim_infos {I} none env w lease (t t' : gmap string (Row I)) r :
  sql_claim none env w lease t = (r, t') → ∀ ev, row_info <$> t' !! ev = row_info <$> t !! ev.
Proof.
  destruct r as [e|e].
  - intros (row&Hr&_&->&_)%sql_claim_Ok ev. destruct (decide (ev_id e = ev)) as [<-|].
    + by rewrite lookup_insert_eq, Hr.
    + by rewrite lookup_insert_ne.
  - unfold sql_claim. by destruct (select_claimable _ _ t) as [[]|]; intros [=] <- || intros [= _ <-].
Qed.

Lemma sql_update_infos {I} own f id w (t t' : gmap string (Row I)) r :
  (∀ row, row_info (f row) = row_info row) →
  sql_update_owned own f id w t = (r, t') → ∀ ev, row_info <$> t' !! ev = row_info <$> t !! ev.
Proof.
  intros Hf. unfold sql_update_owned. destruct (t !! id) as [row|] eqn:Er; [|by intros [= _ <-]].
  destruct (owned_by w row); [|by intros [= _ <-]]. intros [= _ <-] ev.
  destruct (decide (id = ev)) as [->|].
  - rewrite lookup_insert_eq, Er. simpl. by rewrite Hf.
  - by rewrite lookup_insert_ne.
Qed.

Lemma on_outbox_lease {A} (f : _ → result A * _) db r db' :
  (∀ t t' r, f t = (r, t') → ∀ ev, row_info <$> t' !! ev = row_info <$> t !! ev) →
  on_outbox f db = (r, db') → lease_only db db'.
Proof.
  intros Hf. unfold on_outbox. destruct (f (incident_outbox db)) as [x t'] eqn:E.
  intros [= _ <-]. split_and!; try done. simpl. by eapply Hf.
Qed.

Lemma outbox_methods_lease db db' :
  (∃ env w l r, ClaimOutbox env w l db = (r, db')) ∨
  (∃ now ev w r, MarkOutboxPublished now ev w db = (r, db')) ∨
  (∃ ev w f at_ r, MarkOutboxFailed ev w f at_ db = (r, db')) → lease_only db db'.
Proof.
  intros [(env&w&l&r&H)|[(now&ev&w&r&H)|(ev&w&f&at_&r&H)]]; revert H.
  - unfold ClaimOutbox. run_store. destruct (_ || _); run_store; [by intros [= _ <-]|].
    destruct (_ || _); run_store; [by intros [= _ <-]|].
    apply on_outbox_lease. intros ???. apply sql_claim_infos.
  - unfold MarkOutboxPublished. run_store. destruct (_ || _); run_store; [by intros [= _ <-]|].
    apply on_outbox_lease. intros ???. by apply sql_update_infos.
  - unfold MarkOutboxFailed. run_store. destruct (_ || _); run_store; [by intros [= _ <-]|].
    destruct (_ || _); run_store; [by intros [= _ <-]|].
    apply on_outbox_lease. intros ???. by apply sql_update_infos.
Qed.

Lemma lease_only_inv db db' : lease_only db db' → db_inv db → db_inv db'.
Proof.
  intros (HI&HA&HC&HO) Hinv. apply (inv_same_events db); try done; [|by rewrite HC; auto].
  intros ev id v. unfold announced. specialize (HO ev).
  destruct (incident_outbox db !! ev) as [r|], (incident_outbox db' !! ev) as [r'|]; simpl in HO;
    try done.
  injection HO as HO. split; intros (row&[= <-]&Hv).
  - exists r. by rewrite <- HO.
  - exists r'. by rewrite HO.
Qed.

Definition world_inv (w : World) : Prop := db_inv w.1 ∧ pending_ok w.2.

Lemma set_assignments_same db : set_assignments db (assignments db) = db.
Proof. by destruct db. Qed.

Lemma commit_inv pg env id cur v next db u db' :
  db_inv db → ValidTransition (in_status cur) next = true →
  transition_commit pg env id cur v next db = (Ok u, db') → db_inv db'.
Proof.
  intros Hinv HV (i&Hi&Hs&Hv&->&Hf&->)%transition_commit_Ok.
  pose proof (di_key _ Hinv _ _ Hi) as Hk.
  rewrite <- (set_assignments_same (set_incidents _ _)). simpl.
  apply (inv_advance db env _ id i); try done; simpl; [by rewrite Hv|by eapply ValidTransition_status| |by left].
  unfold event_version. simpl. by rewrite Hk, Hv.
Qed.

Lemma call_step_inv pg w w' : call_step pg w w' → world_inv w → world_inv w'.
Proof.
  intros Hs [Hinv Hp]. destruct Hs as
    [env req r db db' ps H|env id req r db db' ps H|env id req r db db' ps H|id v next cur db ps H
    |env p r db db' ps1 ps2 H|env w l r db db' ps H|now ev w r db db' ps H|ev w f at_ r db db' ps H];
    simpl in *.
  - split; [|done]. simpl. destruct r as [i|e]; [|by apply Create_Err in H as ->].
    apply Create_Ok in H as [_ [(->&_&_)|(Hs&Hn&->&Hf&->)]%create_in_tx_Ok]; [done|].
    apply inv_create; try done. unfold statuses. simpl. set_solver.
  - split; [|done]. simpl. destruct r as [a|e]; [|by apply Assign_Err in H as ->].
    apply Assign_Ok in H as (_&i&Hi&Hv&Hc&->&Hf&->).
    apply (inv_advance db env _ id i); try done; simpl; [by eapply di_status|right; eauto].
  - split; [|done]. simpl. destruct r as [c|e]; [|by apply Correlate_Err in H as ->].
    apply Correlate_Ok in H as [(->&_&_)|(Hn&Hi&->&Hf&->)]; [done|].
    apply (inv_same_events db); try done.
    + intros ev id' v. rewrite announced_insert by done. unfold event_version. simpl.
      split; [by intros [[_ ?]|?]|by right].
    + intros k c. simpl. intros [[<- <-]|[? ?]]%lookup_insert_Some; [by right|by left].
  - split; [done|]. constructor; [|done]. by apply transition_check_Ok in H as (_&_&_&?).
  - apply Forall_app in Hp as [Hp1 [HV Hp2]%Forall_cons].
    split; [|apply Forall_app; done]. simpl. destruct r as [u|e]; [|by apply transition_commit_Err in H as ->].
    by eapply commit_inv.
  - split; [|done]. eapply lease_only_inv; [eapply outbox_methods_lease; eauto 6|done].
  - split; [|done]. eapply lease_only_inv; [eapply outbox_methods_lease; eauto 8|done].
  - split; [|done]. eapply lease_only_inv; [eapply outbox_methods_lease; eauto 9|done].
Qed.

(** One incident across one step. *)
Lemma call_step_advances pg w w' id i :
  call_step pg w w' → pending_ok w.2 → incidents w.1 !! id = Some i →
  ∃ i', incidents w'.1 !! id = Some i' ∧ advances i i'.
Proof.
  intros Hs Hp Hi. destruct Hs as
    [env req r db db' ps H|env id' req r db db' ps H|env id' req r db db' ps H|id' v next cur db ps H
    |env p r db db' ps1 ps2 H|env w l r db db' ps H|now ev w r db db' ps H|ev w f at_ r db db' ps H];
    simpl in *.
  - destruct r as [j|e]; [|apply Create_Err in H as ->; exists i; split; [done|by left]].
    apply Create_Ok in H as [_ [(->&_&_)|(Hs&Hn&->&Hf&->)]%create_in_tx_Ok]; exists i; (split; [|by left]); [done|].
    simpl. rewrite lookup_insert_ne; [done|]. intros <-. congruence.
  - destruct r as [a|e]; [|apply Assign_Err in H as ->; exists i; split; [done|by left]].
    apply Assign_Ok in H as (_&j&Hj&Hv&Hc&->&Hf&->). simpl. destruct (decide (id' = id)) as [->|Hne].
    + rewrite lookup_insert_eq. eexists. split; [done|]. assert (j = i) as -> by congruence.
      right. simpl. split_and!; try done. by left.
    + rewrite lookup_insert_ne by done. exists i. split; [done|by left].
  - destruct r as [c|e]; [|apply Correlate_Err in H as ->; exists i; split; [done|by left]].
    apply Correlate_Ok in H as [(->&_&_)|(Hn&_&->&Hf&->)]; exists i; (split; [done|by left]).
  - exists i. split; [done|by left].
  - apply Forall_app in Hp as [Hp1 [HV Hp2]%Forall_cons].
    destruct r as [u|e]; [|apply transition_commit_Err in H as ->; exists i; split; [done|by left]].
    apply transition_commit_Ok in H as (j&Hj&Hst&Hv&->&Hf&->). simpl.
    destruct (decide (p_id p = id)) as [Heq|Hne].
    + rewrite Heq, lookup_insert_eq in *. eexists. split; [done|]. assert (j = i) as -> by congruence.
      right. simpl. split_and!; try done; [by rewrite Hv|]. right. by rewrite Hst.
    + rewrite lookup_insert_ne by done. exists i. split; [done|by left].
  - destruct (outbox_methods_lease db db') as (->&_); [eauto 6|]. exists i. split; [done|by left].
  - destruct (outbox_methods_lease db db') as (->&_); [eauto 8|]. exists i. split; [done|by left].
  - destruct (outbox_methods_lease db db') as (->&_); [eauto 9|]. exists i. split; [done|by left].
Qed.

Lemma run_inv pg w w' : rtc (call_step pg) w w' → world_inv w → world_inv w'.
Proof.
  induction 1 as [w|w1 w2 w3 H12 _ IH]; [done|]. intros HI. by eapply IH, call_step_inv.
Qed.

(** Requests and creation times never change, versions never fall. *)
Lemma run_monotone pg w w' id i :
  rtc (call_step pg) w w' → world_inv w → incidents w.1 !! id = Some i →
  ∃ i', incidents w'.1 !! id = Some i' ∧ in_request i' = in_request i ∧ in_created i' = in_created i ∧
    in_version i <= in_version i' ∧ (in_status i = StatusClosed → i' = i).
Proof.
  intros Hr. revert i. induction Hr as [w|w1 w2 w3 H12 _ IH]; intros i Hinv Hi.
  - exists i. split_and!; [done..|lia|done].
  - destruct (call_step_advances _ _ _ _ _ H12 (proj2 Hinv) Hi) as (i2&Hi2&Ha).
    destruct (IH i2 (call_step_inv _ _ _ H12 Hinv) Hi2) as (i3&?&?&?&?&Hc3).
    exists i3. destruct Ha as [->|(?&?&?&Hst)]; [done|].
    split_and!; [done|congruence|congruence|lia|]. intros Hc.
    destruct Hst as [[_ ?]|HV]; [done|]. by rewrite Hc in HV.
Qed.

Lemma world_inv_empty : world_inv (empty_db, []).
Proof.
  split; [|constructor]. split; simpl; try (intros; by rewrite lookup_empty in *).
  - by intros ev1 ev2 id v (row&?&_).
  - by intros ev id v (row&?&_).
Qed.

Lemma Matches_iff i req : Matches i req = true ↔ in_request i = req.
Proof.
  unfold Matches, time_equal. destruct (in_request i), req. simpl. bprop.
  split; [intros [[[[[[[-> ->] ->] ->] ->] ->] ->] ->]; done|by intros [=]].
Qed.

(** A call that writes incident [id] expecting version [v]. *)
Definition writes (pg : Z → Z) (id : string) (v : Z) (db db' : IncidentDB) : Prop :=
  (∃ env cur next u, transition_commit pg env id cur v next db = (Ok u, db')) ∨
  (∃ env req a, as_expected req = v ∧ Assign pg env id req db = (Ok a, db')).

Lemma writes_version pg id v db db' :
  writes pg id v db db' → ∃ i i', incidents db !! id = Some i ∧ in_version i = v ∧
    incidents db' !! id = Some i' ∧ in_version i' = v + 1.
Proof.
  intros [(env&cur&next&u&H)|(env&req&a&<-&H)].
  - apply transition_commit_Ok in H as (i&Hi&_&Hv&->&_&->). exists i. eexists.
    split_and!; [done|done|simpl; apply lookup_insert_eq|done].
  - apply Assign_Ok in H as (_&i&Hi&Hv&_&->&_&->). exists i. eexists.
    split_and!; [done|done|simpl; apply lookup_insert_eq|simpl; lia].
Qed.

Lemma find_source_key db id i :
  db_inv db → incidents db !! id = Some i → find_source db (cr_source_event (in_request i)) = Some i.
Proof.
  intros Hinv Hi. destruct (find_source db _) as [j|] eqn:E.
  - apply find_source_Some in E as (id'&Hj&Hs).
    assert (id' = id) as -> by (by eapply di_source). congruence.
  - by eapply find_source_None in E.
Qed.

(** ** Properties *)

(** C34: The tables stay consistent under every interleaving of the methods: one
    incident per source event, and the outbox is a complete audit: for each
    incident it holds exactly one event for each of the versions 1 to the
    current one, and none for an unknown incident or version. *)
Theorem reachable_db_inv pg db ps :
  rtc (call_step pg) (empty_db, []) (db, ps) → db_inv db.
Proof. intros H. exact (proj1 (run_inv _ _ _ H world_inv_empty)). Qed.

(** Under every interleaving an incident moves only along the lifecycle
    (open, acknowledged, investigating, resolved, closed, with the short cuts
    to resolved), one version per change; its request and creation time are
    fixed, and a closed incident never changes again. *)
Theorem incident_lifecycle pg db ps db' ps' id i :
  rtc (call_step pg) (empty_db, []) (db, ps) → call_step pg (db, ps) (db', ps') →
  incidents db !! id = Some i →
  ∃ i', incidents db' !! id = Some i' ∧ advances i i' ∧ (in_status i = StatusClosed → i' = i).
Proof.
  intros Hr Hs Hi. pose proof (run_inv _ _ _ Hr world_inv_empty) as [_ Hp].
  destruct (call_step_advances _ _ _ _ _ Hs Hp Hi) as (i'&Hi'&Ha). exists i'. split_and!; [done|done|].
  intros Hc. destruct Ha as [->|(_&_&_&[[_ ?]|HV])]; [done|done|]. by rewrite Hc in HV.
Qed.

(** C14: No update is lost: of two successful writes of one incident, by
    transition or assignment and with any calls in between, the later one
    expected a strictly larger version, so two callers that read the same
    version can never both write. *)
Theorem no_lost_update pg id v1 v2 db1 db2 ps db3 ps' db4 :
  world_inv (db2, ps) → writes pg id v1 db1 db2 → rtc (call_step pg) (db2, ps) (db3, ps') →
  writes pg id v2 db3 db4 → v1 < v2.
Proof.
  intros Hinv (i1&i2&_&_&Hi2&Hv2)%writes_version Hr (i3&i4&Hi3&Hv3&_)%writes_version.
  destruct (run_monotone _ _ _ _ _ Hr Hinv Hi2) as (i3'&Hi3'&_&_&?&_). simpl in Hi3'.
  assert (i3' = i3) as -> by congruence. lia.
Qed.

(** A transition on a consistent store has exactly these outcomes: unknown
    incident, version mismatch, a step the lifecycle does not have, or the new
    status with the next version, stored together with its event. *)
Theorem Transition_outcome pg env id v next db :
  db_inv db → incident_outbox db !! tx_event env = None →
  Transition pg env id v next db =
  match incidents db !! id with
  | None => (Err ErrNotFound, db)
  | Some i =>
      if negb (in_version i =? v) then (Err ErrOptimisticConflict, db)
      else if negb (ValidTransition (in_status i) next) then (Err ErrInvalidTransition, db)
      else
        let u := mkIncident (in_request i) next (in_created i) (pg (tx_now env)) (v + 1) in
        (Ok u, with_event env (tx_now env) (mkIncidentEvent id "incident.status_changed" (PIncident u))
                 (set_incidents db (<[id := u]> (incidents db))))
  end.
Proof.
  intros Hinv Hf. unfold Transition, transition_check, Get. run_store.
  destruct (incidents db !! id) as [i|] eqn:Hi; run_store; [|done].
  destruct (Z.eqb_spec (in_version i) v) as [<-|]; simpl; run_store; [|done].
  destruct (ValidTransition (in_status i) next) eqn:EV; simpl; run_store; [|done].
  unfold transition_commit, atomically, insert_outbox. run_store. rewrite Hi.
  rewrite String.eqb_refl, Z.eqb_refl. simpl. run_store. simpl.
  rewrite (bool_decide_eq_false_2 (is_Some (incident_outbox db !! tx_event env)))
    by (rewrite Hf; apply is_Some_None).
  run_store. rewrite (di_key _ Hinv _ _ Hi).
  rewrite (bool_decide_eq_false_2 (<[id := _]> (incidents db) !! id = None)) by (by rewrite lookup_insert_eq).
  by run_store.
Qed.

(** Creating is idempotent per source event: after a successful create, and
    after any other calls, the same request returns the retained incident in
    its present state and changes nothing, as long as the stored row matches
    the request; otherwise it is refused with [ErrIdempotencyConflict] every
    time.  A row that was just inserted matches when the request's time is one
    that PostgreSQL stores exactly. *)
Theorem Create_retry pg env1 env2 req i db1 db2 ps db3 ps' :
  world_inv (db1, ps) → Create pg env1 req db1 = (Ok i, db2) →
  rtc (call_step pg) (db2, ps) (db3, ps') →
  ∃ i', incidents db3 !! cr_incident (in_request i) = Some i' ∧
    in_request i' = in_request i ∧ in_version i <= in_version i' ∧
    Create pg env2 req db3 = (if Matches i req then Ok i' else Err ErrIdempotencyConflict, db3) ∧
    (pg (cr_occurred req) = cr_occurred req → Matches i req = true).
Proof.
  intros Hinv H Hr.
  assert (Hinv2 : world_inv (db2, ps)) by (eapply call_step_inv; [by eapply cs_create|exact Hinv]).
  pose proof H as [HV Hc%create_in_tx_Ok]%Create_Ok.
  assert (Hi : incidents db2 !! cr_incident (in_request i) = Some i ∧
               cr_source_event (in_request i) = cr_source_event req ∧
               (pg (cr_occurred req) = cr_occurred req → Matches i req = true)).
  { destruct Hc as [(->&Hs&HM)|(_&_&->&_&->)].
    - apply find_source_Some in Hs as (id&Hi&Hs). by rewrite (di_key _ (proj1 Hinv) _ _ Hi).
    - simpl. rewrite lookup_insert_eq. split_and!; [done|done|]. intros Hp. apply Matches_iff.
      unfold new_incident, stored_request. simpl. rewrite Hp. by destruct req. }
  destruct Hi as (Hi&Hsrc&HM).
  destruct (run_monotone _ _ _ _ _ Hr Hinv2 Hi) as (i'&Hi'&Hq&_&Hv&_). simpl in Hi'.
  exists i'. split_and!; try done.
  pose proof (run_inv _ _ _ Hr Hinv2) as [Hinv3 _].
  pose proof (find_source_key _ _ _ Hinv3 Hi') as Hfs. simpl in Hfs. rewrite Hq, Hsrc in Hfs.
  unfold Create. run_store. rewrite HV. run_store.
  unfold atomically, createIncidentInTransaction. run_store. rewrite Hfs.
  assert (Matches i' req = Matches i req) as ->.
  { apply eq_true_iff_eq. by rewrite !Matches_iff, Hq. }
  by destruct (Matches i req).
Qed.

(** PostgreSQL keeps timestamps to the microsecond. *)
Definition microseconds (t : Z) : Z := t - t mod 1000.

Definition sample_request (occurred : Z) : CreateRequest :=
  mkCreate "inc-1" "evt-1" "piracy" SeverityHigh "Boarding" "Boarding reported" occurred "officer-1".
Definition sample_tx (event : string) (now : Z) : TxEnv := mkTxEnv now now event "u-1".
Definition sample_occurred : Z := unix_epoch + 1767225600 * Second.

(** A create request whose time has a fraction below one microsecond is
    accepted once and then refused for ever: its own retry does not match the
    stored row. *)
Theorem sub_microsecond_retry_refused :
  let req := sample_request (sample_occurred + 1) in
  let '(r1, db1) := Create microseconds (sample_tx "e1" sample_occurred) req empty_db in
  is_ok r1 = true ∧
  Create microseconds (sample_tx "e2" sample_occurred) req db1 = (Err ErrIdempotencyConflict, db1).
Proof. by vm_compute. Qed.

Definition sample_created : IncidentDB :=
  (Create microseconds (sample_tx "e1" sample_occurred) (sample_request sample_occurred) empty_db).2.
Definition sample_incident : Incident :=
  new_incident microseconds sample_occurred (sample_request sample_occurred).

Lemma sample_created_run : rtc (call_step microseconds) (empty_db, []) (sample_created, []).
Proof.
  apply rtc_once. apply (cs_create _ (sample_tx "e1" sample_occurred) (sample_request sample_occurred)
    (Ok sample_incident)). by vm_compute.
Qed.

Lemma sample_created_inv : world_inv (sample_created, []).
Proof. exact (run_inv _ _ _ sample_created_run world_inv_empty). Qed.

Lemma reachable_db_inv_witness : db_inv sample_created.
Proof. exact (reachable_db_inv microseconds sample_created [] sample_created_run). Defined.

Lemma Create_retry_witness :
  ∃ i', Create microseconds (sample_tx "e2" (sample_occurred + Second)) (sample_request sample_occurred)
          sample_created = (Ok i', sample_created).
Proof.
  destruct (Create_retry microseconds (sample_tx "e1" sample_occurred)
    (sample_tx "e2" (sample_occurred + Second)) (sample_request sample_occurred) sample_incident
    empty_db sample_created [] sample_created [] world_inv_empty ltac:(by vm_compute) (rtc_refl _ _))
    as (i'&_&_&_&HC&HM).
  exists i'. rewrite HC, HM; [reflexivity|]. vm_compute. reflexivity.
Defined.

Lemma Transition_outcome_witness :
  is_ok (Transition microseconds (sample_tx "e2" sample_occurred) "inc-1" 1 StatusAcknowledged
           sample_created).1 = true.
Proof.
  rewrite (Transition_outcome microseconds (sample_tx "e2" sample_occurred) "inc-1" 1 StatusAcknowledged
    sample_created (proj1 sample_created_inv) ltac:(by vm_compute)).
  vm_compute. reflexivity.
Defined.

(** Two officers transition and assign in turn. *)
Definition sample_acknowledged : IncidentDB :=
  (Transition microseconds (sample_tx "e2" sample_occurred) "inc-1" 1 StatusAcknowledged sample_created).2.
Definition sample_assignment : AssignmentRequest := mkAssignment 2 "analyst-1" "chief-1".

Lemma incident_lifecycle_witness :
  ∃ i', incidents sample_acknowledged !! "inc-1" = Some i' ∧ advances sample_incident i'.
Proof.
  assert (Hb : call_step microseconds (sample_created, [])
    (sample_created, [mkPending "inc-1" sample_incident 1 StatusAcknowledged])).
  { apply cs_begin. by vm_compute. }
  assert (Hc : call_step microseconds (sample_created, [mkPending "inc-1" sample_incident 1 StatusAcknowledged])
    (sample_acknowledged, [])).
  { apply (cs_commit microseconds (sample_tx "e2" sample_occurred)
      (mkPending "inc-1" sample_incident 1 StatusAcknowledged)
      (transition_commit microseconds (sample_tx "e2" sample_occurred) "inc-1" sample_incident 1
         StatusAcknowledged sample_created).1 sample_created sample_acknowledged [] []).
    by vm_compute. }
  destruct (incident_lifecycle microseconds sample_created
    [mkPending "inc-1" sample_incident 1 StatusAcknowledged] sample_acknowledged [] "inc-1" sample_incident
    (rtc_r _ _ _ sample_created_run Hb) Hc ltac:(by vm_compute)) as (i'&Hi&Ha&_).
  exists i'. exact (conj Hi Ha).
Defined.

Lemma no_lost_update_witness : 1 < 2.
Proof.
  assert (Hw1 : writes microseconds "inc-1" 1 sample_created sample_acknowledged).
  { left. exists (sample_tx "e2" sample_occurred), sample_incident, StatusAcknowledged. eexists.
    vm_compute. reflexivity. }
  assert (Hi : world_inv (sample_acknowledged, [])).
  { split; [|constructor]. apply (commit_inv microseconds (sample_tx "e2" sample_occurred) "inc-1" sample_incident
      1 StatusAcknowledged sample_created
      (mkIncident (sample_request sample_occurred) StatusAcknowledged sample_occurred sample_occurred 2));
      [exact (proj1 sample_created_inv)|reflexivity|by vm_compute]. }
  apply (no_lost_update microseconds "inc-1" 1 2 sample_created sample_acknowledged [] sample_acknowledged []
    (Assign microseconds (sample_tx "e3" sample_occurred) "inc-1" sample_assignment sample_acknowledged).2
    Hi Hw1 (rtc_refl _ _)).
  right. exists (sample_tx "e3" sample_occurred), sample_assignment. eexists.
  split; [reflexivity|]. vm_compute. reflexivity.
Defined.
