(* ===== verification/Sha256.v ===== *)
(** * SHA-256 ([crypto/sha256])

    The digest of FIPS 180-4 on byte lists, over 32-bit words kept in [Z]: the
    ledger derives its transfer identities and the feed its evidence from it. *)

From S2P Require Import Prelude GoStrings.
From Stdlib Require Import Ascii.

(** ** Bytes of a string *)

Definition bytes_of (s : string) : list Z := code <$> String.list_ascii_of_string s.
Definition string_of_bytes (l : list Z) : string := String.string_of_list_ascii (bytes l).

(** ** 32-bit words *)

Definition w32 (z : Z) : Z := z mod 2 ^ 32.
Definition rotr (n x : Z) : Z := Z.lor (Z.shiftr x n) (w32 (Z.shiftl x (32 - n))).
Definition not32 (x : Z) : Z := Z.lxor x (2 ^ 32 - 1).

Definition Ch (x y z : Z) : Z := Z.lxor (Z.land x y) (Z.land (not32 x) z).
Definition Maj (x y z : Z) : Z := Z.lxor (Z.lxor (Z.land x y) (Z.land x z)) (Z.land y z).
Definition Sigma0 (x : Z) : Z := Z.lxor (Z.lxor (rotr 2 x) (rotr 13 x)) (rotr 22 x).
Definition Sigma1 (x : Z) : Z := Z.lxor (Z.lxor (rotr 6 x) (rotr 11 x)) (rotr 25 x).
Definition sigma0 (x : Z) : Z := Z.lxor (Z.lxor (rotr 7 x) (rotr 18 x)) (Z.shiftr x 3).
Definition sigma1 (x : Z) : Z := Z.lxor (Z.lxor (rotr 17 x) (rotr 19 x)) (Z.shiftr x 10).

(** The constants of FIPS 180-4 are the first 32 bits of the fractional parts of
    the roots of the first primes. *)
Definition is_prime (n : nat) : bool :=
  forallb (λ d, negb (n mod d =? 0)%nat) (seq 2 (n - 2)).
Definition primes : list Z := Eval vm_compute in Z.of_nat <$> List.filter is_prime (seq 2 310).

(** The integer cube root of a number below [2^(3 bits)], bit by bit. *)
Fixpoint cube_root (bits : nat) (root n : Z) : Z :=
  match bits with
  | O => root
  | S bits' =>
      let candidate := root + 2 ^ Z.of_nat bits' in
      cube_root bits' (if candidate ^ 3 <=? n then candidate else root) n
  end.

Definition fraction32 (root : Z) : Z := root mod 2 ^ 32.
Definition round_constants : list Z :=
  Eval vm_compute in (λ q, fraction32 (cube_root 36 0 (q * 2 ^ 96))) <$> primes.

(** The eight chaining words. *)
Record Words : Type := mkWords { wa : Z; wb : Z; wc : Z; wd : Z; we : Z; wf : Z; wg : Z; wh : Z }.

Definition initial_words : Words := Eval vm_compute in
  match (λ q, fraction32 (Z.sqrt (q * 2 ^ 64))) <$> take 8 primes with
  | [a; b; c; d; e; f; g; h] => mkWords a b c d e f g h
  | _ => mkWords 0 0 0 0 0 0 0 0
  end.

(** ** Compression *)

(** The schedule, most recent word first. *)
Definition schedule_step (w : list Z) (_ : nat) : list Z :=
  w32 (sigma1 (nth 1 w 0) + nth 6 w 0 + sigma0 (nth 14 w 0) + nth 15 w 0) :: w.
Definition schedule (block : list Z) : list Z := reverse (foldl schedule_step (reverse block) (seq 16 48)).

Definition round (s : Words) (kw : Z * Z) : Words :=
  let t1 := wh s + Sigma1 (we s) + Ch (we s) (wf s) (wg s) + kw.1 + kw.2 in
  let t2 := Sigma0 (wa s) + Maj (wa s) (wb s) (wc s) in
  mkWords (w32 (t1 + t2)) (wa s) (wb s) (wc s) (w32 (wd s + t1)) (we s) (wf s) (wg s).

Definition compress (s : Words) (block : list Z) : Words :=
  let r := foldl round s (zip round_constants (schedule block)) in
  mkWords (w32 (wa s + wa r)) (w32 (wb s + wb r)) (w32 (wc s + wc r)) (w32 (wd s + wd r))
    (w32 (we s + we r)) (w32 (wf s + wf r)) (w32 (wg s + wg r)) (w32 (wh s + wh r)).

(** ** Padding and the digest *)

(** The [n] low bytes of [z], most significant first. *)
Fixpoint be_bytes (n : nat) (z : Z) : list Z :=
  match n with
  | O => []
  | S n' => Z.shiftr z (8 * Z.of_nat n') mod 256 :: be_bytes n' z
  end.

Definition padded (message : list Z) : list Z :=
  let len := Z.of_nat (length message) in
  message ++ [128] ++ replicate (Z.to_nat ((55 - len) mod 64)) 0 ++ be_bytes 8 (8 * len).

Fixpoint words_of (l : list Z) : list Z :=
  match l with
  | a :: b :: c :: d :: rest => (((a * 256 + b) * 256 + c) * 256 + d) :: words_of rest
  | _ => []
  end.

(** Blocks of sixteen words; the fuel is the number of words. *)
Fixpoint blocks (fuel : nat) (words : list Z) : list (list Z) :=
  match fuel, words with
  | O, _ | _, [] => []
  | S fuel, _ => take 16 words :: blocks fuel (drop 16 words)
  end.

Definition sha256 (message : string) : list Z :=
  let words := words_of (padded (bytes_of message)) in
  let s := foldl compress initial_words (blocks (length words) words) in
  concat (be_bytes 4 <$> [wa s; wb s; wc s; wd s; we s; wf s; wg s; wh s]).

(** [hex.EncodeToString(sha256.Sum256(..))] *)
Definition sha256_hex (message : string) : string := hex_encode (string_of_bytes (sha256 message)).

Example sha256_empty :
  sha256_hex "" = "e3b0c44298fc1c149afbf4c8996fb92427ae41e4649b934ca495991b7852b855".
Proof. vm_compute. reflexivity. Qed.

Example sha256_abc :
  sha256_hex "abc" = "ba7816bf8f01cfea414140de5dae2223b00361a396177a9cb410ff61f20015ad".
Proof. vm_compute. reflexivity. Qed.

Example sha256_two_blocks :
  sha256_hex "abcdbcdecdefdefgefghfghighijhijkijkljklmklmnlmnomnopnopq" =
    "248d6a61d20638b8e5c026930c3e6039a33ce45964ff2167f6ecedd419db06c1".
Proof. vm_compute. reflexivity. Qed.

(** ** Lemmas *)

Lemma be_bytes_len n z : length (be_bytes n z) = n.
Proof. induction n as [|n IH]; [done|]. cbn [be_bytes length]. by rewrite IH. Qed.

Lemma be_bytes_range n z : Forall (λ b, 0 <= b < 256) (be_bytes n z).
Proof. induction n as [|n IH]; constructor; [apply Z.mod_pos_bound; lia|exact IH]. Qed.

Lemma sha256_len message : length (sha256 message) = 32%nat.
Proof. unfold sha256. cbn [fmap list_fmap concat]. by rewrite !length_app, !be_bytes_len. Qed.

Lemma sha256_range message : Forall (λ b, 0 <= b < 256) (sha256 message).
Proof. unfold sha256. cbn [fmap list_fmap concat]. repeat apply Forall_app_2; auto using be_bytes_range. Qed.

Lemma string_of_bytes_len l : str_len (string_of_bytes l) = Z.of_nat (length l).
Proof.
  unfold string_of_bytes, str_len, bytes. f_equal.
  induction l as [|z l IH]; simpl; [done|]. f_equal. exact IH.
Qed.

Lemma sha256_hex_len message : str_len (sha256_hex message) = 64.
Proof. unfold sha256_hex. by rewrite hex_encode_len, string_of_bytes_len, sha256_len. Qed.

Lemma sha256_hex_hex message : all_chars is_lower_hex (sha256_hex message) = true.
Proof. apply hex_encode_hex. Qed.
