(* ===== verification/Envelope.v ===== *)
(** * Platform envelopes ([internal/isr/envelope.go], [internal/isr/isr_outbox.go])

    JSON documents, the sealing of an event payload into the canonical
    envelope, and the ISR outbox that carries the envelopes. *)

From S2P Require Import Prelude GoStrings GoTime Float64 Classification Detection Outbox Sha256.

(** ** JSON documents

    A document is what [encoding/json] produces: an object is a list of
    members in the order they are written. *)

#[warnings="-register-all"]
Inductive json : Type :=
| JNull
| JBool (b : bool)
| JInt (z : Z)
| JFloat (x : f64)
| JString (s : string)
| JArray (items : list json)
| JObject (members : list (string * json)).

(** The bytes [json.Marshal] writes for a document.  The development leaves the
    text of numbers and the escapes open: no decision of the code reads them. *)
Class JsonText : Type := json_marshal : json → string.

(** ** Topics and labels *)

Definition TopicISR : string := "maritime.isr.v1".
Definition TopicBehaviour : string := "maritime.behaviour.v1".
Definition TopicOutcome : string := "maritime.outcome.v1".
Definition EnvelopeVersion : string := "1.0".
Definition ProducerName : string := "blueeconomy-maritime-intelligence".

Definition EnvelopeClassificationConfidential : string := "CONFIDENTIAL".
Definition EnvelopeClassificationRestricted : string := "RESTRICTED".
Definition EnvelopeClassificationInternal : string := "INTERNAL".
Definition EnvelopeClassificationPublic : string := "PUBLIC".
Definition EnvelopeClassificationFiduciary : string := "FIDUCIARY_SEGREGATED".

Definition EnvelopeClassificationOf (label : Classification) : result string :=
  if label =s ClassificationUnclassified then Ok EnvelopeClassificationInternal
  else if label =s ClassificationRestricted then Ok EnvelopeClassificationRestricted
  else if (label =s ClassificationConfidential) || (label =s ClassificationSecret)
  then Ok EnvelopeClassificationConfidential
  else Err ErrInvalidClassification.

(** ** Envelopes *)

Record Provenance : Type := mkProvenance {
  PrincipalID : string;
  PrincipalRole : string;
  Signature : string;
  LedgerCommitHash : string
}.

(** The FHIR bundle is the message wrapper of one entry; [env_resource] is the
    resource of that entry, a Go map. *)
Record Envelope : Type := mkEnvelope {
  env_version : string;
  env_event_id : string;
  env_event_type : string;
  env_occurred : string;
  env_producer : string;
  env_correlation : string;
  env_resource : gmap string json;
  env_provenance : Provenance;
  env_classification : string;
  env_topic : string;
  env_aggregate_key : string;
  env_clearance : Classification
}.

(** Decoding an object into the probe struct: a member whose name matches the
    field, also in another letter case, sets it; a later one wins; [null]
    leaves it; another type is an error.  ([encoding/json] also folds a few
    non-ASCII letters; member names here are those of Go structs.) *)
Fixpoint probe_members (members : list (string * json)) (acc : string) : option string :=
  match members with
  | [] => Some acc
  | (name, v) :: rest =>
      if to_upper name =s "CLASSIFICATION" then
        match v with
        | JString s => probe_members rest s
        | JNull => probe_members rest acc
        | _ => None
        end
      else probe_members rest acc
  end.

Definition probe_classification (payload : json) : option string :=
  match payload with
  | JObject members => probe_members members ""
  | JNull => Some ""
  | _ => None
  end.

(** A value decoded into an [any]: every number becomes a [float64]. *)
Fixpoint any_of (v : json) : json :=
  match v with
  | JInt z => JFloat (f_of_Z z)
  | JArray items => JArray (List.map any_of items)
  | JObject members => JObject (List.map (λ kv, (kv.1, any_of kv.2)) members)
  | _ => v
  end.

(** Decoding an object into a map: the last member of a name wins. *)
Definition resource_of (payload : json) : option (gmap string json) :=
  match payload with
  | JObject members => Some (foldl (λ m kv, <[kv.1 := any_of kv.2]> m) ∅ members)
  | _ => None
  end.

Fixpoint stringField (resource : gmap string json) (keys : list string) : string :=
  match keys with
  | [] => ""
  | key :: rest =>
      match resource !! key with
      | Some (JString value) => if negb (value =s "") then value else stringField resource rest
      | _ => stringField resource rest
      end
  end.

#[global] Arguments stringField : simpl never.

Section seal.
Context `{JsonText}.

(** [eventID] is the UUID the call draws; [payload] is the document
    [json.Marshal] makes of the Go value. *)
Definition Seal (eventID topic eventType aggregateKey : string) (classification : Classification)
    (occurredAt : Z) (payload : json) : result Envelope :=
  _ ← fail_if (negb ((topic =s TopicISR) || (topic =s TopicBehaviour) || (topic =s TopicOutcome)))
        (EText ("topic " +:+ topic +:+ " is not an approved Workstream F topic"));
  _ ← ParseClassification classification;
  envelopeClassification ← EnvelopeClassificationOf classification;
  _ ← validateCanonicalID "aggregate_key" aggregateKey;
  _ ← fail_if ((eventType =s "") || (128 <? str_len eventType))
        (EText "event_type must be non-empty and at most 128 characters");
  _ ← fail_if (time_is_zero occurredAt) (EText "occurred_at must be RFC3339");
  probe ← match probe_classification payload with
          | Some s => Ok s
          | None => Err (EText "event payload is not a JSON object")
          end;
  payloadLabel ← match ParseClassification probe with
                 | Ok l => Ok l
                 | Err e => Err (EWrap "event payload carries no valid classification label" e)
                 end;
  _ ← fail_if (negb (payloadLabel =s classification))
        (EText ("envelope classification " +:+ classification +:+ " does not match event label " +:+ payloadLabel));
  resource ← match resource_of payload with
             | Some m => Ok m
             | None => Err (EText "event payload is not a JSON object")
             end;
  let resource := <["aggregateKey" := JString aggregateKey]>
                    (<["clearance" := JString classification]> resource) in
  Ok (mkEnvelope EnvelopeVersion eventID eventType (rfc3339 occurredAt) ProducerName aggregateKey resource
        (mkProvenance (stringField resource ["source_id"; "alert_id"; "anomaly_id"])
           (stringField resource ["modality"; "kind"])
           (sha256_hex (json_marshal payload))
           (stringField resource ["ledger_transfer_id"; "incident_ref"]))
        envelopeClassification topic aggregateKey classification).

End seal.

(** ** The ISR outbox *)

Definition ErrNoPendingISROutbox : error := ESentinel "isr.ErrNoPendingISROutbox".
Definition ErrISROutboxOwnership : error := ESentinel "isr.ErrISROutboxOwnership".

(** The columns of [maritime_isr_outbox] besides the lease. *)
Record ISREvent : Type := mkISREvent {
  ie_topic : string;
  ie_event_type : string;
  ie_classification : string;
  ie_aggregate_key : string;
  ie_envelope : Envelope
}.

(** The table, from its primary key. *)
Abbreviation ISROutbox := (gmap string (Row ISREvent)).

Definition isr_topics : list string := [TopicISR; TopicBehaviour; TopicOutcome].

(** [INSERT INTO maritime_isr_outbox]: primary key and the CHECKs on topic and
    classification. *)
Definition insert_isr_outbox (context id : string) (created db_now : Z) (e : ISREvent)
    : M ISROutbox unit :=
  t ← get_state;
  _ ← check (bool_decide (is_Some (t !! id))) (EWrap context (EText "duplicate key value: event_id"));
  _ ← check (bool_decide (ie_topic e ∉ isr_topics)) (EWrap context (EText "check violation: topic"));
  _ ← check (bool_decide (ie_classification e ∉ all_labels))
        (EWrap context (EText "check violation: classification"));
  put_state (<[id := new_row e created db_now]> t).

(** One statement on the table. *)
Definition on_isr_outbox {A} (f : ISROutbox → result A * ISROutbox) : M ISROutbox A := f.

Definition ClaimISROutbox (env : ClaimEnv) (workerID : string) (lease : Z)
    : M ISROutbox (OutboxEvent ISREvent) :=
  _ ← check ((trim_space workerID =s "") || negb (canonical_text workerID)) ErrWorkerID;
  _ ← check ((lease <=? 0) || (24 * Hour <? lease)) ErrLease;
  on_isr_outbox (sql_claim ErrNoPendingISROutbox env workerID lease).

Definition MarkISROutboxPublished (now : Z) (eventID workerID : string) : M ISROutbox unit :=
  _ ← check (trim_space workerID =s "") ErrWorkerID;
  on_isr_outbox (sql_update_owned ErrISROutboxOwnership (publish_row now) eventID workerID).

Definition MarkISROutboxFailed (eventID workerID failure : string) (retryAt : Z) : M ISROutbox unit :=
  _ ← check (trim_space workerID =s "") ErrWorkerID;
  let failure := trim_space failure in
  _ ← check ((failure =s "") || (2048 <? str_len failure)) ErrFailure;
  on_isr_outbox (sql_update_owned ErrISROutboxOwnership (fail_row retryAt failure) eventID workerID).

#[export] Instance isr_outbox_store : OutboxStore ISROutbox ISREvent := {
  ob_rows := λ t, t;
  ob_set := λ _ t, t;
  ob_none := ErrNoPendingISROutbox;
  ob_ownership := ErrISROutboxOwnership;
  ob_claim := ClaimISROutbox;
  ob_publish := MarkISROutboxPublished;
  ob_fail := MarkISROutboxFailed
}.

#[export] Instance isr_outbox_laws : OutboxLaws ISROutbox ISREvent.
Proof.
  assert (Hw : ∀ w, canonical_worker w = true → (trim_space w =s "") = false).
  { intros w. unfold canonical_worker. by destruct (trim_space w =s ""). }
  split; simpl.
  - done.
  - intros env w l s Hc Hl. unfold ClaimISROutbox. rewrite worker_check, lease_check, Hc, Hl. simpl.
    run_store. unfold on_isr_outbox. by destruct (sql_claim _ _ _ _ s).
  - intros env w l s H. unfold ClaimISROutbox. rewrite worker_check, lease_check.
    destruct (canonical_worker w); simpl in *; [rewrite H|]; eexists; split; reflexivity.
  - intros now id w s Hc. unfold MarkISROutboxPublished. rewrite (Hw _ Hc). run_store.
    unfold on_isr_outbox. by destruct (sql_update_owned _ _ _ _ s).
  - intros id w f at_ s Hc Hf. unfold MarkISROutboxFailed. rewrite (Hw _ Hc), failure_check, Hf. simpl.
    run_store. unfold on_isr_outbox. by destruct (sql_update_owned _ _ _ _ s).
  - intros id w f at_ s Hf. unfold MarkISROutboxFailed. rewrite failure_check, Hf.
    destruct (trim_space w =s ""); eexists; reflexivity.
Qed.

(** ** Lemmas *)

(** The labels as the platform orders its bands. *)
Definition platform_rank (band : string) : Z :=
  if band =s EnvelopeClassificationPublic then 0
  else if band =s EnvelopeClassificationInternal then 1
  else if band =s EnvelopeClassificationRestricted then 2
  else if band =s EnvelopeClassificationConfidential then 3
  else 4.

Lemma EnvelopeClassificationOf_Ok c :
  valid_label c → ∃ band, EnvelopeClassificationOf c = Ok band.
Proof. intros H. label_cases H; eexists; reflexivity. Qed.

Lemma isr_topic_check topic :
  negb ((topic =s TopicISR) || (topic =s TopicBehaviour) || (topic =s TopicOutcome)) = false ↔
  topic ∈ isr_topics.
Proof.
  unfold isr_topics. rewrite negb_false_iff, !orb_true_iff, !String.eqb_eq, !elem_of_cons, elem_of_nil. tauto.
Qed.

Lemma event_type_check et :
  (et =s "") || (128 <? str_len et) = false ↔ 1 <= str_len et <= 128.
Proof.
  rewrite orb_false_iff, String.eqb_neq, Z.ltb_ge. unfold str_len.
  destruct et as [|a et]; simpl String.length; (split; [intros [? ?]; first [done|lia]|]).
  - lia.
  - intros ?. split; [done|lia].
Qed.


(** What [Seal] accepts. *)
Definition sealable (topic et key : string) (c : Classification) (at_ : Z)
    (members : list (string * json)) : Prop :=
  topic ∈ isr_topics ∧ valid_label c ∧ identifierPattern key = true ∧ 1 <= str_len et <= 128 ∧
  at_ ≠ 0 ∧ probe_members members "" = Some c.

Section seal_lemmas.
Context `{JsonText}.

(** The envelope of an accepted payload. *)
Definition sealed (id topic et key : string) (c : Classification) (at_ : Z)
    (members : list (string * json)) (band : string) : Envelope :=
  let resource := <["aggregateKey" := JString key]> (<["clearance" := JString c]>
                    (foldl (λ m kv, <[kv.1 := any_of kv.2]> m) ∅ members)) in
  mkEnvelope EnvelopeVersion id et (rfc3339 at_) ProducerName key resource
    (mkProvenance (stringField resource ["source_id"; "alert_id"; "anomaly_id"])
       (stringField resource ["modality"; "kind"]) (sha256_hex (json_marshal (JObject members)))
       (stringField resource ["ledger_transfer_id"; "incident_ref"]))
    band topic key c.

Lemma Seal_Ok id topic et key c at_ payload e :
  Seal id topic et key c at_ payload = Ok e ↔
  ∃ members band, payload = JObject members ∧ sealable topic et key c at_ members ∧
    EnvelopeClassificationOf c = Ok band ∧ e = sealed id topic et key c at_ members band.
Proof.
  unfold Seal, sealable. split.
  - intros HS. inv_ok HS. rewrite isr_topic_check in *. rewrite event_type_check in *.
    match goal with E : ParseClassification c = Ok _ |- _ => apply ParseClassification_Ok in E as [Hc _] end.
    match goal with E : validateCanonicalID _ _ = Ok _ |- _ => apply validateCanonicalID_Ok in E end.
    match goal with E : time_is_zero _ = false |- _ => apply Z.eqb_neq in E end.
    destruct payload as [| | | | | |members]; simpl in *; try done.
    match goal with E : match probe_members members "" with _ => _ end = Ok ?p |- _ =>
      destruct (probe_members members "") as [probe|] eqn:Ep; [injection E as <-|done] end.
    match goal with E : match ParseClassification probe with _ => _ end = Ok ?l |- _ =>
      destruct (ParseClassification probe) as [l'|] eqn:El; [injection E as <-|done] end.
    apply ParseClassification_Ok in El as [_ ->].
    match goal with E : negb (_ =s c) = false |- _ => apply negb_false_iff, String.eqb_eq in E; subst end.
    match goal with E : Ok (foldl _ _ _) = Ok _ |- _ => injection E as <- end.
    exists members. eexists. split_and!; try done; try lia.
  - intros (members&band&->&(Ht&Hc&Hk&He&Hat&Hp)&Hb&->).
    apply isr_topic_check in Ht. apply event_type_check in He. rewrite Ht, He. simpl.
    rewrite (proj2 (ParseClassification_Ok c c)) by done. simpl. rewrite Hb. simpl.
    unfold validateCanonicalID. rewrite Hk. simpl. unfold time_is_zero.
    rewrite (proj2 (Z.eqb_neq at_ 0)) by done. simpl. rewrite Hp. simpl.
    rewrite (proj2 (ParseClassification_Ok c c)) by done. simpl. rewrite String.eqb_refl. done.
Qed.

End seal_lemmas.

Lemma insert_isr_outbox_Ok ctx id created now e t t' :
  insert_isr_outbox ctx id created now e t = (Ok tt, t') ↔
  t !! id = None ∧ ie_topic e ∈ isr_topics ∧ ie_classification e ∈ all_labels ∧
  t' = <[id := new_row e created now]> t.
Proof.
  unfold insert_isr_outbox. run_store. destruct (t !! id) eqn:El.
  - rewrite bool_decide_eq_true_2 by done. naive_solver.
  - rewrite bool_decide_eq_false_2 by (intros [? ?]; done). run_store.
    case_bool_decide as Ht; [split; [done|by intros (_&?&_)]|]. run_store.
    case_bool_decide as Hc; [split; [done|by intros (_&_&?&_)]|]. unfold put_state.
    split; [by intros [= <-]|by intros (_&_&_&->)].
Qed.

(** ** Properties *)

(** A payload is sealed exactly when the topic is approved, the label valid
    and equal to the label the payload itself carries, and the key, type and
    time are present; the envelope then carries the platform band of the label,
    the label and the aggregate key inside the resource (overriding members of
    those names and no others), and the digest of the payload. *)
Theorem Seal_spec `{JsonText} id topic et key c at_ payload :
  (is_ok (Seal id topic et key c at_ payload) = true ↔
     ∃ members, payload = JObject members ∧ sealable topic et key c at_ members) ∧
  ∀ e, Seal id topic et key c at_ payload = Ok e →
    EnvelopeClassificationOf c = Ok (env_classification e) ∧ env_clearance e = c ∧
    env_topic e = topic ∧ env_aggregate_key e = key ∧ env_correlation e = key ∧
    env_resource e !! "clearance" = Some (JString c) ∧
    env_resource e !! "aggregateKey" = Some (JString key) ∧
    (∀ k, k ≠ "clearance" → k ≠ "aggregateKey" →
       env_resource e !! k = resource_of payload ≫= (λ m, m !! k)) ∧
    Signature (env_provenance e) = sha256_hex (json_marshal payload).
Proof.
  split.
  - rewrite is_ok_true. split.
    + intros (e&(members&band&->&Hs&_)%Seal_Ok). eauto.
    + intros (members&->&Hs). pose proof Hs as (_&Hc&_).
      destruct (EnvelopeClassificationOf_Ok c Hc) as [band Hb].
      eexists. apply Seal_Ok. exists members, band. done.
  - intros e (members&band&->&Hs&Hb&->)%Seal_Ok. unfold sealed. simpl.
    split_and!; try done.
    + by rewrite lookup_insert_ne, lookup_insert_eq.
    + by rewrite lookup_insert_eq.
    + intros k H1 H2. by rewrite !lookup_insert_ne.
Qed.

(** The mapping onto the platform bands never widens visibility: it is
    defined on every approved label, monotone in the clearance order, and its
    band is neither PUBLIC nor the fiduciary one. *)
Lemma EnvelopeClassificationOf_never_widens low high :
  Covers high low = true →
  ∃ b_low b_high, EnvelopeClassificationOf low = Ok b_low ∧ EnvelopeClassificationOf high = Ok b_high ∧
    platform_rank EnvelopeClassificationPublic < platform_rank b_low <= platform_rank b_high ∧
    platform_rank b_high < platform_rank EnvelopeClassificationFiduciary.
Proof.
  intros H. unfold Covers in H. destruct (ParseClassification high) as [h|] eqn:Eh; [|done].
  destruct (ParseClassification low) as [l|] eqn:El; [|done].
  apply ParseClassification_Ok in Eh as [Hh _], El as [Hl _].
  label_cases Hh; label_cases Hl; try done; do 2 eexists; (split; [reflexivity|]); (split; [reflexivity|]);
    vm_compute; done.
Qed.
