(* ===== verification/Ledger.v ===== *)
(** * Dual-control outcome ledger ([internal/ledger])

    A proposal becomes a confirmed entry when a second principal confirms it:
    the confirmation posts a TigerBeetle transfer, writes the immutable entry,
    closes the proposal and emits the envelope, the last three in one database
    transaction.  The transfer is not rolled back with that transaction.

    TigerBeetle is a third-party service: [TigerBeetle] names its two calls and
    the documented behaviour the code relies on. *)

From S2P Require Import Prelude GoStrings GoTime Classification Detection Outbox Sha256 Envelope.

(** ** The TigerBeetle interface *)

Record Account : Type := mkAccount { acc_id : Z; acc_ledger : Z; acc_code : Z }.

Record Transfer : Type := mkTransfer {
  tr_id : Z;
  tr_debit : Z;
  tr_credit : Z;
  tr_amount : Z;
  tr_ledger : Z;
  tr_code : Z
}.

#[export] Instance account_eq_dec : EqDecision Account.
Proof. solve_decision. Defined.
#[export] Instance transfer_eq_dec : EqDecision Transfer.
Proof. solve_decision. Defined.

Inductive AccountStatus : Type := AccountCreated | AccountExists | AccountRejected (code : Z).
Inductive TransferStatus : Type := TransferCreated | TransferExists | TransferRejected (code : Z).

#[export] Instance account_status_eq_dec : EqDecision AccountStatus.
Proof. solve_decision. Defined.
#[export] Instance transfer_status_eq_dec : EqDecision TransferStatus.
Proof. solve_decision. Defined.

(** A client connected to a cluster in state [T]. *)
Class TigerBeetle (T : Type) : Type := {
  CreateAccounts : list Account → M T (list AccountStatus);
  CreateTransfers : list Transfer → M T (list TransferStatus);
  tb_transfers : T → gmap Z Transfer
}.

Definition accepted (results : list TransferStatus) : bool :=
  match results with
  | [] => true
  | [status] => bool_decide (status = TransferCreated) || bool_decide (status = TransferExists)
  | _ => false
  end.

(** What TigerBeetle documents about a batch of one transfer: transfers are
    never changed or deleted, only the submitted one can be added, whatever the
    call answers, and an answer that it is created or exists means that the
    submitted transfer, with all its fields, is retained.  Accounts are created
    beside the transfers. *)
Class TigerBeetleLaws (T : Type) `{TigerBeetle T} : Prop := {
  tb_append_only tr s r s' :
    CreateTransfers [tr] s = (r, s') →
    tb_transfers s' = tb_transfers s ∨
    (tb_transfers s !! tr_id tr = None ∧ tb_transfers s' = <[tr_id tr := tr]> (tb_transfers s));
  tb_accepted tr s rs s' :
    CreateTransfers [tr] s = (Ok rs, s') → accepted rs = true → tb_transfers s' !! tr_id tr = Some tr;
  tb_accounts batch s r s' : CreateAccounts batch s = (r, s') → tb_transfers s' = tb_transfers s
}.

(** ** Outcome service *)

Definition EntryKind : Type := string.
Definition EntryKindIncidentVerified : EntryKind := "incident-verified".
Definition EntryKindPremiumDelta : EntryKind := "premium-delta".
Definition MetricIncidentReduction : string := "incident-reduction-count".
Definition MetricPremiumDelta : string := "premium-delta-basis-points".
Definition UnitIncidents : string := "incidents".
Definition UnitBasisPoints : string := "basis-points".

Definition IncidentReductionAccountID : Z := 1.
Definition PremiumDeltaAccountID : Z := 2.

(** [ledger] is a [uint32] and [code] a [uint16]. *)
Record Service : Type := mkService { svc_ledger : Z; svc_code : Z }.

Definition New (client_present : bool) (ledgerID code : Z) : result Service :=
  _ ← fail_if (negb client_present) (EText "TigerBeetle client is required (fail-closed)");
  _ ← fail_if (ledgerID =? 0) (EText "TigerBeetle ledger id must be non-zero");
  _ ← fail_if (code =? 0) (EText "TigerBeetle code must be non-zero");
  Ok (mkService ledgerID code).

(** [tigerbeetle.BytesToUint128]: sixteen bytes, least significant first. *)
Fixpoint le_value (l : list Z) : Z :=
  match l with [] => 0 | b :: rest => b + 256 * le_value rest end.

Definition EntryTransferID (entryID : string) : result Z :=
  _ ← fail_if ((trim_space entryID =s "") || (128 <? str_len entryID))
        (EText "entry_id must be canonical non-empty text");
  Ok (le_value (take 16 (sha256 ("outcome-ledger:" +:+ entryID)))).

(** The sixteen bytes of the identity, most significant first, in hexadecimal. *)
Definition TransferIDHex (id : Z) : string := hex_encode (string_of_bytes (be_bytes 16 id)).

Definition outcome_transfer (service : Service) (transferID quantity : Z) : Transfer :=
  mkTransfer transferID IncidentReductionAccountID PremiumDeltaAccountID quantity
    (svc_ledger service) (svc_code service).

Section service.
Context {T : Type} `{TigerBeetle T}.

(** [client.Create..(batch)] with [fmt.Errorf("ctx: %w", err)] on failure. *)
Definition call_client {A} (context : string) (m : M T A) : M T A := λ t,
  match m t with
  | (Ok a, t') => (Ok a, t')
  | (Err e, t') => (Err (EWrap context e), t')
  end.

Definition EnsureAccounts (service : Service) : M T unit :=
  results ← call_client "create outcome accounts"
    (CreateAccounts [mkAccount IncidentReductionAccountID (svc_ledger service) (svc_code service);
                     mkAccount PremiumDeltaAccountID (svc_ledger service) (svc_code service)]);
  lift (check_all (λ status,
    fail_if (bool_decide (status ≠ AccountCreated) && bool_decide (status ≠ AccountExists))
      (EText "create outcome account returned an error status")) results).

Definition PostOutcome (service : Service) (entryID : string) (quantity : Z) : M T Z :=
  transferID ← lift (EntryTransferID entryID);
  _ ← check (quantity =? 0) (EText "outcome quantity must be non-zero");
  results ← call_client "post outcome transfer"
    (CreateTransfers [outcome_transfer service transferID quantity]);
  _ ← check (1 <? Z.of_nat (length results)) (EText "post outcome transfer returned more than one failure");
  _ ← check (match results with
             | [status] => bool_decide (status ≠ TransferCreated) && bool_decide (status ≠ TransferExists)
             | _ => false
             end) (EText "post outcome transfer returned an error status");
  mret transferID.

End service.

(** ** Proposals and entries *)

Definition ErrNotFound : error := ESentinel "ledger.ErrNotFound".
Definition ErrDualControl : error := ESentinel "ledger.ErrDualControl".
Definition ErrAlreadyConfirmed : error := ESentinel "ledger.ErrAlreadyConfirmed".
Definition ErrConflict : error := ESentinel "ledger.ErrConflict".

Record Proposal : Type := mkProposal {
  pr_entry : string;
  pr_kind : EntryKind;
  pr_incident : string;
  pr_classification : Classification;
  pr_metric : string;
  pr_quantity : Z;
  pr_unit : string;
  pr_by : string
}.

#[export] Instance proposal_eq_dec : EqDecision Proposal.
Proof. solve_decision. Defined.

Record Entry : Type := mkEntry {
  en_proposal : Proposal;
  en_transfer : string;
  en_proposed_at : Z;
  en_confirmed_by : string;
  en_confirmed_at : Z
}.

Definition Proposal_Validate (proposal : Proposal) : result unit :=
  _ ← fail_if ((pr_kind proposal <>s EntryKindIncidentVerified) && (pr_kind proposal <>s EntryKindPremiumDelta))
        (EText "entry_kind is unsupported");
  _ ← ParseClassification (pr_classification proposal);
  _ ← fail_if ((pr_entry proposal =s "") || (pr_incident proposal =s "") || (pr_by proposal =s "") ||
               (128 <? str_len (pr_entry proposal)) || (128 <? str_len (pr_incident proposal)) ||
               (128 <? str_len (pr_by proposal)))
        (EText "entry_id, incident_ref and proposed_by must be canonical non-empty text");
  _ ← fail_if (pr_quantity proposal <=? 0) (EText "quantity must be positive");
  if pr_kind proposal =s EntryKindIncidentVerified then
    fail_if ((pr_metric proposal <>s MetricIncidentReduction) || (pr_unit proposal <>s UnitIncidents))
      (EText "incident-verified entries must carry the incident-reduction-count metric in incidents")
  else if pr_kind proposal =s EntryKindPremiumDelta then
    fail_if ((pr_metric proposal <>s MetricPremiumDelta) || (pr_unit proposal <>s UnitBasisPoints))
      (EText "premium-delta entries must carry the premium-delta-basis-points metric in basis-points")
  else Ok tt.

(** ** Tables *)

Inductive ProposalState : Type := PROPOSED | CONFIRMED.

#[export] Instance proposal_state_eq_dec : EqDecision ProposalState.
Proof. solve_decision. Defined.

Record ProposalRow : Type := mkProposalRow {
  prow_proposal : Proposal;
  prow_proposed_at : Z;
  prow_state : ProposalState
}.

Record LedgerDB : Type := mkLedgerDB {
  proposals : gmap string ProposalRow;
  entries : gmap string Entry;
  ledger_outbox : ISROutbox
}.

(** The CHECK constraints of the proposals table. *)
Definition proposal_row_ok (p : Proposal) : bool :=
  identifierPattern (pr_entry p) && identifierPattern (pr_incident p) && identifierPattern (pr_by p) &&
  bool_decide (pr_classification p ∈ all_labels) && (0 <? pr_quantity p) &&
  (((pr_kind p =s EntryKindIncidentVerified) && (pr_metric p =s MetricIncidentReduction) &&
    (pr_unit p =s UnitIncidents)) ||
   ((pr_kind p =s EntryKindPremiumDelta) && (pr_metric p =s MetricPremiumDelta) &&
    (pr_unit p =s UnitBasisPoints))).

(** The CHECK constraints of the entries table. *)
Definition entry_row_ok (e : Entry) : bool :=
  ((pr_kind (en_proposal e) =s EntryKindIncidentVerified) || (pr_kind (en_proposal e) =s EntryKindPremiumDelta)) &&
  bool_decide (pr_classification (en_proposal e) ∈ all_labels) && (0 <? pr_quantity (en_proposal e)) &&
  (str_len (en_transfer e) =? 32) && all_chars is_lower_hex (en_transfer e) &&
  negb (pr_by (en_proposal e) =s en_confirmed_by e) && (en_proposed_at e <=? en_confirmed_at e).

(** The document [json.Marshal] makes of an entry: the embedded proposal's
    members come first. *)
Definition entry_json (e : Entry) : json :=
  let p := en_proposal e in
  JObject [("entry_id", JString (pr_entry p)); ("entry_kind", JString (pr_kind p));
           ("incident_ref", JString (pr_incident p)); ("classification", JString (pr_classification p));
           ("metric", JString (pr_metric p)); ("quantity", JInt (pr_quantity p));
           ("unit", JString (pr_unit p)); ("proposed_by", JString (pr_by p));
           ("tigerbeetle_transfer_id", JString (en_transfer e));
           ("proposed_at", JString (rfc3339nano (en_proposed_at e)));
           ("confirmed_by", JString (en_confirmed_by e));
           ("confirmed_at", JString (rfc3339nano (en_confirmed_at e)))].

(** The clocks and generated identities of one call, and whether its commit
    goes through (a serialization failure or a lost connection aborts it). *)
Record LedgerEnv : Type := mkLedgerEnv {
  le_now : Z;
  le_db_now : Z;
  le_envelope_id : string;
  le_event_id : string;
  le_commits : bool
}.

(** ** The outcome store

    [pg_time] is the resolution at which PostgreSQL keeps a timestamp. *)

Section store.
Context {T : Type} `{TigerBeetle T} `{JsonText} (pg_time : Z → Z).

(** The database and the cluster. *)
Definition World : Type := LedgerDB * T.

(** A database transaction: an error rolls the database back, and leaves what
    was done to the cluster. *)
Definition in_tx {A} (m : M World A) : M World A := λ w,
  match m w with
  | (Ok a, w') => (Ok a, w')
  | (Err e, w') => (Err e, (w.1, w'.2))
  end.

Definition on_db {A} (m : M LedgerDB A) : M World A := λ w,
  let '(r, db) := m w.1 in (r, (db, w.2)).
Definition on_cluster {A} (m : M T A) : M World A := λ w,
  let '(r, t) := m w.2 in (r, (w.1, t)).

Definition Propose (env : LedgerEnv) (proposal : Proposal) : M LedgerDB unit :=
  _ ← lift (Proposal_Validate proposal);
  db ← get_state;
  _ ← check (negb (proposal_row_ok proposal))
        (EWrap "record outcome proposal" (EText "check violation"));
  match proposals db !! pr_entry proposal with
  | None =>
      put_state (mkLedgerDB
        (<[pr_entry proposal := mkProposalRow proposal (pg_time (le_now env)) PROPOSED]> (proposals db))
        (entries db) (ledger_outbox db))
  | Some retained =>
      let r := prow_proposal retained in
      check ((pr_kind r <>s pr_kind proposal) || (pr_incident r <>s pr_incident proposal) ||
             (pr_classification r <>s pr_classification proposal) || (pr_metric r <>s pr_metric proposal) ||
             negb (pr_quantity r =? pr_quantity proposal) || (pr_unit r <>s pr_unit proposal) ||
             (pr_by r <>s pr_by proposal)) ErrConflict
  end.

(** [INSERT INTO maritime_outcome_ledger_entries]: primary key, foreign key and
    CHECKs. *)
Definition insert_entry (stored : Entry) : M LedgerDB unit :=
  db ← get_state;
  let id := pr_entry (en_proposal stored) in
  _ ← check (bool_decide (is_Some (entries db !! id)) || bool_decide (proposals db !! id = None) ||
             negb (entry_row_ok stored))
        (EWrap "record immutable outcome entry" (EText "constraint violation"));
  put_state (mkLedgerDB (proposals db) (<[id := stored]> (entries db)) (ledger_outbox db)).

(** [UPDATE .. SET state='CONFIRMED' WHERE entry_id=$1 AND state='PROPOSED'] *)
Definition close_proposal (entryID : string) : M LedgerDB unit :=
  modify (λ db, mkLedgerDB
    (alter (λ row, match prow_state row with
                   | PROPOSED => mkProposalRow (prow_proposal row) (prow_proposed_at row) CONFIRMED
                   | CONFIRMED => row
                   end) entryID (proposals db))
    (entries db) (ledger_outbox db)).

Definition write_outbox (env : LedgerEnv) (created : Z) (e : ISREvent) : M LedgerDB unit := λ db,
  let '(r, t) := insert_isr_outbox "write outcome outbox event" (le_event_id env) (pg_time created)
                   (le_db_now env) e (ledger_outbox db) in
  (r, mkLedgerDB (proposals db) (entries db) t).

Definition stored_entry (e : Entry) : Entry :=
  mkEntry (en_proposal e) (en_transfer e) (en_proposed_at e) (en_confirmed_by e)
    (pg_time (en_confirmed_at e)).

Definition Confirm (env : LedgerEnv) (service : Service) (entryID confirmedBy : string)
    : M World Entry :=
  _ ← check ((confirmedBy =s "") || (128 <? str_len confirmedBy))
        (EText "confirmed_by must be canonical non-empty text");
  in_tx (
    w ← get_state;
    match proposals w.1 !! entryID with
    | None => throw ErrNotFound
    | Some row =>
        let proposal := prow_proposal row in
        _ ← check (pr_by proposal =s confirmedBy) ErrDualControl;
        _ ← check (bool_decide (prow_state row ≠ PROPOSED)) ErrAlreadyConfirmed;
        transferID ← on_cluster (PostOutcome service (pr_entry proposal) (to_uint64 (pr_quantity proposal)));
        let confirmedAt := le_now env in
        let entry := mkEntry proposal (TransferIDHex transferID) (prow_proposed_at row) confirmedBy confirmedAt in
        _ ← on_db (insert_entry (stored_entry entry));
        _ ← on_db (close_proposal entryID);
        envelope ← lift (Seal (le_envelope_id env) TopicOutcome ("outcome." +:+ pr_kind proposal)
                           (pr_entry proposal) (pr_classification proposal) confirmedAt (entry_json entry));
        _ ← on_db (write_outbox env confirmedAt
              (mkISREvent (env_topic envelope) (env_event_type envelope) (env_classification envelope)
                 (env_aggregate_key envelope) envelope));
        _ ← check (negb (le_commits env)) (EText "commit outcome confirmation");
        mret entry
    end).

End store.
