(* ===== verification/LedgerProofs.v ===== *)
(** * Properties of the outcome ledger

    Dual control, one transfer per entry whatever the number of attempts,
    immutability of what is confirmed, and the conditions under which a
    confirmation goes through. *)

From S2P Require Import Prelude GoStrings GoTime Classification Detection Outbox Sha256 Envelope Ledger.

(** ** Lemmas on the transfer identity and the post *)

Lemma TransferIDHex_ok id : str_len (TransferIDHex id) = 32 ∧ all_chars is_lower_hex (TransferIDHex id) = true.
Proof.
  unfold TransferIDHex. split; [|apply hex_encode_hex].
  by rewrite hex_encode_len, string_of_bytes_len, be_bytes_len.
Qed.

Lemma in_tx_Err {T A} (m : M (LedgerDB * T) A) w e w' : in_tx m w = (Err e, w') → w'.1 = w.1.
Proof. unfold in_tx. destruct (m w) as [[]]; naive_solver. Qed.

Lemma in_tx_Ok {T A} (m : M (LedgerDB * T) A) w a w' : in_tx m w = (Ok a, w') ↔ m w = (Ok a, w').
Proof. unfold in_tx. destruct (m w) as [[]]; naive_solver. Qed.

Section proofs.
Context {T : Type} `{TigerBeetleLaws T} `{JsonText} (pg_time : Z → Z).
Implicit Types (w : LedgerDB * T) (t : T) (db : LedgerDB).

Lemma PostOutcome_Ok svc id q t tid t' :
  PostOutcome svc id q t = (Ok tid, t') →
  EntryTransferID id = Ok tid ∧ q ≠ 0 ∧
  tb_transfers t' !! tid = Some (outcome_transfer svc tid q).
Proof.
  unfold PostOutcome. run_store. destruct (EntryTransferID id) as [tid'|]; [|done].
  rewrite mbind_run, check_run. destruct (q =? 0) eqn:Eq; [done|]. apply Z.eqb_neq in Eq.
  rewrite mbind_run. unfold call_client.
  destruct (CreateTransfers _ t) as [[rs|] t1] eqn:Ec; [|done]. run_store.
  destruct (1 <? _) eqn:El; [done|]. rewrite mbind_run, check_run.
  match goal with |- context [if ?b then _ else _] => destruct b eqn:Es end; [done|].
  intros [= <- <-]. split_and!; [done|done|].
  refine (tb_accepted (outcome_transfer svc tid' q) _ rs _ Ec _).
  destruct rs as [|st [|? ?]]; [done| |exfalso; apply Z.ltb_ge in El; cbn [length] in El; lia]. simpl.
  apply andb_false_iff in Es. rewrite orb_true_iff, !bool_decide_eq_true.
  rewrite !bool_decide_eq_false in Es. destruct Es as [Es|Es]; apply dec_stable in Es; auto.
Qed.

(** Whatever the outcome, the only transfer a post may add is its own. *)
Lemma PostOutcome_transfers svc id q t r t' :
  PostOutcome svc id q t = (r, t') →
  tb_transfers t' = tb_transfers t ∨
  ∃ tid, EntryTransferID id = Ok tid ∧ tb_transfers t !! tid = None ∧
    tb_transfers t' = <[tid := outcome_transfer svc tid q]> (tb_transfers t).
Proof.
  unfold PostOutcome. run_store. destruct (EntryTransferID id) as [tid|].
  2:{ intros [= <- <-]. by left. }
  rewrite mbind_run, check_run. destruct (q =? 0).
  { intros [= <- <-]. by left. }
  rewrite mbind_run. unfold call_client.
  destruct (CreateTransfers _ t) as [rs t1] eqn:Ec. pose proof (tb_append_only _ _ _ _ Ec) as Ha.
  intros Hr. assert (t' = t1) as ->.
  { destruct rs; [|congruence]. revert Hr. run_store. destruct (1 <? _); [congruence|].
    rewrite mbind_run, check_run. match goal with |- context [if ?b then _ else _] => destruct b end;
    run_store; congruence. }
  destruct Ha as [->|[Hn ->]]; [by left|right; by exists tid].
Qed.

(** ** One confirmation *)

Lemma Confirm_db_Err env svc id by_ w e w' :
  Confirm pg_time env svc id by_ w = (Err e, w') → w'.1 = w.1.
Proof.
  unfold Confirm. run_store. destruct (_ || _); [congruence|]. apply in_tx_Err.
Qed.

Definition envelope_event (e : Envelope) : ISREvent :=
  mkISREvent (env_topic e) (env_event_type e) (env_classification e) (env_aggregate_key e) e.

(** The whole effect of a successful confirmation. *)
Definition confirmed_db (env : LedgerEnv) (id : string) (row : ProposalRow) (e : Entry) (envelope : Envelope)
    (db : LedgerDB) : LedgerDB :=
  mkLedgerDB
    (<[id := mkProposalRow (prow_proposal row) (prow_proposed_at row) CONFIRMED]> (proposals db))
    (<[pr_entry (prow_proposal row) := stored_entry pg_time e]> (entries db))
    (<[le_event_id env := new_row (envelope_event envelope) (pg_time (le_now env)) (le_db_now env)]>
       (ledger_outbox db)).

Definition confirm_entry (env : LedgerEnv) (row : ProposalRow) (tid : Z) (by_ : string) : Entry :=
  mkEntry (prow_proposal row) (TransferIDHex tid) (prow_proposed_at row) by_ (le_now env).

Lemma Confirm_Ok env svc id by_ db t e w' :
  Confirm pg_time env svc id by_ (db, t) = (Ok e, w') ↔
  ∃ row tid t' envelope,
    proposals db !! id = Some row ∧ by_ ≠ "" ∧ str_len by_ <= 128 ∧
    pr_by (prow_proposal row) ≠ by_ ∧ prow_state row = PROPOSED ∧
    PostOutcome svc (pr_entry (prow_proposal row)) (to_uint64 (pr_quantity (prow_proposal row))) t = (Ok tid, t') ∧
    e = confirm_entry env row tid by_ ∧
    entries db !! pr_entry (prow_proposal row) = None ∧
    proposals db !! pr_entry (prow_proposal row) ≠ None ∧
    entry_row_ok (stored_entry pg_time e) = true ∧
    Seal (le_envelope_id env) TopicOutcome ("outcome." +:+ pr_kind (prow_proposal row))
      (pr_entry (prow_proposal row)) (pr_classification (prow_proposal row)) (le_now env) (entry_json e) =
      Ok envelope ∧
    ledger_outbox db !! le_event_id env = None ∧ env_topic envelope ∈ isr_topics ∧
    env_classification envelope ∈ all_labels ∧ le_commits env = true ∧
    w' = (confirmed_db env id row e envelope db, t').
Proof.
  unfold Confirm. run_store. split.
  - destruct (_ || _) eqn:Eg; [done|]. apply orb_false_iff in Eg as [Eb1%String.eqb_neq Eb2%Z.ltb_ge].
    rewrite in_tx_Ok. run_store. cbn [fst].
    destruct (proposals db !! id) as [row|] eqn:Er; run_store; [|done].
    destruct (pr_by _ =s by_) eqn:Ed; run_store; [done|]. apply String.eqb_neq in Ed.
    case_bool_decide as Es; run_store; [done|]. rewrite ?mbind_run.
    unfold on_cluster. cbn [snd]. destruct (PostOutcome _ _ _ t) as [[tid|] t'] eqn:Ep; [|done].
    rewrite mbind_run. unfold on_db, insert_entry. cbn [fst]. run_store.
    match goal with |- context [if ?b then _ else _] => destruct b eqn:Ei end; [done|].
    apply orb_false_iff in Ei as [[Ei1%bool_decide_eq_false Ei2%bool_decide_eq_false]%orb_false_iff
      Ei3%negb_false_iff]. simpl in Ei1, Ei2.
    apply eq_None_not_Some in Ei1. run_store. unfold close_proposal. run_store. cbn [fst].
    match goal with |- context [Seal ?a ?b ?c ?d ?f ?g ?h] => destruct (Seal a b c d f g h) as [envelope|] eqn:Ese end;
      [|done].
    rewrite mbind_run. unfold write_outbox. cbn [fst].
    match goal with |- context [insert_isr_outbox ?a ?b ?c ?d ?f ?g] =>
      destruct (insert_isr_outbox a b c d f g) as [[[]|] ob] eqn:Eo end; [|done].
    apply insert_isr_outbox_Ok in Eo as (Eo1&Eo2&Eo3&->). run_store.
    destruct (le_commits env) eqn:Ec; [|done]. simpl. intros [= <- <-].
    exists row, tid, t', envelope. split_and!; try done.
    unfold confirmed_db. simpl. do 2 f_equal. apply map_eq. intros i.
    destruct (decide (i = id)) as [->|Hne].
    + rewrite lookup_alter_eq, lookup_insert_eq, Er. simpl. by rewrite Es.
    + by rewrite lookup_alter_ne, lookup_insert_ne.
  - intros (row&tid&t'&envelope&Hr&G1&G2&G3&G4&G5&->&G6&G7&G8&G9&G10&G11&G12&G13&->).
    rewrite (proj2 (String.eqb_neq by_ "")), (proj2 (Z.ltb_ge 128 (str_len by_))) by done. simpl.
    rewrite in_tx_Ok. run_store. cbn [fst]. rewrite Hr. run_store.
    rewrite (proj2 (String.eqb_neq _ by_)) by done. run_store.
    rewrite bool_decide_eq_false_2 by (intros Hn; done). rewrite mbind_run.
    unfold on_cluster. cbn [snd]. rewrite G5. rewrite mbind_run. unfold on_db, insert_entry. cbn [fst]. run_store.
    simpl pr_entry. rewrite G6.
    change (entry_row_ok _) with (entry_row_ok (stored_entry pg_time (confirm_entry env row tid by_))).
    rewrite G8. rewrite (bool_decide_eq_false_2 (is_Some None)) by (by intros [? ?]).
    rewrite bool_decide_eq_false_2 by done. simpl. run_store. unfold close_proposal. run_store. cbn [fst].
    unfold confirm_entry in G9. rewrite G9. rewrite mbind_run. unfold write_outbox. cbn [fst].
    match goal with |- context [insert_isr_outbox ?a ?b ?c ?d ?f ?g] =>
      destruct (insert_isr_outbox a b c d f g) as [r ob] eqn:Eo end.
    assert (Ho : (r, ob) = (Ok tt, <[le_event_id env := new_row (envelope_event envelope)
      (pg_time (le_now env)) (le_db_now env)]> (ledger_outbox db))).
    { rewrite <- Eo. by apply insert_isr_outbox_Ok. }
    injection Ho as -> ->. run_store. rewrite G13. simpl. unfold confirmed_db. simpl. do 3 f_equal.
    apply map_eq. intros i. destruct (decide (i = id)) as [->|Hne].
    + rewrite lookup_alter_eq, lookup_insert_eq, Hr. simpl. by rewrite G4.
    + by rewrite lookup_alter_ne, lookup_insert_ne.
Qed.

(** Whatever a confirmation answers, the cluster gains at most its transfer. *)
Lemma Confirm_transfers env svc id by_ db t r db' t' row :
  Confirm pg_time env svc id by_ (db, t) = (r, (db', t')) → proposals db !! id = Some row →
  tb_transfers t' = tb_transfers t ∨
  ∃ tid, EntryTransferID (pr_entry (prow_proposal row)) = Ok tid ∧ tb_transfers t !! tid = None ∧
    tb_transfers t' =
      <[tid := outcome_transfer svc tid (to_uint64 (pr_quantity (prow_proposal row)))]> (tb_transfers t).
Proof.
  unfold Confirm. run_store. destruct (_ || _); [intros [= <- <- <-]; by left|].
  unfold in_tx. run_store. cbn [fst]. intros Hr Hrow. rewrite Hrow in Hr. revert Hr. run_store.
  destruct (pr_by _ =s by_); [intros [= <- <- <-]; by left|]. run_store.
  case_bool_decide; [intros [= <- <- <-]; by left|]. run_store. rewrite ?mbind_run. unfold on_cluster. cbn [snd fst].
  destruct (PostOutcome _ _ _ t) as [[tid|] t1] eqn:Ep; apply PostOutcome_transfers in Ep.
  2:{ by intros [= <- <- <-]. }
  intros Hr. assert (t' = t1) as ->; [|done]. revert Hr. rewrite mbind_run. unfold on_db. cbn [fst snd].
  destruct (insert_entry _ db) as [[[]|] db1]; [|by intros [= _ _ ->]].
  unfold close_proposal. run_store. cbn [fst snd].
  destruct (Seal _ _ _ _ _ _ _) as [envelope|]; [|by intros [= _ _ ->]].
  rewrite mbind_run. destruct (write_outbox _ _ _ _ _) as [[[]|] db2]; [|by intros [= _ _ ->]]. run_store.
  destruct (negb _); run_store; by intros [= _ _ ->].
Qed.

Lemma Propose_cases env p db r db' :
  Propose pg_time env p db = (r, db') →
  db' = db ∨
  (Proposal_Validate p = Ok tt ∧ proposal_row_ok p = true ∧ proposals db !! pr_entry p = None ∧ r = Ok tt ∧
   db' = mkLedgerDB (<[pr_entry p := mkProposalRow p (pg_time (le_now env)) PROPOSED]> (proposals db))
           (entries db) (ledger_outbox db)).
Proof.
  unfold Propose. run_store. destruct (Proposal_Validate p) as [[]|]; [|intros [= <- <-]; by left].
  run_store. destruct (proposal_row_ok p) eqn:Eo; cbn [negb]; run_store; [|intros [= <- <-]; by left].
  destruct (proposals db !! pr_entry p) as [row|]; rewrite ?check_run.
  - intros Hr. left. revert Hr. destruct (_ || _); congruence.
  - intros [= <- <-]. right. done.
Qed.

(** ** The ledger as a machine *)

Variable svc : Service.

(** A proposal, a confirmation attempt, any other activity of the cluster,
    which keeps every transfer, or any use of the shared outbox. *)
Inductive ledger_step : LedgerDB * T → LedgerDB * T → Prop :=
| ls_propose env p db t r db' :
    in_int64 (pr_quantity p) → Propose pg_time env p db = (r, db') → ledger_step (db, t) (db', t)
| ls_confirm env id by_ w r w' :
    Confirm pg_time env svc id by_ w = (r, w') → ledger_step w w'
| ls_cluster db t t' :
    tb_transfers t ⊆ tb_transfers t' → ledger_step (db, t) (db, t')
| ls_outbox db t outbox : ledger_step (db, t) (mkLedgerDB (proposals db) (entries db) outbox, t).

(** What a confirmed entry rests on. *)
Definition entry_backed (db : LedgerDB) (t : T) (id : string) (e : Entry) : Prop :=
  ∃ row tid,
    proposals db !! id = Some row ∧ prow_state row = CONFIRMED ∧ en_proposal e = prow_proposal row ∧
    en_proposed_at e = prow_proposed_at row ∧ pr_by (en_proposal e) ≠ en_confirmed_by e ∧
    EntryTransferID id = Ok tid ∧ en_transfer e = TransferIDHex tid ∧
    tb_transfers t !! tid = Some (outcome_transfer svc tid (pr_quantity (en_proposal e))).

Definition proposal_sound (db : LedgerDB) (id : string) (row : ProposalRow) : Prop :=
  pr_entry (prow_proposal row) = id ∧ proposal_row_ok (prow_proposal row) = true ∧
  in_int64 (pr_quantity (prow_proposal row)) ∧
  (prow_state row = CONFIRMED ↔ is_Some (entries db !! id)).

Record ledger_inv (w : LedgerDB * T) : Prop := {
  li_proposals id row : proposals w.1 !! id = Some row → proposal_sound w.1 id row;
  li_entries id e : entries w.1 !! id = Some e → entry_backed w.1 w.2 id e
}.

(** Later states extend the earlier ones. *)
Record ledger_extends (w w' : LedgerDB * T) : Prop := {
  le_proposals id row : proposals w.1 !! id = Some row → ∃ row',
    proposals w'.1 !! id = Some row' ∧ prow_proposal row' = prow_proposal row ∧
    prow_proposed_at row' = prow_proposed_at row ∧ (prow_state row = CONFIRMED → row' = row);
  le_entries : entries w.1 ⊆ entries w'.1;
  le_transfers : tb_transfers w.2 ⊆ tb_transfers w'.2
}.

Lemma ledger_extends_refl w : ledger_extends w w.
Proof. split; [eauto|done|done]. Qed.

#[export] Instance ledger_extends_preorder : PreOrder ledger_extends.
Proof.
  split; [intros w; apply ledger_extends_refl|]. intros w1 w2 w3 [P1 E1 T1] [P2 E2 T2]. split.
  - intros id row (row2&H2&Ha&Hb&Hc)%P1. destruct (P2 _ _ H2) as (row3&H3&Ha'&Hb'&Hc').
    exists row3. split_and!; [done|congruence|congruence|]. intros Hs. specialize (Hc Hs) as ->. by apply Hc'.
  - by etrans.
  - by etrans.
Qed.

Lemma entry_backed_mono db t t' id e :
  tb_transfers t ⊆ tb_transfers t' → entry_backed db t id e → entry_backed db t' id e.
Proof.
  intros Ht (row&tid&?&?&?&?&?&?&?&?). exists row, tid. split_and!; try done.
  by eapply lookup_weaken.
Qed.

Lemma Confirm_transfers_mono env id by_ db t r db' t' :
  Confirm pg_time env svc id by_ (db, t) = (r, (db', t')) → tb_transfers t ⊆ tb_transfers t'.
Proof.
  intros Hr. destruct (proposals db !! id) as [row|] eqn:Er.
  - destruct (Confirm_transfers _ _ _ _ _ _ _ _ _ _ Hr Er) as [->|(tid&_&Hn&->)]; [done|].
    by apply insert_subseteq.
  - revert Hr. unfold Confirm. run_store. destruct (_ || _); [by intros [= _ _ ->]|].
    unfold in_tx. run_store. cbn [fst snd]. rewrite Er. by intros [= _ _ ->].
Qed.

Lemma propose_inv env p db r db' t :
  in_int64 (pr_quantity p) → Propose pg_time env p db = (r, db') →
  ledger_inv (db, t) → ledger_inv (db', t) ∧ ledger_extends (db, t) (db', t).
Proof.
  intros Hq Hp [IP IE]. destruct (Propose_cases _ _ _ _ _ Hp) as [->|(_&Hok&Hnone&_&->)].
  { split; [by split|apply ledger_extends_refl]. }
  assert (Hne : ∀ id row, proposals db !! id = Some row → pr_entry p ≠ id) by (intros id row ? <-; congruence).
  cbn [fst snd] in *. split; split; cbn [fst snd proposals entries]; [| | |done|done].
  - intros id row. rewrite lookup_insert_Some. intros [[<- <-]|[? Hrow]].
    + split_and!; try done. simpl. split; [done|]. intros [e He]. destruct (IE _ _ He) as (row'&?&?&_).
      cbn [fst snd] in *. congruence.
    + by apply IP.
  - intros id e He. destruct (IE _ _ He) as (row&tid&Hr&?). cbn [fst snd] in *. exists row, tid. split; [|done].
    cbn [proposals]. rewrite lookup_insert_ne; [done|by eapply Hne].
  - intros id row Hr. exists row. split; [|done]. rewrite lookup_insert_ne; [done|by eapply Hne].
Qed.

Lemma confirm_inv env id by_ db t r db' t' :
  Confirm pg_time env svc id by_ (db, t) = (r, (db', t')) →
  ledger_inv (db, t) → ledger_inv (db', t') ∧ ledger_extends (db, t) (db', t').
Proof.
  intros Hc [IP IE]. pose proof (Confirm_transfers_mono _ _ _ _ _ _ _ _ Hc) as Hmono.
  cbn [fst snd] in *. destruct r as [e|err].
  2:{ apply Confirm_db_Err in Hc. cbn [fst] in Hc. subst db'. split; split; cbn [fst snd]; eauto.
      intros id' e' ?. eapply entry_backed_mono; eauto. }
  apply Confirm_Ok in Hc as (row&tid&t1&envelope&Hrow&_&_&Hby&Hst&Hpost&->&Hfree&_&_&_&_&_&_&_&[= -> <-]).
  destruct (IP _ _ Hrow) as (Hid&Hok&Hq&_). subst id.
  apply PostOutcome_Ok in Hpost as (Htid&_&Htr).
  assert (Hq0 : 0 < pr_quantity (prow_proposal row)) by (unfold proposal_row_ok in Hok; bprop; lia).
  rewrite to_uint64_id in Htr by (done || lia).
  split; split; cbn [fst snd proposals entries confirmed_db].
  - intros id' row'. rewrite lookup_insert_Some. intros [[<- <-]|[Hne Hr]].
    + split_and!; try done. simpl. split; [|done]. intros _. rewrite lookup_insert_eq. eauto.
    + destruct (IP _ _ Hr) as (?&?&?&?). unfold proposal_sound. cbn [entries confirmed_db].
      rewrite (lookup_insert_ne (entries db)) by done. done.
  - intros id' e'. rewrite lookup_insert_Some. intros [[<- <-]|[Hne He]].
    + eexists _, tid. cbn [proposals confirmed_db]. rewrite lookup_insert_eq. split_and!; try done.
    + destruct (IE _ _ He) as (row'&tid'&?&?&?&?&?&?&?&?). exists row', tid'. cbn [proposals confirmed_db].
      rewrite lookup_insert_ne by done. split_and!; try done. by eapply lookup_weaken.
  - intros id' row' Hr. destruct (decide (id' = pr_entry (prow_proposal row))) as [->|Hne].
    + rewrite lookup_insert_eq. assert (row' = row) as -> by congruence. eexists. split_and!; try done.
      rewrite Hst. done.
    + rewrite lookup_insert_ne by done. eauto.
  - by apply insert_subseteq.
  - done.
Qed.

Lemma ledger_step_inv w w' : ledger_step w w' → ledger_inv w → ledger_inv w' ∧ ledger_extends w w'.
Proof.
  destruct 1 as [env p db t r db' Hq Hp|env id by_ [db t] r [db' t'] Hc|db t t' Ht|db t outbox]; intros Hi.
  - by eapply propose_inv.
  - by eapply confirm_inv.
  - destruct Hi as [IP IE]. split; split; cbn [fst snd] in *; eauto.
    intros id e He. eapply entry_backed_mono; eauto.
  - destruct Hi as [IP IE]. split; split; cbn [fst snd proposals entries] in *; eauto.
Qed.

Lemma ledger_reach_inv w w' : rtc ledger_step w w' → ledger_inv w → ledger_inv w' ∧ ledger_extends w w'.
Proof.
  induction 1 as [|w1 w2 w3 Hs _ IH]; intros Hi; [split; [done|apply ledger_extends_refl]|].
  destruct (ledger_step_inv _ _ Hs Hi) as [Hi2 He]. destruct (IH Hi2) as [Hi3 He2]. split; [done|by etrans].
Qed.

Definition empty_ledger : LedgerDB := mkLedgerDB ∅ ∅ ∅.

Lemma empty_ledger_inv t : ledger_inv (empty_ledger, t).
Proof. split; intros id x Hx; cbn [fst empty_ledger proposals entries] in Hx; by rewrite lookup_empty in Hx. Qed.

(** ** When a confirmation goes through *)

Lemma proposal_row_facts p :
  proposal_row_ok p = true →
  (pr_kind p = EntryKindIncidentVerified ∨ pr_kind p = EntryKindPremiumDelta) ∧
  valid_label (pr_classification p) ∧ identifierPattern (pr_entry p) = true ∧
  identifierPattern (pr_incident p) = true ∧ 0 < pr_quantity p.
Proof.
  unfold proposal_row_ok. rewrite !andb_true_iff, bool_decide_eq_true, Z.ltb_lt, orb_true_iff, !andb_true_iff,
    !String.eqb_eq. intros (((((?&?)&?)&?)&?)&[[[? _] _]|[[? _] _]]); split_and!; auto.
Qed.

(** The provenance of an outcome envelope: the members the code looks for
    are not those of an entry. *)
Definition outcome_provenance (e : Entry) : Provenance :=
  mkProvenance "" "" (sha256_hex (json_marshal (entry_json e))) (pr_incident (en_proposal e)).

Lemma Seal_entry id row tid by_ env :
  proposal_row_ok (prow_proposal row) = true → le_now env ≠ 0 →
  let e := confirm_entry env row tid by_ in
  ∃ envelope,
    Seal id TopicOutcome ("outcome." +:+ pr_kind (prow_proposal row)) (pr_entry (prow_proposal row))
      (pr_classification (prow_proposal row)) (le_now env) (entry_json e) = Ok envelope ∧
    env_topic envelope = TopicOutcome ∧ env_provenance envelope = outcome_provenance e ∧
    EnvelopeClassificationOf (pr_classification (prow_proposal row)) = Ok (env_classification envelope).
Proof.
  intros Hok Hnow e. apply proposal_row_facts in Hok as (Hk&Hl&Hid&Hin&_).
  destruct (EnvelopeClassificationOf_Ok _ Hl) as [band Hb].
  eexists. split_and!.
  - apply Seal_Ok. do 2 eexists. split_and!; [reflexivity| |exact Hb|reflexivity].
    split_and!; [set_solver|done|done| | |done|reflexivity]; destruct Hk as [-> | ->]; vm_compute; done.
  - reflexivity.
  - assert (Hne : pr_incident (prow_proposal row) ≠ "") by (by eapply ident_pattern_nonempty).
    unfold sealed, outcome_provenance. cbn [env_provenance]. apply String.eqb_neq in Hne.
    f_equal; cbn [foldl fst snd any_of]; unfold stringField;
      repeat (rewrite lookup_insert_ne by done);
      rewrite ?lookup_insert_eq, ?lookup_empty; cbn [e confirm_entry en_proposal]; rewrite ?Hne; reflexivity.
  - exact Hb.
Qed.

(** What a confirmation needs besides an open proposal and an accepted post. *)
Definition confirmable (env : LedgerEnv) (by_ : string) (db : LedgerDB) (row : ProposalRow) : Prop :=
  by_ ≠ "" ∧ str_len by_ <= 128 ∧ pr_by (prow_proposal row) ≠ by_ ∧ prow_state row = PROPOSED ∧
  pr_classification (prow_proposal row) ≠ ClassificationUnclassified ∧
  le_now env ≠ 0 ∧ prow_proposed_at row <= pg_time (le_now env) ∧
  ledger_outbox db !! le_event_id env = None ∧ le_commits env = true.

Lemma band_in_labels c band :
  valid_label c → EnvelopeClassificationOf c = Ok band →
  band ∈ all_labels ↔ c ≠ ClassificationUnclassified.
Proof. intros Hc Hb. label_cases Hc; vm_compute in Hb; injection Hb as <-; vm_compute; set_solver. Qed.

Lemma entry_row_ok_iff env row tid by_ :
  proposal_row_ok (prow_proposal row) = true → pr_by (prow_proposal row) ≠ by_ →
  entry_row_ok (stored_entry pg_time (confirm_entry env row tid by_)) = true ↔
  prow_proposed_at row <= pg_time (le_now env).
Proof.
  intros Hok Hby. apply proposal_row_facts in Hok as (Hk&Hl&_&_&Hq).
  unfold entry_row_ok, stored_entry, confirm_entry. cbn [en_proposal en_transfer en_proposed_at en_confirmed_by
    en_confirmed_at]. destruct (TransferIDHex_ok tid) as [-> ->].
  rewrite (bool_decide_eq_true_2 (pr_classification _ ∈ _)) by done.
  rewrite (proj2 (Z.ltb_lt 0 _)) by done. rewrite (proj2 (String.eqb_neq _ by_)) by done.
  destruct Hk as [-> | ->]; cbn -[Z.leb]; lia.
Qed.

Lemma Confirm_ok_iff env id by_ db t :
  ledger_inv (db, t) →
  is_ok (Confirm pg_time env svc id by_ (db, t)).1 = true ↔
  ∃ row tid t', proposals db !! id = Some row ∧ confirmable env by_ db row ∧
    PostOutcome svc id (pr_quantity (prow_proposal row)) t = (Ok tid, t').
Proof.
  intros [IP IE]. cbn [fst snd] in *. rewrite is_ok_true. split.
  - intros [e He]. destruct (Confirm pg_time env svc id by_ (db, t)) as [r w'] eqn:Hc. cbn [fst] in He. subst r.
    apply Confirm_Ok in Hc as (row&tid&t1&envelope&Hrow&?&?&?&?&Hpost&->&?&?&Hrok&Hseal&?&_&Hband&?&->).
    destruct (IP _ _ Hrow) as (Hid&Hok&Hq&_). subst id.
    pose proof (proposal_row_facts _ Hok) as (_&Hl&_&_&Hpos). rewrite to_uint64_id in Hpost by (done || lia).
    exists row, tid, t1. split_and!; [done| |done]. unfold confirmable. split_and!; try done.
    + apply Seal_Ok in Hseal as (?&band&_&_&Hb&->). by apply (band_in_labels _ band).
    + apply Seal_Ok in Hseal as (?&band&_&(_&_&_&_&?&_)&_). done.
    + eapply entry_row_ok_iff; eauto.
  - intros (row&tid&t1&Hrow&(?&?&?&?&?&?&?&?&?)&Hpost).
    destruct (IP _ _ Hrow) as (Hid&Hok&Hq&Hc). subst id.
    pose proof (proposal_row_facts _ Hok) as (_&Hl&_&_&Hpos).
    destruct (Seal_entry (le_envelope_id env) row tid by_ env Hok) as (envelope&Hseal&Htopic&_&Hb); [done|].
    set (e := confirm_entry env row tid by_) in *. exists e.
    enough (Confirm pg_time env svc (pr_entry (prow_proposal row)) by_ (db, t) =
      (Ok e, (confirmed_db env (pr_entry (prow_proposal row)) row e envelope db, t1))) as -> by done.
    apply Confirm_Ok. exists row, tid, t1, envelope. split_and!; try done.
    + by rewrite to_uint64_id by (done || lia).
    + apply eq_None_not_Some. rewrite <- Hc. congruence.
    + by rewrite Hrow.
    + by apply entry_row_ok_iff.
    + rewrite Htopic. set_solver.
    + by apply (band_in_labels _ _ Hl Hb).
Qed.

(** ** Repeated attempts *)

Definition attempt (id : string) (w : LedgerDB * T) (a : LedgerEnv * string) : LedgerDB * T :=
  (Confirm pg_time a.1 svc id a.2 w).2.

Lemma attempts_transfers id attempts db t db' t' row tid :
  foldl (attempt id) (db, t) attempts = (db', t') → ledger_inv (db, t) →
  proposals db !! id = Some row → EntryTransferID id = Ok tid →
  let transfer := outcome_transfer svc tid (pr_quantity (prow_proposal row)) in
  tb_transfers t' = tb_transfers t ∨
  (tb_transfers t !! tid = None ∧ tb_transfers t' = <[tid := transfer]> (tb_transfers t)).
Proof.
  revert db t row. induction attempts as [|[env by_] rest IH]; intros db t row; simpl.
  - intros [= <- <-] *. by left.
  - intros Hrun Hinv Hrow Htid. unfold attempt in Hrun at 2. cbn [fst snd] in Hrun.
    destruct (Confirm pg_time env svc id by_ (db, t)) as [r [db1 t1]] eqn:Hc. cbn [snd] in Hrun.
    pose proof (Confirm_transfers _ _ _ _ _ _ _ _ _ _ Hc Hrow) as Ht.
    destruct (confirm_inv _ _ _ _ _ _ _ _ Hc Hinv) as [Hinv1 Hext].
    destruct (li_proposals _ Hinv _ _ Hrow) as (Hid&Hok&Hq&_).
    pose proof (proposal_row_facts _ Hok) as (_&_&_&_&Hpos).
    destruct (le_proposals _ _ Hext _ _ Hrow) as (row1&Hrow1&Hp&_&_). cbn [fst] in Hrow1.
    specialize (IH _ _ _ Hrun Hinv1 Hrow1 Htid). rewrite Hp in IH.
    rewrite Hid, to_uint64_id in Ht by (done || lia).
    destruct Ht as [Ht|(tid'&Htid'&Hn&Ht)]; [by rewrite Ht in IH|].
    assert (tid' = tid) as -> by congruence. right. split; [done|].
    destruct IH as [->|[Hn1 _]]; [done|]. rewrite Ht, lookup_insert_eq in Hn1. done.
Qed.

End proofs.

(** ** A concrete cluster *)

Record Cluster : Type := mkCluster { cl_transfers : gmap Z Transfer; cl_accounts : gset Z; cl_up : bool }.

Definition cluster_transfer (c : Cluster) (tr : Transfer) : TransferStatus * Cluster :=
  if bool_decide (tr_debit tr ∉ cl_accounts c) || bool_decide (tr_credit tr ∉ cl_accounts c)
  then (TransferRejected 1, c)
  else match cl_transfers c !! tr_id tr with
       | Some retained => (if bool_decide (retained = tr) then TransferExists else TransferRejected 2, c)
       | None => (TransferCreated, mkCluster (<[tr_id tr := tr]> (cl_transfers c)) (cl_accounts c) (cl_up c))
       end.

Fixpoint cluster_batch (batch : list Transfer) (c : Cluster) : list TransferStatus * Cluster :=
  match batch with
  | [] => ([], c)
  | tr :: rest =>
      let '(status, c1) := cluster_transfer c tr in
      let '(more, c2) := cluster_batch rest c1 in (status :: more, c2)
  end.

#[export] Instance cluster_client : TigerBeetle Cluster := {
  CreateAccounts := λ accounts c,
    if cl_up c then
      (Ok ((λ a, if bool_decide (acc_id a ∈ cl_accounts c) then AccountExists else AccountCreated) <$> accounts),
       mkCluster (cl_transfers c) (list_to_set (acc_id <$> accounts) ∪ cl_accounts c) true)
    else (Err (EText "cluster unavailable"), c);
  CreateTransfers := λ batch c,
    if cl_up c then let '(rs, c') := cluster_batch batch c in (Ok rs, c')
    else (Err (EText "cluster unavailable"), c);
  tb_transfers := cl_transfers
}.

#[export] Instance cluster_laws : TigerBeetleLaws Cluster.
Proof.
  split; [intros tr c r c'; simpl; unfold cluster_transfer..|].
  - destruct (cl_up c); [|intros [= <- <-]; by left].
    destruct (_ || _); [intros [= <- <-]; by left|].
    destruct (cl_transfers c !! tr_id tr) eqn:E; intros [= <- <-]; [by left|by right].
  - destruct (cl_up c); [|done]. destruct (_ || _); [by intros [= <- <-]|].
    destruct (cl_transfers c !! tr_id tr) as [old|] eqn:E.
    + case_bool_decide; intros [= <- <-]; [by subst|done].
    + intros [= <- <-] _. simpl. by rewrite lookup_insert_eq.
  - intros batch c r c'. simpl. destruct (cl_up c); by intros [= <- <-].
Qed.

Definition sample_text : JsonText := λ _, "".
Definition sample_service : Service := mkService 7 42.
Definition sample_cluster : Cluster :=
  (EnsureAccounts sample_service (mkCluster ∅ ∅ true)).2.
Definition sample_proposal (label : Classification) : Proposal :=
  mkProposal "entry-001" EntryKindIncidentVerified "incident-001" label MetricIncidentReduction 3
    UnitIncidents "nimasa-analyst".
Definition sample_env (now : Z) (commits : bool) : LedgerEnv := mkLedgerEnv now now "env-1" "out-1" commits.
Definition sample_proposed (label : Classification) : LedgerDB :=
  (Propose id (sample_env 100 true) (sample_proposal label) empty_ledger).2.

Lemma sample_propose_step label :
  valid_label label →
  ledger_step (H1 := sample_text) id sample_service (empty_ledger, sample_cluster)
    (sample_proposed label, sample_cluster).
Proof.
  intros Hl. apply (ls_propose _ _ (sample_env 100 true) (sample_proposal label) _ _ (Ok tt)); [by vm_compute|].
  label_cases Hl; vm_compute; reflexivity.
Qed.

(** ** Properties *)

(** C2: Dual control and finality: in every reachable state a confirmed entry has
    a retained proposal that names another principal than its confirmer, and a
    retained TigerBeetle transfer from the incident-reduction to the
    premium-delta account whose identity derives from the entry, whose rendering
    the entry stores and whose amount is the proposed quantity; and along any
    further run entries and transfers are only added, never changed or removed,
    a proposal keeps its terms and its time, and a confirmed one stays as it is. *)
Theorem ledger_dual_control {T} `{TigerBeetleLaws T} `{JsonText} pg_time svc t0 w w' :
  rtc (ledger_step pg_time svc) (empty_ledger, t0) w → rtc (ledger_step pg_time svc) w w' →
  (∀ id e, entries w.1 !! id = Some e → entry_backed svc w.1 w.2 id e) ∧ ledger_extends w w'.
Proof.
  intros Hr Hr'. destruct (ledger_reach_inv _ _ _ _ Hr (empty_ledger_inv svc t0)) as [Hi _]. split.
  - apply (li_entries _ _ Hi).
  - by apply (ledger_reach_inv _ _ _ _ Hr').
Qed.

(** A confirmation succeeds exactly when the proposal exists and is open,
    the confirmer is a named principal other than the proposer, TigerBeetle
    takes the transfer, the clock is not behind the proposal, the event
    identity is new, the commit goes through, and the label is not
    UNCLASSIFIED. *)
Theorem Confirm_accepts_iff {T} `{TigerBeetleLaws T} `{JsonText} pg_time svc t0 env id by_ db t :
  rtc (ledger_step pg_time svc) (empty_ledger, t0) (db, t) →
  is_ok (Confirm pg_time env svc id by_ (db, t)).1 = true ↔
  ∃ row tid t', proposals db !! id = Some row ∧ confirmable pg_time env by_ db row ∧
    PostOutcome svc id (pr_quantity (prow_proposal row)) t = (Ok tid, t').
Proof.
  intros Hr. destruct (ledger_reach_inv _ _ _ _ Hr (empty_ledger_inv svc t0)) as [Hi _].
  by apply Confirm_ok_iff.
Qed.

(** Retries converge: any sequence of confirmation attempts of one entry, by
    any principals, with lost answers, aborted commits and rejections among
    them, adds at most one transfer to the cluster, the entry's own, with the
    proposed quantity. *)
Theorem confirm_posts_once {T} `{TigerBeetleLaws T} `{JsonText} pg_time svc t0 attempts id db t db' t' row tid :
  rtc (ledger_step pg_time svc) (empty_ledger, t0) (db, t) →
  foldl (attempt pg_time svc id) (db, t) attempts = (db', t') →
  proposals db !! id = Some row → EntryTransferID id = Ok tid →
  tb_transfers t' = tb_transfers t ∨
  (tb_transfers t !! tid = None ∧
   tb_transfers t' = <[tid := outcome_transfer svc tid (pr_quantity (prow_proposal row))]> (tb_transfers t)).
Proof.
  intros Hr Ha Hp Ht. destruct (ledger_reach_inv _ _ _ _ Hr (empty_ledger_inv svc t0)) as [Hi _].
  by eapply (attempts_transfers pg_time svc id attempts).
Qed.

(** The state after the sample proposal, and after its confirmation. *)
Definition proposed_world : LedgerDB * Cluster := (sample_proposed ClassificationRestricted, sample_cluster).
Definition confirm_sample (now : Z) (commits : bool) (w : LedgerDB * Cluster) : result Entry * (LedgerDB * Cluster) :=
  Confirm (H0 := sample_text) id (sample_env now commits) sample_service "entry-001" "defence-confirmer" w.
Definition confirmed_world : LedgerDB * Cluster := (confirm_sample 200 true proposed_world).2.

Lemma proposed_reachable :
  rtc (ledger_step (H1 := sample_text) id sample_service) (empty_ledger, sample_cluster) proposed_world.
Proof. apply rtc_once, sample_propose_step. vm_compute. by right; left. Qed.

Lemma confirm_reachable w now commits :
  rtc (ledger_step (H1 := sample_text) id sample_service) (empty_ledger, sample_cluster) w →
  rtc (ledger_step (H1 := sample_text) id sample_service) (empty_ledger, sample_cluster)
    (confirm_sample now commits w).2.
Proof.
  intros Hw. eapply rtc_r; [exact Hw|].
  eapply (ls_confirm _ _ (sample_env now commits) "entry-001" "defence-confirmer"). apply surjective_pairing.
Qed.

Definition sample_entry : Entry :=
  match (confirm_sample 200 true proposed_world).1 with Ok e => e | Err _ => mkEntry (sample_proposal "") "" 0 "" 0 end.

Lemma ledger_dual_control_witness :
  entry_backed sample_service confirmed_world.1 confirmed_world.2 "entry-001" sample_entry ∧
  ledger_extends confirmed_world (confirm_sample 300 true confirmed_world).2.
Proof.
  destruct (ledger_dual_control (H1 := sample_text) id sample_service sample_cluster confirmed_world
    (confirm_sample 300 true confirmed_world).2) as [Hb Hx].
  - exact (confirm_reachable proposed_world 200 true proposed_reachable).
  - apply rtc_once. eapply (ls_confirm _ _ (sample_env 300 true) "entry-001" "defence-confirmer").
    apply surjective_pairing.
  - split; [apply Hb; vm_compute; reflexivity|exact Hx].
Defined.

Lemma Confirm_accepts_iff_witness :
  ∃ row tid t', proposals proposed_world.1 !! "entry-001" = Some row ∧
    confirmable id (sample_env 200 true) "defence-confirmer" proposed_world.1 row ∧
    PostOutcome sample_service "entry-001" (pr_quantity (prow_proposal row)) proposed_world.2 = (Ok tid, t').
Proof.
  apply (Confirm_accepts_iff (H1 := sample_text) id sample_service sample_cluster).
  - exact proposed_reachable.
  - vm_compute. reflexivity.
Defined.

(** The commit of the first attempt is lost, the second attempt succeeds. *)
Definition retried_world : LedgerDB * Cluster :=
  foldl (attempt (H1 := sample_text) id sample_service "entry-001") proposed_world
    [(sample_env 200 false, "defence-confirmer"); (sample_env 300 true, "defence-confirmer")].

Definition sample_row : ProposalRow := mkProposalRow (sample_proposal ClassificationRestricted) 100 PROPOSED.

Lemma retried_run :
  foldl (attempt (H1 := sample_text) id sample_service "entry-001") (proposed_world.1, proposed_world.2)
    [(sample_env 200 false, "defence-confirmer"); (sample_env 300 true, "defence-confirmer")] =
  (retried_world.1, retried_world.2).
Proof. unfold retried_world. by rewrite <- !surjective_pairing. Qed.

Lemma confirm_posts_once_witness :
  is_Some (entries retried_world.1 !! "entry-001") ∧
  ∃ tid, EntryTransferID "entry-001" = Ok tid ∧
    (tb_transfers retried_world.2 = tb_transfers proposed_world.2 ∨
     (tb_transfers proposed_world.2 !! tid = None ∧
      tb_transfers retried_world.2 =
        <[tid := outcome_transfer sample_service tid (pr_quantity (prow_proposal sample_row))]>
          (tb_transfers proposed_world.2))).
Proof.
  split; [eexists; vm_compute; reflexivity|].
  destruct (EntryTransferID "entry-001") as [tid|] eqn:Et; [|discriminate Et].
  exists tid. split; [reflexivity|].
  refine (confirm_posts_once (H1 := sample_text) id sample_service sample_cluster _ "entry-001"
    proposed_world.1 proposed_world.2 retried_world.1 retried_world.2 sample_row tid
    _ retried_run _ Et).
  - exact proposed_reachable.
  - vm_compute. reflexivity.
Defined.

(** A proposal labelled UNCLASSIFIED can never be confirmed: whatever the
    attempt, the confirmation fails and the database stays as it is, because
    the envelope's platform label INTERNAL is written to a column that only
    admits clearance labels; the transfer may have been posted before. *)
Theorem unclassified_never_confirmed {T} `{TigerBeetle T} `{JsonText} pg_time svc env id by_ db t row :
  proposals db !! id = Some row → pr_classification (prow_proposal row) = ClassificationUnclassified →
  ∃ e t', Confirm pg_time env svc id by_ (db, t) = (Err e, (db, t')).
Proof.
  intros Hrow Hl. destruct (Confirm pg_time env svc id by_ (db, t)) as [[e|e] [db' t']] eqn:Hc.
  - exfalso. apply Confirm_Ok in Hc as (row'&?&?&envelope&Hrow'&_&_&_&_&_&_&_&_&_&Hs&_&_&Hb&_).
    assert (row' = row) as -> by congruence.
    apply Seal_Ok in Hs as (?&band&_&(_&Hv&_)&Hband&->).
    by apply (band_in_labels _ _ Hv Hband) in Hb.
  - apply Confirm_db_Err in Hc as Hdb. cbn [fst] in Hdb. subst db'. eauto.
Qed.

(** The transfer of the sample is posted, and its confirmation fails. *)
Lemma unclassified_never_confirmed_witness :
  size (cl_transfers (confirm_sample 200 true
    (sample_proposed ClassificationUnclassified, sample_cluster)).2.2) = 1%nat ∧
  ∃ e t', confirm_sample 200 true (sample_proposed ClassificationUnclassified, sample_cluster) =
    (Err e, (sample_proposed ClassificationUnclassified, t')).
Proof.
  split; [vm_compute; reflexivity|].
  apply (unclassified_never_confirmed (H0 := sample_text) id sample_service (sample_env 200 true) "entry-001"
    "defence-confirmer" (sample_proposed ClassificationUnclassified) sample_cluster
    (mkProposalRow (sample_proposal ClassificationUnclassified) 100 PROPOSED)); vm_compute; reflexivity.
Defined.

(** The event of a confirmation: its row carries the platform band of the
    label (so SECRET is stored as CONFIDENTIAL), and its provenance names
    neither the deciding principal nor the ledger transfer: the members [Seal]
    looks for are not members of an entry, so both principal fields are empty
    and the ledger commit is the incident reference. *)
Theorem confirmation_event {T} `{TigerBeetleLaws T} `{JsonText} pg_time svc t0 env id by_ db t e w' :
  rtc (ledger_step pg_time svc) (empty_ledger, t0) (db, t) →
  Confirm pg_time env svc id by_ (db, t) = (Ok e, w') →
  ∃ r, ledger_outbox w'.1 !! le_event_id env = Some r ∧ ie_topic (row_info r) = TopicOutcome ∧
    EnvelopeClassificationOf (pr_classification (en_proposal e)) = Ok (ie_classification (row_info r)) ∧
    env_provenance (ie_envelope (row_info r)) = outcome_provenance e.
Proof.
  intros Hr Hc. destruct (ledger_reach_inv _ _ _ _ Hr (empty_ledger_inv svc t0)) as [[IP _] _].
  apply Confirm_Ok in Hc as (row&tid&?&envelope&Hrow&_&_&_&_&_&->&_&_&_&Hs&_&_&_&_&->).
  destruct (IP _ _ Hrow) as (_&Hok&_).
  assert (Hnow : le_now env ≠ 0) by (by apply Seal_Ok in Hs as (?&?&_&(_&_&_&_&?&_)&_)).
  destruct (Seal_entry pg_time (le_envelope_id env) row tid by_ env Hok Hnow) as (envelope'&Hs'&Ht&Hp&Hb).
  rewrite Hs' in Hs. injection Hs as ->.
  eexists. split; [apply lookup_insert_eq|]. done.
Qed.

Lemma confirmation_event_witness :
  ∃ r, ledger_outbox confirmed_world.1 !! "out-1" = Some r ∧ ie_topic (row_info r) = TopicOutcome ∧
    EnvelopeClassificationOf ClassificationRestricted = Ok (ie_classification (row_info r)) ∧
    env_provenance (ie_envelope (row_info r)) = outcome_provenance (H1 := sample_text) sample_entry.
Proof.
  apply (confirmation_event (H1 := sample_text) id sample_service sample_cluster (sample_env 200 true) "entry-001"
    "defence-confirmer" proposed_world.1 proposed_world.2 sample_entry confirmed_world).
  - exact proposed_reachable.
  - vm_compute. reflexivity.
Defined.
