(* ===== verification/Publisher.v ===== *)
(** * Outbox publisher ([cmd/maritime-intelligence-outbox-publisher])

    A worker claims one event, writes it to Kafka, and marks it published or
    reschedules it with an exponential delay.  The two workers of the program
    differ in their store and in the message they build; [deliver] is written
    once against the interface [OutboxStore] and instantiated with both.

    Kafka is a third-party broker: [Broker] names the synchronous write the
    code calls and what the code relies on. *)

From S2P Require Import Prelude GoStrings GoTime Outbox Incident Envelope.

(** ** Kafka *)

Record Message (V : Type) : Type := mkMessage {
  msg_topic : string;
  msg_key : string;
  msg_value : V;
  msg_headers : list (string * string)
}.
Arguments mkMessage {V}.

(** [WriteMessages] of one message on a client in state [K].  With
    [RequiredAcks: RequireAll] a success means that the message is in the log;
    a failed write may have reached the log or not. *)
Class Broker (K V : Type) : Type := {
  write_message : Message V → M K unit;
  broker_log : K → list (Message V)
}.

Class BrokerLaws (K V : Type) `{Broker K V} : Prop := {
  write_appends m k r k' : write_message m k = (r, k') →
    broker_log k' = broker_log k ∨ broker_log k' = broker_log k ++ [m];
  write_acknowledged m k u k' : write_message m k = (Ok u, k') → broker_log k' = broker_log k ++ [m]
}.

(** ** Backoff *)

Definition backoff (attempts max : Z) : Z :=
  let attempts := if attempts <? 1 then 1 else attempts in
  let attempts := if 30 <? attempts then 30 else attempts in
  let delay := wrap64 (Second * Z.shiftl 1 (attempts - 1)) in
  if max <? delay then max else delay.

(** [err.Error()] *)
Fixpoint error_text (e : error) : string :=
  match e with
  | ESentinel name => name
  | EText msg => msg
  | EWrap context inner => context +:+ ": " +:+ error_text inner
  end.

(** ** One delivery *)

(** The settings of a worker, and its clocks during one delivery. *)
Record Config : Type := mkConfig { workerID : string; cfg_lease : Z; maxBackoff : Z }.
Record DeliverEnv : Type := mkDeliverEnv { de_claim : ClaimEnv; de_db_now : Z; de_now : Z }.

Section deliver.
Context {S I K V : Type} `{OutboxStore S I} `{Broker K V}.

Definition on_store {A} (m : M S A) : M (S * K) A := λ w,
  let '(r, s) := m w.1 in (r, (s, w.2)).
Definition on_broker {A} (m : M K A) : M (S * K) A := λ w,
  let '(r, k) := m w.2 in (r, (w.1, k)).

(** The attempt as a value: the code inspects the error. *)
Definition try_write (m : Message V) : M (S * K) (option error) := λ w,
  match on_broker (write_message m) w with
  | (Ok _, w') => (Ok None, w')
  | (Err e, w') => (Ok (Some e), w')
  end.

(** What follows the write. *)
Definition settle (cfg : Config) (env : DeliverEnv) (event : OutboxEvent I) (outcome : option error)
    : M (S * K) unit :=
  match outcome with
  | None => on_store (ob_publish (de_db_now env) (ev_id event) (workerID cfg))
  | Some e =>
      let retryAt := time_add (de_now env) (backoff (ev_attempts event) (maxBackoff cfg)) in
      λ w, match on_store (ob_fail (ev_id event) (workerID cfg) (error_text e) retryAt) w with
           | (Err markErr, w') =>
               (Err (EWrap ("Kafka delivery failed: " +:+ error_text e +:+ "; release failed") markErr), w')
           | (Ok _, w') => (Err e, w')
           end
  end.

Definition deliver (message : OutboxEvent I → Message V) (cfg : Config) (env : DeliverEnv) : M (S * K) unit :=
  event ← on_store (ob_claim (de_claim env) (workerID cfg) (cfg_lease cfg));
  outcome ← try_write (message event);
  settle cfg env event outcome.

End deliver.

(** ** The two workers *)

Definition header_event_id : string := "x-blueeconomy-event-id".
Definition header_event_type : string := "x-blueeconomy-event-type".

(** [worker.deliverOne]: the topic is the writer's own. *)
Definition worker_message (topic : string) (event : OutboxEvent IncidentEvent) : Message IncidentPayload :=
  mkMessage topic (ev_id event) (Incident.ie_payload (ev_info event))
    [(header_event_id, ev_id event); (header_event_type, ie_type (ev_info event))].

Definition worker_deliverOne {K} `{Broker K IncidentPayload} (topic : string) (cfg : Config) (env : DeliverEnv)
    : M (IncidentDB * K) unit :=
  deliver (worker_message topic) cfg env.

(** [isrWorker.deliverOne]: the row names the topic. *)
Definition isr_message (event : OutboxEvent ISREvent) : Message Envelope :=
  mkMessage (ie_topic (ev_info event)) (ie_aggregate_key (ev_info event)) (ie_envelope (ev_info event))
    [(header_event_id, ev_id event); (header_event_type, ie_event_type (ev_info event));
     ("x-blueeconomy-classification", ie_classification (ev_info event));
     ("x-blueeconomy-envelope-version", EnvelopeVersion)].

Definition isrWorker_deliverOne {K} `{Broker K Envelope} (cfg : Config) (env : DeliverEnv)
    : M (ISROutbox * K) unit :=
  deliver isr_message cfg env.

(** ** Lemmas *)

Lemma backoff_value attempts max :
  backoff attempts max = Z.min max (Second * 2 ^ (Z.max 1 (Z.min 30 attempts) - 1)).
Proof.
  unfold backoff. set (n := if 30 <? _ then _ else _).
  assert (Hn : n = Z.max 1 (Z.min 30 attempts)) by (unfold n; repeat case_match; lia).
  rewrite <- Hn. assert (1 <= n <= 30) by lia. rewrite Z.shiftl_1_l.
  assert (2 ^ (n - 1) <= 2 ^ 29) by (apply Z.pow_le_mono_r; lia).
  assert (0 < 2 ^ (n - 1)) by (apply Z.pow_pos_nonneg; lia).
  rewrite wrap64_id.
  - case_match; lia.
  - unfold in_int64, min_int64, max_int64, Second. lia.
Qed.

(** ** The deliveries of interleaved processes

    Any number of worker processes run against one store and one broker; the
    phase of a process is where its [deliver] stands: before the claim, after
    the claim with the event it got, after the write with its outcome.  Each
    step of a process runs the function of [deliver] that is next; between two
    steps the others run, producers insert rows, and a process may die. *)

Inductive Phase (I : Type) : Type :=
| PIdle
| PClaimed (event : OutboxEvent I)
| PWritten (event : OutboxEvent I) (outcome : option error).
Arguments PIdle {I}.
Arguments PClaimed {I}.
Arguments PWritten {I}.

Section machine.
Context {S I K V : Type} `{OutboxLaws S I} `{BrokerLaws K V}.
Context (message : OutboxEvent I → Message V) (config : nat → Config).

(** The message of an event does not depend on its attempt counter. *)
Hypothesis message_stable : ∀ id info a a', message (mkEvent id info a) = message (mkEvent id info a').
Hypothesis workers_canonical : ∀ p, canonical_worker (workerID (config p)) = true.

Record Deployment : Type := mkDeployment {
  dp_store : S;
  dp_broker : K;
  dp_phase : nat → Phase I
}.

Definition set_phase (f : nat → Phase I) (p : nat) (x : Phase I) : nat → Phase I :=
  λ q, if decide (q = p) then x else f q.

Inductive deploy_step : Deployment → Deployment → Prop :=
| dp_insert s k f id info created now :
    ob_rows s !! id = None →
    deploy_step (mkDeployment s k f)
      (mkDeployment (ob_set s (<[id := new_row info created now]> (ob_rows s))) k f)
| dp_claim s k f p env r s' k' :
    f p = PIdle →
    on_store (ob_claim (de_claim env) (workerID (config p)) (cfg_lease (config p))) (s, k) =
      (r, (s', k')) →
    deploy_step (mkDeployment s k f)
      (mkDeployment s' k' (set_phase f p (match r with Ok ev => PClaimed ev | Err _ => PIdle end)))
| dp_write s k f p ev r s' k' :
    f p = PClaimed ev → try_write (message ev) (s, k) = (r, (s', k')) →
    deploy_step (mkDeployment s k f)
      (mkDeployment s' k' (set_phase f p (match r with Ok out => PWritten ev out | Err _ => PIdle end)))
| dp_settle s k f p env ev out r s' k' :
    f p = PWritten ev out → settle (config p) env ev out (s, k) = (r, (s', k')) →
    deploy_step (mkDeployment s k f) (mkDeployment s' k' (set_phase f p PIdle))
| dp_crash s k f p :
    deploy_step (mkDeployment s k f) (mkDeployment s k (set_phase f p PIdle)).

(** The message of a row. *)
Definition row_message (id : string) (r : Row I) : Message V := message (mkEvent id (row_info r) 0).

Definition held (x : Phase I) : option (OutboxEvent I) :=
  match x with PClaimed ev | PWritten ev _ => Some ev | PIdle => None end.

Record deploy_inv (d : Deployment) : Prop := {
  di_published id r : ob_rows (dp_store d) !! id = Some r → row_published r ≠ None →
    row_message id r ∈ broker_log (dp_broker d);
  di_held p ev : held (dp_phase d p) = Some ev →
    ∃ r, ob_rows (dp_store d) !! ev_id ev = Some r ∧ row_info r = ev_info ev;
  di_written p ev : dp_phase d p = PWritten ev None → message ev ∈ broker_log (dp_broker d)
}.

Lemma event_message ev r : row_info r = ev_info ev → row_message (ev_id ev) r = message ev.
Proof. unfold row_message. intros ->. destruct ev as [id info a]. apply message_stable. Qed.

Lemma set_phase_cases f p x q : (q = p ∧ set_phase f p x q = x) ∨ (q ≠ p ∧ set_phase f p x q = f q).
Proof. unfold set_phase. case_decide; auto. Qed.

(** A change of one row that keeps its payload keeps the events held. *)
Lemma held_insert (t : gmap string (Row I)) id (r r' : Row I) (ev : OutboxEvent I) :
  t !! id = Some r → row_info r' = row_info r →
  (∃ r0, t !! ev_id ev = Some r0 ∧ row_info r0 = ev_info ev) →
  ∃ r0, <[id := r']> t !! ev_id ev = Some r0 ∧ row_info r0 = ev_info ev.
Proof.
  intros Hr Hi (r0&Hr0&Hi0). destruct (decide (id = ev_id ev)) as [->|Hne].
  - exists r'. rewrite lookup_insert_eq. split; [done|]. congruence.
  - exists r0. by rewrite lookup_insert_ne.
Qed.

(** A table in which one row was rewritten, unpublished rows staying so unless
    their message is in the log. *)
Lemma update_inv s s' k f p x id r r' :
  deploy_inv (mkDeployment s k f) → ob_rows s !! id = Some r → row_info r' = row_info r →
  ob_rows s' = <[id := r']> (ob_rows s) →
  (row_published r' ≠ None → row_published r ≠ None ∨ row_message id r ∈ broker_log k) →
  (∀ ev, held x = Some ev → ∃ r0, ob_rows s' !! ev_id ev = Some r0 ∧ row_info r0 = ev_info ev) →
  (∀ ev, x = PWritten ev None → message ev ∈ broker_log k) →
  deploy_inv (mkDeployment s' k (set_phase f p x)).
Proof.
  intros [D1 D2 D3] Hr Hi Hs Hp Hx Hw. cbn [dp_store dp_broker dp_phase] in *.
  split; cbn [dp_store dp_broker dp_phase].
  - intros id' r0. rewrite Hs, lookup_insert_Some. intros [[<- <-]|[? Hr0]] Hpub; [|by apply D1].
    unfold row_message in *. rewrite Hi. destruct (Hp Hpub); [by apply D1|done].
  - intros q ev. destruct (set_phase_cases f p x q) as [[-> ->]|[_ ->]]; [apply Hx|].
    rewrite Hs. intros Hh. eapply held_insert; eauto.
  - intros q ev. destruct (set_phase_cases f p x q) as [[-> ->]|[_ ->]]; [apply Hw|apply D3].
Qed.

(** Only the phase of a process changes, and not to a worse one. *)
Lemma phase_inv s k f p x :
  deploy_inv (mkDeployment s k f) → (∀ ev, held x = Some ev → held (f p) = Some ev) →
  (∀ ev, x = PWritten ev None → message ev ∈ broker_log k) →
  deploy_inv (mkDeployment s k (set_phase f p x)).
Proof.
  intros [D1 D2 D3] Hx Hw. split; cbn [dp_store dp_broker dp_phase] in *; [done| |].
  - intros q ev. destruct (set_phase_cases f p x q) as [[-> ->]|[_ ->]]; [intros ?%Hx; eauto|eauto].
  - intros q ev. destruct (set_phase_cases f p x q) as [[-> ->]|[_ ->]]; [apply Hw|apply D3].
Qed.

Lemma log_inv s k k' f :
  deploy_inv (mkDeployment s k f) → broker_log k ⊆ broker_log k' → deploy_inv (mkDeployment s k' f).
Proof. intros [D1 D2 D3] Hk. split; cbn [dp_store dp_broker dp_phase] in *; eauto. Qed.

Lemma rows_inv s s' k f :
  deploy_inv (mkDeployment s k f) → ob_rows s' = ob_rows s → deploy_inv (mkDeployment s' k f).
Proof.
  intros [D1 D2 D3] Hs. split; cbn [dp_store dp_broker dp_phase] in *; rewrite ?Hs; eauto.
Qed.

(** Settling a delivery: the process gives its event up, and the row is
    rewritten or left alone. *)
Lemma settle_inv s s' k f p ev g r ownership :
  deploy_inv (mkDeployment s k f) → held (f p) = Some ev →
  (r, ob_rows s') = sql_update_owned ownership g (ev_id ev) (workerID (config p)) (ob_rows s) →
  (∀ r0 : Row I, row_info (g r0) = row_info r0) →
  (∀ r0, row_published (g r0) ≠ None → row_published r0 ≠ None ∨ message ev ∈ broker_log k) →
  deploy_inv (mkDeployment s' k (set_phase f p PIdle)).
Proof.
  intros D Hf Hq Hg Hp. symmetry in Hq. destruct r as [[]|e].
  - apply sql_update_Ok in Hq as (r0&Hr0&_&_&Hs).
    eapply (update_inv s s' k f p PIdle (ev_id ev) r0); [done|done|apply Hg|exact Hs| |done|done].
    intros Hpub. destruct (di_held _ D p ev Hf) as (r1&Hr1&Hi). cbn [dp_store] in Hr1.
    assert (r1 = r0) as -> by congruence. rewrite event_message by done. by apply Hp.
  - apply rows_inv with (s := s); [by apply phase_inv|].
    unfold sql_update_owned in Hq. repeat case_match; congruence.
Qed.

Lemma claim_inv s k f p env r s' k' :
  deploy_inv (mkDeployment s k f) → f p = PIdle →
  on_store (ob_claim env (workerID (config p)) (cfg_lease (config p))) (s, k) = (r, (s', k')) →
  deploy_inv (mkDeployment s' k' (set_phase f p (match r with Ok ev => PClaimed ev | Err _ => PIdle end))).
Proof.
  intros D Hf. unfold on_store. cbn [fst snd].
  destruct (ob_claim _ _ _ s) as [r0 s0] eqn:Hc. intros [= <- <- <-].
  destruct (lease_ok (cfg_lease (config p))) eqn:El.
  2:{ destruct (ob_claim_reject env (workerID (config p)) (cfg_lease (config p)) s) as (e&He&_);
        [by rewrite El, andb_false_r|]. rewrite He in Hc. injection Hc as <- <-. by apply phase_inv. }
  rewrite ob_claim_law in Hc by done.
  destruct (sql_claim _ _ _ _ _) as [r t] eqn:Hq. injection Hc as <- <-. destruct r as [ev|e].
  - apply sql_claim_Ok in Hq as (r&Hr&_&->&Hi&_).
    eapply (update_inv s _ k f p (PClaimed ev) (ev_id ev) r); [done|done| |by rewrite ob_rows_set|by left| |done].
    + done.
    + intros ev' [= <-]. rewrite ob_rows_set, lookup_insert_eq. eexists; split; [done|]. done.
  - apply rows_inv with (s := s); [by apply phase_inv|]. rewrite ob_rows_set.
    unfold sql_claim in Hq. repeat case_match; congruence.
Qed.

Lemma write_inv s k f p ev r s' k' :
  deploy_inv (mkDeployment s k f) → f p = PClaimed ev →
  try_write (message ev) (s, k) = (r, (s', k')) →
  deploy_inv (mkDeployment s' k'
    (set_phase f p (match r with Ok out => PWritten ev out | Err _ => PIdle end))).
Proof.
  intros D Hf. unfold try_write, on_broker. cbn [fst snd].
  destruct (write_message (message ev) k) as [r0 k0] eqn:Hw.
  assert (Hlog : broker_log k ⊆ broker_log k0).
  { destruct (write_appends _ _ _ _ Hw) as [->| ->]; set_solver. }
  destruct r0 as [u|e]; intros [= <- <- <-]; (apply phase_inv; [by eapply log_inv|by rewrite Hf|]);
    intros ev' [= <-].
  rewrite (write_acknowledged _ _ _ _ Hw). set_solver.
Qed.

Lemma settled_inv s k f p env ev out r s' k' :
  deploy_inv (mkDeployment s k f) → f p = PWritten ev out →
  settle (config p) env ev out (s, k) = (r, (s', k')) →
  deploy_inv (mkDeployment s' k' (set_phase f p PIdle)).
Proof.
  intros D Hf. unfold settle. destruct out as [e|].
  - set (retryAt := time_add _ _). unfold on_store. cbn [fst snd].
    destruct (ob_fail _ _ _ _ s) as [r0 s0] eqn:Hp. intros HE.
    assert (s' = s0 ∧ k' = k) as [-> ->] by (destruct r0; by simplify_eq).
    destruct (failure_ok (trim_space (error_text e))) eqn:Ef.
    + rewrite ob_fail_law in Hp by done.
      destruct (sql_update_owned _ _ _ _ _) as [r1 t] eqn:Hq. injection Hp as <- <-.
      eapply (settle_inv s _ k f p ev (fail_row retryAt (trim_space (error_text e))) r1);
        [done|by rewrite Hf|by rewrite ob_rows_set|done|by left].
    + destruct (ob_fail_reject (ev_id ev) (workerID (config p)) (error_text e) retryAt s Ef) as [e' He].
      assert (s0 = s) as -> by congruence. by apply phase_inv.
  - unfold on_store. cbn [fst snd]. rewrite ob_publish_law by done.
    destruct (sql_update_owned _ _ _ _ _) as [r1 t] eqn:Hq. intros [= <- <- <-].
    eapply (settle_inv s _ k f p ev (publish_row (de_db_now env)) r1); [done|by rewrite Hf| |done|].
    + by rewrite ob_rows_set.
    + intros ? _. right. by apply (di_written _ D p).
Qed.

Lemma deploy_step_inv d d' : deploy_step d d' → deploy_inv d → deploy_inv d'.
Proof.
  destruct 1 as [s k f id info created now Hn| | | |]; intros D.
  - destruct D as [D1 D2 D3]. split; cbn [dp_store dp_broker dp_phase] in *; rewrite ?ob_rows_set; [| |done].
    + intros id' r. rewrite lookup_insert_Some. intros [[_ <-]|[? Hr]]; [done|by apply D1].
    + intros p ev (r&Hr&Hi)%D2. exists r. split; [|done]. rewrite lookup_insert_ne; [done|congruence].
  - by eapply claim_inv.
  - by eapply write_inv.
  - by eapply settled_inv.
  - by apply phase_inv.
Qed.

(** An uninterrupted delivery is a run of the process. *)
Lemma deliver_run p env s k f r s' k' :
  f p = PIdle → deliver message (config p) env (s, k) = (r, (s', k')) →
  ∃ f', rtc deploy_step (mkDeployment s k f) (mkDeployment s' k' f').
Proof.
  intros Hf. unfold deliver. rewrite mbind_run.
  destruct (on_store _ (s, k)) as [r0 [s0 k0]] eqn:Hc.
  pose proof (dp_claim _ _ _ _ _ _ _ _ Hf Hc) as Step1.
  destruct r0 as [ev|e]; [|intros [= <- <- <-]; eexists; by apply rtc_once].
  rewrite mbind_run. destruct (try_write (message ev) (s0, k0)) as [r1 [s1 k1]] eqn:Hw.
  assert (P1 : ∀ x, set_phase f p x p = x) by (intros x; unfold set_phase; by rewrite decide_True).
  pose proof (dp_write _ _ _ _ _ _ _ _ (P1 (PClaimed ev)) Hw) as Step2.
  destruct r1 as [out|e]; [|intros [= <- <- <-]; eexists; eapply rtc_l; [exact Step1|by apply rtc_once]].
  intros Hs. eexists. eapply rtc_l; [exact Step1|]. eapply rtc_l; [exact Step2|]. apply rtc_once.
  eapply dp_settle; [|exact Hs]. unfold set_phase. by rewrite decide_True.
Qed.

End machine.

(** ** One delivery without interference *)

Section outcome.
Context {S I K V : Type} `{OutboxLaws S I} `{Broker K V}.

(** What a delivery does to the rows and the broker. *)
Definition delivered (message : OutboxEvent I → Message V) (cfg : Config) (env : DeliverEnv)
    (rows : gmap string (Row I)) (k : K) (r : result unit) (rows' : gmap string (Row I)) (k' : K) : Prop :=
  match sql_claim ob_none (de_claim env) (workerID cfg) (cfg_lease cfg) rows with
  | (Err e, _) => r = Err e ∧ rows' = rows ∧ k' = k
  | (Ok ev, claimed) =>
      let '(out, k1) := write_message (message ev) k in
      k' = k1 ∧
      match out with
      | Ok _ => r = Ok tt ∧ ∃ row, claimed !! ev_id ev = Some row ∧
          rows' = <[ev_id ev := publish_row (de_db_now env) row]> claimed
      | Err e =>
          if failure_ok (trim_space (error_text e)) then
            r = Err e ∧ ∃ row, claimed !! ev_id ev = Some row ∧
              rows' = <[ev_id ev := fail_row (de_now env + backoff (ev_attempts ev) (maxBackoff cfg))
                                     (trim_space (error_text e)) row]> claimed
          else is_ok r = false ∧ rows' = claimed
      end
  end.

Lemma claimed_owned none env worker lease (rows : gmap string (Row I)) ev claimed ownership g :
  sql_claim none env worker lease rows = (Ok ev, claimed) →
  ∃ row, claimed !! ev_id ev = Some row ∧
    sql_update_owned ownership g (ev_id ev) worker claimed = (Ok tt, <[ev_id ev := g row]> claimed).
Proof.
  intros (r&Hr&Hc&->&_)%sql_claim_Ok. eexists. split; [apply lookup_insert_eq|].
  apply sql_update_Ok. eexists. split; [apply lookup_insert_eq|]. split; [done|]. split; [|done].
  unfold claimable in Hc. bprop. destruct Hc as [[[_ Hp] _] _]. by apply bool_decide_eq_true in Hp.
Qed.

Lemma deliver_delivered message cfg env s k r s' k' :
  canonical_worker (workerID cfg) = true → lease_ok (cfg_lease cfg) = true →
  deliver message cfg env (s, k) = (r, (s', k')) →
  delivered message cfg env (ob_rows s) k r (ob_rows s') k'.
Proof.
  intros Hw Hl. unfold deliver, delivered. run_store. unfold on_store at 1. cbn [fst snd].
  rewrite ob_claim_law by done.
  destruct (sql_claim _ _ _ _ _) as [[ev|e] claimed] eqn:Hc; run_store.
  2:{ intros [= <- <- <-]. rewrite ob_rows_set. unfold sql_claim in Hc. case_match; [by case_match|].
      injection Hc as _ <-. done. }
  rewrite ?mbind_run. unfold try_write, on_broker. cbn [fst snd].
  destruct (write_message (message ev) k) as [[u|e] k1]; cbn [fst snd]; unfold settle, on_store; cbn [fst snd].
  - rewrite ob_publish_law, ob_rows_set by done.
    destruct (claimed_owned _ _ _ _ _ _ _ ob_ownership (publish_row (de_db_now env)) Hc) as (row&Hrow&->).
    intros [= <- <- <-]. rewrite ob_rows_set. eauto 6.
  - destruct (failure_ok (trim_space (error_text e))) eqn:Ef.
    + rewrite ob_fail_law, ob_rows_set by done.
      destruct (claimed_owned _ _ _ _ _ _ _ ob_ownership
        (fail_row (time_add (de_now env) (backoff (ev_attempts ev) (maxBackoff cfg)))
           (trim_space (error_text e))) Hc) as (row&Hrow&->).
      intros [= <- <- <-]. rewrite ob_rows_set. eauto 6.
    + match goal with |- context [ob_fail ?a ?b ?c ?d ?f] => destruct (ob_fail_reject a b c d f Ef) as [e' ->] end.
      intros [= <- <- <-]. by rewrite ob_rows_set.
Qed.

End outcome.

(** ** A concrete broker and run *)

Record SampleBroker : Type := mkSampleBroker { sb_log : list (Message Envelope); sb_up : bool }.

#[export] Instance sample_broker : Broker SampleBroker Envelope := {
  write_message := λ m k,
    if sb_up k then (Ok tt, mkSampleBroker (sb_log k ++ [m]) true)
    else (Err (EText "broker unavailable"), k);
  broker_log := sb_log
}.

#[export] Instance sample_broker_laws : BrokerLaws SampleBroker Envelope.
Proof.
  split; intros m k r k'; simpl; destruct (sb_up k); intros [= <- <-]; auto.
Qed.

Definition sample_envelope : Envelope :=
  mkEnvelope EnvelopeVersion "env-1" "isr.detection_admitted" "2025-01-01T00:00:00Z" ProducerName "det-1" ∅
    (mkProvenance "" "" "" "") EnvelopeClassificationRestricted TopicISR "det-1" "RESTRICTED".
Definition sample_event : ISREvent :=
  mkISREvent TopicISR "isr.detection_admitted" "RESTRICTED" "det-1" sample_envelope.
Definition sample_config : Config := mkConfig "worker-1" (60 * Second) (300 * Second).
Definition sample_claim : ClaimEnv := mkClaimEnv (100 * Second) (100 * Second) ∅.
Definition sample_deliver_env : DeliverEnv := mkDeliverEnv sample_claim (101 * Second) (101 * Second).
Definition sample_outbox : ISROutbox := <["out-1" := new_row sample_event (50 * Second) (50 * Second)]> ∅.
Definition sample_claimed : ISROutbox := (sql_claim ErrNoPendingISROutbox sample_claim "worker-1" (60 * Second) sample_outbox).2.
Definition sample_published : ISROutbox :=
  (MarkISROutboxPublished (101 * Second) "out-1" "worker-1" sample_claimed).2.
Definition sample_oevent : OutboxEvent ISREvent := mkEvent "out-1" sample_event 1.
Definition broker_up : SampleBroker := mkSampleBroker [] true.
Definition broker_written : SampleBroker := mkSampleBroker [isr_message sample_oevent] true.
Definition idle : nat → Phase ISREvent := λ _, PIdle.

(** Insert, claim, write, publish. *)
Lemma sample_deployment_run : ∃ f,
  rtc (deploy_step isr_message (λ _, sample_config)) (mkDeployment (∅ : ISROutbox) broker_up idle)
    (mkDeployment sample_published broker_written f).
Proof.
  destruct (deliver_run isr_message (λ _, sample_config) 0 sample_deliver_env sample_outbox broker_up idle
    (Ok tt) sample_published broker_written) as [f Hf]; [done|by vm_compute|].
  exists f. eapply rtc_l; [|exact Hf].
  exact (dp_insert isr_message (λ _, sample_config) (∅ : ISROutbox) broker_up idle "out-1" sample_event
    (50 * Second) (50 * Second) eq_refl).
Qed.

(** ** Properties *)

(** One delivery, by either worker: it writes the claimed event and only
    that; the row is published exactly when the broker acknowledged the write,
    is otherwise released until the backoff has passed with the broker's error
    recorded, and stays leased when the error text is not recordable; with
    nothing claimable nothing happens. *)
Theorem deliver_outcome {S I K V} `{OutboxLaws S I} `{Broker K V} message cfg env (s : S) (k : K) r s' k' :
  canonical_worker (workerID cfg) = true → lease_ok (cfg_lease cfg) = true →
  deliver message cfg env (s, k) = (r, (s', k')) →
  delivered message cfg env (ob_rows s) k r (ob_rows s') k'.
Proof. apply deliver_delivered. Qed.

(** C36: At-least-once delivery: with any number of processes that run
    [deliver] in interleaved parts, failed and unacknowledged writes, expired
    leases, crashes between the parts and producers that insert rows, a row
    marked published has its message in the broker's log.  An uninterrupted
    [deliver] is one of these runs. *)
Theorem published_was_delivered {S I K V} `{OutboxLaws S I} `{BrokerLaws K V}
    (message : OutboxEvent I → Message V) (config : nat → Config) (d0 d : Deployment) :
  (∀ id info a a', message (mkEvent id info a) = message (mkEvent id info a')) →
  (∀ p, canonical_worker (workerID (config p)) = true) →
  ob_rows (dp_store d0) = ∅ → (∀ p, dp_phase d0 p = PIdle) →
  rtc (deploy_step message config) d0 d →
  (∀ id r, ob_rows (dp_store d) !! id = Some r → row_published r ≠ None →
     row_message message id r ∈ broker_log (dp_broker d)) ∧
  ∀ p env r s' k', dp_phase d p = PIdle →
    deliver message (config p) env (dp_store d, dp_broker d) = (r, (s', k')) →
    ∃ f, rtc (deploy_step message config) d (mkDeployment s' k' f).
Proof.
  intros Hm Hw Hrows Hidle Hrun. split; [|intros p env r s' k'; destruct d; apply deliver_run].
  apply di_published. revert Hrun.
  assert (Hinv : deploy_inv message d0).
  { split.
    - intros i x Hx. by rewrite Hrows, lookup_empty in Hx.
    - intros p ev Hh. by rewrite Hidle in Hh.
    - intros p ev Hh. by rewrite Hidle in Hh. }
  intros Hrun. clear Hrows Hidle. revert Hinv. induction Hrun as [|d1 d2 d3 Hs _ IH]; [done|].
  intros Hinv. apply IH. by eapply deploy_step_inv.
Qed.

(** The retry delay doubles with the attempts from one second, up to 2^29
    seconds and the configured maximum, without overflow; it never shrinks from
    one attempt to the next, and is positive for a positive maximum. *)
Theorem backoff_spec max :
  (∀ attempts, backoff attempts max = Z.min max (Second * 2 ^ (Z.max 1 (Z.min 30 attempts) - 1))) ∧
  (∀ a b, a <= b → backoff a max <= backoff b max) ∧
  (∀ attempts, 0 < max → 0 < backoff attempts max <= max).
Proof.
  split_and!.
  - intros a. apply backoff_value.
  - intros a b Hab. rewrite !backoff_value.
    assert (2 ^ (Z.max 1 (Z.min 30 a) - 1) <= 2 ^ (Z.max 1 (Z.min 30 b) - 1)) by (apply Z.pow_le_mono_r; lia).
    unfold Second. lia.
  - intros a Hm. rewrite backoff_value.
    assert (0 < 2 ^ (Z.max 1 (Z.min 30 a) - 1)) by (apply Z.pow_pos_nonneg; lia). unfold Second. lia.
Qed.

Lemma deliver_outcome_witness :
  delivered isr_message sample_config sample_deliver_env (ob_rows sample_outbox) broker_up (Ok tt)
    (ob_rows sample_published) broker_written.
Proof. apply deliver_outcome; vm_compute; reflexivity. Defined.

Lemma published_was_delivered_witness :
  isr_message (mkEvent "out-1" sample_event 0) ∈ broker_log broker_written.
Proof.
  destruct sample_deployment_run as [f Hrun].
  refine (proj1 (published_was_delivered isr_message (λ _, sample_config)
    (mkDeployment (∅ : ISROutbox) broker_up idle) (mkDeployment sample_published broker_written f)
    _ _ _ _ Hrun) "out-1"
    (publish_row (101 * Second) (claim_row (100 * Second) "worker-1" (new_row sample_event (50 * Second) (50 * Second))))
    _ _).
  - intros i info a a'. reflexivity.
  - intros p. vm_compute. reflexivity.
  - reflexivity.
  - intros p. reflexivity.
  - vm_compute. reflexivity.
  - discriminate.
Defined.
