(* ===== verification/Feed.v ===== *)
(** * Authorized feed sources ([internal/incident/feed.go])

    The trust anchors of the signed feeds (registration, revocation, key
    rotation with a grace window) and the admission of signed events and
    incidents.  Ed25519 verification is a parameter ([Ed25519]); so is the
    strict decoder of the signed payload.  [pg_time] is the resolution at which
    PostgreSQL keeps a timestamp. *)

From S2P Require Import Prelude GoStrings GoTime Outbox Incident Sha256.

(** [ed25519.Verify(key, message, signature)] on byte strings. *)
Class Ed25519 : Type := ed25519_verify : string → string → string → bool.

Definition PublicKeySize : Z := 32.
Definition SignatureSize : Z := 64.

(** ** Requests *)

Record FeedSourceRegistration : Type := mkRegistration {
  rg_source : string;
  rg_kind : string;
  rg_authority : string;
  rg_key : string;
  rg_active : bool
}.

Definition FeedReplayWindow : Z := 24 * Hour.
Definition FeedClockSkew : Z := 5 * Minute.

Record FeedAdmissionRequest : Type := mkAdmissionRequest {
  fa_source : string;
  fa_event : string;
  fa_claimed : Z;
  fa_payload : string;
  fa_signature : string
}.

Record FeedAdmission : Type := mkAdmission {
  ad_source : string;
  ad_event : string;
  ad_digest : string;
  ad_fingerprint : string;
  ad_received : Z
}.

Definition source_kinds : list string :=
  ["AIS"; "VTS"; "RADAR"; "PORT"; "AGENCY"; "SAR"; "RF"; "ACOUSTIC"; "OPTICAL"].

Definition FeedSourceRegistration_Validate (registration : FeedSourceRegistration) : result unit :=
  _ ← fail_if (negb (incidentIDPattern (rg_source registration)) || negb (incidentIDPattern (rg_authority registration)))
        (EText "source_id and authority must be canonical identifiers");
  _ ← fail_if (bool_decide (rg_kind registration ∉ source_kinds)) (EText "source_kind is unsupported");
  fail_if (negb (str_len (rg_key registration) =? PublicKeySize)) (EText "ed25519 public key is required").

Definition FeedAdmissionRequest_Validate (request : FeedAdmissionRequest) : result unit :=
  _ ← fail_if (negb (incidentIDPattern (fa_source request)) || negb (incidentIDPattern (fa_event request)))
        (EText "source identifiers are invalid");
  _ ← fail_if ((str_len (fa_payload request) =? 0) || (Z.shiftl 8 20 <? str_len (fa_payload request)))
        (EText "payload must be between 1 byte and 8 MiB");
  _ ← fail_if (negb (str_len (fa_signature request) =? SignatureSize)) (EText "ed25519 signature is required");
  fail_if (time_is_zero (fa_claimed request))
    (EText "claimed_at must be an RFC3339 timestamp inside the signed preimage").

Definition ValidateFeedFreshness (claimedAt now : Z) : result unit :=
  _ ← fail_if (time_is_zero claimedAt) (EText "claimed_at is required");
  _ ← fail_if (time_before claimedAt (time_add now (- FeedReplayWindow)))
        (EText "feed event claimed_at is outside the replay window");
  fail_if (time_after claimedAt (time_add now FeedClockSkew))
    (EText "feed event claimed_at is beyond the allowed clock skew").

Definition newline : string := String.String (Ascii.ascii_of_nat 10) "".

Definition feedSigningBytes (sourceID eventID : string) (claimedAt : Z) (payload : string) : string :=
  sourceID +:+ newline +:+ eventID +:+ newline +:+ rfc3339nano claimedAt +:+ newline +:+ "sha256:" +:+
  sha256_hex payload.

Definition FeedSigningBytes := feedSigningBytes.

Definition ErrFeedSourceKeyConflict : error := ESentinel "incident.ErrFeedSourceKeyConflict".

Record FeedSourceRevocation : Type := mkRevocation {
  rv_source : string;
  rv_reason : string;
  rv_by : string
}.

Definition FeedSourceRevocation_Validate (request : FeedSourceRevocation) : result unit :=
  _ ← fail_if (negb (incidentIDPattern (rv_source request)) || negb (incidentIDPattern (rv_by request)))
        (EText "source_id and revoked_by must be canonical identifiers");
  fail_if ((trim_space (rv_reason request) =s "") || (512 <? str_len (rv_reason request)))
    (EText "reason must be between 1 and 512 characters").

Record FeedSourceKeyRotation : Type := mkKeyRotation {
  kr_source : string;
  kr_new_key : string;
  kr_grace : Z;
  kr_by : string
}.

Definition FeedSourceKeyRotation_Validate (request : FeedSourceKeyRotation) (now : Z) : result unit :=
  _ ← fail_if (negb (incidentIDPattern (kr_source request)) || negb (incidentIDPattern (kr_by request)))
        (EText "source_id and rotated_by must be canonical identifiers");
  _ ← fail_if (negb (str_len (kr_new_key request) =? PublicKeySize)) (EText "new ed25519 public key is required");
  fail_if (negb (time_after (kr_grace request) now) || time_after (kr_grace request) (time_add now (30 * 24 * Hour)))
    (EText "grace_until must be after now and no more than 30 days ahead").

(** ** Tables *)

Record FeedSource : Type := mkSource {
  fs_kind : string;
  fs_authority : string;
  fs_key : string;
  fs_fingerprint : string;
  fs_active : bool;
  fs_created : Z;
  fs_updated : Z
}.

Record FeedEvent : Type := mkFeedEvent { fe_digest : string; fe_signature : string; fe_received : Z }.
Record RevocationRow : Type := mkRevocationRow { vr_reason : string; vr_by : string; vr_at : Z }.
Record RotationRow : Type := mkRotationRow { rr_key : string; rr_grace : Z; rr_by : string; rr_at : Z }.

(** Events are keyed by (source, source event), rotations by (source, prior
    fingerprint). *)
Record FeedDB : Type := mkFeedDB {
  feed_sources : gmap string FeedSource;
  feed_events : gmap (string * string) FeedEvent;
  revocations : gmap string RevocationRow;
  rotations : gmap (string * string) RotationRow
}.

Definition set_sources (db : FeedDB) (x : gmap string FeedSource) : FeedDB :=
  mkFeedDB x (feed_events db) (revocations db) (rotations db).

(** The clock at the successive readings of one call. *)
Record FeedEnv : Type := mkFeedEnv { now_check : Z; now_grace : Z; now_received : Z }.

(** [key_fingerprint] *)
Definition fingerprint (key : string) : string := "sha256:" +:+ sha256_hex key.

Section feed.
Context `{Ed25519} (pg_time : Z → Z).

(** ** Registration *)

Definition RegisterFeedSource (now : Z) (registration : FeedSourceRegistration) : M FeedDB unit :=
  _ ← lift (FeedSourceRegistration_Validate registration);
  atomically (
    db ← get_state;
    match feed_sources db !! rg_source registration with
    | None =>
        put_state (set_sources db (<[rg_source registration :=
          mkSource (rg_kind registration) (rg_authority registration) (rg_key registration)
            (fingerprint (rg_key registration)) (rg_active registration) (pg_time now) (pg_time now)]>
          (feed_sources db)))
    | Some s =>
        _ ← check (negb (fs_key s =s rg_key registration)) ErrFeedSourceKeyConflict;
        if negb (fs_kind s =s rg_kind registration) || negb (fs_authority s =s rg_authority registration) ||
           negb (Bool.eqb (fs_active s) (rg_active registration))
        then put_state (set_sources db (<[rg_source registration :=
               mkSource (rg_kind registration) (rg_authority registration) (fs_key s) (fs_fingerprint s)
                 (rg_active registration) (fs_created s) (pg_time now)]> (feed_sources db)))
        else mret tt
    end).

(** ** Admission *)

(** [SELECT prior_public_key .. WHERE source_id=$1 AND grace_until>$2 ORDER BY
    rotated_at DESC LIMIT 1] *)
Definition newer (best : option RotationRow) (r : RotationRow) : option RotationRow :=
  match best with
  | None => Some r
  | Some b => if rr_at b <? rr_at r then Some r else Some b
  end.

Definition grace_key (db : FeedDB) (source : string) (now : Z) : option string :=
  rr_key <$> foldl newer None
    (filter (λ r, now < rr_grace r) (omap (λ kv : (string * string) * RotationRow,
       if bool_decide (kv.1.1 = source) then Some kv.2 else None) (map_to_list (rotations db)))).

(** The signature check against the active key, then the grace key. *)
Definition signature_ok (db : FeedDB) (s : FeedSource) (request : FeedAdmissionRequest) (now : Z) : bool :=
  let signingBytes := feedSigningBytes (fa_source request) (fa_event request) (fa_claimed request)
                        (fa_payload request) in
  ed25519_verify (fs_key s) signingBytes (fa_signature request) ||
  match grace_key db (fa_source request) now with
  | Some key => ed25519_verify key signingBytes (fa_signature request)
  | None => false
  end.

Definition ErrInactive : error := EText "feed source is inactive".
Definition ErrSignature : error := EText "feed event signature verification failed".

Definition admitFeedEventInTransaction (env : FeedEnv) (request : FeedAdmissionRequest) : M FeedDB FeedAdmission :=
  db ← get_state;
  match feed_sources db !! fa_source request with
  | None => throw ErrNotFound
  | Some s =>
      _ ← check (negb (fs_active s)) ErrInactive;
      _ ← lift (ValidateFeedFreshness (fa_claimed request) (now_check env));
      _ ← check (negb (signature_ok db s request (now_grace env))) ErrSignature;
      let payloadSHA256 := "sha256:" +:+ sha256_hex (fa_payload request) in
      let admission received := mkAdmission (fa_source request) (fa_event request) payloadSHA256
                                  (fs_fingerprint s) received in
      match feed_events db !! (fa_source request, fa_event request) with
      | None =>
          let received := pg_time (now_received env) in
          _ ← put_state (mkFeedDB (feed_sources db)
                (<[(fa_source request, fa_event request) :=
                     mkFeedEvent payloadSHA256 (fa_signature request) received]> (feed_events db))
                (revocations db) (rotations db));
          mret (admission received)
      | Some retained =>
          _ ← check (negb (fe_digest retained =s payloadSHA256) || negb (fe_signature retained =s fa_signature request))
                ErrIdempotencyConflict;
          mret (admission (fe_received retained))
      end
  end.

Definition AdmitFeedEvent (env : FeedEnv) (request : FeedAdmissionRequest) : M FeedDB FeedAdmission :=
  _ ← lift (FeedAdmissionRequest_Validate request);
  atomically (admitFeedEventInTransaction env request).

(** One transaction over the feed tables and the incident tables. *)
Definition on_feed {A} (m : M FeedDB A) : M (FeedDB * IncidentDB) A := λ w,
  let '(r, f) := m w.1 in (r, (f, w.2)).
Definition on_incidents {A} (m : M IncidentDB A) : M (FeedDB * IncidentDB) A := λ w,
  let '(r, i) := m w.2 in (r, (w.1, i)).

(** [decode] is the strict decoder: exactly one [CreateRequest] object without
    unknown fields. *)
Definition AdmitFeedIncident (decode : string → option CreateRequest) (env : FeedEnv) (tx : TxEnv)
    (request : FeedAdmissionRequest) : M (FeedDB * IncidentDB) (FeedAdmission * Incident) :=
  _ ← lift (FeedAdmissionRequest_Validate request);
  incidentRequest ← lift (match decode (fa_payload request) with
                          | Some r => Ok r
                          | None => Err (EText "signed feed payload must be one incident creation object")
                          end);
  _ ← check (cr_source_event incidentRequest <>s fa_source request +:+ ":" +:+ fa_event request)
        (EText "signed incident source_event_id must bind source_id and source_event_id");
  _ ← check (cr_created_by incidentRequest <>s "feed:" +:+ fa_source request)
        (EText "signed incident created_by must bind source_id");
  _ ← lift (CreateRequest_Validate incidentRequest);
  atomically (
    admission ← on_feed (admitFeedEventInTransaction env request);
    created ← on_incidents (createIncidentInTransaction pg_time tx incidentRequest);
    mret (admission, created)).

(** ** Revocation and rotation *)

Definition RevokeFeedSource (now : Z) (request : FeedSourceRevocation) : M FeedDB unit :=
  _ ← lift (FeedSourceRevocation_Validate request);
  atomically (
    db ← get_state;
    match feed_sources db !! rv_source request with
    | None => throw ErrNotFound
    | Some s =>
        match revocations db !! rv_source request with
        | Some retained =>
            check (negb (vr_reason retained =s rv_reason request) || negb (vr_by retained =s rv_by request))
              ErrIdempotencyConflict
        | None =>
            _ ← check (negb (fs_active s)) (EText "inactive feed source has no retained revocation evidence");
            put_state (mkFeedDB
              (<[rv_source request := mkSource (fs_kind s) (fs_authority s) (fs_key s) (fs_fingerprint s) false
                                        (fs_created s) (pg_time now)]> (feed_sources db))
              (feed_events db)
              (<[rv_source request := mkRevocationRow (rv_reason request) (rv_by request) (pg_time now)]>
                 (revocations db))
              (rotations db))
        end
    end).

Definition RotateFeedSourceKey (now : Z) (request : FeedSourceKeyRotation) : M FeedDB unit :=
  _ ← lift (FeedSourceKeyRotation_Validate request now);
  atomically (
    db ← get_state;
    match feed_sources db !! kr_source request with
    | None => throw ErrNotFound
    | Some s =>
        _ ← check (negb (fs_active s)) ErrInactive;
        _ ← check (fs_key s =s kr_new_key request) (EText "new key must differ from active key");
        put_state (mkFeedDB
          (<[kr_source request := mkSource (fs_kind s) (fs_authority s) (kr_new_key request)
                                    (fingerprint (kr_new_key request)) (fs_active s) (fs_created s) (pg_time now)]>
             (feed_sources db))
          (feed_events db) (revocations db)
          (<[(kr_source request, fs_fingerprint s) :=
               mkRotationRow
                 (match rotations db !! (kr_source request, fs_fingerprint s) with
                  | Some old => rr_key old (* ON CONFLICT .. DO UPDATE leaves the key *)
                  | None => fs_key s
                  end) (pg_time (kr_grace request)) (kr_by request) (pg_time now)]> (rotations db)))
    end).

End feed.

(** ** Lemmas *)

Lemma freshness_Ok claimed now u :
  ValidateFeedFreshness claimed now = Ok u ↔
  claimed ≠ 0 ∧ now - FeedReplayWindow <= claimed <= now + FeedClockSkew.
Proof.
  unfold ValidateFeedFreshness, time_is_zero, time_before, time_after, time_add. destruct u.
  destruct (claimed =? 0) eqn:E1; simpl; [bprop; naive_solver|].
  destruct (claimed <? now + - FeedReplayWindow) eqn:E2; simpl; [bprop; split; [done|lia]|].
  rewrite fail_if_Ok. bprop. lia.
Qed.

(** A string without a newline is separated from what follows the first one. *)
Definition no_newline (s : string) : bool := all_chars (λ c, negb (code c =? 10)) s.

Lemma newline_split s s' t t' :
  no_newline s = true → no_newline s' = true →
  s +:+ newline +:+ t = s' +:+ newline +:+ t' → s = s' ∧ t = t'.
Proof.
  unfold newline. revert s'. induction s as [|c s IH]; intros [|c' s']; cbn.
  - intros _ _ Heq. by injection Heq as Heq.
  - intros _ Hc [= <- _]. simpl in Hc. done.
  - intros Hc _ [= -> _]. simpl in Hc. done.
  - rewrite !andb_true_iff. intros [_ Hs] [_ Hs'] [= -> Heq].
    destruct (IH s' Hs Hs' Heq) as [-> ->]. done.
Qed.

Lemma all_chars_impl (p q : Ascii.ascii → bool) s :
  (∀ c, p c = true → q c = true) → all_chars p s = true → all_chars q s = true.
Proof. intros Hpq. induction s as [|c s IH]; simpl; [done|]. rewrite !andb_true_iff. naive_solver. Qed.

Lemma ident_no_newline n s : ident_pattern n s = true → no_newline s = true.
Proof.
  destruct s as [|c s]; [done|]. simpl. rewrite !andb_true_iff. intros [[Hc Hs] _].
  unfold no_newline. simpl. rewrite andb_true_iff. split.
  - unfold is_alnum, is_digit, is_upper, is_lower, in_class in Hc. bprop. lia.
  - revert Hs. apply all_chars_impl. intros d.
    unfold is_ident_char, is_alnum, is_digit, is_upper, is_lower, in_class. intros Hd. bprop. lia.
Qed.

Lemma grace_key_Some db source now key :
  grace_key db source now = Some key →
  ∃ fp r, rotations db !! (source, fp) = Some r ∧ rr_key r = key ∧ now < rr_grace r.
Proof.
  unfold grace_key. intros Hk. apply fmap_Some in Hk as (r&Hr&->).
  assert (Hin : ∀ l b, foldl newer b l = Some r → b = Some r ∨ r ∈ l).
  { induction l as [|x l IH]; intros b; simpl; [by left|]. intros [Hb|Hl]%IH; [|set_solver].
    destruct b as [b|]; simpl in Hb; [case_match|]; naive_solver (set_solver). }
  apply Hin in Hr as [Hr|Hr]; [done|].
  apply list_elem_of_filter in Hr as [Hg Hr]. apply list_elem_of_omap in Hr as ([[s fp] r']&Hm&Hx).
  apply elem_of_map_to_list in Hm. simpl in Hx. case_bool_decide; [|done]. simplify_eq. eauto.
Qed.

Section feed_lemmas.
Context `{Ed25519} (pg_time : Z → Z).

(** What an admission checks. *)
Definition admissible (db : FeedDB) (env : FeedEnv) (request : FeedAdmissionRequest) (s : FeedSource) : Prop :=
  feed_sources db !! fa_source request = Some s ∧ fs_active s = true ∧ fa_claimed request ≠ 0 ∧
  now_check env - FeedReplayWindow <= fa_claimed request <= now_check env + FeedClockSkew ∧
  signature_ok db s request (now_grace env) = true.

Definition payload_digest (request : FeedAdmissionRequest) : string := "sha256:" +:+ sha256_hex (fa_payload request).

Lemma admit_Ok env req db a db' :
  admitFeedEventInTransaction pg_time env req db = (Ok a, db') ↔
  ∃ s, admissible db env req s ∧ ad_source a = fa_source req ∧ ad_event a = fa_event req ∧
    ad_digest a = payload_digest req ∧ ad_fingerprint a = fs_fingerprint s ∧
    match feed_events db !! (fa_source req, fa_event req) with
    | None =>
        ad_received a = pg_time (now_received env) ∧
        db' = mkFeedDB (feed_sources db)
                (<[(fa_source req, fa_event req) :=
                     mkFeedEvent (payload_digest req) (fa_signature req) (pg_time (now_received env))]>
                   (feed_events db)) (revocations db) (rotations db)
    | Some e => fe_digest e = payload_digest req ∧ fe_signature e = fa_signature req ∧
        ad_received a = fe_received e ∧ db' = db
    end.
Proof.
  unfold admitFeedEventInTransaction, admissible. run_store.
  destruct (feed_sources db !! fa_source req) as [s|]; run_store; [|split; [done|by intros (?&(?&_)&_)]].
  destruct (fs_active s) eqn:Ea; cbn [negb]; run_store; [|split; [done|intros (?&(?&?&_)&_); congruence]].
  destruct (ValidateFeedFreshness _ _) as [u|] eqn:Ef; run_store.
  2:{ split; [done|]. intros (s0&([= <-]&_&?&?&_)&_).
      assert (Hok : ValidateFeedFreshness (fa_claimed req) (now_check env) = Ok tt) by (by apply freshness_Ok).
      congruence. }
  apply freshness_Ok in Ef as [Hc Hw]. rewrite ?mbind_run, ?check_run.
  destruct (signature_ok db s req (now_grace env)) eqn:Es; cbn [negb]; run_store; [|split; [done|intros (?&(?&_&_&_&?)&_); congruence]].
  fold (payload_digest req).
  destruct (feed_events db !! _) as [e|]; run_store.
  - destruct (fe_digest e =s payload_digest req) eqn:E1; cbn [negb orb]; run_store; bprop; [|split; [done|by intros (?&_&_&_&_&_&?&?&_)]].
    destruct (fe_signature e =s fa_signature req) eqn:E2; cbn [negb orb]; run_store; bprop; [|split; [done|by intros (?&_&_&_&_&_&?&?&_)]].
    split.
    + intros [= <- <-]. exists s. simpl. split_and!; done || lia.
    + intros (s0&([= <-]&_)&?&?&?&?&_&_&?&->). destruct a. simpl in *. congruence.
  - split.
    + intros [= <- <-]. exists s. simpl. split_and!; done || lia.
    + intros (s0&([= <-]&_)&?&?&?&?&?&->). destruct a. simpl in *. congruence.
Qed.

Lemma AdmitFeedEvent_Ok env req db a db' :
  AdmitFeedEvent pg_time env req db = (Ok a, db') ↔
  FeedAdmissionRequest_Validate req = Ok tt ∧ admitFeedEventInTransaction pg_time env req db = (Ok a, db').
Proof.
  unfold AdmitFeedEvent. run_store. destruct (FeedAdmissionRequest_Validate req) as [[]|]; [|by split; [|intros [? _]]].
  rewrite atomically_Ok. by split; [|intros [_ ?]].
Qed.

Lemma AdmitFeedEvent_Err env req db e db' : AdmitFeedEvent pg_time env req db = (Err e, db') → db' = db.
Proof.
  unfold AdmitFeedEvent. run_store. destruct (FeedAdmissionRequest_Validate req) as [[]|]; [|congruence].
  apply atomically_Err.
Qed.

(** ** The operations on the feed tables *)

Inductive FeedOp : Type :=
| FRegister (now : Z) (registration : FeedSourceRegistration)
| FAdmit (env : FeedEnv) (request : FeedAdmissionRequest)
| FRevoke (now : Z) (request : FeedSourceRevocation)
| FRotate (now : Z) (request : FeedSourceKeyRotation).

(** The tables after one operation, whatever it answers. *)
Definition feed_exec (db : FeedDB) (op : FeedOp) : FeedDB :=
  match op with
  | FRegister now r => (RegisterFeedSource pg_time now r db).2
  | FAdmit env r => (AdmitFeedEvent pg_time env r db).2
  | FRevoke now r => (RevokeFeedSource pg_time now r db).2
  | FRotate now r => (RotateFeedSourceKey pg_time now r db).2
  end.

Lemma register_cases now r db :
  let db' := feed_exec db (FRegister now r) in
  db' = db ∨
  (FeedSourceRegistration_Validate r = Ok tt ∧
   match feed_sources db !! rg_source r with
   | None => db' = set_sources db (<[rg_source r := mkSource (rg_kind r) (rg_authority r) (rg_key r)
       (fingerprint (rg_key r)) (rg_active r) (pg_time now) (pg_time now)]> (feed_sources db))
   | Some s => fs_key s = rg_key r ∧
       db' = set_sources db (<[rg_source r := mkSource (rg_kind r) (rg_authority r) (fs_key s)
       (fs_fingerprint s) (rg_active r) (fs_created s) (pg_time now)]> (feed_sources db))
   end).
Proof.
  simpl. unfold RegisterFeedSource. run_store.
  destruct (FeedSourceRegistration_Validate r) as [[]|]; [|by left]. unfold atomically. run_store.
  destruct (feed_sources db !! rg_source r) as [s|]; run_store; [|by right].
  destruct (fs_key s =s rg_key r) eqn:Ek; cbn [negb]; run_store; [|by left]. apply String.eqb_eq in Ek.
  destruct (_ || _); run_store; [by right|by left].
Qed.

Lemma revoke_cases now r db :
  let db' := feed_exec db (FRevoke now r) in
  db' = db ∨
  ∃ s, feed_sources db !! rv_source r = Some s ∧ fs_active s = true ∧ revocations db !! rv_source r = None ∧
    db' = mkFeedDB (<[rv_source r := mkSource (fs_kind s) (fs_authority s) (fs_key s) (fs_fingerprint s) false
                                       (fs_created s) (pg_time now)]> (feed_sources db))
            (feed_events db)
            (<[rv_source r := mkRevocationRow (rv_reason r) (rv_by r) (pg_time now)]> (revocations db))
            (rotations db).
Proof.
  simpl. unfold RevokeFeedSource. run_store.
  destruct (FeedSourceRevocation_Validate r) as [[]|]; [|by left]. unfold atomically. run_store.
  destruct (feed_sources db !! rv_source r) as [s|]; run_store; [|by left].
  destruct (revocations db !! rv_source r) as [v|]; run_store.
  - destruct (_ || _); by left.
  - destruct (fs_active s) eqn:Ea; cbn [negb]; run_store; [|by left]. right. eauto.
Qed.

Lemma rotate_cases now r db :
  let db' := feed_exec db (FRotate now r) in
  db' = db ∨
  ∃ s, feed_sources db !! kr_source r = Some s ∧ fs_active s = true ∧ fs_key s ≠ kr_new_key r ∧
    FeedSourceKeyRotation_Validate r now = Ok tt ∧
    feed_sources db' = <[kr_source r := mkSource (fs_kind s) (fs_authority s) (kr_new_key r)
       (fingerprint (kr_new_key r)) (fs_active s) (fs_created s) (pg_time now)]> (feed_sources db) ∧
    feed_events db' = feed_events db ∧
    ∃ row, rotations db' = <[(kr_source r, fs_fingerprint s) := row]> (rotations db) ∧
      rr_grace row = pg_time (kr_grace r) ∧ rr_by row = kr_by r ∧
      rr_key row = match rotations db !! (kr_source r, fs_fingerprint s) with
                   | Some old => rr_key old | None => fs_key s end.
Proof.
  simpl. unfold RotateFeedSourceKey. run_store.
  destruct (FeedSourceKeyRotation_Validate r now) as [[]|] eqn:Ev; [|by left]. unfold atomically. run_store.
  destruct (feed_sources db !! kr_source r) as [s|]; run_store; [|by left].
  destruct (fs_active s) eqn:Ea; cbn [negb]; run_store; [|by left].
  destruct (fs_key s =s kr_new_key r) eqn:Ek; run_store; [by left|]. apply String.eqb_neq in Ek. right.
  exists s. simpl. split_and!; try done; [by rewrite Ea|]. eexists. split_and!; done.
Qed.

Lemma rotate_revocations now r db : revocations (feed_exec db (FRotate now r)) = revocations db.
Proof.
  simpl. unfold RotateFeedSourceKey. run_store.
  destruct (FeedSourceKeyRotation_Validate r now) as [[]|]; [|done]. unfold atomically. run_store.
  destruct (feed_sources db !! kr_source r) as [s|]; run_store; [|done].
  destruct (fs_active s); cbn [negb]; run_store; [|done]. by destruct (fs_key s =s kr_new_key r).
Qed.

(** An admitted event is never rewritten. *)
Lemma feed_exec_events db op k e :
  feed_events db !! k = Some e → feed_events (feed_exec db op) !! k = Some e.
Proof.
  intros Hk. destruct op as [now r|env r|now r|now r].
  - destruct (register_cases now r db) as [->|[_ Hr]]; [done|]. destruct (feed_sources db !! _).
    + by destruct Hr as [_ ->].
    + by rewrite Hr.
  - simpl. destruct (AdmitFeedEvent pg_time env r db) as [[a|err] db'] eqn:Ha; simpl.
    + apply AdmitFeedEvent_Ok in Ha as [_ (s&_&_&_&_&_&Hm)%admit_Ok].
      destruct (feed_events db !! (fa_source r, fa_event r)) as [old|] eqn:Eo.
      * by destruct Hm as (_&_&_&->).
      * destruct Hm as [_ ->]. cbn [feed_events]. rewrite lookup_insert_ne; [done|]. intros <-. congruence.
    + apply AdmitFeedEvent_Err in Ha as ->. done.
  - destruct (revoke_cases now r db) as [->|(s&_&_&_&->)]; done.
  - destruct (rotate_cases now r db) as [->|(s&_&_&_&_&_&->&_)]; done.
Qed.

Lemma feed_run_events ops db k e :
  feed_events db !! k = Some e → feed_events (foldl feed_exec db ops) !! k = Some e.
Proof. revert db. induction ops as [|op ops IH]; intros db Hk; simpl; [done|]. by apply IH, feed_exec_events. Qed.

End feed_lemmas.

(** ** Properties *)

(** C13: An admitted event is authentic and fresh: its source is registered and
    active, its claimed time lies within a day before and five minutes after
    the clock, its signature over the canonical bytes verifies under the active
    key or under a rotated-out key whose grace has not ended, and the retained
    row holds the digest of its payload and that signature. *)
Theorem admission_authentic `{Ed25519} pg_time env req db a db' :
  AdmitFeedEvent pg_time env req db = (Ok a, db') →
  let bytes := feedSigningBytes (fa_source req) (fa_event req) (fa_claimed req) (fa_payload req) in
  ∃ s e, feed_sources db !! fa_source req = Some s ∧ fs_active s = true ∧
    now_check env - FeedReplayWindow <= fa_claimed req <= now_check env + FeedClockSkew ∧
    (ed25519_verify (fs_key s) bytes (fa_signature req) = true ∨
     ∃ fp r, rotations db !! (fa_source req, fp) = Some r ∧ now_grace env < rr_grace r ∧
       ed25519_verify (rr_key r) bytes (fa_signature req) = true) ∧
    feed_events db' !! (fa_source req, fa_event req) = Some e ∧
    fe_digest e = payload_digest req ∧ fe_signature e = fa_signature req ∧ fe_received e = ad_received a.
Proof.
  intros Ha bytes. apply AdmitFeedEvent_Ok in Ha as [_ Ha].
  apply admit_Ok in Ha as (s&(Hs&Hact&_&Hw&Hsig)&_&_&_&_&Hm). exists s.
  assert (Hv : ed25519_verify (fs_key s) bytes (fa_signature req) = true ∨
    ∃ fp r, rotations db !! (fa_source req, fp) = Some r ∧ now_grace env < rr_grace r ∧
      ed25519_verify (rr_key r) bytes (fa_signature req) = true).
  { unfold signature_ok in Hsig. apply orb_true_iff in Hsig as [Hsig|Hsig]; [by left|right].
    destruct (grace_key _ _ _) as [key|] eqn:Eg; [|done].
    apply grace_key_Some in Eg as (fp&r&?&<-&?). eauto. }
  destruct (feed_events db !! (fa_source req, fa_event req)) as [e|] eqn:Ee.
  - destruct Hm as (?&?&?&->). exists e. done.
  - destruct Hm as [? ->]. eexists. cbn [feed_events]. rewrite lookup_insert_eq. done.
Qed.

(** One identity, one event: after an admission, and any further operations
    on the feed tables, another accepted admission of the same source and event
    carries the same payload digest and signature, reports the time of the
    first one, and changes nothing. *)
Theorem admissions_agree `{Ed25519} pg_time env1 env2 r1 r2 db1 db1' ops a1 a2 db2' :
  AdmitFeedEvent pg_time env1 r1 db1 = (Ok a1, db1') →
  AdmitFeedEvent pg_time env2 r2 (foldl (feed_exec pg_time) db1' ops) = (Ok a2, db2') →
  fa_source r2 = fa_source r1 → fa_event r2 = fa_event r1 →
  ad_digest a2 = ad_digest a1 ∧ fa_signature r2 = fa_signature r1 ∧ ad_received a2 = ad_received a1 ∧
  db2' = foldl (feed_exec pg_time) db1' ops.
Proof.
  intros [_ H1]%AdmitFeedEvent_Ok [_ H2]%AdmitFeedEvent_Ok Hs He.
  apply admit_Ok in H1 as (s1&_&_&_&Hd1&_&Hm1). apply admit_Ok in H2 as (s2&_&_&_&Hd2&_&Hm2).
  assert (Hrow : ∃ e, feed_events db1' !! (fa_source r1, fa_event r1) = Some e ∧
    fe_digest e = payload_digest r1 ∧ fe_signature e = fa_signature r1 ∧ fe_received e = ad_received a1).
  { destruct (feed_events db1 !! _) as [e|] eqn:Ee; [destruct Hm1 as (?&?&?&->); eauto|].
    destruct Hm1 as [? ->]. eexists. cbn [feed_events]. rewrite lookup_insert_eq. done. }
  destruct Hrow as (e&Hrow&Hed&Hes&Her). apply (feed_run_events pg_time ops) in Hrow.
  rewrite Hs, He, Hrow in Hm2. destruct Hm2 as (?&?&?&->). split_and!; congruence.
Qed.

(** The verification key of a source only changes through the rotation
    ceremony: if an operation leaves a source with another key, it was a
    rotation of that source while it was active, and it recorded the prior key
    under a grace that ends at most 30 days later.  No operation removes a
    source. *)
Theorem key_change_is_rotation `{Ed25519} pg_time op db id s :
  feed_sources db !! id = Some s →
  ∃ s', feed_sources (feed_exec pg_time db op) !! id = Some s' ∧
    (fs_key s' = fs_key s ∨
     ∃ now r row, op = FRotate now r ∧ kr_source r = id ∧ fs_active s = true ∧ fs_key s' = kr_new_key r ∧
       now < kr_grace r <= now + 30 * 24 * Hour ∧
       rotations (feed_exec pg_time db op) !! (id, fs_fingerprint s) = Some row ∧
       rr_grace row = pg_time (kr_grace r) ∧ rr_by row = kr_by r ∧
       (rr_key row = fs_key s ∨
        ∃ old, rotations db !! (id, fs_fingerprint s) = Some old ∧ rr_key row = rr_key old)).
Proof.
  intros Hs. destruct op as [now r|env r|now r|now r].
  - destruct (register_cases pg_time now r db) as [->|[_ Hr]]; [eauto|].
    destruct (decide (rg_source r = id)) as [<-|Hne].
    + rewrite Hs in Hr. destruct Hr as [_ ->]. cbn [feed_sources set_sources]. rewrite lookup_insert_eq. eauto.
    + destruct (feed_sources db !! rg_source r); [destruct Hr as [_ ->]|rewrite Hr];
        cbn [feed_sources set_sources]; rewrite lookup_insert_ne by done; eauto.
  - simpl. destruct (AdmitFeedEvent pg_time env r db) as [[a|err] db'] eqn:Ha; simpl.
    + apply AdmitFeedEvent_Ok in Ha as [_ (s0&_&_&_&_&_&Hm)%admit_Ok]. exists s. split; [|by left].
      destruct (feed_events db !! _); [by destruct Hm as (_&_&_&->)|by destruct Hm as [_ ->]].
    + apply AdmitFeedEvent_Err in Ha as ->. eauto.
  - destruct (revoke_cases pg_time now r db) as [->|(s0&Hs0&_&_&->)]; [eauto|]. cbn [feed_sources].
    destruct (decide (rv_source r = id)) as [<-|Hne].
    + rewrite lookup_insert_eq. assert (s0 = s) as -> by congruence. eauto.
    + rewrite lookup_insert_ne by done. eauto.
  - destruct (rotate_cases pg_time now r db) as [->|(s0&Hs0&Hact&_&Hv&->&_&row&->&Hg&Hb&Hk)]; [eauto|].
    destruct (decide (kr_source r = id)) as [<-|Hne].
    + rewrite lookup_insert_eq. assert (s0 = s) as -> by congruence. eexists. split; [done|]. right.
      exists now, r, row. rewrite lookup_insert_eq. split_and!; try done.
      * unfold FeedSourceKeyRotation_Validate in Hv. inv_ok Hv. unfold time_after, time_add in Hv. bprop. lia.
      * unfold FeedSourceKeyRotation_Validate in Hv. inv_ok Hv. unfold time_after, time_add in Hv. bprop. lia.
      * destruct (rotations db !! _); eauto.
    + rewrite lookup_insert_ne by done. eauto.
Qed.

(** The signed bytes bind their parts: equal bytes of two requests with
    canonical identifiers mean equal source, event and claimed-time text and
    equal payload digest, so a signature cannot be moved to another event. *)
Theorem signing_bytes_bind s1 e1 t1 p1 s2 e2 t2 p2 :
  incidentIDPattern s1 = true → incidentIDPattern e1 = true →
  incidentIDPattern s2 = true → incidentIDPattern e2 = true →
  feedSigningBytes s1 e1 t1 p1 = feedSigningBytes s2 e2 t2 p2 →
  s1 = s2 ∧ e1 = e2 ∧ rfc3339nano t1 = rfc3339nano t2 ∧ sha256_hex p1 = sha256_hex p2.
Proof.
  intros Hs1 He1 Hs2 He2 Heq. unfold feedSigningBytes in Heq.
  apply newline_split in Heq as [-> Heq]; [|by eapply ident_no_newline..].
  apply newline_split in Heq as [-> Heq]; [|by eapply ident_no_newline..].
  split; [done|]. split; [done|].
  pose proof (f_equal str_len Heq) as Hlen. rewrite !str_len_app, !sha256_hex_len in Hlen.
  apply str_app_inj_len in Heq as [-> Heq]; [|unfold str_len in Hlen; lia].
  apply str_app_inj_len in Heq as [_ Heq]; [|done].
  by apply str_app_inj_len in Heq as [_ ->].
Qed.

(** ** Concrete runs *)

(** A scheme in which the signature of a message is its key twice. *)
Definition sample_scheme : Ed25519 := λ key _ signature, signature =s key +:+ key.

Definition sample_key : string := "0123456789abcdef0123456789abcdef".
Definition sample_new_key : string := "fedcba9876543210fedcba9876543210".
Definition sample_registration : FeedSourceRegistration :=
  mkRegistration "ais-1" "AIS" "nimasa" sample_key true.
Definition empty_feeds : FeedDB := mkFeedDB ∅ ∅ ∅ ∅.
Definition registered_feeds : FeedDB := (RegisterFeedSource id (100 * Hour) sample_registration empty_feeds).2.
Definition sample_feed_env : FeedEnv := mkFeedEnv (101 * Hour) (101 * Hour) (101 * Hour).
Definition sample_request : FeedAdmissionRequest :=
  mkAdmissionRequest "ais-1" "event-1" (101 * Hour) "{}" (sample_key +:+ sample_key).
Definition sample_admission : FeedAdmission :=
  mkAdmission "ais-1" "event-1" (payload_digest sample_request) (fingerprint sample_key) (101 * Hour).
Definition admitted_feeds : FeedDB :=
  (AdmitFeedEvent (H := sample_scheme) id sample_feed_env sample_request registered_feeds).2.
Definition sample_rotation : FeedSourceKeyRotation :=
  mkKeyRotation "ais-1" sample_new_key (200 * Hour) "admin".

Lemma sample_admitted :
  AdmitFeedEvent (H := sample_scheme) id sample_feed_env sample_request registered_feeds =
  (Ok sample_admission, admitted_feeds).
Proof. vm_compute. reflexivity. Qed.

Lemma admission_authentic_witness :
  ∃ s e, feed_sources registered_feeds !! "ais-1" = Some s ∧ fs_active s = true ∧
    feed_events admitted_feeds !! ("ais-1", "event-1") = Some e ∧ fe_digest e = payload_digest sample_request.
Proof.
  destruct (admission_authentic (H := sample_scheme) id sample_feed_env sample_request registered_feeds
    sample_admission admitted_feeds sample_admitted) as (s&e&Hs&Ha&_&_&He&Hd&_).
  exists s, e. exact (conj Hs (conj Ha (conj He Hd))).
Defined.

(** The key is rotated, and the event is admitted again under the grace key. *)
Lemma admissions_agree_witness :
  ad_received sample_admission = 101 * Hour ∧
  (AdmitFeedEvent (H := sample_scheme) id (mkFeedEnv (102 * Hour) (102 * Hour) (102 * Hour)) sample_request
     (foldl (feed_exec (H := sample_scheme) id) admitted_feeds [FRotate (102 * Hour) sample_rotation])).2 =
  foldl (feed_exec (H := sample_scheme) id) admitted_feeds [FRotate (102 * Hour) sample_rotation].
Proof.
  split; [reflexivity|].
  refine (proj2 (proj2 (proj2 (admissions_agree (H := sample_scheme) id sample_feed_env
    (mkFeedEnv (102 * Hour) (102 * Hour) (102 * Hour)) sample_request sample_request registered_feeds
    admitted_feeds [FRotate (102 * Hour) sample_rotation] sample_admission
    (mkAdmission "ais-1" "event-1" (payload_digest sample_request) (fingerprint sample_new_key) (101 * Hour)) _
    sample_admitted _ _ _)))).
  - vm_compute. reflexivity.
  - reflexivity.
  - reflexivity.
Defined.

Lemma key_change_is_rotation_witness :
  ∃ s', feed_sources (feed_exec (H := sample_scheme) id registered_feeds (FRotate (102 * Hour) sample_rotation))
          !! "ais-1" = Some s' ∧ fs_key s' = sample_new_key.
Proof.
  destruct (key_change_is_rotation (H := sample_scheme) id (FRotate (102 * Hour) sample_rotation) registered_feeds
    "ais-1" (mkSource "AIS" "nimasa" sample_key (fingerprint sample_key) true (100 * Hour) (100 * Hour)))
    as (s'&Hs'&_).
  - vm_compute. reflexivity.
  - exists s'. split; [exact Hs'|]. vm_compute in Hs'. injection Hs' as <-. reflexivity.
Defined.

Lemma signing_bytes_bind_witness :
  "ais-1" = "ais-1" ∧ "event-1" = "event-1" ∧ rfc3339nano 5 = rfc3339nano 5 ∧ sha256_hex "{}" = sha256_hex "{}".
Proof. apply (signing_bytes_bind "ais-1" "event-1" 5 "{}" "ais-1" "event-1" 5 "{}"); reflexivity. Defined.

(** Registering a revoked source again, with its key and [Active] set, makes it
    active; revoking it again with the retained evidence then succeeds and
    leaves it active. *)
Definition sample_revocation : FeedSourceRevocation := mkRevocation "ais-1" "compromised" "admin".

Example revoked_source_reactivated :
  let revoked := (RevokeFeedSource id (110 * Hour) sample_revocation registered_feeds).2 in
  let again := (RegisterFeedSource id (111 * Hour) sample_registration revoked).2 in
  let final := RevokeFeedSource id (112 * Hour) sample_revocation again in
  (fs_active <$> feed_sources revoked !! "ais-1") = Some false ∧
  (fs_active <$> feed_sources again !! "ais-1") = Some true ∧ is_Some (revocations again !! "ais-1") ∧
  final.1 = Ok tt ∧ (fs_active <$> feed_sources final.2 !! "ais-1") = Some true.
Proof. vm_compute. split_and!; eauto. Qed.
