(* ===== verification/GoFormat.v ===== *)
(** * Text of numbers and durations

    The [fmt] verbs of the anomaly texts, [Duration.String], [strconv.Atoi] and
    PostgreSQL's [length] of a text, with the bounds the table constraints
    need. *)

From S2P Require Import Prelude GoStrings GoTime Float64.
From Stdlib Require Import Ascii.

(** ** [%.nf] of a [float64]: the exact value, rounded half to even *)

Definition round_half_even (num den : Z) : Z :=
  let q := num / den in
  let r := num mod den in
  if 2 * r <? den then q else if den <? 2 * r then q + 1 else if Z.even q then q else q + 1.

Definition fixed_digits (digits : nat) (m e : Z) : Z :=
  let scaled := m * 10 ^ Z.of_nat digits in
  if 0 <=? e then scaled * 2 ^ e else round_half_even scaled (2 ^ (- e)).

Definition fixed_text (digits : nat) (n : Z) : string :=
  let p := 10 ^ Z.of_nat digits in
  dec (n / p) +:+ (if Nat.eqb digits 0 then "" else "." +:+ pad digits (n mod p)).

Definition format_float (digits : nat) (x : f64) : string :=
  match x with
  | S754_nan => "NaN"
  | S754_infinity s => if s then "-Inf" else "+Inf"
  | S754_zero s => (if s then "-" else "") +:+ fixed_text digits 0
  | S754_finite s m e => (if s then "-" else "") +:+ fixed_text digits (fixed_digits digits (Zpos m) e)
  end.

Example format_tie : format_float 1 (f_of_Q 25 100) = "0.2".
Proof. reflexivity. Qed.

Example format_baseline : format_float 1 (f_of_Q 1022 10) = "102.2".
Proof. reflexivity. Qed.

Example format_radius : format_float 0 (f_of_Z 500) = "500".
Proof. reflexivity. Qed.

(** ** [Duration.String] *)

Definition fraction_text (digits : nat) (v : Z) : string :=
  let f := strip_zeros (pad digits (v mod 10 ^ Z.of_nat digits)) in
  if f =s "" then "" else "." +:+ f.

Definition magnitude_text (u : Z) : string :=
  if u =? 0 then "0s"
  else if u <? 1000 then dec u +:+ "ns"
  else if u <? 1000000 then dec (u / 1000) +:+ fraction_text 3 u +:+ "µs"
  else if u <? Second then dec (u / 1000000) +:+ fraction_text 6 u +:+ "ms"
  else
    let secs := u / Second in
    let s := dec (secs mod 60) +:+ fraction_text 9 u +:+ "s" in
    let mins := secs / 60 in
    if mins =? 0 then s
    else
      let m := dec (mins mod 60) +:+ "m" +:+ s in
      let hours := mins / 60 in
      if hours =? 0 then m else dec hours +:+ "h" +:+ m.

Definition duration_string (d : Z) : string :=
  (if d <? 0 then "-" else "") +:+ magnitude_text (Z.abs d).

Example duration_minutes : duration_string (10 * Minute) = "10m0s".
Proof. reflexivity. Qed.

Example duration_days : duration_string (168 * Hour) = "168h0m0s".
Proof. reflexivity. Qed.

Example duration_fraction : duration_string (1500 * 1000000) = "1.5s".
Proof. reflexivity. Qed.

Example duration_micro : duration_string 1500 = "1.5µs".
Proof. reflexivity. Qed.

(** ** [strconv.Atoi] on a 64-bit platform: [None] is an error *)

Fixpoint digits_value (acc : Z) (s : string) : option Z :=
  match s with
  | EmptyString => Some acc
  | String c rest => if is_digit c then digits_value (acc * 10 + (code c - 48)) rest else None
  end.

Definition atoi (s : string) : option Z :=
  let '(negative, body) :=
    match s with
    | String c rest =>
        if Ascii.eqb c "-"%char then (true, rest)
        else if Ascii.eqb c "+"%char then (false, rest) else (false, s)
    | EmptyString => (false, s)
    end in
  if body =s "" then None
  else match digits_value 0 body with
  | Some v =>
      let v := if (negative : bool) then - v else v in
      if (min_int64 <=? v) && (v <=? max_int64) then Some v else None
  | None => None
  end.

Lemma atoi_int64 s z : atoi s = Some z → in_int64 z.
Proof.
  unfold atoi, in_int64. repeat case_match; try done; intros [= <-]; bprop; lia.
Qed.

(** ** [length(text)] in PostgreSQL: the characters of a UTF-8 text *)

Definition is_continuation (c : ascii) : bool := in_class 128 191 c.

Fixpoint pg_length (s : string) : Z :=
  match s with
  | EmptyString => 0
  | String c rest => (if is_continuation c then 0 else 1) + pg_length rest
  end.

(** ** Lemmas *)

Lemma pg_length_range s : 0 <= pg_length s <= str_len s.
Proof.
  induction s as [|c s IH]; [done|]. unfold str_len in *. cbn [pg_length String.length].
  destruct (is_continuation c); lia.
Qed.

Lemma pg_length_app s t : pg_length (s +:+ t) = pg_length s + pg_length t.
Proof. induction s as [|c s IH]; simpl; [done|]. rewrite IH. lia. Qed.

(** A natural number below [10 ^ k] has at most [k] digits. *)
Lemma pretty_N_go_length k : ∀ (x : N) (s : string),
  (x < 10 ^ N.of_nat k)%N → (String.length (pretty_N_go x s) <= k + String.length s)%nat.
Proof.
  induction k as [|k IH]; intros x s Hx.
  - assert (x = 0%N) as -> by (simpl in Hx; lia). by rewrite pretty_N_go_0.
  - destruct (decide (x = 0%N)) as [->|H0]; [rewrite pretty_N_go_0; lia|].
    rewrite pretty_N_go_step by lia. etransitivity; [apply IH|simpl; lia].
    apply N.Div0.div_lt_upper_bound. by rewrite <- N.pow_succ_r', <- Nat2N.inj_succ.
Qed.

Lemma dec_length k z : (1 <= k)%nat → 0 <= z < 10 ^ Z.of_nat k → str_len (dec z) <= Z.of_nat k.
Proof.
  intros Hk Hz. unfold dec, str_len. destruct z as [|p|p]; [change (str_len "0" <= Z.of_nat k); unfold str_len; simpl; lia| |lia].
  change (pretty (Z.pos p)) with (pretty_N_go (Npos p) "").
  pose proof (pretty_N_go_length k (Npos p) "") as Hl. simpl String.length in Hl.
  assert (Hp : (Npos p < 10 ^ N.of_nat k)%N).
  { apply N2Z.inj_lt. rewrite N2Z.inj_pow, nat_N_Z. apply Hz. }
  specialize (Hl Hp). lia.
Qed.

(** The digits are identifier characters and count as characters. *)
Lemma pretty_N_go_chars (P : string → Prop) :
  (∀ x s, P s → P (String (pretty_N_char x) s)) →
  ∀ (x : N) (s : string), P s → P (pretty_N_go x s).
Proof.
  intros HP x. induction (N.lt_wf_0 x) as [x _ IH]. intros s Hs.
  destruct (decide (x = 0%N)) as [->|Hx]; [by rewrite pretty_N_go_0|].
  rewrite pretty_N_go_step by lia. apply IH; [|by apply HP]. apply N.div_lt; lia.
Qed.

Lemma pretty_char_cases x : all_chars is_digit (String (pretty_N_char x) "") = true.
Proof. unfold pretty_N_char. repeat case_match; reflexivity. Qed.

Lemma dec_chars z : all_chars is_ident_char (dec z) = true.
Proof.
  assert (Hp : ∀ p, all_chars is_ident_char (pretty_N_go (Npos p) "") = true).
  { intros p. apply (pretty_N_go_chars (λ s, all_chars is_ident_char s = true)); [|done].
    intros x s Hs. pose proof (pretty_char_cases x) as Hc. simpl in *.
    rewrite andb_true_r in Hc. unfold is_ident_char, is_alnum. by rewrite Hc. }
  destruct z as [|p|p]; [done|apply Hp|]. change (all_chars is_ident_char (String "-" (pretty_N_go (Npos p) "")) = true).
  simpl. by rewrite Hp.
Qed.

Lemma pg_length_dec z : 0 <= z → 1 <= pg_length (dec z).
Proof.
  intros Hz. destruct z as [|p|p]; [done| |lia]. change (dec (Z.pos p)) with (pretty_N_go (Npos p) "").
  assert (Hc : ∀ x s, pg_length (String (pretty_N_char x) s) = 1 + pg_length s).
  { intros x s. unfold pretty_N_char. repeat case_match; reflexivity. }
  rewrite pretty_N_go_step by lia. apply (pretty_N_go_chars (λ s, 1 <= pg_length s)).
  - intros x s Hs. rewrite Hc. lia.
  - rewrite Hc. simpl. lia.
Qed.

Lemma dec_int64_length z : in_int64 z → str_len (dec z) <= 20.
Proof.
  unfold in_int64, min_int64, max_int64. intros Hz. destruct z as [|p|p]; [done| |].
  - etrans; [apply (dec_length 19); [lia|simpl; lia]|]. done.
  - change (dec (Z.neg p)) with (String "-" (dec (Z.pos p))). unfold str_len. cbn [String.length].
    pose proof (dec_length 19 (Z.pos p) ltac:(lia) ltac:(simpl; lia)). unfold str_len in *. lia.
Qed.

Lemma pad_length k z : (1 <= k)%nat → 0 <= z < 10 ^ Z.of_nat k → str_len (pad k z) <= Z.of_nat k.
Proof.
  intros Hk Hz. pose proof (dec_length k z Hk Hz) as Hd. unfold pad. rewrite str_len_app.
  assert (Hr : ∀ n, str_len (String.string_of_list_ascii (replicate n "0"%char)) = Z.of_nat n).
  { intros n. unfold str_len. induction n as [|n IH]; [done|]. cbn [replicate String.string_of_list_ascii String.length]. lia. }
  rewrite Hr. unfold str_len in *. lia.
Qed.

Lemma strip_zeros_length s : str_len (strip_zeros s) <= str_len s.
Proof.
  unfold str_len. induction s as [|c s IH]; [done|]. cbn [strip_zeros].
  destruct (_ && _); cbn [String.length]; lia.
Qed.

Lemma fraction_length k u : (1 <= k)%nat → str_len (fraction_text k u) <= Z.of_nat k + 1.
Proof.
  intros Hk. unfold fraction_text. destruct (_ =s ""); [unfold str_len; simpl; lia|].
  rewrite str_len_app. change (str_len ".") with 1.
  pose proof (strip_zeros_length (pad k (u mod 10 ^ Z.of_nat k))).
  pose proof (pad_length k (u mod 10 ^ Z.of_nat k) Hk ltac:(apply Z.mod_pos_bound, Z.pow_pos_nonneg; lia)). lia.
Qed.

(** Durations of the machine type are short. *)
Lemma duration_length d : in_int64 d → 1 <= pg_length (duration_string d) ∧ str_len (duration_string d) <= 64.
Proof.
  intros Hd. assert (Hu : 0 <= Z.abs d <= 2 ^ 63) by (unfold in_int64, min_int64, max_int64 in Hd; lia).
  assert (Hf : ∀ s, 1 <= pg_length s → str_len s <= 63 →
    1 <= pg_length ((if d <? 0 then "-" else "") +:+ s) ∧ str_len ((if d <? 0 then "-" else "") +:+ s) <= 64).
  { intros s H1 H2. rewrite pg_length_app, str_len_app. destruct (d <? 0); simpl; unfold str_len in *; simpl; lia. }
  apply Hf; clear Hf; revert Hu; generalize (Z.abs d); clear d Hd; intros u Hu.
  - assert (Hn : ∀ s, 0 <= pg_length s) by (intros s; apply (pg_length_range s)).
    unfold magnitude_text. repeat case_match; rewrite ?pg_length_app;
      repeat match goal with |- context [pg_length ?s] =>
        lazymatch goal with _ : 0 <= pg_length s |- _ => fail | _ => pose proof (Hn s) end end;
      simpl in *; lia.
  - unfold magnitude_text.
    assert (Hdec : ∀ k z, (1 <= k)%nat → 0 <= z < 10 ^ Z.of_nat k → str_len (dec z) <= Z.of_nat k) by (intros; by apply dec_length).
    assert (Hs : 0 <= u / Second < 10 ^ 11) by (unfold Second; split; [apply Z.div_pos; lia|apply Z.div_lt_upper_bound; lia]).
    assert (Hm : 0 <= u / Second / 60 < 10 ^ 11)
      by (split; [apply Z.div_pos; lia|apply Z.div_lt_upper_bound; lia]).
    assert (Hh : 0 <= u / Second / 60 / 60 < 10 ^ 11)
      by (split; [apply Z.div_pos; lia|apply Z.div_lt_upper_bound; lia]).
    pose proof (Z.mod_pos_bound (u / Second) 60 ltac:(lia)) as Hs60.
    pose proof (Z.mod_pos_bound (u / Second / 60) 60 ltac:(lia)) as Hm60.
    pose proof (fraction_length 3 u ltac:(lia)). pose proof (fraction_length 6 u ltac:(lia)).
    pose proof (fraction_length 9 u ltac:(lia)).
    assert (Hdec2 : ∀ z, 0 <= z < 60 → str_len (dec z) <= 2) by (intros z Hz; apply (Hdec 2%nat); [lia|simpl; lia]).
    pose proof (Hdec2 _ Hs60). pose proof (Hdec2 _ Hm60).
    pose proof (Hdec 11%nat _ ltac:(lia) Hh).
    destruct (u =? 0); [vm_compute; done|]. destruct (Z.ltb_spec u 1000).
    { pose proof (Hdec 3%nat u ltac:(lia) ltac:(simpl; lia)). rewrite str_len_app. change (str_len "ns") with 2. lia. }
    destruct (Z.ltb_spec u 1000000).
    { pose proof (Hdec 4%nat (u / 1000) ltac:(lia) ltac:(simpl; split; [apply Z.div_pos; lia|apply Z.div_lt_upper_bound; lia])).
      rewrite !str_len_app. change (str_len "µs") with 3. lia. }
    destruct (Z.ltb_spec u Second).
    { pose proof (Hdec 4%nat (u / 1000000) ltac:(lia) ltac:(unfold Second in *; simpl; split; [apply Z.div_pos; lia|apply Z.div_lt_upper_bound; lia])).
      rewrite !str_len_app. change (str_len "ms") with 2. lia. }
    assert (Hl : str_len "s" = 1 ∧ str_len "m" = 1 ∧ str_len "h" = 1) by done. destruct Hl as (Hl1&Hl2&Hl3).
    repeat case_match; rewrite !str_len_app; lia.
Qed.
