(* ===== verification/Workflow.v ===== *)
(** * ISR response workflow ([internal/workflow/isr.go], [cmd/isr-worker])

    The Temporal workflow that takes an alert through classification, dispatch,
    interdiction and outcome capture, and the two activities that write its
    audit trail into the ISR outbox.

    Temporal is a third-party engine.  What the code relies on is written out:
    signals of one name queue up until the workflow receives them, and an
    activity is executed in one or more attempts whose last reported one is its
    result ([execute_activity]). *)

From S2P Require Import Prelude GoStrings GoTime Classification Detection Outbox Envelope.

(** ** States and signals *)

Definition ResponseState : Type := string.
Definition StateAlerted : ResponseState := "ALERTED".
Definition StateClassified : ResponseState := "CLASSIFIED".
Definition StateDispatched : ResponseState := "DISPATCHED".
Definition StateInterdicted : ResponseState := "INTERDICTED".
Definition StateOutcomeCapture : ResponseState := "OUTCOME_CAPTURED".
Definition StateRejected : ResponseState := "REJECTED".

Record AlertInput : Type := mkAlert {
  AlertID : string;
  al_anomaly : string;
  al_classification : Classification
}.

Record ClassificationSignal : Type := mkClassificationSignal {
  AnalystID : string;
  Clearance : Classification;
  Confirmed : bool;
  Assessment : string
}.

Record DispatchSignal : Type := mkDispatchSignal {
  di_officer : string;
  di_unit : string;
  Approved : bool
}.

Record InterdictionSignal : Type := mkInterdictionSignal { it_officer : string; it_outcome : string }.

Record OutcomeSignal : Type := mkOutcomeSignal {
  RecorderID : string;
  IncidentRef : string;
  Verified : bool
}.

Record AuditEntry : Type := mkAudit {
  ae_from : ResponseState;
  ae_to : ResponseState;
  Actor : string;
  ae_detail : string
}.

(** ** The activities of the worker *)

(** The clocks and identities one attempt draws. *)
Record ActivityEnv : Type := mkActivityEnv {
  act_now : Z;
  act_db_now : Z;
  act_event_id : string;
  act_envelope_id : string
}.

(** [result.State] and [history], what the two query handlers answer. *)
Record Run : Type := mkRun { run_state : ResponseState; run_history : list AuditEntry }.

Abbreviation World := (Run * ISROutbox)%type.

Section activities.
Context `{JsonText} (pg_time : Z → Z).

(** One INSERT outside a transaction; the row keeps the clearance label. *)
Definition appendOutbox (env : ActivityEnv) (topic eventType aggregateKey : string) (payload : json)
    : M ISROutbox unit :=
  envelope ← lift (Seal (act_envelope_id env) topic eventType aggregateKey ClassificationRestricted
                     (act_now env) payload);
  insert_isr_outbox ("write " +:+ eventType +:+ " outbox event") (act_event_id env)
    (pg_time (act_now env)) (act_db_now env)
    (mkISREvent (env_topic envelope) (env_event_type envelope) (env_clearance envelope)
       (env_aggregate_key envelope) envelope).

(** [transitionAuditEvent] and [outcomeRecordedEvent] as documents. *)
Definition transitionAuditEvent (alertID : string) (entry : AuditEntry) : list (string * json) :=
  [("alert_id", JString alertID); ("from", JString (ae_from entry)); ("to", JString (ae_to entry));
   ("actor", JString (Actor entry)); ("detail", JString (ae_detail entry));
   ("classification", JString ClassificationRestricted)].

Definition outcomeRecordedEvent (alertID incidentRef : string) (verified : bool) : list (string * json) :=
  [("alert_id", JString alertID); ("incident_ref", JString incidentRef); ("verified", JBool verified);
   ("classification", JString ClassificationRestricted)].

Definition auditTransition (alertID : string) (entry : AuditEntry) (env : ActivityEnv) : M ISROutbox unit :=
  appendOutbox env TopicISR "isr.response_transition" alertID (JObject (transitionAuditEvent alertID entry)).

Definition recordOutcome (alertID incidentRef : string) (verified : bool) (env : ActivityEnv)
    : M ISROutbox unit :=
  appendOutbox env TopicOutcome "isr.outcome_recorded" alertID
    (JObject (outcomeRecordedEvent alertID incidentRef verified)).

(** ** Activity execution *)

(** An attempt and whether its completion reaches the server: when it does not,
    the server times the attempt out and starts another. *)
Record Attempt : Type := mkAttempt { at_env : ActivityEnv; at_reported : bool }.

Fixpoint execute_activity (act : ActivityEnv → M ISROutbox unit) (attempts : list Attempt)
    : M ISROutbox unit :=
  match attempts with
  | [] => throw (EText "activity was not completed")
  | a :: rest => λ t,
      match act (at_env a) t with
      | (Ok _, t') => if at_reported a then (Ok tt, t') else execute_activity act rest t'
      | (Err e, t') => match rest with [] => (Err e, t') | _ => execute_activity act rest t' end
      end
  end.

(** ** The workflow *)

Definition audit (attempts : list Attempt) (input : AlertInput) (from to : ResponseState)
    (actor detail : string) : M World unit := λ w,
  let entry := mkAudit from to actor detail in
  match execute_activity (auditTransition (AlertID input) entry) attempts w.2 with
  | (Ok _, t) => (Ok tt, (mkRun to (run_history w.1 ++ [entry]), t))
  | (Err e, t) => (Err (EWrap ("audit transition " +:+ from +:+ " -> " +:+ to) e), (w.1, t))
  end.

Definition record_activity (attempts : list Attempt) (input : AlertInput) (outcome : OutcomeSignal)
    : M World unit := λ w,
  match execute_activity (recordOutcome (AlertID input) (IncidentRef outcome) (Verified outcome)) attempts w.2 with
  | (Ok _, t) => (Ok tt, (w.1, t))
  | (Err e, t) => (Err (EWrap "record outcome" e), (w.1, t))
  end.

(** Where the workflow function stands: blocked in the [Select] of a stage, or
    returned, with the error it returned. *)
Inductive Stage : Type :=
| AwaitClassification
| AwaitDispatch
| AwaitInterdiction
| AwaitOutcome
| Closed (err : option error).

(** The code of each stage after its signal is received, up to the next
    [Select] or return. *)
Definition classification_stage (attempts : list Attempt) (input : AlertInput)
    (classification : ClassificationSignal) : M World Stage :=
  _ ← check (AnalystID classification =s "") (EText "classification signal requires an analyst identity");
  analystClearance ← lift (wrap_err "classification signal carries an invalid clearance"
                             (ParseClassification (Clearance classification)));
  if negb (Covers analystClearance (al_classification input)) then
    _ ← audit attempts input StateAlerted StateRejected (AnalystID classification)
          "analyst clearance below alert classification";
    throw (EText "analyst clearance does not cover the alert classification (fail-closed)")
  else if negb (Confirmed classification) then
    _ ← audit attempts input StateAlerted StateRejected (AnalystID classification)
          "analyst did not confirm the alert";
    mret (Closed None)
  else
    _ ← audit attempts input StateAlerted StateClassified (AnalystID classification)
          (Assessment classification);
    mret AwaitDispatch.

Definition dispatch_stage (attempts : list Attempt) (input : AlertInput) (dispatch : DispatchSignal)
    : M World Stage :=
  _ ← check ((di_officer dispatch =s "") || (di_unit dispatch =s ""))
        (EText "dispatch signal requires an officer identity and unit");
  if negb (Approved dispatch) then
    _ ← audit attempts input StateClassified StateRejected (di_officer dispatch) "dispatch not approved";
    mret (Closed None)
  else
    _ ← audit attempts input StateClassified StateDispatched (di_officer dispatch)
          ("unit " +:+ di_unit dispatch);
    mret AwaitInterdiction.

Definition interdiction_stage (attempts : list Attempt) (input : AlertInput)
    (interdiction : InterdictionSignal) : M World Stage :=
  _ ← check ((it_officer interdiction =s "") || (it_outcome interdiction =s ""))
        (EText "interdiction signal requires an officer identity and outcome");
  _ ← audit attempts input StateDispatched StateInterdicted (it_officer interdiction)
        (it_outcome interdiction);
  mret AwaitOutcome.

Definition outcome_stage (record attempts : list Attempt) (input : AlertInput) (outcome : OutcomeSignal)
    : M World Stage :=
  _ ← check ((RecorderID outcome =s "") || (IncidentRef outcome =s ""))
        (EText "outcome signal requires a recorder identity and incident reference");
  _ ← record_activity record input outcome;
  _ ← audit attempts input StateInterdicted StateOutcomeCapture (RecorderID outcome)
        ("incident " +:+ IncidentRef outcome);
  mret (Closed None).

(** The signal channels, oldest signal first. *)
Record Channels : Type := mkChannels {
  ch_classification : list ClassificationSignal;
  ch_dispatch : list DispatchSignal;
  ch_interdiction : list InterdictionSignal;
  ch_outcome : list OutcomeSignal
}.

Record Execution : Type := mkExecution {
  ex_input : AlertInput;
  ex_stage : Stage;
  ex_channels : Channels;
  ex_run : Run
}.

(** The start of the workflow, up to its first [Select]. *)
Definition ISRResponseWorkflow (input : AlertInput) : result Execution :=
  _ ← fail_if ((AlertID input =s "") || (al_anomaly input =s ""))
        (EText "alert_id and anomaly_id are required");
  _ ← ParseClassification (al_classification input);
  Ok (mkExecution input AwaitClassification (mkChannels [] [] [] []) (mkRun StateAlerted [])).

(** The execution after a stage ran. *)
Definition settle_stage (ex : Execution) (channels : Channels) (m : M World Stage) (t : ISROutbox)
    : Execution * ISROutbox :=
  match m (ex_run ex, t) with
  | (Ok stage, (run, t')) => (mkExecution (ex_input ex) stage channels run, t')
  | (Err e, (run, t')) => (mkExecution (ex_input ex) (Closed (Some e)) channels run, t')
  end.

(** One stage, when its channel holds a signal; [None] means blocked or
    returned.  [record] are the attempts of the outcome activity. *)
Definition advance (record attempts : list Attempt) (ex : Execution) (t : ISROutbox)
    : option (Execution * ISROutbox) :=
  let ch := ex_channels ex in
  match ex_stage ex with
  | AwaitClassification =>
      match ch_classification ch with
      | [] => None
      | s :: rest =>
          Some (settle_stage ex (mkChannels rest (ch_dispatch ch) (ch_interdiction ch) (ch_outcome ch))
                  (classification_stage attempts (ex_input ex) s) t)
      end
  | AwaitDispatch =>
      match ch_dispatch ch with
      | [] => None
      | s :: rest =>
          Some (settle_stage ex (mkChannels (ch_classification ch) rest (ch_interdiction ch) (ch_outcome ch))
                  (dispatch_stage attempts (ex_input ex) s) t)
      end
  | AwaitInterdiction =>
      match ch_interdiction ch with
      | [] => None
      | s :: rest =>
          Some (settle_stage ex (mkChannels (ch_classification ch) (ch_dispatch ch) rest (ch_outcome ch))
                  (interdiction_stage attempts (ex_input ex) s) t)
      end
  | AwaitOutcome =>
      match ch_outcome ch with
      | [] => None
      | s :: rest =>
          Some (settle_stage ex (mkChannels (ch_classification ch) (ch_dispatch ch) (ch_interdiction ch) rest)
                  (outcome_stage record attempts (ex_input ex) s) t)
      end
  | Closed _ => None
  end.

Inductive Signal : Type :=
| SClassification (s : ClassificationSignal)
| SDispatch (s : DispatchSignal)
| SInterdiction (s : InterdictionSignal)
| SOutcome (s : OutcomeSignal).

Definition deliver_signal (s : Signal) (ch : Channels) : Channels :=
  match s with
  | SClassification s =>
      mkChannels (ch_classification ch ++ [s]) (ch_dispatch ch) (ch_interdiction ch) (ch_outcome ch)
  | SDispatch s =>
      mkChannels (ch_classification ch) (ch_dispatch ch ++ [s]) (ch_interdiction ch) (ch_outcome ch)
  | SInterdiction s =>
      mkChannels (ch_classification ch) (ch_dispatch ch) (ch_interdiction ch ++ [s]) (ch_outcome ch)
  | SOutcome s =>
      mkChannels (ch_classification ch) (ch_dispatch ch) (ch_interdiction ch) (ch_outcome ch ++ [s])
  end.

(** An execution among senders of signals and other users of the outbox; the
    list holds the signals delivered so far, in order. *)
Inductive wf_run (input : AlertInput) (t0 : ISROutbox) : list Signal → Execution → ISROutbox → Prop :=
| wf_start ex : ISRResponseWorkflow input = Ok ex → wf_run input t0 [] ex t0
| wf_signal sigs ex t s :
    wf_run input t0 sigs ex t →
    wf_run input t0 (sigs ++ [s])
      (mkExecution (ex_input ex) (ex_stage ex) (deliver_signal s (ex_channels ex)) (ex_run ex)) t
| wf_task sigs ex t record attempts ex' t' :
    wf_run input t0 sigs ex t → advance record attempts ex t = Some (ex', t') →
    wf_run input t0 sigs ex' t'
| wf_other sigs ex t l t' :
    wf_run input t0 sigs ex t → outbox_step t l t' → wf_run input t0 sigs ex t'.

End activities.
