(* ===== verification/WorkflowProofs.v ===== *)
(** * Properties of the ISR response workflow

    The history of an execution against the path that its signals determine,
    the audit trail in the outbox, and completion. *)

From S2P Require Import Prelude GoStrings GoTime Classification Detection Outbox Envelope Workflow.

(** ** The path the signals determine

    The specification of the workflow: each stage judges the first signal of
    its channel, and the path goes on as long as the verdicts pass.  Neither the
    order in which signals of different channels arrive, nor later signals of a
    channel, nor the activities occur in it. *)

Inductive Verdict : Type :=
| VInvalid
| VReject (entry : AuditEntry)
| VPass (entry : AuditEntry).

Definition judge_classification (input : AlertInput) (s : ClassificationSignal) : Verdict :=
  if (AnalystID s =s "") || bool_decide (Clearance s ∉ all_labels) then VInvalid
  else if negb (Covers (Clearance s) (al_classification input)) then
    VReject (mkAudit StateAlerted StateRejected (AnalystID s) "analyst clearance below alert classification")
  else if negb (Confirmed s) then
    VReject (mkAudit StateAlerted StateRejected (AnalystID s) "analyst did not confirm the alert")
  else VPass (mkAudit StateAlerted StateClassified (AnalystID s) (Assessment s)).

Definition judge_dispatch (s : DispatchSignal) : Verdict :=
  if (di_officer s =s "") || (di_unit s =s "") then VInvalid
  else if negb (Approved s) then
    VReject (mkAudit StateClassified StateRejected (di_officer s) "dispatch not approved")
  else VPass (mkAudit StateClassified StateDispatched (di_officer s) ("unit " +:+ di_unit s)).

Definition judge_interdiction (s : InterdictionSignal) : Verdict :=
  if (it_officer s =s "") || (it_outcome s =s "") then VInvalid
  else VPass (mkAudit StateDispatched StateInterdicted (it_officer s) (it_outcome s)).

Definition judge_outcome (s : OutcomeSignal) : Verdict :=
  if (RecorderID s =s "") || (IncidentRef s =s "") then VInvalid
  else VPass (mkAudit StateInterdicted StateOutcomeCapture (RecorderID s) ("incident " +:+ IncidentRef s)).

(** The signals of one channel among those delivered. *)
Definition classifications : list Signal → list ClassificationSignal :=
  omap (λ s, match s with SClassification x => Some x | _ => None end).
Definition dispatches : list Signal → list DispatchSignal :=
  omap (λ s, match s with SDispatch x => Some x | _ => None end).
Definition interdictions : list Signal → list InterdictionSignal :=
  omap (λ s, match s with SInterdiction x => Some x | _ => None end).
Definition outcomes : list Signal → list OutcomeSignal :=
  omap (λ s, match s with SOutcome x => Some x | _ => None end).

Definition follow (v : option Verdict) (rest : list AuditEntry) : list AuditEntry :=
  match v with
  | None | Some VInvalid => []
  | Some (VReject e) => [e]
  | Some (VPass e) => e :: rest
  end.

(** The entries still to come when the workflow stands at a stage. *)
Definition rest_path (input : AlertInput) (stage : Stage) (sigs : list Signal) : list AuditEntry :=
  let outcome := follow (judge_outcome <$> head (outcomes sigs)) [] in
  let interdiction := follow (judge_interdiction <$> head (interdictions sigs)) outcome in
  let dispatch := follow (judge_dispatch <$> head (dispatches sigs)) interdiction in
  match stage with
  | AwaitClassification => follow (judge_classification input <$> head (classifications sigs)) dispatch
  | AwaitDispatch => dispatch
  | AwaitInterdiction => interdiction
  | AwaitOutcome => outcome
  | Closed _ => []
  end.

Definition response_path (input : AlertInput) (sigs : list Signal) : list AuditEntry :=
  rest_path input AwaitClassification sigs.

(** The state a history ends in. *)
Definition final_state (h : list AuditEntry) : ResponseState :=
  match last h with Some e => ae_to e | None => StateAlerted end.

Definition push_entry (e : AuditEntry) (run : Run) : Run := mkRun (ae_to e) (run_history run ++ [e]).

(** ** One stage *)

Section stages.
Context `{JsonText} (pg_time : Z → Z).

(** What a stage with verdict [v] and successor [next] makes of a run. *)
Definition stage_result (v : Verdict) (next : Stage) (run : Run) (r : result Stage) (run' : Run) : Prop :=
  (∃ er, r = Err er ∧ (run' = run ∨ ∃ e, v = VReject e ∧ run' = push_entry e run)) ∨
  (∃ e, v = VReject e ∧ r = Ok (Closed None) ∧ run' = push_entry e run) ∨
  (∃ e, v = VPass e ∧ r = Ok next ∧ run' = push_entry e run).

Lemma audit_cases attempts input from to actor detail run t r run' t' :
  audit pg_time attempts input from to actor detail (run, t) = (r, (run', t')) →
  (r = Ok tt ∧ run' = push_entry (mkAudit from to actor detail) run) ∨ (∃ e, r = Err e ∧ run' = run).
Proof.
  unfold audit. cbn [fst snd]. destruct (execute_activity _ _ t) as [[u|e] t1]; intros [= <- <- <-].
  - by left.
  - right. eauto.
Qed.

(** An audited stage end. *)
Ltac stage_end E :=
  lazymatch type of E with
  | context [audit ?p ?at_ ?i ?f ?t ?a ?d ?w] =>
      let r := fresh "r" in let run1 := fresh "run" in let t1 := fresh "t" in let Ha := fresh "Ha" in
      destruct (audit p at_ i f t a d w) as [r [run1 t1]] eqn:Ha;
      apply audit_cases in Ha as [[-> ->]|(?&->&->)]
  end.

Lemma classification_result attempts input s run t r run' t' :
  classification_stage pg_time attempts input s (run, t) = (r, (run', t')) →
  stage_result (judge_classification input s) AwaitDispatch run r run'.
Proof.
  unfold classification_stage, judge_classification. run_store.
  destruct (AnalystID s =s ""); [intros [= <- <- _]; left; eauto|]. run_store.
  destruct (ParseClassification (Clearance s)) as [l|e] eqn:El; simpl wrap_err; run_store.
  2:{ intros [= <- <- _]. left. eauto. }
  apply ParseClassification_Ok in El as [Hl ->].
  rewrite bool_decide_eq_false_2 by (intros Hn; by apply Hn).
  cbn [orb]. destruct (Covers _ _); cbn [negb]; [destruct (Confirmed s); cbn [negb]|]; run_store; intros E;
    stage_end E; injection E as <- <- _; unfold stage_result; eauto 8.
Qed.

Lemma dispatch_result attempts input s run t r run' t' :
  dispatch_stage pg_time attempts input s (run, t) = (r, (run', t')) →
  stage_result (judge_dispatch s) AwaitInterdiction run r run'.
Proof.
  unfold dispatch_stage, judge_dispatch. run_store.
  destruct ((di_officer s =s "") || _); [intros [= <- <- _]; left; eauto|]. run_store.
  destruct (Approved s); cbn [negb]; run_store; intros E;
    stage_end E; injection E as <- <- _; unfold stage_result; eauto 8.
Qed.

Lemma interdiction_result attempts input s run t r run' t' :
  interdiction_stage pg_time attempts input s (run, t) = (r, (run', t')) →
  stage_result (judge_interdiction s) AwaitOutcome run r run'.
Proof.
  unfold interdiction_stage, judge_interdiction. run_store.
  destruct ((it_officer s =s "") || _); [intros [= <- <- _]; left; eauto|]. run_store.
  intros E; stage_end E; injection E as <- <- _; unfold stage_result; eauto 8.
Qed.

Lemma outcome_result record attempts input s run t r run' t' :
  outcome_stage pg_time record attempts input s (run, t) = (r, (run', t')) →
  stage_result (judge_outcome s) (Closed None) run r run'.
Proof.
  unfold outcome_stage, judge_outcome. run_store.
  destruct ((RecorderID s =s "") || _); [intros [= <- <- _]; left; eauto|]. run_store.
  unfold record_activity at 1. cbn [fst snd]. destruct (execute_activity _ record t) as [[u|e] t1].
  2:{ intros [= <- <- _]. left. eauto. }
  run_store. intros E; stage_end E; injection E as <- <- _; unfold stage_result; eauto 8.
Qed.

(** ** Where an execution stands *)

Definition channels_at (stage : Stage) (ch : Channels) (sigs : list Signal) : Prop :=
  match stage with
  | AwaitClassification =>
      ch = mkChannels (classifications sigs) (dispatches sigs) (interdictions sigs) (outcomes sigs)
  | AwaitDispatch =>
      ch_dispatch ch = dispatches sigs ∧ ch_interdiction ch = interdictions sigs ∧ ch_outcome ch = outcomes sigs
  | AwaitInterdiction => ch_interdiction ch = interdictions sigs ∧ ch_outcome ch = outcomes sigs
  | AwaitOutcome => ch_outcome ch = outcomes sigs
  | Closed _ => True
  end.

(** The history so far and what the stage leaves to come make the path, now
    and after any further signals; a run that was cut off has a prefix. *)
Definition path_at (input : AlertInput) (stage : Stage) (h : list AuditEntry) (sigs : list Signal) : Prop :=
  ∀ more, match stage with
          | Closed (Some _) => h `prefix_of` response_path input (sigs ++ more)
          | _ => response_path input (sigs ++ more) = h ++ rest_path input stage (sigs ++ more)
          end.

Record wf_inv (input : AlertInput) (sigs : list Signal) (ex : Execution) : Prop := {
  wi_input : ex_input ex = input;
  wi_state : run_state (ex_run ex) = final_state (run_history (ex_run ex));
  wi_channels : channels_at (ex_stage ex) (ex_channels ex) sigs;
  wi_path : path_at input (ex_stage ex) (run_history (ex_run ex)) sigs
}.

Lemma final_state_push h e : final_state (h ++ [e]) = ae_to e.
Proof. unfold final_state. by rewrite last_snoc. Qed.

(** A stage whose verdict is [v] moves the execution along the path. *)
Lemma stage_result_inv input sigs v next stage ch' run r run' :
  path_at input stage (run_history run) sigs →
  run_state run = final_state (run_history run) →
  (∀ more, rest_path input stage (sigs ++ more) = follow (Some v) (rest_path input next (sigs ++ more))) →
  match stage with Closed _ => False | _ => True end →
  channels_at next ch' sigs →
  stage_result v next run r run' →
  wf_inv input sigs (mkExecution input (match r with Ok s => s | Err e => Closed (Some e) end) ch' run').
Proof.
  intros Hp Hs Hv Hst Hch Hr.
  assert (Hp' : ∀ more, response_path input (sigs ++ more) =
    run_history run ++ follow (Some v) (rest_path input next (sigs ++ more))).
  { intros more. rewrite <- Hv. specialize (Hp more). by destruct stage. }
  destruct Hr as [(er&->&[->|(e&->&->)])|[(e&->&->&->)|(e&->&->&->)]]; split; simpl; try done;
    rewrite ?final_state_push; try done; intros more.
  - rewrite Hp'. by eexists.
  - rewrite Hp'. exists []. by rewrite app_nil_r.
  - by rewrite Hp', app_nil_r.
  - rewrite Hp'. simpl. rewrite <- app_assoc. by destruct next as [| | | |[]].
Qed.

Lemma deliver_channels stage ch sigs s :
  channels_at stage ch sigs → channels_at stage (deliver_signal s ch) (sigs ++ [s]).
Proof.
  unfold channels_at, classifications, dispatches, interdictions, outcomes. rewrite !omap_app.
  destruct stage, s; simpl; intros; split_hyps; subst; simpl; rewrite ?app_nil_r; split_and?;
    first [done|congruence].
Qed.

Lemma omap_head {A B} (f : A → option B) xs ys b rest :
  omap f xs = b :: rest → head (omap f (xs ++ ys)) = Some b.
Proof. intros E. by rewrite omap_app, E. Qed.

Lemma settle_stage_inv sigs ex t ch' m ex' t' v next :
  wf_inv (ex_input ex) sigs ex →
  (∀ more, rest_path (ex_input ex) (ex_stage ex) (sigs ++ more) =
             follow (Some v) (rest_path (ex_input ex) next (sigs ++ more))) →
  match ex_stage ex with Closed _ => False | _ => True end →
  channels_at next ch' sigs →
  (∀ r run' t1, m (ex_run ex, t) = (r, (run', t1)) → stage_result v next (ex_run ex) r run') →
  settle_stage ex ch' m t = (ex', t') → wf_inv (ex_input ex) sigs ex'.
Proof.
  intros [_ Hs _ Hp] Hv Hst Hch Hm E. unfold settle_stage in E.
  destruct (m (ex_run ex, t)) as [r [run' t1]]. specialize (Hm _ _ _ eq_refl) as Em.
  pose proof (stage_result_inv _ _ _ _ _ _ _ _ _ Hp Hs Hv Hst Hch Em) as H'.
  by destruct r; injection E as <- _.
Qed.

Lemma advance_inv input sigs record attempts ex t ex' t' :
  wf_inv input sigs ex → advance pg_time record attempts ex t = Some (ex', t') → wf_inv input sigs ex'.
Proof.
  intros Hi Ha. pose proof Hi as [<- _ Hch _]. unfold advance in Ha.
  destruct (ex_stage ex) eqn:Est; try done; simpl in Hch.
  - rewrite Hch in Ha. simpl in Ha. destruct (classifications sigs) as [|s rest] eqn:Ec; [done|].
    injection Ha as Ha. eapply (settle_stage_inv _ _ _ _ _ _ _ (judge_classification (ex_input ex) s) AwaitDispatch); [exact Hi|rewrite Est|by rewrite Est| | |exact Ha].
    + intros more. simpl. unfold classifications, dispatches, interdictions, outcomes. rewrite (omap_head _ _ more _ _ Ec). reflexivity.
    + by simpl.
    + intros r run' t1. apply classification_result.
  - destruct Hch as (Hd&Hit&Ho). destruct (ch_dispatch _) as [|s rest]; [done|]. symmetry in Hd.
    injection Ha as Ha. eapply (settle_stage_inv _ _ _ _ _ _ _ (judge_dispatch s) AwaitInterdiction); [exact Hi|rewrite Est|by rewrite Est| | |exact Ha].
    + intros more. simpl. unfold classifications, dispatches, interdictions, outcomes. rewrite (omap_head _ _ more _ _ Hd). reflexivity.
    + by simpl.
    + intros r run' t1. apply dispatch_result.
  - destruct Hch as (Hit&Ho). destruct (ch_interdiction _) as [|s rest]; [done|]. symmetry in Hit.
    injection Ha as Ha. eapply (settle_stage_inv _ _ _ _ _ _ _ (judge_interdiction s) AwaitOutcome); [exact Hi|rewrite Est|by rewrite Est| | |exact Ha].
    + intros more. simpl. unfold classifications, dispatches, interdictions, outcomes. rewrite (omap_head _ _ more _ _ Hit). reflexivity.
    + by simpl.
    + intros r run' t1. apply interdiction_result.
  - destruct (ch_outcome _) as [|s rest]; [done|]. symmetry in Hch.
    injection Ha as Ha. eapply (settle_stage_inv _ _ _ _ _ _ _ (judge_outcome s) (Closed None)); [exact Hi|rewrite Est|by rewrite Est| | |exact Ha].
    + intros more. simpl. unfold classifications, dispatches, interdictions, outcomes. rewrite (omap_head _ _ more _ _ Hch). reflexivity.
    + by simpl.
    + intros r run' t1. apply outcome_result.
Qed.

Lemma wf_run_inv input t0 sigs ex t : wf_run pg_time input t0 sigs ex t → wf_inv input sigs ex.
Proof.
  induction 1 as [ex Hs|sigs ex t s _ [? ? Hch Hp]|sigs ex t record attempts ex' t' _ IH Ha|]; [| |by eapply advance_inv|done].
  - unfold ISRResponseWorkflow in Hs. inv_ok Hs. by split.
  - split; simpl; try done; [by apply deliver_channels|].
    intros more. rewrite <- app_assoc. apply (Hp ([s] ++ more)).
Qed.

(** ** The audit trail *)

(** The ISR row of a transition and of the recorded outcome. *)
Definition announces (input : AlertInput) (e : AuditEntry) (i : ISREvent) : Prop :=
  ie_topic i = TopicISR ∧ ie_event_type i = "isr.response_transition" ∧
  ie_aggregate_key i = AlertID input ∧ ie_classification i = ClassificationRestricted ∧
  (λ k, env_resource (ie_envelope i) !! k) <$> ["from"; "to"; "actor"; "detail"] =
    Some ∘ JString <$> [ae_from e; ae_to e; Actor e; ae_detail e].

Definition records_outcome (input : AlertInput) (ref : string) (i : ISREvent) : Prop :=
  ie_topic i = TopicOutcome ∧ ie_aggregate_key i = AlertID input ∧
  ie_classification i = ClassificationRestricted ∧
  env_resource (ie_envelope i) !! "incident_ref" = Some (JString ref).

Definition has_row (P : ISREvent → Prop) (t : gmap string (Row ISREvent)) : Prop :=
  ∃ id r, t !! id = Some r ∧ P (row_info r).

(** The outbox keeps what it holds. *)
Definition keeps (t t' : gmap string (Row ISREvent)) : Prop :=
  ∀ id r, t !! id = Some r → ∃ r', t' !! id = Some r' ∧ row_info r' = row_info r.

#[local] Instance keeps_preorder : PreOrder keeps.
Proof.
  split; [intros t id r; eauto|]. intros t1 t2 t3 H12 H23 id r Hr.
  destruct (H12 _ _ Hr) as (r2&H2&<-). by apply H23.
Qed.

Lemma has_row_keeps P t t' : has_row P t → keeps t t' → has_row P t'.
Proof. intros (id&r&Hr&HP) Hk. destruct (Hk _ _ Hr) as (r'&?&Hi). exists id, r'. by rewrite Hi. Qed.

Lemma keeps_insert t id r : t !! id = None → keeps t (<[id := r]> t).
Proof. intros Hn i r' Hr. exists r'. by rewrite lookup_insert_ne by congruence. Qed.

Lemma keeps_step t l t' : outbox_step t l t' → keeps t t'.
Proof.
  intros Hs id r Hr.
  destruct (outbox_step_row _ _ _ _ _ Hs Hr) as [?|[_ [(w&a&c&_&?&_)|[(w&a&_&_&?)|(w&a&f&_&_&?)]]]];
    eexists; (split; [eassumption|done]).
Qed.

Lemma appendOutbox_Ok env topic et key members t t' :
  appendOutbox pg_time env topic et key (JObject members) t = (Ok tt, t') ↔
  ∃ band, sealable topic et key ClassificationRestricted (act_now env) members ∧
    EnvelopeClassificationOf ClassificationRestricted = Ok band ∧ t !! act_event_id env = None ∧
    t' = <[act_event_id env :=
             new_row (mkISREvent topic et ClassificationRestricted key
                        (sealed (act_envelope_id env) topic et key ClassificationRestricted (act_now env)
                           members band)) (pg_time (act_now env)) (act_db_now env)]> t.
Proof.
  unfold appendOutbox. run_store. destruct (Seal _ _ _ _ _ _ _) as [e|er] eqn:Es.
  - apply Seal_Ok in Es as (?&band&[= <-]&Hs&Hb&->). rewrite insert_isr_outbox_Ok. simpl. split.
    + intros (?&_&_&->). exists band. done.
    + intros (?&_&?&Hn&->). assert (x = band) as -> by congruence. destruct Hs as (?&?&_). done.
  - split; [done|]. intros (band&Hs&Hb&_). exfalso.
    assert (Hok : Seal (act_envelope_id env) topic et key ClassificationRestricted (act_now env) (JObject members) =
      Ok (sealed (act_envelope_id env) topic et key ClassificationRestricted (act_now env) members band))
      by (apply Seal_Ok; eauto 8). congruence.
Qed.

Lemma appendOutbox_keeps env topic et key members t r t' :
  appendOutbox pg_time env topic et key (JObject members) t = (r, t') → keeps t t'.
Proof.
  intros E. destruct r as [[]|e].
  - apply appendOutbox_Ok in E as (band&_&_&Hn&->). by apply keeps_insert.
  - unfold appendOutbox in E. revert E. run_store. destruct (Seal _ _ _ _ _ _ _); [|by intros [= _ <-]].
    unfold insert_isr_outbox. run_store. repeat case_bool_decide; run_store; by intros [= _ <-].
Qed.

(** What an activity keeps holds through all its attempts, and a completed
    activity completed in one of them. *)
Lemma execute_activity_keeps act attempts t r t' :
  (∀ env s r s', act env s = (r, s') → keeps s s') →
  execute_activity act attempts t = (r, t') →
  keeps t t' ∧ (r = Ok tt → ∃ env s, act env s = (Ok tt, t')).
Proof.
  intros Hact. revert t. induction attempts as [|a rest IH]; intros t; simpl.
  { by intros [= <- <-]. }
  destruct (act (at_env a) t) as [[[]|e] t1] eqn:Ea; pose proof (Hact _ _ _ _ Ea) as Hk.
  - destruct (at_reported a).
    + intros [= <- <-]. eauto.
    + intros [? ?]%IH. split; [by etrans|done].
  - destruct rest as [|b rest].
    + by intros [= <- <-].
    + intros [? ?]%IH. split; [by etrans|done].
Qed.

Lemma audit_keeps attempts input from to actor detail run t r run' t' :
  audit pg_time attempts input from to actor detail (run, t) = (r, (run', t')) →
  keeps t t' ∧ (r = Ok tt → has_row (announces input (mkAudit from to actor detail)) t').
Proof.
  unfold audit. cbn [fst snd]. destruct (execute_activity _ _ t) as [ra t1] eqn:Ee.
  apply execute_activity_keeps in Ee as [Hk Hok]; [|by intros; eapply appendOutbox_keeps].
  intros E. assert (t1 = t') as -> by (destruct ra; congruence). split; [done|]. intros ->.
  destruct ra as [[]|]; [|done]. destruct Hok as (env&s&Hs); [done|].
  apply appendOutbox_Ok in Hs as (band&_&_&_&->). eexists (act_event_id env), _.
  split; [apply (lookup_insert_eq (M := gmap string))|]. unfold announces. done.
Qed.

(** A stage adds at most one entry, and leaves it announced; the entry of the
    outcome comes after the recorded outcome. *)
Definition entry_backed (input : AlertInput) (t : gmap string (Row ISREvent)) (e : AuditEntry) : Prop :=
  has_row (announces input e) t ∧
  (ae_to e = StateOutcomeCapture →
     ∃ ref, ae_detail e = "incident " +:+ ref ∧ has_row (records_outcome input ref) t).

Definition trailing (input : AlertInput) (m : M World Stage) : Prop := ∀ run t r run' t',
  m (run, t) = (r, (run', t')) →
  keeps t t' ∧ (run' = run ∨ ∃ e, run' = push_entry e run ∧ entry_backed input t' e).

Lemma trailing_audit input attempts from to actor detail (k : result Stage) :
  to ≠ StateOutcomeCapture →
  trailing input (_ ← audit pg_time attempts input from to actor detail; lift k).
Proof.
  intros Hto run t r run' t'. run_store.
  destruct (audit pg_time _ _ _ _ _ _ _) as [ra [run1 t1]] eqn:Ea.
  pose proof (audit_keeps _ _ _ _ _ _ _ _ _ _ _ Ea) as [Hk Hrow].
  apply audit_cases in Ea as [[-> ->]|(e&->&->)]; unfold lift; intros [= <- <- <-]; (split; [done|]).
  - right. eexists. split; [done|]. split; [by apply Hrow|done].
  - by left.
Qed.

Lemma trailing_check input c e m : trailing input m → trailing input (_ ← check c e; m).
Proof.
  intros Hm run t r run' t'. run_store. destruct c; [|apply Hm].
  intros [= <- <- <-]. split; [done|by left].
Qed.

Lemma trailing_outcome input record attempts s : trailing input (outcome_stage pg_time record attempts input s).
Proof.
  unfold outcome_stage. apply trailing_check. intros run t r run' t'. run_store. unfold record_activity at 1.
  cbn [fst snd]. destruct (execute_activity _ record t) as [rr t1] eqn:Er.
  apply execute_activity_keeps in Er as [Hk1 Hok]; [|by intros; eapply appendOutbox_keeps].
  destruct rr as [[]|e]; [|by intros [= <- <- <-]; split; [|left]]. run_store.
  destruct (audit pg_time _ _ _ _ _ _ _) as [ra [run1 t2]] eqn:Ea.
  pose proof (audit_keeps _ _ _ _ _ _ _ _ _ _ _ Ea) as [Hk Hrow].
  apply audit_cases in Ea as [[-> ->]|(e&->&->)]; intros [= <- <- <-]; (split; [by etrans|]); [right|by left].
  eexists. split; [done|]. split; [by apply Hrow|]. intros _. eexists. split; [done|].
  destruct Hok as (env&s1&Hs); [done|]. apply appendOutbox_Ok in Hs as (band&_&_&_&->).
  eapply has_row_keeps; [|exact Hk]. eexists (act_event_id env), _.
  split; [apply (lookup_insert_eq (M := gmap string))|]. done.
Qed.

Lemma trailing_stages input attempts :
  (∀ s, trailing input (classification_stage pg_time attempts input s)) ∧
  (∀ s, trailing input (dispatch_stage pg_time attempts input s)) ∧
  (∀ s, trailing input (interdiction_stage pg_time attempts input s)).
Proof.
  split_and!; intros s; apply trailing_check.
  - intros run t r run' t'. run_store. destruct (wrap_err _ _) as [l|e]; [|by intros [= <- <- <-]; split; [|left]].
    destruct (Covers _ _), (Confirmed s); cbn [negb]; by apply trailing_audit.
  - destruct (Approved s); by apply trailing_audit.
  - by apply trailing_audit.
Qed.

Definition trail (ex : Execution) (t : gmap string (Row ISREvent)) : Prop :=
  Forall (entry_backed (ex_input ex) t) (run_history (ex_run ex)).

Lemma trail_keeps ex t t' : trail ex t → keeps t t' → trail ex t'.
Proof.
  intros Ht Hk. eapply Forall_impl; [exact Ht|]. intros e [Ha Ho]. split; [by eapply has_row_keeps|].
  intros Hto. destruct (Ho Hto) as (ref&?&?). exists ref. split; [done|by eapply has_row_keeps].
Qed.

Lemma settle_stage_trail ex ch m (t : ISROutbox) ex' t' :
  trailing (ex_input ex) m → trail ex t → settle_stage ex ch m t = (ex', t') → trail ex' t'.
Proof.
  intros Hm Ht E. unfold settle_stage in E. destruct (m (ex_run ex, t)) as [r [run' t1]] eqn:Em.
  apply Hm in Em as [Hk Hrun].
  assert (Hex : ex_input ex' = ex_input ex ∧ ex_run ex' = run' ∧ t' = t1)
    by (destruct r; by injection E as <- <-).
  destruct Hex as (Hi&Hr&->). unfold trail. rewrite Hi, Hr.
  pose proof (trail_keeps _ _ _ Ht Hk) as Ht'.
  destruct Hrun as [->|(e&->&He)]; [exact Ht'|]. simpl. apply Forall_app. split; [exact Ht'|by constructor].
Qed.

Lemma advance_trail record attempts ex t ex' t' :
  trail ex t → advance pg_time record attempts ex t = Some (ex', t') → trail ex' t'.
Proof.
  intros Ht Ha. pose proof (trailing_stages (ex_input ex) attempts) as (H1&H2&H3).
  pose proof (trailing_outcome (ex_input ex) record attempts) as H4.
  unfold advance in Ha.
  destruct (ex_stage ex);
    [destruct (ch_classification _)|destruct (ch_dispatch _)|destruct (ch_interdiction _)
    |destruct (ch_outcome _)|]; try done; injection Ha as Ha;
    (eapply settle_stage_trail; [|exact Ht|exact Ha]); auto.
Qed.

Lemma wf_run_trail input t0 sigs ex t : wf_run pg_time input t0 sigs ex t → trail ex t.
Proof.
  induction 1 as [ex Hs|sigs ex t s _ IH|sigs ex t record attempts ex' t' _ IH Ha|sigs ex t l t' _ IH Hs].
  - unfold ISRResponseWorkflow in Hs. inv_ok Hs. constructor.
  - exact IH.
  - by eapply advance_trail.
  - eapply trail_keeps; [exact IH|by eapply keeps_step].
Qed.

End stages.

(** ** The gates of a captured outcome *)

Definition classification_gate (input : AlertInput) (s : ClassificationSignal) : Prop :=
  AnalystID s ≠ "" ∧ Covers (Clearance s) (al_classification input) = true ∧ Confirmed s = true.
Definition dispatch_gate (s : DispatchSignal) : Prop :=
  di_officer s ≠ "" ∧ di_unit s ≠ "" ∧ Approved s = true.
Definition interdiction_gate (s : InterdictionSignal) : Prop := it_officer s ≠ "" ∧ it_outcome s ≠ "".
Definition outcome_gate (s : OutcomeSignal) : Prop := RecorderID s ≠ "" ∧ IncidentRef s ≠ "".

Lemma judge_classification_to input s e :
  (judge_classification input s = VReject e → ae_to e = StateRejected) ∧
  (judge_classification input s = VPass e → ae_to e = StateClassified ∧ classification_gate input s).
Proof.
  unfold judge_classification, classification_gate.
  destruct (AnalystID s =s "") eqn:E1; [done|]. destruct (bool_decide _); [done|]. cbn [orb].
  destruct (Covers _ _) eqn:E2, (Confirmed s) eqn:E3; cbn [negb]; split; intros [= <-]; try done.
  apply String.eqb_neq in E1. done.
Qed.

Lemma judge_dispatch_to s e :
  (judge_dispatch s = VReject e → ae_to e = StateRejected) ∧
  (judge_dispatch s = VPass e → ae_to e = StateDispatched ∧ dispatch_gate s).
Proof.
  unfold judge_dispatch, dispatch_gate.
  destruct (di_officer s =s "") eqn:E1; [done|]. destruct (di_unit s =s "") eqn:E2; [done|]. cbn [orb].
  apply String.eqb_neq in E1, E2. destruct (Approved s); cbn [negb]; split; by intros [= <-].
Qed.

Lemma judge_interdiction_to s e :
  judge_interdiction s ≠ VReject e ∧
  (judge_interdiction s = VPass e → ae_to e = StateInterdicted ∧ interdiction_gate s).
Proof.
  unfold judge_interdiction, interdiction_gate.
  destruct (it_officer s =s "") eqn:E1; [done|]. destruct (it_outcome s =s "") eqn:E2; [done|]. cbn [orb].
  apply String.eqb_neq in E1, E2. split; [done|]; by intros [= <-].
Qed.

Lemma judge_outcome_to s e :
  judge_outcome s ≠ VReject e ∧ (judge_outcome s = VPass e → outcome_gate s).
Proof.
  unfold judge_outcome, outcome_gate.
  destruct (RecorderID s =s "") eqn:E1; [done|]. destruct (IncidentRef s =s "") eqn:E2; [done|]. cbn [orb].
  apply String.eqb_neq in E1, E2. done.
Qed.

Lemma prefix_follow h v rest :
  h `prefix_of` follow v rest →
  h = [] ∨ (∃ e, v = Some (VReject e) ∧ h = [e]) ∨
  (∃ e h', v = Some (VPass e) ∧ h = e :: h' ∧ h' `prefix_of` rest).
Proof.
  destruct h as [|x h]; [by left|]. destruct v as [[|e|e]|]; simpl; intros Hp.
  - by apply prefix_nil_inv in Hp.
  - pose proof (prefix_cons_inv_1 _ _ _ _ Hp) as ->. apply prefix_cons_inv_2, prefix_nil_inv in Hp as ->. eauto.
  - pose proof (prefix_cons_inv_1 _ _ _ _ Hp) as ->. apply prefix_cons_inv_2 in Hp. eauto 8.
  - by apply prefix_nil_inv in Hp.
Qed.

Lemma final_state_cons e h :
  final_state (e :: h) = match h with [] => ae_to e | _ => final_state h end.
Proof. unfold final_state. destruct h; [done|]. by rewrite last_cons_cons. Qed.

(** A history that ends in a captured outcome passed its next stage. *)
Lemma gate_passed {S} (judge : S → Verdict) (x : option S) rest h :
  (∀ s e, judge s = VReject e → ae_to e ≠ StateOutcomeCapture) →
  h `prefix_of` follow (judge <$> x) rest → final_state h = StateOutcomeCapture →
  ∃ s e, x = Some s ∧ judge s = VPass e ∧
    (ae_to e = StateOutcomeCapture ∨ ∃ h', h' `prefix_of` rest ∧ final_state h' = StateOutcomeCapture).
Proof.
  intros Hrej Hp Hf. apply prefix_follow in Hp as [->|[(e&Hv&->)|(e&h'&Hv&->&Hp)]]; [done| |];
    apply fmap_Some in Hv as (s&->&Hv); symmetry in Hv.
  - by apply Hrej in Hv.
  - exists s, e. split_and!; [done|done|]. rewrite final_state_cons in Hf.
    destruct h'; [by left|right; eauto].
Qed.

Lemma captured_gates input sigs h :
  h `prefix_of` response_path input sigs → final_state h = StateOutcomeCapture →
  ∃ c d i o, head (classifications sigs) = Some c ∧ classification_gate input c ∧
    head (dispatches sigs) = Some d ∧ dispatch_gate d ∧
    head (interdictions sigs) = Some i ∧ interdiction_gate i ∧
    head (outcomes sigs) = Some o ∧ outcome_gate o.
Proof.
  unfold response_path, rest_path. intros Hp Hf.
  apply gate_passed in Hp as (c&e1&Hc&He1&Hp); [|by intros s e ->%judge_classification_to|done].
  apply judge_classification_to in He1 as [Hto Hgc]. rewrite Hto in Hp. destruct Hp as [|(h1&Hp&Hf1)]; [done|].
  apply gate_passed in Hp as (d&e2&Hd&He2&Hp); [|by intros s e ->%judge_dispatch_to|done].
  apply judge_dispatch_to in He2 as [Hto2 Hgd]. rewrite Hto2 in Hp. destruct Hp as [|(h2&Hp&Hf2)]; [done|].
  apply gate_passed in Hp as (i&e3&Hi&He3&Hp); [|by intros s e ?%judge_interdiction_to|done].
  apply judge_interdiction_to in He3 as [Hto3 Hgi]. rewrite Hto3 in Hp. destruct Hp as [|(h3&Hp&Hf3)]; [done|].
  apply gate_passed in Hp as (o&e4&Ho&He4&_); [|by intros s e ?%judge_outcome_to|done].
  apply judge_outcome_to in He4. do 4 eexists. split_and!; eassumption.
Qed.

(** ** Completion *)

(** An attempt that draws a fresh identity and reports back. *)
Definition good_attempt (t : gmap string (Row ISREvent)) (a : Attempt) : Prop :=
  at_reported a = true ∧ act_now (at_env a) ≠ 0 ∧ t !! act_event_id (at_env a) = None.

Section completion.
Context `{JsonText} (pg_time : Z → Z).

Lemma sealable_restricted topic et key at_ members :
  topic ∈ isr_topics → identifierPattern key = true → 1 <= str_len et <= 128 → at_ ≠ 0 →
  probe_members members "" = Some ClassificationRestricted →
  sealable topic et key ClassificationRestricted at_ members.
Proof. intros. unfold sealable. split_and!; try done; try lia. by apply (bool_decide_unpack _). Qed.

(** On a canonical alert such an attempt completes its activity, adding one
    row. *)
Lemma good_append env t topic et key members :
  topic ∈ isr_topics → identifierPattern key = true → 1 <= str_len et <= 128 → act_now env ≠ 0 →
  probe_members members "" = Some ClassificationRestricted → t !! act_event_id env = None →
  ∃ r, appendOutbox pg_time env topic et key (JObject members) t = (Ok tt, <[act_event_id env := r]> t).
Proof.
  intros. eexists. apply appendOutbox_Ok. eexists. split_and!; [by apply sealable_restricted|done|done|reflexivity].
Qed.

Lemma good_audit a rest input from to actor detail run (t : gmap string (Row ISREvent)) :
  identifierPattern (AlertID input) = true → good_attempt t a →
  ∃ r, audit pg_time (a :: rest) input from to actor detail (run, t) =
    (Ok tt, (push_entry (mkAudit from to actor detail) run, <[act_event_id (at_env a) := r]> t)).
Proof.
  intros Hid (Hrep&Hnow&Hf). unfold audit. cbn [fst snd execute_activity].
  destruct (good_append (at_env a) t TopicISR "isr.response_transition" (AlertID input)
    (transitionAuditEvent (AlertID input) (mkAudit from to actor detail))) as [r Hr];
    [set_solver|done|done|done|done|done|].
  exists r. unfold auditTransition. rewrite Hr, Hrep. done.
Qed.

Lemma good_record a rest input o run (t : gmap string (Row ISREvent)) :
  identifierPattern (AlertID input) = true → good_attempt t a →
  ∃ r, record_activity pg_time (a :: rest) input o (run, t) =
    (Ok tt, (run, <[act_event_id (at_env a) := r]> t)).
Proof.
  intros Hid (Hrep&Hnow&Hf). unfold record_activity. cbn [fst snd execute_activity].
  destruct (good_append (at_env a) t TopicOutcome "isr.outcome_recorded" (AlertID input)
    (outcomeRecordedEvent (AlertID input) (IncidentRef o) (Verified o))) as [r Hr];
    [set_solver|done|done|done|done|done|].
  exists r. unfold recordOutcome. rewrite Hr, Hrep. done.
Qed.

Definition deliver_all (sigs : list Signal) (ex : Execution) : Execution :=
  mkExecution (ex_input ex) (ex_stage ex) (foldl (λ ch s, deliver_signal s ch) (ex_channels ex) sigs) (ex_run ex).

Fixpoint run_tasks (plan : list (list Attempt * list Attempt)) (ex : Execution) (t : ISROutbox)
    : option (Execution * ISROutbox) :=
  match plan with
  | [] => Some (ex, t)
  | (record, attempts) :: plan =>
      match advance pg_time record attempts ex t with
      | Some (ex', t') => run_tasks plan ex' t'
      | None => None
      end
  end.

Lemma foldl_deliver sigs ch :
  foldl (λ ch s, deliver_signal s ch) ch sigs =
  mkChannels (ch_classification ch ++ classifications sigs) (ch_dispatch ch ++ dispatches sigs)
    (ch_interdiction ch ++ interdictions sigs) (ch_outcome ch ++ outcomes sigs).
Proof.
  revert ch. induction sigs as [|s sigs IH]; intros ch; simpl.
  - destruct ch. by rewrite !app_nil_r.
  - rewrite IH. by destruct s; simpl; rewrite <- ?app_assoc.
Qed.

(** How far a stage is from the end. *)
Definition stage_rank (stage : Stage) : Z :=
  match stage with
  | AwaitClassification => 4 | AwaitDispatch => 3 | AwaitInterdiction => 2 | AwaitOutcome => 1 | Closed _ => 0
  end.

(** Nothing can run: the workflow returned, or no signal waits. *)
Definition blocked (ex : Execution) : Prop :=
  let ch := ex_channels ex in
  match ex_stage ex with
  | AwaitClassification => ch_classification ch = []
  | AwaitDispatch => ch_dispatch ch = []
  | AwaitInterdiction => ch_interdiction ch = []
  | AwaitOutcome => ch_outcome ch = []
  | Closed _ => True
  end.

Lemma settle_stage_rank v next ex ch m (t : ISROutbox) ex' t' :
  (∀ r run' t1, m (ex_run ex, t) = (r, (run', t1)) → stage_result v next (ex_run ex) r run') →
  settle_stage ex ch m t = (ex', t') → stage_rank (ex_stage ex') <= stage_rank next.
Proof.
  intros Hm E. unfold settle_stage in E. destruct (m (ex_run ex, t)) as [r [run' t1]].
  destruct (Hm _ _ _ eq_refl) as [(er&->&_)|[(e&_&->&_)|(e&_&->&_)]]; injection E as <- _; destruct next; simpl; lia.
Qed.

Lemma advance_rank record attempts ex t ex' t' :
  advance pg_time record attempts ex t = Some (ex', t') →
  stage_rank (ex_stage ex') < stage_rank (ex_stage ex).
Proof.
  unfold advance. destruct (ex_stage ex);
    [destruct (ch_classification _)|destruct (ch_dispatch _)|destruct (ch_interdiction _)
    |destruct (ch_outcome _)|]; try done; intros [= E];
    (eapply settle_stage_rank in E; [|intros ???]);
    [|apply classification_result| |apply dispatch_result| |apply interdiction_result| |apply outcome_result];
    simpl in *; lia.
Qed.

Lemma advance_None record attempts ex t : advance pg_time record attempts ex t = None ↔ blocked ex.
Proof.
  unfold advance, blocked. destruct (ex_stage ex);
    [destruct (ch_classification _)|destruct (ch_dispatch _)|destruct (ch_interdiction _)
    |destruct (ch_outcome _)|]; done.
Qed.

Lemma stage_passes_classification a rest input c run (t : gmap string (Row ISREvent)) :
  identifierPattern (AlertID input) = true → good_attempt t a → classification_gate input c →
  ∃ r, classification_stage pg_time (a :: rest) input c (run, t) =
    (Ok AwaitDispatch, (push_entry (mkAudit StateAlerted StateClassified (AnalystID c) (Assessment c)) run,
                        <[act_event_id (at_env a) := r]> t)).
Proof.
  intros Hid Ha (Hn&Hc&Hconf). unfold classification_stage. rewrite (proj2 (String.eqb_neq _ _) Hn).
  assert (Hl : ParseClassification (Clearance c) = Ok (Clearance c)).
  { unfold Covers in Hc. destruct (ParseClassification (Clearance c)) as [l|] eqn:E; [|done].
    by apply ParseClassification_Ok in E as [_ ->]. }
  rewrite Hl. simpl wrap_err. run_store. rewrite Hc, Hconf. cbn [negb]. run_store.
  destruct (good_audit a rest input StateAlerted StateClassified (AnalystID c) (Assessment c) run t Hid Ha)
    as [r Hr]. exists r. by rewrite Hr.
Qed.

Lemma stage_passes_dispatch a rest input d run (t : gmap string (Row ISREvent)) :
  identifierPattern (AlertID input) = true → good_attempt t a → dispatch_gate d →
  ∃ r, dispatch_stage pg_time (a :: rest) input d (run, t) =
    (Ok AwaitInterdiction,
     (push_entry (mkAudit StateClassified StateDispatched (di_officer d) ("unit " +:+ di_unit d)) run,
      <[act_event_id (at_env a) := r]> t)).
Proof.
  intros Hid Ha (Ho&Hu&Happ). unfold dispatch_stage.
  rewrite (proj2 (String.eqb_neq _ _) Ho), (proj2 (String.eqb_neq _ _) Hu), Happ. cbn [negb orb]. run_store.
  destruct (good_audit a rest input StateClassified StateDispatched (di_officer d) ("unit " +:+ di_unit d) run t Hid Ha)
    as [r Hr]. exists r. by rewrite Hr.
Qed.

Lemma stage_passes_interdiction a rest input i run (t : gmap string (Row ISREvent)) :
  identifierPattern (AlertID input) = true → good_attempt t a → interdiction_gate i →
  ∃ r, interdiction_stage pg_time (a :: rest) input i (run, t) =
    (Ok AwaitOutcome,
     (push_entry (mkAudit StateDispatched StateInterdicted (it_officer i) (it_outcome i)) run,
      <[act_event_id (at_env a) := r]> t)).
Proof.
  intros Hid Ha (Ho&Hu). unfold interdiction_stage.
  rewrite (proj2 (String.eqb_neq _ _) Ho), (proj2 (String.eqb_neq _ _) Hu). cbn [orb]. run_store.
  destruct (good_audit a rest input StateDispatched StateInterdicted (it_officer i) (it_outcome i) run t Hid Ha)
    as [r Hr]. exists r. by rewrite Hr.
Qed.

Lemma stage_passes_outcome b a rest_b rest_a input o run (t : gmap string (Row ISREvent)) :
  identifierPattern (AlertID input) = true → good_attempt t b → good_attempt t a →
  act_event_id (at_env a) ≠ act_event_id (at_env b) → outcome_gate o →
  ∃ r1 r2, outcome_stage pg_time (b :: rest_b) (a :: rest_a) input o (run, t) =
    (Ok (Closed None),
     (push_entry (mkAudit StateInterdicted StateOutcomeCapture (RecorderID o) ("incident " +:+ IncidentRef o)) run,
      <[act_event_id (at_env a) := r2]> (<[act_event_id (at_env b) := r1]> t))).
Proof.
  intros Hid Hb Ha Hne (Hr&Hi). unfold outcome_stage.
  rewrite (proj2 (String.eqb_neq _ _) Hr), (proj2 (String.eqb_neq _ _) Hi). cbn [orb]. run_store.
  destruct (good_record b rest_b input o run t Hid Hb) as [r1 H1]. rewrite H1. run_store.
  destruct (good_audit a rest_a input StateInterdicted StateOutcomeCapture (RecorderID o) ("incident " +:+ IncidentRef o)
    run (<[act_event_id (at_env b) := r1]> t) Hid) as [r2 H2].
  { destruct Ha as (?&?&?). by split_and!; [| |rewrite lookup_insert_ne]. }
  exists r1, r2. by rewrite H2.
Qed.

Lemma good_attempt_insert a b r (t : gmap string (Row ISREvent)) :
  good_attempt t a → act_event_id (at_env b) ≠ act_event_id (at_env a) →
  good_attempt (<[act_event_id (at_env b) := r]> t) a.
Proof. intros (?&?&?) ?. by split_and!; [| |rewrite lookup_insert_ne]. Qed.

Lemma deliver_all_run input t0 sigs ex t more :
  wf_run pg_time input t0 sigs ex t → wf_run pg_time input t0 (sigs ++ more) (deliver_all more ex) t.
Proof.
  revert sigs ex. induction more as [|s more IH]; intros sigs ex Hr.
  - rewrite app_nil_r. by destruct ex.
  - apply (wf_signal _ _ _ _ _ _ s) in Hr. apply IH in Hr. by rewrite <- app_assoc in Hr.
Qed.

Lemma run_tasks_run input t0 sigs plan ex t ex' t' :
  wf_run pg_time input t0 sigs ex t → run_tasks plan ex t = Some (ex', t') → wf_run pg_time input t0 sigs ex' t'.
Proof.
  revert ex t. induction plan as [|[record attempts] plan IH]; intros ex t Hr; simpl; [by intros [= <- <-]|].
  destruct (advance _ _ _ _ _) as [[ex1 t1]|] eqn:E; [|done]. apply IH. by eapply wf_task.
Qed.

(** A task of the run is the stage it lets pass. *)
Ltac task E := try unfold advance at 1; cbn; unfold settle_stage; cbn; cbn in E; rewrite E; clear E.

(** A good attempt stays one after the earlier records. *)
Ltac good := repeat apply good_attempt_insert; done.

Lemma completion_tasks input c d i o a1 a2 a3 b a4 (t : gmap string (Row ISREvent)) run ch :
  identifierPattern (AlertID input) = true →
  head (ch_classification ch) = Some c → classification_gate input c →
  head (ch_dispatch ch) = Some d → dispatch_gate d →
  head (ch_interdiction ch) = Some i → interdiction_gate i →
  head (ch_outcome ch) = Some o → outcome_gate o →
  Forall (good_attempt t) [a1; a2; a3; b; a4] →
  NoDup ((λ a, act_event_id (at_env a)) <$> [a1; a2; a3; b; a4]) →
  ∃ ex t', run_tasks [([], [a1]); ([], [a2]); ([], [a3]); ([b], [a4])]
             (mkExecution input AwaitClassification ch run) t = Some (ex, t') ∧
    ex_stage ex = Closed None ∧ run_state (ex_run ex) = StateOutcomeCapture.
Proof.
  intros Hid Hc Gc Hd Gd Hi Gi Ho Go Hgood Hnd.
  rewrite !Forall_cons in Hgood. destruct Hgood as (G1&G2&G3&Gb&G4&_). simpl in Hnd.
  rewrite !NoDup_cons, !not_elem_of_cons in Hnd. destruct Hnd as ((?&?&?&?&_)&(?&?&?&_)&(?&?&_)&(?&_)&_).
  destruct ch as [[|c' cs] [|d' ds] [|i' is_] [|o' os]]; simplify_eq/=.
  unfold run_tasks.
  edestruct (stage_passes_classification a1 [] input c) as [r1 E]; [exact Hid|shelve|done|task E].
  edestruct (stage_passes_dispatch a2 [] input d) as [r2 E]; [exact Hid|shelve|done|task E].
  edestruct (stage_passes_interdiction a3 [] input i) as [r3 E]; [exact Hid|shelve|done|task E].
  edestruct (stage_passes_outcome b a4 [] [] input o) as (r4&r5&E);
    [exact Hid|shelve|shelve|by apply not_eq_sym|done|task E].
  do 2 eexists. split; [reflexivity|done].
  Unshelve. all: good.
Qed.

End completion.

(** ** Properties *)

(** C16: The history of a response is what its signals determine: under any
    interleaving of signals, activity failures, retries and other users of the
    outbox, the recorded transitions are a prefix of the path of the first
    signal of each channel, all of it when the workflow returns without error,
    and the state answered to observers is the last one recorded.  An outcome is
    only captured after an analyst whose clearance covers the alert confirmed
    it, an officer approved the dispatch, an interdiction was reported and the
    outcome was captured, in this order. *)
Theorem response_follows_signals `{JsonText} pg_time input t0 sigs ex t :
  wf_run pg_time input t0 sigs ex t →
  let h := run_history (ex_run ex) in
  h `prefix_of` response_path input sigs ∧
  (ex_stage ex = Closed None → h = response_path input sigs) ∧
  run_state (ex_run ex) = final_state h ∧
  (run_state (ex_run ex) = StateOutcomeCapture →
   ∃ c d i o, head (classifications sigs) = Some c ∧ classification_gate input c ∧
     head (dispatches sigs) = Some d ∧ dispatch_gate d ∧
     head (interdictions sigs) = Some i ∧ interdiction_gate i ∧
     head (outcomes sigs) = Some o ∧ outcome_gate o).
Proof.
  intros Hr. apply wf_run_inv in Hr as [_ Hs _ Hp]. specialize (Hp []). rewrite app_nil_r in Hp. simpl.
  assert (Hpre : run_history (ex_run ex) `prefix_of` response_path input sigs).
  { destruct (ex_stage ex) as [| | | |[]]; first [exact Hp|rewrite Hp; by eexists]. }
  split_and!; [done| |done|].
  - intros E. rewrite E in Hp. by rewrite Hp, app_nil_r.
  - rewrite Hs. by apply captured_gates.
Qed.

(** C19: Every recorded transition is in the outbox: whatever the other users of
    the table did since, there is a row of the alert on the ISR topic with the
    states, the actor and the detail of the transition, labelled RESTRICTED
    whatever the label of the alert; and a captured outcome also has its row on
    the outcome topic. *)
Theorem response_audited `{JsonText} pg_time input t0 sigs ex t :
  wf_run pg_time input t0 sigs ex t →
  Forall (entry_backed input t) (run_history (ex_run ex)).
Proof.
  intros Hr. pose proof (wf_run_inv _ _ _ _ _ _ Hr) as [Hi _ _ _].
  apply wf_run_trail in Hr. unfold trail in Hr. by rewrite Hi in Hr.
Qed.

(** C20: A response comes to its end: every task moves the workflow on, so it runs
    at most four; it only stands still when it has returned or waits for a
    signal of its stage; and on a canonical alert, when the first signal of each
    channel passes its gate and the activities get through, the four tasks
    capture the outcome along the path of the signals, in whatever order the
    signals came. *)
Theorem response_completes `{JsonText} pg_time input ex0 sigs c d i o a1 a2 a3 b a4 t :
  ISRResponseWorkflow input = Ok ex0 → identifierPattern (AlertID input) = true →
  head (classifications sigs) = Some c → classification_gate input c →
  head (dispatches sigs) = Some d → dispatch_gate d →
  head (interdictions sigs) = Some i → interdiction_gate i →
  head (outcomes sigs) = Some o → outcome_gate o →
  Forall (good_attempt t) [a1; a2; a3; b; a4] →
  NoDup ((λ a, act_event_id (at_env a)) <$> [a1; a2; a3; b; a4]) →
  (∃ ex t', run_tasks pg_time [([], [a1]); ([], [a2]); ([], [a3]); ([b], [a4])] (deliver_all sigs ex0) t = Some (ex, t') ∧
     ex_stage ex = Closed None ∧ run_state (ex_run ex) = StateOutcomeCapture ∧
     run_history (ex_run ex) = response_path input sigs) ∧
  (∀ record attempts ex s, advance pg_time record attempts ex s = None ↔ blocked ex) ∧
  (∀ record attempts ex s ex' s', advance pg_time record attempts ex s = Some (ex', s') →
     stage_rank (ex_stage ex') < stage_rank (ex_stage ex)).
Proof.
  intros Hstart Hid Hc Gc Hd Gd Hi Gi Ho Go Hgood Hnd.
  split; [|split; [apply advance_None|apply advance_rank]].
  assert (Hch : ex_channels (deliver_all sigs ex0) =
    mkChannels (classifications sigs) (dispatches sigs) (interdictions sigs) (outcomes sigs) ∧
    ex_input ex0 = input ∧ ex_stage ex0 = AwaitClassification).
  { unfold ISRResponseWorkflow in Hstart. inv_ok Hstart. simpl. by rewrite foldl_deliver. }
  destruct Hch as (Hch&Hin&Hst).
  destruct (completion_tasks pg_time input c d i o a1 a2 a3 b a4 t (ex_run ex0) (ex_channels (deliver_all sigs ex0)))
    as (ex&t'&Hplan&Hend&Hcap); try (rewrite Hch; assumption); try done.
  assert (Hex : deliver_all sigs ex0 =
    mkExecution input AwaitClassification (ex_channels (deliver_all sigs ex0)) (ex_run ex0))
    by (unfold deliver_all; by rewrite Hin, Hst).
  rewrite <- Hex in Hplan. exists ex, t'. split_and!; [done..|].
  eapply run_tasks_run in Hplan; [|apply (deliver_all_run pg_time input t [] ex0 t sigs); by constructor].
  apply wf_run_inv in Hplan as [_ _ _ Hp]. specialize (Hp []). by rewrite Hend, !app_nil_r in Hp.
Qed.

(** ** A sample response: a SECRET alert whose signals come out of order *)

Definition sample_writer : JsonText := λ _, "".
Definition sample_alert : AlertInput := mkAlert "alert-1" "anomaly-1" ClassificationSecret.
Definition sample_classification : ClassificationSignal :=
  mkClassificationSignal "analyst-1" ClassificationSecret true "hostile loitering".
Definition sample_dispatch : DispatchSignal := mkDispatchSignal "nn-7" "patrol-3" true.
Definition sample_interdiction : InterdictionSignal := mkInterdictionSignal "nn-9" "boarded".
Definition sample_outcome : OutcomeSignal := mkOutcomeSignal "recorder-1" "incident-5" true.
Definition sample_signals : list Signal :=
  [SOutcome sample_outcome; SInterdiction sample_interdiction; SClassification sample_classification;
   SDispatch sample_dispatch; SClassification (mkClassificationSignal "analyst-2" ClassificationUnclassified false "")].
Definition sample_attempt (id : string) : Attempt := mkAttempt (mkActivityEnv 100 100 id "envelope") true.
Definition sample_plan : list (list Attempt * list Attempt) :=
  [([], [sample_attempt "e1"]); ([], [sample_attempt "e2"]); ([], [sample_attempt "e3"]);
   ([sample_attempt "e4"], [sample_attempt "e5"])].
Definition sample_start : Execution :=
  mkExecution sample_alert AwaitClassification (mkChannels [] [] [] []) (mkRun StateAlerted []).
Definition sample_end : Execution * ISROutbox :=
  default (sample_start, ∅)
    (run_tasks (H := sample_writer) id sample_plan (deliver_all sample_signals sample_start) ∅).

Lemma sample_response_run :
  wf_run (H := sample_writer) id sample_alert ∅ sample_signals sample_end.1 sample_end.2.
Proof.
  apply (run_tasks_run (H := sample_writer) id sample_alert ∅ sample_signals sample_plan
    (deliver_all sample_signals sample_start) ∅).
  - apply (deliver_all_run (H := sample_writer) id sample_alert ∅ [] sample_start ∅ sample_signals).
    by apply wf_start.
  - vm_compute. reflexivity.
Qed.

Lemma response_follows_signals_witness :
  run_history (ex_run sample_end.1) = response_path sample_alert sample_signals ∧
  length (response_path sample_alert sample_signals) = 4%nat.
Proof.
  destruct (response_follows_signals (H := sample_writer) id sample_alert ∅ sample_signals sample_end.1 sample_end.2
    sample_response_run) as (_&Hdone&_).
  split; [apply Hdone; vm_compute; reflexivity|reflexivity].
Defined.

Lemma response_audited_witness :
  ∃ e, ae_to e = StateOutcomeCapture ∧ entry_backed sample_alert sample_end.2 e.
Proof.
  pose proof (response_audited (H := sample_writer) id sample_alert ∅ sample_signals sample_end.1 sample_end.2
    sample_response_run) as Hall.
  exists (mkAudit StateInterdicted StateOutcomeCapture "recorder-1" "incident incident-5").
  split; [reflexivity|]. refine (proj1 (Forall_forall _ _) Hall _ _).
  apply (list_elem_of_lookup_2 _ 3). vm_compute. reflexivity.
Defined.

Lemma response_completes_witness :
  ∃ ex t, run_tasks (H := sample_writer) id sample_plan (deliver_all sample_signals sample_start) ∅ = Some (ex, t) ∧
    run_state (ex_run ex) = StateOutcomeCapture.
Proof.
  destruct (response_completes (H := sample_writer) id sample_alert sample_start sample_signals sample_classification
    sample_dispatch sample_interdiction sample_outcome (sample_attempt "e1") (sample_attempt "e2")
    (sample_attempt "e3") (sample_attempt "e4") (sample_attempt "e5") ∅) as [(ex&t&Hr&_&Hs&_) _];
    try reflexivity.
  - split_and!; [discriminate|reflexivity|reflexivity].
  - split_and!; [discriminate|discriminate|reflexivity].
  - split; discriminate.
  - split; discriminate.
  - repeat constructor; discriminate.
  - apply (bool_decide_unpack _). vm_compute. exact I.
  - exists ex, t. split; [exact Hr|exact Hs].
Defined.
