(* ===== verification/IsrStore.v ===== *)
(** * Detection store ([internal/isr/store.go], [internal/isr/access.go])

    Admission of signed detections with their envelope, and the
    clearance-filtered reads.

    Parameters: [decode] is the strict JSON decoder of [DecodeDetection] and
    [jsonb] PostgreSQL's conversion of a payload to a JSONB column, as text
    ([None] when the text is no JSON); [pg_time] is the resolution of a stored
    timestamp.  [ORDER BY .. DESC LIMIT n] leaves the order of ties open: a
    query takes a listing of its table in a descending order. *)

From S2P Require Import Prelude GoStrings GoTime Float64 Classification Detection Outbox Envelope Incident Sha256 Feed.

(** ** The document of a detection *)

Definition omit_string (name value : string) : list (string * json) :=
  if value =s "" then [] else [(name, JString value)].
Definition omit_float (name : string) (value : f64) : list (string * json) :=
  if feq value fzero then [] else [(name, JFloat value)].
Definition omit_nil {A} (name : string) (value : option A) (document : A → json) : list (string * json) :=
  match value with None => [] | Some a => [(name, document a)] end.
Definition omit_empty (name : string) (values : list string) : list (string * json) :=
  match values with [] => [] | _ => [(name, JArray (JString <$> values))] end.

Definition ais_json (p : AISPayload) : json := JObject (
  [("mmsi", JString (ais_mmsi p)); ("speed_knots", JFloat (ais_speed_knots p));
   ("heading_deg", JFloat (ais_heading_deg p)); ("nav_status", JString (ais_nav_status p))] ++
  omit_string "call_sign" (ais_call_sign p) ++ omit_string "destination" (ais_destination p)).

Definition sar_json (p : SARPayload) : json := JObject (
  [("scene_ref", JString (sar_scene_ref p)); ("confidence", JFloat (sar_confidence p))] ++
  omit_string "vessel_class" (sar_vessel_class p) ++ omit_float "length_m" (sar_length_m p)).

Definition rf_json (p : RFPayload) : json := JObject (
  [("frequency_band", JString (rf_frequency_band p)); ("bearing_deg", JFloat (rf_bearing_deg p))] ++
  omit_float "signal_dbm" (rf_signal_dbm p) ++ omit_string "emitter_ref" (rf_emitter_ref p)).

Definition acoustic_json (p : AcousticPayload) : json := JObject (
  [("signature_ref", JString (ac_signature_ref p)); ("confidence", JFloat (ac_confidence p))] ++
  omit_float "bearing_deg" (ac_bearing_deg p)).

Definition box_json (b : DetectionBox) : json := JObject
  [("x", JFloat (box_x b)); ("y", JFloat (box_y b)); ("width", JFloat (box_width b));
   ("height", JFloat (box_height b)); ("confidence", JFloat (box_confidence b))].

Definition optical_json (p : OpticalPayload) : json := JObject
  [("image_ref", JString (opt_image_ref p)); ("detection_boxes", JArray (box_json <$> opt_boxes p))].

(** What [json.Marshal] makes of a detection. *)
Definition detection_members (d : Detection) : list (string * json) :=
  [("event_id", JString (EventID d)); ("source_id", JString (SourceID d));
   ("source_event_id", JString (SourceEventID d)); ("modality", JString (det_modality d));
   ("classification", JString (det_classification d)); ("observed_at", JString (rfc3339nano (ObservedAt d)));
   ("has_position", JBool (HasPosition d))] ++
  omit_float "latitude" (det_latitude d) ++ omit_float "longitude" (det_longitude d) ++
  omit_string "mmsi" (MMSI d) ++
  omit_nil "ais" (AIS d) ais_json ++ omit_nil "sar" (SAR d) sar_json ++ omit_nil "rf" (RF d) rf_json ++
  omit_nil "acoustic" (Acoustic d) acoustic_json ++ omit_nil "optical" (Optical d) optical_json ++
  omit_empty "correlation_refs" (CorrelationRefs d).

(** ** Requests and rows *)

Definition ErrNotFound : error := ESentinel "isr.ErrNotFound".
Definition ErrConflict : error := ESentinel "isr.ErrConflict".

Record SignedDetectionRequest : Type := mkSignedDetection {
  sd_source : string;
  sd_event : string;
  sd_claimed : Z;
  sd_payload : string;
  sd_signature : string
}.

Record DetectionAdmission : Type := mkDetectionAdmission {
  da_event : string;
  da_classification : Classification;
  da_digest : string;
  da_fingerprint : string;
  da_received : Z;
  da_replayed : bool
}.

(** A row of [maritime_isr_events], from the UNIQUE key (source_id,
    source_event_id); [event_id] is the primary key. *)
Record EventRow : Type := mkEventRow {
  er_event : string;
  er_modality : Modality;
  er_classification : Classification;
  er_observed : Z;
  er_position : option (f64 * f64);
  er_mmsi : option string;
  er_payload : string;
  er_digest : string;
  er_signature : string;
  er_refs : list string;
  er_received : Z
}.

Record IsrDB : Type := mkIsrDB {
  idb_feeds : FeedDB;
  idb_events : gmap (string * string) EventRow;
  idb_outbox : ISROutbox
}.

(** The clock readings and identities of one admission. *)
Record AdmitEnv : Type := mkAdmitEnv {
  ae_check : Z;
  ae_grace : Z;
  ae_received : Z;
  ae_db_now : Z;
  ae_envelope_id : string;
  ae_outbox_id : string
}.

Definition validateEnvelope (request : SignedDetectionRequest) : result unit :=
  _ ← fail_if (negb (identifierPattern (sd_source request)) || negb (identifierPattern (sd_event request)))
        (EText "source identifiers are invalid");
  _ ← fail_if ((str_len (sd_payload request) =? 0) || (Z.shiftl 1 20 <? str_len (sd_payload request)))
        (EText "payload must be between 1 byte and 1 MiB");
  _ ← fail_if (negb (str_len (sd_signature request) =? SignatureSize)) (EText "ed25519 signature is required");
  fail_if (time_is_zero (sd_claimed request))
    (EText "claimed_at must be an RFC3339 timestamp inside the signed preimage").

Definition nullableString (value : string) : option string := if value =s "" then None else Some value.

(** The signed material, as the feed admission sees it. *)
Definition feed_request (request : SignedDetectionRequest) : FeedAdmissionRequest :=
  mkAdmissionRequest (sd_source request) (sd_event request) (sd_claimed request) (sd_payload request)
    (sd_signature request).

Section store.
Context `{Ed25519} `{JsonText} (pg_time : Z → Z) (jsonb : string → option string)
  (decode : string → option Detection).

Definition DecodeDetection (payload : string) : result Detection :=
  match decode payload with
  | Some d => Ok d
  | None => Err (EText "signed detection payload must be one detection object without unknown fields")
  end.

(** The row an INSERT of the detection stores. *)
Definition event_row (d : Detection) (stored digest signature : string) (received : Z) : EventRow :=
  mkEventRow (EventID d) (det_modality d) (det_classification d) (pg_time (ObservedAt d))
    (if HasPosition d then Some (det_latitude d, det_longitude d) else None) (nullableString (MMSI d))
    stored digest signature (CorrelationRefs d) (pg_time received).

(** [INSERT .. ON CONFLICT (source_id, source_event_id) DO NOTHING RETURNING]:
    whether a row was inserted.  The CHECK constraints repeat what [Validate]
    established; the conversion to JSONB and the primary key can fail. *)
Definition insert_event (d : Detection) (request : SignedDetectionRequest) (digest : string) (received : Z)
    : M IsrDB bool :=
  db ← get_state;
  match jsonb (sd_payload request) with
  | None => throw (EWrap "record detection" (EText "invalid input syntax for type json"))
  | Some stored =>
      match idb_events db !! (SourceID d, SourceEventID d) with
      | Some _ => mret false
      | None =>
          _ ← check (existsb (λ kv, er_event kv.2 =s EventID d) (map_to_list (idb_events db)))
                (EWrap "record detection" (EText "duplicate key value: event_id"));
          _ ← put_state (mkIsrDB (idb_feeds db)
                (<[(SourceID d, SourceEventID d) := event_row d stored digest (sd_signature request) received]>
                   (idb_events db)) (idb_outbox db));
          mret true
      end
  end.

Definition write_isr_outbox (context id : string) (created db_now : Z) (e : ISREvent) : M IsrDB unit := λ db,
  let '(r, t) := insert_isr_outbox context id created db_now e (idb_outbox db) in
  (r, mkIsrDB (idb_feeds db) (idb_events db) t).

Definition admit_in_transaction (env : AdmitEnv) (request : SignedDetectionRequest) (detection : Detection)
    : M IsrDB (Detection * DetectionAdmission) :=
  db ← get_state;
  match feed_sources (idb_feeds db) !! sd_source request with
  | None => throw ErrNotFound
  | Some s =>
      _ ← check (negb (fs_active s)) (EText "feed source is inactive");
      _ ← lift (ValidateFeedFreshness (sd_claimed request) (ae_check env));
      _ ← check (negb (signature_ok (idb_feeds db) s (feed_request request) (ae_grace env)))
            (EText "detection signature verification failed");
      let payloadSHA256 := "sha256:" +:+ sha256_hex (sd_payload request) in
      let receivedAt := ae_received env in
      inserted ← insert_event detection request payloadSHA256 receivedAt;
      if (inserted : bool) then
        envelope ← lift (Seal (ae_envelope_id env) TopicISR "isr.detection_admitted" (EventID detection)
                           (det_classification detection) receivedAt (JObject (detection_members detection)));
        _ ← write_isr_outbox "write detection outbox event" (ae_outbox_id env) (pg_time receivedAt)
              (ae_db_now env)
              (mkISREvent (env_topic envelope) (env_event_type envelope) (env_clearance envelope)
                 (env_aggregate_key envelope) envelope);
        mret (detection, mkDetectionAdmission (EventID detection) (det_classification detection) payloadSHA256
                           (fs_fingerprint s) (pg_time receivedAt) false)
      else
        match idb_events db !! (sd_source request, sd_event request) with
        | None => throw (EWrap "load retained detection" (EText "no rows in result set"))
        | Some retained =>
            _ ← check (negb (er_digest retained =s payloadSHA256) ||
                       negb (er_signature retained =s sd_signature request) ||
                       negb (er_event retained =s EventID detection)) ErrConflict;
            mret (detection, mkDetectionAdmission (EventID detection) (det_classification detection) payloadSHA256
                               (fs_fingerprint s) (er_received retained) true)
        end
  end.

Definition AdmitDetection (env : AdmitEnv) (request : SignedDetectionRequest)
    : M IsrDB (Detection * DetectionAdmission) :=
  _ ← lift (validateEnvelope request);
  detection ← lift (DecodeDetection (sd_payload request));
  _ ← check ((SourceID detection <>s sd_source request) || (SourceEventID detection <>s sd_event request))
        (EText "signed detection must bind source_id and source_event_id");
  _ ← lift (Validate detection);
  atomically (admit_in_transaction env request detection).

(** ** Reads *)

Record DetectionFilter : Type := mkDetectionFilter {
  df_modality : Modality;
  df_mmsi : string;
  df_since : Z;
  df_limit : Z
}.

Definition read_limit (limit : Z) : nat :=
  Z.to_nat (if (limit <=? 0) || (500 <? limit) then 500 else limit).

(** The WHERE clause of [ListDetections]. *)
Definition detection_query (labels : list string) (filter : DetectionFilter) (row : EventRow) : bool :=
  bool_decide (er_classification row ∈ labels) &&
  ((df_modality filter =s "") || (er_modality row =s df_modality filter)) &&
  ((df_mmsi filter =s "") || bool_decide (er_mmsi row = Some (df_mmsi filter))) &&
  (time_is_zero (df_since filter) || (df_since filter <=? er_observed row)).

(** Collecting the rows, stopping at the first error. *)
Fixpoint collect {A B} (f : A → result B) (rows : list A) : result (list B) :=
  match rows with
  | [] => Ok []
  | x :: rest => b ← f x; bs ← collect f rest; Ok (b :: bs)
  end.

Definition read_detection (principal : Principal) (row : EventRow) : result Detection :=
  detection ← wrap_err "decode retained detection" (DecodeDetection (er_payload row));
  _ ← CanReadTracks principal (det_classification detection);
  Ok detection.

(** [listing] is the table in a descending order of [observed_at]. *)
Definition ListDetections (principal : Principal) (filter : DetectionFilter) (listing : list EventRow)
    : result (list Detection) :=
  _ ← CanReadTracks principal ClassificationUnclassified;
  ceiling ← clearanceCeiling principal;
  collect (read_detection principal)
    (take (read_limit (df_limit filter))
       (List.filter (detection_query (coveredLabels ceiling) filter) listing)).

(** A row of [maritime_behaviour_anomalies]. *)
Record RetainedAnomaly : Type := mkRetained {
  ra_id : string;
  ra_kind : string;
  ra_classification : Classification;
  ra_tracks : list string;
  ra_zone : string;
  ra_detail : string;
  ra_refs : list string;
  ra_detected : Z
}.

Record AnomalyFilter : Type := mkAnomalyFilter { af_kind : string; af_since : Z; af_limit : Z }.

Definition anomaly_query (labels : list string) (filter : AnomalyFilter) (row : RetainedAnomaly) : bool :=
  bool_decide (ra_classification row ∈ labels) &&
  ((af_kind filter =s "") || (ra_kind row =s af_kind filter)) &&
  (time_is_zero (af_since filter) || (af_since filter <=? ra_detected row)).

Definition read_anomaly (principal : Principal) (row : RetainedAnomaly) : result RetainedAnomaly :=
  _ ← CanReadTracks principal (ra_classification row);
  Ok row.

(** [listing] is the table in a descending order of [detected_at]. *)
Definition ListAnomalies (principal : Principal) (filter : AnomalyFilter) (listing : list RetainedAnomaly)
    : result (list RetainedAnomaly) :=
  _ ← CanReadTracks principal ClassificationUnclassified;
  ceiling ← clearanceCeiling principal;
  collect (read_anomaly principal)
    (take (read_limit (af_limit filter))
       (List.filter (anomaly_query (coveredLabels ceiling) filter) listing)).

Definition LoadFeedSourceActive (sourceID : string) (db : IsrDB) : result bool :=
  match feed_sources (idb_feeds db) !! sourceID with
  | None => Err ErrNotFound
  | Some s => Ok (fs_active s)
  end.

End store.
