(* ===== verification/IsrStoreProofs.v ===== *)
(** * Properties of the detection store

    What an admission establishes, the invariant of the tables under any
    interleaving of the services, and what a principal can read. *)

From S2P Require Import Prelude GoStrings GoTime Float64 Classification Detection Outbox Envelope Incident Sha256 Feed.
From S2P Require Import IsrStore.

Section proofs.
Context `{Ed25519} `{JsonText} (pg_time : Z → Z) (jsonb : string → option string)
  (decode : string → option Detection).

Definition feed_env (env : AdmitEnv) : FeedEnv := mkFeedEnv (ae_check env) (ae_grace env) (ae_received env).
Definition sd_digest (request : SignedDetectionRequest) : string := "sha256:" +:+ sha256_hex (sd_payload request).

(** The outbox row of an admitted detection. *)
Definition announces_detection (d : Detection) (i : ISREvent) : Prop :=
  ie_topic i = TopicISR ∧ ie_event_type i = "isr.detection_admitted" ∧ ie_aggregate_key i = EventID d ∧
  ie_classification i = det_classification d ∧ env_clearance (ie_envelope i) = det_classification d.

(** An admission of a new event. *)
Definition fresh_admission (env : AdmitEnv) (req : SignedDetectionRequest) (d : Detection) (db db' : IsrDB) : Prop :=
  ∃ stored i, jsonb (sd_payload req) = Some stored ∧
    (∀ k row, idb_events db !! k = Some row → er_event row ≠ EventID d) ∧
    announces_detection d i ∧ idb_outbox db !! ae_outbox_id env = None ∧
    db' = mkIsrDB (idb_feeds db)
            (<[(SourceID d, SourceEventID d) :=
                 event_row pg_time d stored (sd_digest req) (sd_signature req) (ae_received env)]> (idb_events db))
            (<[ae_outbox_id env := new_row i (pg_time (ae_received env)) (ae_db_now env)]> (idb_outbox db)).

Lemma pk_check (m : gmap (string * string) EventRow) id :
  existsb (λ kv, er_event kv.2 =s id) (map_to_list m) = false ↔
  ∀ k row, m !! k = Some row → er_event row ≠ id.
Proof.
  rewrite <- not_true_iff_false, existsb_exists. split.
  - intros Hn k row Hk Hid. apply Hn. exists (k, row). rewrite <- list_elem_of_In, elem_of_map_to_list.
    split; [done|]. by apply String.eqb_eq.
  - intros Hall ([k row]&Hin&He). rewrite <- list_elem_of_In, elem_of_map_to_list in Hin.
    apply String.eqb_eq in He. by apply (Hall _ _ Hin).
Qed.

Lemma write_isr_outbox_Ok ctx id created now e db u db' :
  write_isr_outbox ctx id created now e db = (Ok u, db') →
  idb_outbox db !! id = None ∧
  db' = mkIsrDB (idb_feeds db) (idb_events db) (<[id := new_row e created now]> (idb_outbox db)).
Proof.
  unfold write_isr_outbox. destruct (insert_isr_outbox _ _ _ _ _ _) as [[[]|] t] eqn:Ei; [|done].
  apply insert_isr_outbox_Ok in Ei as (?&_&_&->). intros [= <- <-]. done.
Qed.

Lemma admit_in_transaction_Ok env req d db d' a db' :
  SourceID d = sd_source req → SourceEventID d = sd_event req →
  admit_in_transaction pg_time jsonb env req d db = (Ok (d', a), db') →
  d' = d ∧
  (∃ s, admissible (idb_feeds db) (feed_env env) (feed_request req) s ∧ da_fingerprint a = fs_fingerprint s) ∧
  da_event a = EventID d ∧ da_classification a = det_classification d ∧ da_digest a = sd_digest req ∧
  match idb_events db !! (SourceID d, SourceEventID d) with
  | None => da_replayed a = false ∧ da_received a = pg_time (ae_received env) ∧ fresh_admission env req d db db'
  | Some row => da_replayed a = true ∧ da_received a = er_received row ∧ er_digest row = sd_digest req ∧
      er_signature row = sd_signature req ∧ er_event row = EventID d ∧ db' = db
  end.
Proof.
  intros Hs1 Hs2. unfold admit_in_transaction. run_store.
  destruct (feed_sources (idb_feeds db) !! sd_source req) as [s|] eqn:Es; run_store; [|done].
  destruct (fs_active s) eqn:Ea; cbn [negb]; run_store; [|done].
  destruct (ValidateFeedFreshness _ _) as [u|] eqn:Ef; run_store; [|done].
  rewrite ?mbind_run, ?check_run.
  destruct (signature_ok _ s _ _) eqn:Eg; cbn [negb]; run_store; [|done].
  apply freshness_Ok in Ef as [Hc Hw].
  assert (Hadm : admissible (idb_feeds db) (feed_env env) (feed_request req) s)
    by (unfold admissible; simpl; split_and!; [done|done|done|lia|lia|done]).
  fold (sd_digest req). unfold insert_event. run_store.
  destruct (jsonb (sd_payload req)) as [stored|] eqn:Ej; run_store; [|done].
  destruct (idb_events db !! (SourceID d, SourceEventID d)) as [row|] eqn:Er; run_store.
  - rewrite <- Hs1, <- Hs2, Er. run_store.
    destruct (er_digest row =s sd_digest req) eqn:E1; cbn [negb orb]; run_store; [|done].
    destruct (er_signature row =s sd_signature req) eqn:E2; cbn [negb orb]; run_store; [|done].
    destruct (er_event row =s EventID d) eqn:E3; cbn [negb]; run_store; [|done].
    apply String.eqb_eq in E1, E2, E3. intros [= <- <- <-]. simpl. split_and!; eauto.
  - destruct (existsb _ _) eqn:Ex; run_store; [done|].
    destruct (Seal _ _ _ _ _ _ _) as [envelope|] eqn:Ese; run_store; [|done].
    destruct (write_isr_outbox _ _ _ _ _ _) as [[u'|] db1] eqn:Ew; run_store; [|done].
    intros [= <- <- <-]. apply write_isr_outbox_Ok in Ew as [Hn ->]. simpl in Hn |- *.
    split_and!; try done; [by eauto|].
    pose proof (proj1 (pk_check (idb_events db) (EventID d)) Ex) as Ex2. apply Seal_Ok in Ese as (members&band&_&_&_&->).
    do 2 eexists. split_and!; [done|done| |done|reflexivity]. done.
Qed.

Lemma AdmitDetection_Ok env req db d a db' :
  AdmitDetection pg_time jsonb decode env req db = (Ok (d, a), db') →
  decode (sd_payload req) = Some d ∧ Validate d = Ok tt ∧
  SourceID d = sd_source req ∧ SourceEventID d = sd_event req ∧
  admit_in_transaction pg_time jsonb env req d db = (Ok (d, a), db').
Proof.
  unfold AdmitDetection. run_store. destruct (validateEnvelope req) as [[]|]; run_store; [|done].
  unfold DecodeDetection. destruct (decode (sd_payload req)) as [d0|]; run_store; [|done].
  destruct (SourceID d0 =s sd_source req) eqn:E1; cbn [negb orb]; run_store; [|done].
  destruct (SourceEventID d0 =s sd_event req) eqn:E2; cbn [negb]; run_store; [|done].
  destruct (Validate d0) as [[]|] eqn:Ev; run_store; [|done].
  intros Ha. rewrite atomically_Ok in Ha. apply String.eqb_eq in E1, E2.
  pose proof (admit_in_transaction_Ok _ _ _ _ _ _ _ E1 E2 Ha) as (->&_). done.
Qed.

Lemma AdmitDetection_Err env req db e db' :
  AdmitDetection pg_time jsonb decode env req db = (Err e, db') → db' = db.
Proof.
  unfold AdmitDetection. run_store. destruct (validateEnvelope req) as [[]|]; run_store; [|by intros [= _ <-]].
  destruct (DecodeDetection _ _) as [d0|]; run_store; [|by intros [= _ <-]].
  destruct (_ || _); run_store; [by intros [= _ <-]|].
  destruct (Validate d0) as [[]|]; run_store; [|by intros [= _ <-]]. apply atomically_Err.
Qed.

(** ** The tables under interleaving *)

(** Admissions, operations on the feed sources, and other users of the
    outbox. *)
Inductive isr_step : IsrDB → IsrDB → Prop :=
| is_admit env req r db db' : AdmitDetection pg_time jsonb decode env req db = (r, db') → isr_step db db'
| is_feed op db : isr_step db (mkIsrDB (feed_exec pg_time (idb_feeds db) op) (idb_events db) (idb_outbox db))
| is_outbox l t' db :
    outbox_step (idb_outbox db) l t' → isr_step db (mkIsrDB (idb_feeds db) (idb_events db) t').

Definition empty_isr : IsrDB := mkIsrDB (mkFeedDB ∅ ∅ ∅ ∅) ∅ ∅.

(** A stored row stems from an admitted document: the signed payload decoded to
    a valid detection that gives the key, the label and the columns, the digest
    is that of the payload, the retained text is what the JSONB conversion made
    of it, and the event was announced.  Whether the retained text still
    decodes to the same detection is not claimed. *)
Definition row_faithful (db : IsrDB) (k : string * string) (row : EventRow) : Prop :=
  ∃ d payload, decode payload = Some d ∧ Validate d = Ok tt ∧ jsonb payload = Some (er_payload row) ∧
    er_digest row = "sha256:" +:+ sha256_hex payload ∧
    k = (SourceID d, SourceEventID d) ∧ er_event row = EventID d ∧
    er_classification row = det_classification d ∧ er_modality row = det_modality d ∧
    er_mmsi row = nullableString (MMSI d) ∧ er_observed row = pg_time (ObservedAt d) ∧
    er_position row = (if HasPosition d then Some (det_latitude d, det_longitude d) else None) ∧
    er_refs row = CorrelationRefs d ∧
    ∃ id r, idb_outbox db !! id = Some r ∧ announces_detection d (row_info r).

Record isr_inv (db : IsrDB) : Prop := {
  ii_rows k row : idb_events db !! k = Some row → row_faithful db k row;
  ii_pk k1 k2 row1 row2 : idb_events db !! k1 = Some row1 → idb_events db !! k2 = Some row2 →
    er_event row1 = er_event row2 → k1 = k2
}.

Definition outbox_kept (db db' : IsrDB) : Prop := ∀ id r,
  idb_outbox db !! id = Some r → ∃ r', idb_outbox db' !! id = Some r' ∧ row_info r' = row_info r.

Lemma row_faithful_mono db db' k row : row_faithful db k row → outbox_kept db db' → row_faithful db' k row.
Proof.
  intros (d&p&?&?&?&?&?&?&?&?&?&?&?&?&id&r&Hr&Ha) Hk. exists d, p. destruct (Hk _ _ Hr) as (r'&?&Hi).
  split_and!; try done. exists id, r'. by rewrite Hi.
Qed.

Lemma admit_inv env req r db db' :
  AdmitDetection pg_time jsonb decode env req db = (r, db') → isr_inv db →
  isr_inv db' ∧ (∀ k row, idb_events db !! k = Some row → idb_events db' !! k = Some row) ∧ outbox_kept db db'.
Proof.
  intros E HI. destruct r as [[d a]|e].
  2:{ apply AdmitDetection_Err in E as ->. split_and!; [done..|]. intros id r ?. eauto. }
  apply AdmitDetection_Ok in E as (Hd&Hv&Hs1&Hs2&E).
  apply admit_in_transaction_Ok in E as (_&_&_&_&_&Hm); [|done|done].
  destruct (idb_events db !! (SourceID d, SourceEventID d)) as [row0|] eqn:E0.
  { destruct Hm as (_&_&_&_&_&->). split_and!; [done..|]. intros id r ?. eauto. }
  destruct Hm as (_&_&stored&i&Hj&Hpk&Han&Hn&->).
  assert (Hkept : outbox_kept db (mkIsrDB (idb_feeds db)
    (<[(SourceID d, SourceEventID d) := event_row pg_time d stored (sd_digest req) (sd_signature req) (ae_received env)]> (idb_events db))
    (<[ae_outbox_id env := new_row i (pg_time (ae_received env)) (ae_db_now env)]> (idb_outbox db)))).
  { intros id r Hr. exists r. simpl. by rewrite lookup_insert_ne by congruence. }
  split_and!; [split; simpl| |done].
  - intros k row. rewrite lookup_insert_Some. intros [[<- <-]|[_ Hk]].
    + exists d, (sd_payload req). simpl. split_and!; try done.
      do 2 eexists. split; [apply lookup_insert_eq|done].
    + eapply row_faithful_mono; [by apply (ii_rows db HI)|done].
  - intros k1 k2 row1 row2. rewrite !lookup_insert_Some.
    intros [[<- <-]|[? L1]] [[<- <-]|[? L2]] He; simpl in He; try done.
    + exfalso. by apply (Hpk _ _ L2).
    + exfalso. by apply (Hpk _ _ L1).
    + by eapply (ii_pk db HI).
  - intros k row Hk. simpl. rewrite lookup_insert_ne by congruence. done.
Qed.

Lemma isr_step_inv db db' :
  isr_step db db' → isr_inv db →
  isr_inv db' ∧ (∀ k row, idb_events db !! k = Some row → idb_events db' !! k = Some row).
Proof.
  intros Hs HI. destruct Hs as [env req r db db' E|op db|l t' db Ho].
  - by destruct (admit_inv _ _ _ _ _ E HI) as (?&?&_).
  - split; [|done]. destruct HI as [Hr Hp]. by split.
  - split; [|done]. split; [|apply (ii_pk db HI)]. intros k row Hk.
    eapply row_faithful_mono; [by apply (ii_rows db HI)|]. intros id r Hr. simpl.
    destruct (outbox_step_row _ _ _ _ _ Ho Hr) as [?|[_ [(w&a&c&_&?&_)|[(w&a&_&_&?)|(w&a&f&_&_&?)]]]];
      eexists; (split; [eassumption|done]).
Qed.

Lemma isr_reach_inv db db' :
  rtc isr_step db db' → isr_inv db →
  isr_inv db' ∧ (∀ k row, idb_events db !! k = Some row → idb_events db' !! k = Some row).
Proof.
  induction 1 as [db|db db1 db' Hs _ IH]; intros HI; [done|].
  destruct (isr_step_inv _ _ Hs HI) as [HI1 L1]. destruct (IH HI1) as [HI2 L2]. eauto.
Qed.

Lemma empty_isr_inv : isr_inv empty_isr.
Proof. split; [intros k row Hk; simpl in Hk; by rewrite lookup_empty in Hk|intros k1 k2 r1 r2 Hk]. simpl in Hk. by rewrite lookup_empty in Hk. Qed.

End proofs.

(** ** Reads *)

Lemma collect_Ok {A B} (f : A → result B) rows bs :
  collect f rows = Ok bs ↔ Forall2 (λ a b, f a = Ok b) rows bs.
Proof.
  revert bs. induction rows as [|x rows IH]; intros bs; simpl.
  - split; [intros [= <-]; constructor|by inversion 1].
  - destruct (f x) as [b|e] eqn:Ef; simpl; [|split; [done|inversion 1; congruence]].
    destruct (collect f rows) as [bs'|e] eqn:Ec; simpl.
    + split; [intros [= <-]; constructor; [done|by apply IH]|].
      inversion 1 as [|? ? ? bs2 Hx Hl]; subst. apply IH in Hl. congruence.
    + split; [done|]. inversion 1 as [|? ? ? bs2 Hx Hl]; subst. by apply IH in Hl.
Qed.

Lemma collect_total {A B} (f : A → result B) rows :
  (∀ a, a ∈ rows → ∃ b, f a = Ok b) → ∃ bs, collect f rows = Ok bs.
Proof.
  induction rows as [|x rows IH]; intros Hall; simpl; [eauto|].
  destruct (Hall x) as [b ->]; [set_solver|]. simpl. destruct IH as [bs ->]; [set_solver|]. simpl. eauto.
Qed.

Lemma CanReadTracks_label p c c' :
  CanReadTracks p c = Ok tt → CanReadTracks p c' = Ok tt ↔ Covers (Clearance p) c' = true.
Proof.
  unfold CanReadTracks. destruct (any_role p trackReaderRoles); cbn [negb fail_if]; [|done].
  destruct (HasRole p RoleInsurerAggregator && _); [done|]. simpl. intros _.
  rewrite fail_if_Ok. by destruct (Covers (Clearance p) c').
Qed.

Lemma CanReadTracks_Err p c e : CanReadTracks p c = Err e → e = ErrForbidden.
Proof.
  unfold CanReadTracks, fail_if. repeat case_match; simpl; congruence.
Qed.

Lemma CanReadTracks_ceiling p c : CanReadTracks p c = Ok tt → clearanceCeiling p = Ok (Clearance p).
Proof.
  unfold CanReadTracks. destruct (any_role p trackReaderRoles); cbn [negb fail_if]; [|done].
  destruct (HasRole p RoleInsurerAggregator && _); [done|]. simpl.
  rewrite fail_if_Ok. unfold Covers, clearanceCeiling. by destruct (ParseClassification (Clearance p)).
Qed.

(** ** Properties *)

(** C15: An admitted detection is authentic: its payload decodes to a valid
    detection bound to the announced source and event, the source is active, the
    claimed time fresh, and the signature verifies under the active key or an
    unexpired prior one; the retained row carries the label of the detection and
    the digest and signature of the request.  A first admission has put the
    sealed event of that label into the outbox; a replay found the same evidence
    and changed nothing. *)
Theorem detection_authentic `{Ed25519} `{JsonText} pg_time jsonb decode env req db d a db' :
  AdmitDetection pg_time jsonb decode env req db = (Ok (d, a), db') →
  let bytes := feedSigningBytes (sd_source req) (sd_event req) (sd_claimed req) (sd_payload req) in
  decode (sd_payload req) = Some d ∧ Validate d = Ok tt ∧
  SourceID d = sd_source req ∧ SourceEventID d = sd_event req ∧
  (∃ s, feed_sources (idb_feeds db) !! sd_source req = Some s ∧ fs_active s = true ∧
     (ed25519_verify (fs_key s) bytes (sd_signature req) = true ∨
      ∃ fp r, rotations (idb_feeds db) !! (sd_source req, fp) = Some r ∧ ae_grace env < rr_grace r ∧
        ed25519_verify (rr_key r) bytes (sd_signature req) = true)) ∧
  ae_check env - FeedReplayWindow <= sd_claimed req <= ae_check env + FeedClockSkew ∧
  (∃ row, idb_events db' !! (sd_source req, sd_event req) = Some row ∧
     er_digest row = sd_digest req ∧ er_signature row = sd_signature req ∧ er_event row = EventID d ∧
     da_received a = er_received row ∧
     if da_replayed a then db' = db
     else er_classification row = det_classification d ∧
       ∃ r, idb_outbox db' !! ae_outbox_id env = Some r ∧ announces_detection d (row_info r)).
Proof.
  intros E bytes. apply AdmitDetection_Ok in E as (Hd&Hv&Hs1&Hs2&E).
  apply admit_in_transaction_Ok in E as (_&(s&(Hs&Hact&_&Hw&Hsig)&_)&_&_&_&Hm); [|done|done].
  split_and!; try done.
  - exists s. split_and!; try done. unfold signature_ok in Hsig. apply orb_true_iff in Hsig as [Hsig|Hsig]; [by left|right].
    destruct (grace_key _ _ _) as [key|] eqn:Eg; [|done].
    apply grace_key_Some in Eg as (fp&r&?&<-&?). eauto.
  - simpl in Hw. lia.
  - simpl in Hw. lia.
  - rewrite Hs1, Hs2 in Hm. destruct (idb_events db !! (sd_source req, sd_event req)) as [row|] eqn:Er.
    + destruct Hm as (->&?&?&?&?&->). exists row. done.
    + destruct Hm as (->&?&stored&i&_&_&Han&_&->). eexists. rewrite Hs1, Hs2. cbn [idb_events idb_outbox].
      split; [apply lookup_insert_eq|]. simpl. split_and!; try done.
      eexists. split; [apply lookup_insert_eq|done].
Qed.

(** C18: The event table stays faithful under every interleaving of admissions,
    key and source administration and outbox delivery: a row stems from an
    admitted document, whose bytes decoded to a valid detection: the row is
    keyed by that detection's source and event, carries its label and its other
    columns, the digest of the signed bytes and their JSONB conversion; event
    identities are unique, its event was announced, and it is never rewritten
    afterwards.  Nothing is assumed of the JSONB conversion. *)
Theorem reachable_events `{Ed25519} `{JsonText} pg_time jsonb decode db db' :
  rtc (isr_step pg_time jsonb decode) empty_isr db → rtc (isr_step pg_time jsonb decode) db db' →
  isr_inv pg_time jsonb decode db ∧ ∀ k row, idb_events db !! k = Some row → idb_events db' !! k = Some row.
Proof.
  intros H1 H2. destruct (isr_reach_inv pg_time jsonb decode _ _ H1) as [HI _]; [apply empty_isr_inv|].
  split; [done|]. by apply (isr_reach_inv pg_time jsonb decode _ _ H2).
Qed.

(** The rows a listing selects. *)
Definition selected_rows (principal : Principal) (filter : DetectionFilter) (listing : list EventRow)
    : list EventRow :=
  take (read_limit (df_limit filter))
    (List.filter (detection_query (coveredLabels (Clearance principal)) filter) listing).

(** The retained document does not decode any more, or decodes to a label that
    is not that of the row and lies beyond the clearance. *)
Definition spoilt (decode : string → option Detection) (principal : Principal) (row : EventRow) : Prop :=
  match decode (er_payload row) with
  | None => True
  | Some d => det_classification d ≠ er_classification row ∧ Covers (Clearance principal) (det_classification d) = false
  end.

Lemma selected_elem principal filter listing row :
  row ∈ selected_rows principal filter listing →
  row ∈ listing ∧ Covers (Clearance principal) (er_classification row) = true.
Proof.
  intros Hin. apply elem_of_take in Hin as (i&Hi&_).
  apply list_elem_of_lookup_2, list_elem_of_In, filter_In in Hi as [Hin Hq].
  split; [by apply list_elem_of_In|].
  unfold detection_query in Hq. rewrite !andb_true_iff, bool_decide_eq_true in Hq. destruct Hq as [[[Hq _] _] _].
  by apply coveredLabels_spec.
Qed.

(** A listing shorter than the limit selects every covered match. *)
Lemma selected_all principal filter listing row :
  (length (selected_rows principal filter listing) < read_limit (df_limit filter))%nat →
  row ∈ listing → detection_query all_labels filter row = true →
  Covers (Clearance principal) (er_classification row) = true →
  row ∈ selected_rows principal filter listing.
Proof.
  unfold selected_rows. rewrite length_take. intros Hlen Hin Hq Hcov. rewrite take_ge by lia.
  apply list_elem_of_In, filter_In. split; [by apply list_elem_of_In|].
  unfold detection_query in *. rewrite !andb_true_iff in *. destruct Hq as [[[_ ?] ?] ?].
  split_and!; try done. by apply bool_decide_eq_true, coveredLabels_spec.
Qed.

(** The read of one selected row. *)
Lemma read_detection_spec decode principal row :
  CanReadTracks principal ClassificationUnclassified = Ok tt →
  Covers (Clearance principal) (er_classification row) = true →
  match read_detection decode principal row with
  | Ok d => decode (er_payload row) = Some d ∧ Covers (Clearance principal) (det_classification d) = true
  | Err _ => spoilt decode principal row
  end.
Proof.
  intros Hr Hc. unfold read_detection, DecodeDetection, spoilt.
  destruct (decode (er_payload row)) as [d|]; simpl; [|done].
  pose proof (CanReadTracks_label _ _ (det_classification d) Hr) as HL.
  destruct (CanReadTracks principal (det_classification d)) as [[]|e]; simpl.
  - split; [done|]. by apply HL.
  - assert (Hn : Covers (Clearance principal) (det_classification d) = false).
    { apply not_true_iff_false. by intros ?%HL. }
    split; [congruence|done].
Qed.

Lemma collect_Err {A B} (f : A → result B) rows e :
  collect f rows = Err e → ∃ a, a ∈ rows ∧ f a = Err e.
Proof.
  induction rows as [|x rows IH]; simpl; [done|].
  destruct (f x) as [b|e'] eqn:Ef; simpl; [|intros [= <-]; exists x; set_solver].
  destruct (collect f rows) as [bs|e']; simpl; [done|]. intros [= ->].
  destruct IH as (a&?&?); [done|]. exists a. set_solver.
Qed.

(** C17: A principal reads exactly what its clearance covers.  Without a track
    role or an approved clearance it is refused.  Otherwise the listing is that
    of the newest matching rows in order: each detection in it is what a
    retained document decodes to, its label is covered, and so is the label
    under which the row was admitted; when it is shorter than the limit, every
    stored row that matches the filter and is covered is in it.  It fails only
    over a selected row whose retained document no longer decodes, or decodes
    to another label than the admitted one, beyond the clearance. *)
Theorem reads_within_clearance `{Ed25519} `{JsonText} pg_time jsonb decode db principal filter listing :
  rtc (isr_step pg_time jsonb decode) empty_isr db →
  listing ≡ₚ (map_to_list (idb_events db)).*2 →
  let rows := selected_rows principal filter listing in
  match ListDetections decode principal filter listing with
  | Err e =>
      (e = ErrForbidden ∧ CanReadTracks principal ClassificationUnclassified ≠ Ok tt) ∨
      (CanReadTracks principal ClassificationUnclassified = Ok tt ∧
       ∃ row, row ∈ rows ∧ spoilt decode principal row)
  | Ok ds =>
      CanReadTracks principal ClassificationUnclassified = Ok tt ∧
      Forall2 (λ row d, decode (er_payload row) = Some d ∧
                 Covers (Clearance principal) (det_classification d) = true ∧
                 ∃ payload admitted, jsonb payload = Some (er_payload row) ∧
                   decode payload = Some admitted ∧ Validate admitted = Ok tt ∧
                   er_classification row = det_classification admitted ∧
                   Covers (Clearance principal) (det_classification admitted) = true) rows ds ∧
      ((length ds < read_limit (df_limit filter))%nat →
       ∀ k row, idb_events db !! k = Some row → detection_query all_labels filter row = true →
         Covers (Clearance principal) (er_classification row) = true →
         ∃ d, d ∈ ds ∧ decode (er_payload row) = Some d)
  end.
Proof.
  intros Hreach Hlist rows.
  destruct (isr_reach_inv pg_time jsonb decode _ _ Hreach) as [HI _]; [apply empty_isr_inv|].
  assert (Hrow : ∀ row, row ∈ listing ↔ ∃ k, idb_events db !! k = Some row).
  { intros row. rewrite Hlist, list_elem_of_fmap. split.
    - intros ([k row']&->&Hin%elem_of_map_to_list). eauto.
    - intros [k Hk]. exists (k, row). by rewrite elem_of_map_to_list. }
  unfold ListDetections.
  destruct (CanReadTracks principal ClassificationUnclassified) as [[]|e] eqn:Ec; simpl.
  2:{ apply CanReadTracks_Err in Ec. by left. }
  rewrite (CanReadTracks_ceiling _ _ Ec). simpl. fold (selected_rows principal filter listing). fold rows.
  assert (Hread : ∀ row, row ∈ rows → ∃ k, idb_events db !! k = Some row ∧
    Covers (Clearance principal) (er_classification row) = true).
  { intros row [[k Hk]%Hrow Hc]%selected_elem. eauto. }
  destruct (collect (read_detection decode principal) rows) as [ds|e] eqn:Hds.
  2:{ right. split; [done|]. apply collect_Err in Hds as (row&Hin&He). exists row. split; [done|].
      destruct (Hread row Hin) as (k&_&Hc). pose proof (read_detection_spec decode _ _ Ec Hc) as Hs.
      by rewrite He in Hs. }
  apply collect_Ok in Hds. split_and!; [done| |].
  - eapply Forall2_impl_elem; [exact Hds|]. intros row d Hin Hrd. destruct (Hread row Hin) as (k&Hk&Hc).
    pose proof (read_detection_spec decode _ _ Ec Hc) as Hs. rewrite Hrd in Hs. destruct Hs as [Hd Hcd].
    destruct (ii_rows _ _ _ _ HI _ _ Hk) as (d0&payload&?&?&?&_&_&_&Hl&_).
    split_and!; [done|done|]. exists payload, d0. rewrite <- Hl. done.
  - intros Hlen k row Hk Hq Hcov.
    assert (Hin : row ∈ rows).
    { apply selected_all; [|apply Hrow; eauto|done|done].
      pose proof (Forall2_length _ _ _ Hds) as Hl. fold rows. lia. }
    apply list_elem_of_lookup_1 in Hin as [i Hi].
    destruct (Forall2_lookup_l _ _ _ _ _ Hds Hi) as (d&Hd&Hrd). exists d.
    split; [by eapply list_elem_of_lookup_2|].
    pose proof (read_detection_spec decode _ _ Ec Hcov) as Hs. rewrite Hrd in Hs. by destruct Hs.
Qed.

(** ** A concrete run *)

Definition sample_detection : Detection :=
  mkDetection "det-1" "ais-1" "event-7" ModalitySAR ClassificationRestricted (100 * Hour) false fzero fzero ""
    None (Some (mkSAR "scene-1" (f_of_Q 9 10) "" fzero)) None None None [].
Definition sample_decode (payload : string) : option Detection :=
  if payload =s "det-1" then Some sample_detection else None.
Definition sample_marshal : JsonText := λ _, "document".
Definition sample_signed : SignedDetectionRequest :=
  mkSignedDetection "ais-1" "event-7" (101 * Hour) "det-1" (sample_key +:+ sample_key).
Definition sample_admit_env : AdmitEnv :=
  mkAdmitEnv (101 * Hour) (101 * Hour) (101 * Hour) (101 * Hour) "envelope-1" "outbox-1".
Definition registered_isr : IsrDB := mkIsrDB registered_feeds ∅ ∅.
Definition sample_admit : result (Detection * DetectionAdmission) * IsrDB :=
  AdmitDetection (H := sample_scheme) (H0 := sample_marshal) id Some sample_decode sample_admit_env sample_signed
    registered_isr.
Definition admitted_isr : IsrDB := sample_admit.2.
Definition sample_evidence : DetectionAdmission :=
  mkDetectionAdmission "det-1" ClassificationRestricted (sd_digest sample_signed) (fingerprint sample_key)
    (101 * Hour) false.
Definition sample_reader : Principal := mkPrincipal "officer" {[RoleNNOfficer]} ClassificationSecret.

Lemma sample_admit_ok : sample_admit = (Ok (sample_detection, sample_evidence), admitted_isr).
Proof. vm_compute. reflexivity. Qed.

Lemma sample_isr_run :
  rtc (isr_step (H := sample_scheme) (H0 := sample_marshal) id Some sample_decode) empty_isr admitted_isr.
Proof.
  eapply rtc_l; [apply (is_feed _ _ _ (FRegister (100 * Hour) sample_registration))|].
  eapply rtc_l; [|apply rtc_refl].
  apply (is_admit _ _ _ sample_admit_env sample_signed sample_admit.1). vm_compute. reflexivity.
Qed.

Lemma detection_authentic_witness :
  ∃ s, feed_sources (idb_feeds registered_isr) !! "ais-1" = Some s ∧ fs_active s = true.
Proof.
  destruct (detection_authentic (H := sample_scheme) (H0 := sample_marshal) id Some sample_decode sample_admit_env
    sample_signed registered_isr sample_detection sample_evidence admitted_isr sample_admit_ok)
    as (_&_&_&_&(s&Hs&Ha&_)&_).
  exists s. split; [exact Hs|exact Ha].
Defined.

Lemma reachable_events_witness : isr_inv id Some sample_decode admitted_isr.
Proof.
  apply (reachable_events (H := sample_scheme) (H0 := sample_marshal) id Some sample_decode admitted_isr admitted_isr).
  - exact sample_isr_run.
  - apply rtc_refl.
Defined.

Lemma reads_within_clearance_witness :
  CanReadTracks sample_reader ClassificationUnclassified = Ok tt ∧
  ListDetections sample_decode sample_reader (mkDetectionFilter "" "" 0 0)
    (map_to_list (idb_events admitted_isr)).*2 = Ok [sample_detection].
Proof.
  pose proof (reads_within_clearance (H := sample_scheme) (H0 := sample_marshal) id Some sample_decode admitted_isr
    sample_reader (mkDetectionFilter "" "" 0 0) (map_to_list (idb_events admitted_isr)).*2) as Hread.
  assert (Hlist : ListDetections sample_decode sample_reader (mkDetectionFilter "" "" 0 0)
    (map_to_list (idb_events admitted_isr)).*2 = Ok [sample_detection]) by (vm_compute; reflexivity).
  cbv zeta in Hread. rewrite Hlist in Hread. split; [|exact Hlist].
  apply Hread; [exact sample_isr_run|reflexivity].
Defined.
