(* ===== verification/TrackStore.v ===== *)
(** * Track persistence and the dark-vessel scanner ([internal/tracks/store.go], [scanner.go])

    The tables of fused tracks, association audit and behaviour anomalies, the
    statements that write them with the envelopes of the anomalies, the scanner
    that records the anomalies of a scan, and the startup replay of
    [cmd/maritime-intelligence/main.go].

    A transaction is one step of the store monad.  The UUIDs of a call (the
    envelope's and the outbox row's, per anomaly) and its clock readings are
    arguments. *)

From S2P Require Import Prelude GoStrings GoTime Float64 Geo Classification Detection Fusion Outbox Envelope.
From S2P Require Import GoFormat Incident Feed IsrStore.

(** ** Rows *)

(** A row of [maritime_vessel_tracks], from [track_id]. *)
Record TrackRow : Type := mkTrackRow {
  tr_mmsi : option string;
  tr_class : Classification;
  tr_first : Z;
  tr_last : Z;
  tr_count : Z;
  tr_updated : Z
}.

(** A row of [maritime_track_associations], from (source_id, source_event_id). *)
Record AssociationRow : Type := mkAssociation {
  as_track : string;
  as_modality : Modality;
  as_class : Classification;
  as_observed : Z;
  as_associated : Z
}.

Record TrackDB : Type := mkTrackDB {
  tdb_tracks : gmap string TrackRow;
  tdb_associations : gmap (string * string) AssociationRow;
  tdb_anomalies : gmap string RetainedAnomaly;
  tdb_outbox : ISROutbox
}.

Definition set_track_rows (db : TrackDB) (m : gmap string TrackRow) : TrackDB :=
  mkTrackDB m (tdb_associations db) (tdb_anomalies db) (tdb_outbox db).
Definition set_associations (db : TrackDB) (m : gmap (string * string) AssociationRow) : TrackDB :=
  mkTrackDB (tdb_tracks db) m (tdb_anomalies db) (tdb_outbox db).
Definition set_anomalies (db : TrackDB) (m : gmap string RetainedAnomaly) : TrackDB :=
  mkTrackDB (tdb_tracks db) (tdb_associations db) m (tdb_outbox db).

Definition nullable (value : string) : option string := if value =s "" then None else Some value.

Definition sql_modalities : list Modality :=
  [ModalityAIS; ModalitySAR; ModalityRF; ModalityAcoustic; ModalityOptical].

(** The CHECK constraints of the three tables; the labels of [kind] are those of
    [AnomalyKind]. *)
Definition track_row_ok (trackID : string) (r : TrackRow) : bool :=
  ident_pattern 127 trackID &&
  match tr_mmsi r with Some m => mmsi_pattern m | None => true end &&
  bool_decide (tr_class r ∈ all_labels) && (0 <=? tr_count r).

Definition association_row_ok (r : AssociationRow) : bool :=
  bool_decide (as_modality r ∈ sql_modalities) && bool_decide (as_class r ∈ all_labels).

Definition anomaly_row_ok (r : RetainedAnomaly) : bool :=
  ident_pattern 191 (ra_id r) && bool_decide (ra_classification r ∈ all_labels) &&
  (1 <=? pg_length (ra_detail r)) && (pg_length (ra_detail r) <=? 1024).

(** ** Anomalies as text and as documents *)

(** The [fmt.Sprintf] calls of [evaluateLocked], [ScanDarkVessels] and
    [cvconsumer.HandleDarkVessel]. *)
Definition detail_text (d : AnomalyDetail) : string :=
  match d with
  | DetailSpeed knots baseline =>
      "implied leg speed " +:+ format_float 1 knots +:+ " kn exceeds baseline " +:+ format_float 1 baseline +:+ " kn"
  | DetailLoitering zoneID duration =>
      "track inside restricted zone " +:+ zoneID +:+ " for >= " +:+ duration_string duration
  | DetailRendezvous radius duration =>
      "tracks within " +:+ format_float 0 radius +:+ " m for >= " +:+ duration_string duration
  | DetailDarkVessel gap zoneID =>
      "AIS silent for >= " +:+ duration_string gap +:+ " inside zone " +:+ zoneID
  | DetailObservation camera track confidence model =>
      "cv dark-vessel observation camera=" +:+ camera +:+ " track=" +:+ track +:+ " confidence=" +:+
        format_float 2 confidence +:+ " model=" +:+ model
  end.

Definition anomaly_members (a : Anomaly) : list (string * json) :=
  [("anomaly_id", JString (AnomalyID a)); ("kind", JString (kind_string (an_kind a)));
   ("track_ids", JArray (JString <$> TrackIDs a))] ++
  omit_string "zone_id" (an_zone a) ++
  [("classification", JString (an_class a)); ("detected_at", JString (rfc3339nano (DetectedAt a)));
   ("detail", JString (detail_text (Detail a)))] ++
  omit_empty "correlation_refs" (an_refs a).

Section store.
Context `{JsonText} (pg_time : Z → Z).

Definition anomaly_row (a : Anomaly) : RetainedAnomaly :=
  mkRetained (AnomalyID a) (kind_string (an_kind a)) (an_class a) (TrackIDs a)
    (default "" (nullable (an_zone a))) (detail_text (Detail a)) (an_refs a) (pg_time (DetectedAt a)).

Definition write_anomaly_outbox (id : string) (created db_now : Z) (e : ISREvent) : M TrackDB unit := λ db,
  let '(r, t) := insert_isr_outbox "write anomaly outbox event" id created db_now e (tdb_outbox db) in
  (r, mkTrackDB (tdb_tracks db) (tdb_associations db) (tdb_anomalies db) t).

(** [ids] are the UUIDs of the envelope and of the outbox row. *)
Definition recordAnomalyInTransaction (db_now : Z) (ids : string * string) (anomaly : Anomaly)
    : M TrackDB unit :=
  db ← get_state;
  _ ← check (negb (anomaly_row_ok (anomaly_row anomaly))) (EWrap "record anomaly" (EText "check violation"));
  match tdb_anomalies db !! AnomalyID anomaly with
  | Some _ => mret tt
  | None =>
      _ ← put_state (set_anomalies db (<[AnomalyID anomaly := anomaly_row anomaly]> (tdb_anomalies db)));
      envelope ← lift (Seal ids.1 TopicBehaviour ("behaviour." +:+ kind_string (an_kind anomaly))
                         (AnomalyID anomaly) (an_class anomaly) (DetectedAt anomaly)
                         (JObject (anomaly_members anomaly)));
      write_anomaly_outbox ids.2 (pg_time (DetectedAt anomaly)) db_now
        (mkISREvent (env_topic envelope) (env_event_type envelope) (env_clearance envelope)
           (env_aggregate_key envelope) envelope)
  end.

(** The loop over the anomalies; [ids i] are the UUIDs of the [i]-th. *)
Fixpoint record_anomalies (db_now : Z) (ids : nat → string * string) (i : nat) (anomalies : list Anomaly)
    : M TrackDB unit :=
  match anomalies with
  | [] => mret tt
  | a :: rest =>
      _ ← recordAnomalyInTransaction db_now (ids i) a;
      record_anomalies db_now ids (S i) rest
  end.

Record RecordEnv : Type := mkRecordEnv {
  re_updated : Z;
  re_associated : Z;
  re_db_now : Z;
  re_ids : nat → string * string;
  re_commits : bool
}.

(** [ON CONFLICT (track_id) DO UPDATE] *)
Definition merge_track_row (old new : TrackRow) : TrackRow :=
  mkTrackRow (match tr_mmsi old with Some m => Some m | None => tr_mmsi new end) (tr_class new)
    (tr_first old) (Z.max (tr_last old) (tr_last new)) (tr_count new) (tr_updated new).

Definition upsert_track (trackID : string) (new : TrackRow) : M TrackDB unit :=
  db ← get_state;
  _ ← check (negb (track_row_ok trackID new)) (EWrap "upsert track" (EText "check violation"));
  put_state (set_track_rows db
    (<[trackID := match tdb_tracks db !! trackID with
                  | Some old => merge_track_row old new
                  | None => new
                  end]> (tdb_tracks db))).

(** [ON CONFLICT (source_id, source_event_id) DO NOTHING]; the track the row
    references was upserted just before. *)
Definition insert_association (key : string * string) (row : AssociationRow) : M TrackDB unit :=
  db ← get_state;
  _ ← check (negb (association_row_ok row)) (EWrap "record association audit" (EText "check violation"));
  match tdb_associations db !! key with
  | Some _ => mret tt
  | None => put_state (set_associations db (<[key := row]> (tdb_associations db)))
  end.

Definition fusion_transaction (env : RecordEnv) (track : Track) (first last : Z) (detection : Detection)
    (anomalies : list Anomaly) : M TrackDB unit :=
  _ ← upsert_track (TrackID track)
        (mkTrackRow (nullable (trk_mmsi track)) (trk_class track) (pg_time first) (pg_time last)
           (Z.of_nat (length (Points track))) (pg_time (re_updated env)));
  _ ← insert_association (SourceID detection, SourceEventID detection)
        (mkAssociation (TrackID track) (det_modality detection) (det_classification detection)
           (pg_time (ObservedAt detection)) (pg_time (re_associated env)));
  _ ← record_anomalies (re_db_now env) (re_ids env) 0 anomalies;
  check (negb (re_commits env)) (EText "commit fusion record").

Definition RecordFusion (env : RecordEnv) (track : Track) (detection : Detection) (anomalies : list Anomaly)
    : M TrackDB unit :=
  match Points track with
  | [] => throw (EText "track has no points")
  | first :: _ =>
      let last := default first (last (Points track)) in
      atomically (fusion_transaction env track (pt_observed first) (pt_observed last) detection anomalies)
  end.

Definition RecordAnomalies (env : RecordEnv) (anomalies : list Anomaly) : M TrackDB unit :=
  match anomalies with
  | [] => mret tt
  | _ =>
      atomically (
        _ ← record_anomalies (re_db_now env) (re_ids env) 0 anomalies;
        check (negb (re_commits env)) (EText "commit unexpectedly resulted in rollback"))
  end.

(** ** Fusion of an admitted detection

    The part of the admission handler after the detection is durable: ingest,
    then record the track, the association and the anomalies. *)

Inductive FusionOutcome : Type :=
| Fused
| FusionFailed (err : error)
| RecordFailed (err : error).

Definition fuse_detection (ienv : IngestEnv) (renv : RecordEnv) (detection : Detection) (e : Engine)
    (db : TrackDB) : option (FusionOutcome * Engine * TrackDB) :=
  match Ingest ienv e detection with
  | None => None
  | Some (Err err, e') => Some (FusionFailed err, e', db)
  | Some (Ok (trackID, out), e') =>
      match Track_view e' trackID with
      | None => Some (Fused, e', db)
      | Some track =>
          match RecordFusion renv track detection out.*1 db with
          | (Ok _, db') => Some (Fused, e', db')
          | (Err err, db') => Some (RecordFailed err, e', db')
          end
      end
  end.

(** ** Startup replay *)

Record AssociationReplay : Type := mkReplay { ar_track : string; ar_payload : string }.

(** [ORDER BY a.observed_at, a.associated_at, a.source_id, a.source_event_id]:
    the two texts compare under the collation of the database, which the model
    leaves open. *)
Definition replay_before (a b : (string * string) * AssociationRow) : Prop :=
  as_observed a.2 < as_observed b.2 ∨
  (as_observed a.2 = as_observed b.2 ∧ as_associated a.2 <= as_associated b.2).

(** The inner join with the retained payloads; [listing] is the association
    table in the order above. *)
Definition ListAssociationsForReplay (events : gmap (string * string) EventRow)
    (listing : list ((string * string) * AssociationRow)) : list AssociationReplay :=
  omap (λ kr, (λ e, mkReplay (as_track kr.2) (er_payload e)) <$> events !! kr.1) listing.

(** [order_of i keys] is the order in which the [i]-th replay ranges over a
    track map with these keys. *)
Fixpoint replayTrackAssociations (decode : string → option Detection) (order_of : nat → gset string → list string)
    (i : nat) (replays : list AssociationReplay) (fusion : Engine) : result unit * Engine :=
  match replays with
  | [] => (Ok tt, fusion)
  | replay :: rest =>
      match DecodeDetection decode (ar_payload replay) with
      | Err err =>
          (Err (EWrap ("reload track association " +:+ ar_track replay +:+ ": retained detection undecodable") err), fusion)
      | Ok detection =>
          match Replay (order_of i ({[ar_track replay]} ∪ dom (tracks fusion))) fusion (ar_track replay) detection with
          | (Err err, fusion') => (Err (EWrap ("replay track association " +:+ ar_track replay) err), fusion')
          | (Ok _, fusion') => replayTrackAssociations decode order_of (S i) rest fusion'
          end
      end
  end.

(** ** The dark-vessel scanner *)

(** What [scanOnce] logs. *)
Inductive ScanLog : Type :=
| ScanQuiet
| ScanFailed (count : Z) (err : error)
| ScanEmitted (count : Z).

Definition scanOnce (order : list string) (now : Z) (renv : RecordEnv) (e : Engine) (db : TrackDB)
    : ScanLog * Engine * TrackDB :=
  let '(e', out) := ScanDarkVessels order now e in
  let count := Z.of_nat (length out) in
  match out with
  | [] => (ScanQuiet, e', db)
  | _ =>
      match RecordAnomalies renv out.*1 db with
      | (Err err, db') => (ScanFailed count err, e', db')
      | (Ok _, db') => (ScanEmitted count, e', db')
      end
  end.

(** The scans of [Run], one per tick until the context is cancelled. *)
Fixpoint scanner_run (ticks : list (list string * Z * RecordEnv)) (e : Engine) (db : TrackDB)
    : list ScanLog * Engine * TrackDB :=
  match ticks with
  | [] => ([], e, db)
  | (order, now, renv) :: rest =>
      let '(log, e', db') := scanOnce order now renv e db in
      let '(logs, e'', db'') := scanner_run rest e' db' in
      (log :: logs, e'', db'')
  end.

Definition NewDarkVesselScanner (engine recorder : bool) (interval : Z) : result unit :=
  _ ← fail_if (negb engine) (EText "dark-vessel scanner requires a fusion engine");
  _ ← fail_if (negb recorder) (EText "dark-vessel scanner requires an anomaly recorder");
  fail_if (interval <=? 0) (EText "dark-vessel scan interval must be positive").

End store.
