(* ===== verification/TrackStoreProofs.v ===== *)
(** * Properties of the track store

    The invariant of the tables under interleaving, that the anomalies of an
    ingest or a scan are recorded, and that a restart rebuilds the engine. *)

From S2P Require Import Prelude GoStrings GoTime Float64 Geo Classification Detection Fusion FusionInv FusionReplay.
From S2P Require Import FusionRules FusionDark FusionSamples Outbox Envelope GoFormat Incident Feed IsrStore TrackStore.

(** ** The statements *)

(** The outbox row of a recorded anomaly. *)
Definition announces_anomaly (row : RetainedAnomaly) (i : ISREvent) : Prop :=
  ie_topic i = TopicBehaviour ∧ ie_event_type i = "behaviour." +:+ ra_kind row ∧
  ie_aggregate_key i = ra_id row ∧ ie_classification i = ra_classification row ∧
  env_clearance (ie_envelope i) = ra_classification row.

Section statements.
Context `{JsonText} (pg_time : Z → Z).

(** One anomaly: kept as it is when its identity is known, else stored with its
    announcement. *)
Inductive anomaly_recorded (created db_now : Z) (outbox_id : string) (a : Anomaly) (db : TrackDB) : TrackDB → Prop :=
| ar_known row : tdb_anomalies db !! AnomalyID a = Some row → anomaly_recorded created db_now outbox_id a db db
| ar_new i :
    tdb_anomalies db !! AnomalyID a = None → tdb_outbox db !! outbox_id = None →
    announces_anomaly (anomaly_row pg_time a) i →
    anomaly_recorded created db_now outbox_id a db
      (mkTrackDB (tdb_tracks db) (tdb_associations db)
         (<[AnomalyID a := anomaly_row pg_time a]> (tdb_anomalies db))
         (<[outbox_id := new_row i created db_now]> (tdb_outbox db))).

Lemma recordAnomaly_Ok db_now ids a db db' :
  recordAnomalyInTransaction pg_time db_now ids a db = (Ok tt, db') →
  anomaly_row_ok (anomaly_row pg_time a) = true ∧
  anomaly_recorded (pg_time (DetectedAt a)) db_now ids.2 a db db'.
Proof.
  unfold recordAnomalyInTransaction. run_store.
  destruct (anomaly_row_ok _) eqn:Ek; cbn [negb]; run_store; [|done].
  destruct (tdb_anomalies db !! AnomalyID a) as [row|] eqn:Er; run_store.
  - intros [= <-]. split; [done|]. by econstructor.
  - destruct (Seal _ _ _ _ _ _ _) as [envelope|] eqn:Ese; run_store; [|done].
    unfold write_anomaly_outbox. destruct (insert_isr_outbox _ _ _ _ _ _) as [[[]|] t] eqn:Ei; [|done].
    intros [= <-]. apply insert_isr_outbox_Ok in Ei as (Hn&_&_&->). split; [done|].
    apply Seal_Ok in Ese as (members&band&_&_&_&->). by refine (ar_new _ _ _ a db _ Er Hn _).
Qed.

(** The conditions a recording meets. *)
Record recordable (a : Anomaly) : Prop := {
  rec_id : identifierPattern (AnomalyID a) = true;
  rec_label : valid_label (an_class a);
  rec_time : DetectedAt a ≠ 0;
  rec_detail : 1 <= pg_length (detail_text (Detail a)) <= 1024
}.

Lemma anomaly_probe a : probe_members (anomaly_members a) "" = Some (an_class a).
Proof. unfold anomaly_members, omit_string, omit_empty. destruct (an_zone a =s ""), (an_refs a); reflexivity. Qed.

Lemma insert_total ctx id created now e t :
  t !! id = None → ie_topic e ∈ isr_topics → ie_classification e ∈ all_labels →
  ∃ t', insert_isr_outbox ctx id created now e t = (Ok tt, t').
Proof. intros. eexists. by apply insert_isr_outbox_Ok. Qed.

Lemma recordAnomaly_total db_now ids a db :
  recordable a → tdb_outbox db !! ids.2 = None →
  ∃ db', recordAnomalyInTransaction pg_time db_now ids a db = (Ok tt, db').
Proof.
  intros [Hid Hl Ht Hd] Hn. unfold recordAnomalyInTransaction. run_store.
  assert (anomaly_row_ok (anomaly_row pg_time a) = true) as ->.
  { unfold anomaly_row_ok, anomaly_row. simpl.
    rewrite (ident_pattern_mono 127 191) by (done || lia). rewrite bool_decide_eq_true_2 by done.
    simpl. bprop. lia. }
  cbn [negb]. run_store. destruct (tdb_anomalies db !! AnomalyID a) as [row|] eqn:Er; run_store; [eauto|].
  destruct (EnvelopeClassificationOf_Ok (an_class a) Hl) as [band Hb].
  rewrite (proj2 (Seal_Ok _ _ _ _ _ _ _ (sealed ids.1 TopicBehaviour ("behaviour." +:+ kind_string (an_kind a))
    (AnomalyID a) (an_class a) (DetectedAt a) (anomaly_members a) band))).
  2:{ exists (anomaly_members a), band. split_and!; try done. unfold sealable. split_and!; try done;
        [set_solver|by destruct (an_kind a)|by destruct (an_kind a)|apply anomaly_probe]. }
  run_store. unfold write_anomaly_outbox. simpl.
  match goal with |- context [insert_isr_outbox ?ctx ?id ?c ?n ?e ?t] =>
    destruct (insert_total ctx id c n e t) as [t' ->]; [done|set_solver|done|eauto] end.
Qed.

(** The anomalies of a call, in order. *)
Lemma record_anomalies_Ok db_now ids i l db db' :
  record_anomalies pg_time db_now ids i l db = (Ok tt, db') →
  match l with
  | [] => db' = db
  | a :: rest => ∃ db1, recordAnomalyInTransaction pg_time db_now (ids i) a db = (Ok tt, db1) ∧
      record_anomalies pg_time db_now ids (S i) rest db1 = (Ok tt, db')
  end.
Proof.
  destruct l as [|a rest]; simpl; run_store; [by intros [= <-]|].
  destruct (recordAnomalyInTransaction _ _ _ a db) as [[[]|] db1]; [eauto|done].
Qed.

Lemma record_anomalies_inv db_now ids (P : TrackDB → Prop) :
  (∀ created oid a db db', anomaly_row_ok (anomaly_row pg_time a) = true →
     anomaly_recorded created db_now oid a db db' → P db → P db') →
  ∀ l i db db', record_anomalies pg_time db_now ids i l db = (Ok tt, db') → P db → P db'.
Proof.
  intros HP l. induction l as [|a rest IH]; intros i db db' E HPdb.
  - apply record_anomalies_Ok in E as ->. done.
  - apply record_anomalies_Ok in E as (db1&E1&E2). apply recordAnomaly_Ok in E1 as [Hok E1].
    eapply IH; [exact E2|]. by eapply HP.
Qed.

(** ** One call *)

Definition fused_row (renv : RecordEnv) (track : Track) (first last : Z) : TrackRow :=
  mkTrackRow (nullable (trk_mmsi track)) (trk_class track) (pg_time first) (pg_time last)
    (Z.of_nat (length (Points track))) (pg_time (re_updated renv)).

Definition fused_association (renv : RecordEnv) (track : Track) (d : Detection) : AssociationRow :=
  mkAssociation (TrackID track) (det_modality d) (det_classification d) (pg_time (ObservedAt d))
    (pg_time (re_associated renv)).

(** The tables after the first two statements. *)
Definition associated (renv : RecordEnv) (track : Track) (first last : Z) (d : Detection) (db : TrackDB) : TrackDB :=
  let new := fused_row renv track first last in
  mkTrackDB (<[TrackID track := match tdb_tracks db !! TrackID track with
                                | Some old => merge_track_row old new
                                | None => new
                                end]> (tdb_tracks db))
    (match tdb_associations db !! (SourceID d, SourceEventID d) with
     | Some _ => tdb_associations db
     | None => <[(SourceID d, SourceEventID d) := fused_association renv track d]> (tdb_associations db)
     end) (tdb_anomalies db) (tdb_outbox db).

Lemma upsert_track_run id new db :
  upsert_track id new db =
  if track_row_ok id new then
    (Ok tt, set_track_rows db (<[id := match tdb_tracks db !! id with
                                       | Some old => merge_track_row old new
                                       | None => new
                                       end]> (tdb_tracks db)))
  else (Err (EWrap "upsert track" (EText "check violation")), db).
Proof. unfold upsert_track. run_store. by destruct (track_row_ok id new). Qed.

Lemma insert_association_run key row db :
  insert_association key row db =
  if association_row_ok row then
    (Ok tt, set_associations db (match tdb_associations db !! key with
                                 | Some _ => tdb_associations db
                                 | None => <[key := row]> (tdb_associations db)
                                 end))
  else (Err (EWrap "record association audit" (EText "check violation")), db).
Proof.
  unfold insert_association. run_store. destruct (association_row_ok row); cbn [negb]; run_store; [|done].
  destruct (tdb_associations db !! key); [|done]. by destruct db.
Qed.

Lemma RecordFusion_Ok renv track d l db db' :
  RecordFusion pg_time renv track d l db = (Ok tt, db') ↔
  ∃ p ps, Points track = p :: ps ∧
    let last := default p (last (Points track)) in
    track_row_ok (TrackID track) (fused_row renv track (pt_observed p) (pt_observed last)) = true ∧
    association_row_ok (fused_association renv track d) = true ∧
    record_anomalies pg_time (re_db_now renv) (re_ids renv) 0 l
      (associated renv track (pt_observed p) (pt_observed last) d db) = (Ok tt, db') ∧
    re_commits renv = true.
Proof.
  unfold RecordFusion. destruct (Points track) as [|p ps] eqn:Ep.
  { split; [done|]. by intros (?&?&?&_). }
  rewrite atomically_Ok. unfold fusion_transaction. run_store. rewrite upsert_track_run, <- Ep.
  fold (fused_row renv track (pt_observed p) (pt_observed (default p (last (Points track))))).
  fold (fused_association renv track d). split.
  - destruct (track_row_ok _ _) eqn:E1; run_store; [|done]. rewrite insert_association_run.
    destruct (association_row_ok _) eqn:E2; run_store; [|done].
    intros E. exists p, ps. split; [done|]. cbv zeta. split; [exact E1|]. split; [done|]. revert E.
    unfold associated, set_associations, set_track_rows. simpl.
    destruct (record_anomalies _ _ _ _ _ _) as [[[]|] db1]; run_store; [|done].
    destruct (re_commits renv); run_store; [by intros [= <-]|done].
  - intros (p'&ps'&Heq&E1&E2&E3&E4). assert (p' = p ∧ ps' = ps) as [-> ->] by (split; congruence).
    rewrite E1. run_store. rewrite insert_association_run, E2. run_store.
    revert E3. unfold associated, set_associations, set_track_rows. simpl. intros ->. by rewrite E4.
Qed.

Lemma RecordFusion_Err renv track d l db err db' :
  RecordFusion pg_time renv track d l db = (Err err, db') → db' = db.
Proof. unfold RecordFusion. destruct (Points track); [by intros [= _ <-]|apply atomically_Err]. Qed.

Lemma RecordAnomalies_Ok renv l db db' :
  RecordAnomalies pg_time renv l db = (Ok tt, db') ↔
  record_anomalies pg_time (re_db_now renv) (re_ids renv) 0 l db = (Ok tt, db') ∧ (l = [] ∨ re_commits renv = true).
Proof.
  unfold RecordAnomalies. destruct l as [|a l]; [simpl; rewrite mret_run; naive_solver|].
  rewrite atomically_Ok. run_store. destruct (record_anomalies _ _ _ _ _ _) as [[[]|] db1]; run_store; [|naive_solver].
  destruct (re_commits renv); run_store; naive_solver.
Qed.

Lemma RecordAnomalies_Err renv l db err db' :
  RecordAnomalies pg_time renv l db = (Err err, db') → db' = db.
Proof. unfold RecordAnomalies. destruct l; [done|apply atomically_Err]. Qed.

End statements.

(** ** The tables under interleaving *)

Section machine.
Context `{JsonText} (pg_time : Z → Z).

(** Recordings of ingests and scans, and other users of the outbox. *)
Inductive track_step : TrackDB → TrackDB → Prop :=
| ts_fusion renv track d l r db db' : RecordFusion pg_time renv track d l db = (r, db') → track_step db db'
| ts_anomalies renv l r db db' : RecordAnomalies pg_time renv l db = (r, db') → track_step db db'
| ts_outbox l t' db :
    outbox_step (tdb_outbox db) l t' →
    track_step db (mkTrackDB (tdb_tracks db) (tdb_associations db) (tdb_anomalies db) t').

Record track_db_inv (db : TrackDB) : Prop := {
  tdi_anomalies id row : tdb_anomalies db !! id = Some row →
    ra_id row = id ∧ anomaly_row_ok row = true ∧
    ∃ oid r, tdb_outbox db !! oid = Some r ∧ announces_anomaly row (row_info r);
  tdi_associations k row : tdb_associations db !! k = Some row → is_Some (tdb_tracks db !! as_track row)
}.

(** What no later step undoes. *)
Record track_db_kept (db db' : TrackDB) : Prop := {
  tdk_tracks id r : tdb_tracks db !! id = Some r →
    ∃ r', tdb_tracks db' !! id = Some r' ∧ tr_first r' = tr_first r ∧ tr_last r <= tr_last r' ∧
      ∀ m, tr_mmsi r = Some m → tr_mmsi r' = Some m;
  tdk_associations : tdb_associations db ⊆ tdb_associations db';
  tdk_anomalies : tdb_anomalies db ⊆ tdb_anomalies db'
}.

#[local] Instance kept_preorder : PreOrder track_db_kept.
Proof.
  split.
  - intros db. split; [|done..]. intros id r ?. exists r. split_and!; [done|done|lia|done].
  - intros a b c [T1 A1 N1] [T2 A2 N2]. split; [|by etrans..]. intros id r Hr.
    destruct (T1 _ _ Hr) as (r1&H1&?&?&Hm1). destruct (T2 _ _ H1) as (r2&?&?&?&Hm2).
    exists r2. split_and!; [done|congruence|lia|eauto].
Qed.

Definition good_step (db0 db : TrackDB) : Prop := track_db_inv db ∧ track_db_kept db0 db.

Lemma anomaly_step_good db0 created db_now oid a db db' :
  anomaly_row_ok (anomaly_row pg_time a) = true →
  anomaly_recorded pg_time created db_now oid a db db' → good_step db0 db → good_step db0 db'.
Proof.
  intros Hok Hrec HG. destruct Hrec as [row _|i Hn Ho Han]; [done|]. destruct HG as [[IA IS] HK].
  split; [split; simpl|].
  - intros id row. rewrite lookup_insert_Some. intros [[<- <-]|[Hne Hrow]].
    + split_and!; [done|done|]. exists oid, (new_row i created db_now). by rewrite lookup_insert_eq.
    + destruct (IA _ _ Hrow) as (?&?&oid'&r&Hr&?). split_and!; [done|done|]. exists oid', r.
      rewrite lookup_insert_ne by congruence. done.
  - exact IS.
  - etrans; [exact HK|]. split; simpl; [|done|by apply insert_subseteq].
    intros id r ?. exists r. split_and!; [done|done|lia|done].
Qed.

Lemma associated_good renv track first last d db :
  track_db_inv db → good_step db (associated pg_time renv track first last d db).
Proof.
  intros [IA IS]. split; [split; simpl; [exact IA|]|split; simpl].
  - assert (Hold : ∀ id, is_Some (tdb_tracks db !! id) ∨ id = TrackID track →
      is_Some (<[TrackID track := match tdb_tracks db !! TrackID track with
                  | Some old => merge_track_row old (fused_row pg_time renv track first last)
                  | None => fused_row pg_time renv track first last
                  end]> (tdb_tracks db) !! id)).
    { intros id Hid. rewrite lookup_insert_is_Some'. naive_solver. }
    intros k row. destruct (tdb_associations db !! (SourceID d, SourceEventID d)); [intros Hk; apply Hold; eauto|].
    rewrite lookup_insert_Some. intros [[<- <-]|[_ Hk]]; apply Hold; eauto.
  - intros id r Hr. destruct (decide (TrackID track = id)) as [<-|Hne].
    + rewrite lookup_insert_eq, Hr. eexists. split; [done|]. simpl. split_and!; [done|lia|]. by intros m ->.
    + rewrite lookup_insert_ne by done. exists r. split_and!; [done|done|lia|done].
  - destruct (tdb_associations db !! _) eqn:E; [done|]. by apply insert_subseteq.
  - done.
Qed.

Lemma track_step_good db db' : track_step db db' → track_db_inv db → good_step db db'.
Proof.
  intros Hs HI. destruct Hs as [renv track d l r db db' E|renv l r db db' E|l t' db Ho].
  - destruct r as [[]|err].
    + apply RecordFusion_Ok in E as (p&ps&_&_&_&E&_).
      eapply (record_anomalies_inv pg_time _ _ (good_step db)); [|exact E|by apply associated_good].
      intros *. apply anomaly_step_good.
    + by apply RecordFusion_Err in E as ->.
  - destruct r as [[]|err].
    + apply RecordAnomalies_Ok in E as [E _].
      eapply (record_anomalies_inv pg_time _ _ (good_step db)); [|exact E|by split].
      intros *. apply anomaly_step_good.
    + by apply RecordAnomalies_Err in E as ->.
  - destruct HI as [IA IS]. split; [split; simpl; [|done]|].
    + intros id row Hrow. destruct (IA _ _ Hrow) as (?&?&oid&r&Hr&Han). split_and!; [done|done|].
      destruct (outbox_step_info _ _ _ _ _ Ho Hr) as (r'&?&Hi). exists oid, r'. by rewrite Hi.
    + split; simpl; [|done..]. intros id r ?. exists r. split_and!; [done|done|lia|done].
Qed.

Lemma track_reach_good db db' : rtc track_step db db' → track_db_inv db → good_step db db'.
Proof.
  induction 1 as [db|db db1 db2 Hs _ IH]; intros HI; [done|].
  destruct (track_step_good _ _ Hs HI) as [HI1 HK1]. destruct (IH HI1) as [HI2 HK2].
  split; [done|by etrans].
Qed.

Definition empty_tracks : TrackDB := mkTrackDB ∅ ∅ ∅ ∅.

Lemma empty_tracks_inv : track_db_inv empty_tracks.
Proof. split; intros k row Hk; simpl in Hk; by rewrite lookup_empty in Hk. Qed.

End machine.

(** ** Property *)

(** C32: The track tables stay consistent under every interleaving of recordings,
    scans and outbox users: every stored anomaly satisfies its constraints and
    has its announcement, of the same kind, identity and label, on the
    behaviour topic; every association names a stored track; no later step
    rewrites or deletes an anomaly or an association, deletes a track, moves a
    first observation, takes a last observation back or changes an MMSI once
    known.  The other columns of a track row (label, counts, an MMSI not known
    yet) are rewritten by every upsert. *)
Theorem reachable_tracks `{JsonText} pg_time db db' :
  rtc (track_step pg_time) empty_tracks db → rtc (track_step pg_time) db db' →
  track_db_inv db ∧ track_db_kept db db'.
Proof.
  intros H1 H2. destruct (track_reach_good pg_time _ _ H1 empty_tracks_inv) as [HI _].
  split; [done|]. by apply (track_reach_good pg_time _ _ H2).
Qed.

Definition sample_ids (n : nat) : string * string := ("envelope-" +:+ pretty n, "outbox-" +:+ pretty n).
Definition sample_record_env : RecordEnv := mkRecordEnv (sample_time 91) (sample_time 91) (sample_time 91) sample_ids true.
Definition sample_json : JsonText := λ _, "{}".

(** A scan that reports the silent vessel of [FusionDark]. *)
Definition dark_anomalies : list Anomaly := (ScanDarkVessels ["t1"] (sample_time 90) dark_engine).2.*1.
Definition dark_recorded : TrackDB :=
  (RecordAnomalies (H := sample_json) id sample_record_env dark_anomalies empty_tracks).2.

Lemma dark_recorded_run : rtc (track_step (H := sample_json) id) empty_tracks dark_recorded.
Proof.
  eapply rtc_once, (ts_anomalies (H := sample_json) id sample_record_env dark_anomalies (Ok tt)).
  vm_compute. reflexivity.
Qed.

Lemma reachable_tracks_witness :
  ∃ row, tdb_anomalies dark_recorded !! anomaly_id AnomalyDarkVessel "t1" (sample_time 90) = Some row ∧
    anomaly_row_ok row = true.
Proof.
  destruct (reachable_tracks (H := sample_json) id dark_recorded dark_recorded dark_recorded_run (rtc_refl _ _)) as [[HA _] _].
  eexists. split; [vm_compute; reflexivity|].
  refine (proj1 (proj2 (HA (anomaly_id AnomalyDarkVessel "t1" (sample_time 90)) _ _))). vm_compute. reflexivity.
Defined.
