(* ===== verification/Alerts.v ===== *)
(** * Anomalies as rows

    The text of an anomaly fits its column, its identity is canonical, and so
    whatever an ingest or a scan raises can be recorded. *)

From S2P Require Import Prelude GoStrings GoTime Float64 Geo Classification Detection Fusion FusionInv FusionReplay.
From S2P Require Import FusionRules FusionDark FusionSamples Outbox Envelope GoFormat Incident Feed IsrStore TrackStore TrackStoreProofs.
From Stdlib Require Import Ascii.

(** ** The size of a rounded value *)

(** A value as an operation rounds it: at most 53 bits, an exponent of the format. *)
Definition machine_size (x : f64) : Prop :=
  match x with S754_finite _ m e => Zpos m < 2 ^ 53 ∧ e <= 971 | _ => True end.

Lemma shr_fexp_mantissa m e l r e' :
  0 <= m → shr_fexp prec emax m e l = (r, e') → 0 <= shr_m r < 2 ^ 53.
Proof.
  intros Hm. unfold shr_fexp, shr.
  assert (Hb : m < 2 ^ Zdigits2 m ∧ 0 <= Zdigits2 m).
  { destruct m as [|p|p]; [done| |lia]. simpl. by destruct (digits2_pos_bound p). }
  destruct Hb as [Hb Hd].
  assert (Hf : Zdigits2 m + e - 53 <= fexp prec emax (Zdigits2 m + e)) by (unfold fexp; lia).
  destruct (fexp prec emax (Zdigits2 m + e) - e) as [|p|p] eqn:E; intros [= <- <-];
    rewrite ?iter_shr_m, shr_record_of_loc_m by (by rewrite ?shr_record_of_loc_m).
  1,3: split; [done|]; eapply Z.lt_le_trans; [exact Hb|]; apply Z.pow_le_mono_r; lia.
  split; [by apply Z.shiftr_nonneg|]. rewrite Z.shiftr_div_pow2 by lia.
  apply Z.div_lt_upper_bound; [by apply Z.pow_pos_nonneg|]. rewrite <- Z.pow_add_r by lia.
  eapply Z.lt_le_trans; [exact Hb|]. apply Z.pow_le_mono_r; lia.
Qed.

Lemma round_aux_size s m e l : 0 <= m → machine_size (binary_round_aux prec emax s m e l).
Proof.
  intros Hm. unfold binary_round_aux. destruct (shr_fexp _ _ m e l) as [r e'] eqn:E1.
  apply shr_fexp_mantissa in E1 as [H1 _]; [|done].
  set (m1 := round_nearest_even _ _).
  assert (Hm1 : 0 <= m1).
  { unfold m1, round_nearest_even. destruct (loc_of_shr_record r) as [|[]]; try lia. destruct (Z.even _); lia. }
  destruct (shr_fexp _ _ m1 e' loc_Exact) as [r2 e2] eqn:E2.
  apply shr_fexp_mantissa in E2 as [_ H2]; [|done].
  destruct (shr_m r2) as [|p|p] eqn:E3; [done| |done].
  destruct (Z.leb_spec e2 (emax - prec)); [|done]. simpl. split; [done|lia].
Qed.

Lemma fmul_size x y : machine_size (fmul x y).
Proof. destruct x, y; try done. apply round_aux_size. lia. Qed.

Lemma valid_size x : valid x = true → machine_size x.
Proof.
  destruct x as [| | |s m e]; try done. intros Hv. split; [by eapply valid_mantissa|].
  unfold valid, valid_binary, bounded in Hv. bprop. lia.
Qed.

Lemma round_half_even_bound num den : 0 < den → 0 <= num → 0 <= round_half_even num den <= num / den + 1.
Proof.
  intros Hd Hn. unfold round_half_even. pose proof (Z.div_pos num den Hn Hd).
  repeat case_match; lia.
Qed.

Lemma format_length digits x :
  (digits <= 1)%nat → machine_size x →
  1 <= pg_length (format_float digits x) ∧ str_len (format_float digits x) <= 320.
Proof.
  intros Hk Hx.
  assert (Hp : 1 <= 10 ^ Z.of_nat digits <= 10).
  { destruct digits as [|[|n]]; [done|done|lia]. }
  assert (Htext : ∀ s n, 0 <= n < 10 ^ 310 →
    1 <= pg_length ((if (s : bool) then "-" else "") +:+ fixed_text digits n) ∧
    str_len ((if s then "-" else "") +:+ fixed_text digits n) <= 320).
  { intros s n Hn. unfold fixed_text.
    assert (Hd : 0 <= n / 10 ^ Z.of_nat digits < 10 ^ Z.of_nat 310).
    { split; [apply Z.div_pos; lia|]. change (Z.of_nat 310) with 310.
      apply Z.div_lt_upper_bound; [lia|]. nia. }
    pose proof (dec_length 310 _ ltac:(lia) Hd) as Hlen.
    pose proof (pg_length_dec (n / 10 ^ Z.of_nat digits) ltac:(lia)) as Hpg.
    assert (Hs : 0 <= pg_length (if s then "-" else "") ∧ str_len (if s then "-" else "") <= 1) by (by destruct s).
    rewrite !pg_length_app, !str_len_app. destruct (Nat.eqb_spec digits 0).
    - change (pg_length "") with 0. change (str_len "") with 0. lia.
    - pose proof (pad_length digits (n mod 10 ^ Z.of_nat digits) ltac:(lia) ltac:(apply Z.mod_pos_bound; lia)).
      pose proof (pg_length_range (pad digits (n mod 10 ^ Z.of_nat digits))).
      rewrite !pg_length_app, !str_len_app. change (pg_length ".") with 1. change (str_len ".") with 1. lia. }
  destruct x as [s|s| |s m e]; simpl format_float; [by apply Htext|by destruct s|done|]. apply Htext.
  destruct Hx as [Hm He]. unfold fixed_digits. destruct (Z.leb_spec 0 e) as [H0|H0].
  - assert (Hpe : 0 < 2 ^ e <= 2 ^ 971) by (split; [by apply Z.pow_pos_nonneg|by apply Z.pow_le_mono_r]).
    assert (Hs : 0 <= Zpos m * 10 ^ Z.of_nat digits <= 2 ^ 53 * 10) by nia.
    split; [nia|]. eapply Z.le_lt_trans; [apply (Z.mul_le_mono_nonneg _ (2 ^ 53 * 10) _ (2 ^ 971)); lia|].
    vm_compute. reflexivity.
  - assert (Hpe : 0 < 2 ^ (- e)) by (apply Z.pow_pos_nonneg; lia).
    assert (Hs : 0 <= Zpos m * 10 ^ Z.of_nat digits <= 2 ^ 53 * 10) by nia.
    pose proof (round_half_even_bound _ _ Hpe (proj1 Hs)) as Hr.
    assert (Hq : Zpos m * 10 ^ Z.of_nat digits / 2 ^ (- e) <= 2 ^ 53 * 10).
    { etrans; [apply Z.div_le_upper_bound; [done|]|exact (proj2 Hs)]. nia. }
    split; [lia|]. eapply Z.le_lt_trans; [apply Hr|]. assert (2 ^ 53 * 10 + 1 < 10 ^ 310) by (vm_compute; reflexivity). lia.
Qed.

(** ** The anomalies the engine raises *)

(** The configuration holds machine floats, as any Go value does. *)
Definition machine_config (config : Config) : Prop :=
  Config_Validate config = Ok tt ∧
  machine_size (BaselineMaxSpeedKnots config) ∧ machine_size (RendezvousRadiusMeters config).

Record raised (now : Z) (id : string) (a : Anomaly) : Prop := {
  ra_ident : AnomalyID a = anomaly_id (an_kind a) id now;
  ra_now : DetectedAt a = now;
  ra_label : valid_label (an_class a);
  ra_fits : 1 <= pg_length (detail_text (Detail a)) <= 1024
}.

Lemma config_durations c : Config_Validate c = Ok tt →
  in_int64 (RendezvousMinDuration c) ∧ in_int64 (LoiteringMinDuration c) ∧ in_int64 (DarkVesselAISGap c).
Proof.
  unfold Config_Validate. intros Hv. inv_ok Hv. rewrite !orb_false_iff in *. split_hyps.
  rewrite ?Z.leb_gt, ?Z.ltb_ge in *. unfold in_int64, min_int64, max_int64, Hour, Minute, Second in *. lia.
Qed.

(** Texts of bounded pieces. *)
Lemma fits_text s : 1 <= pg_length s → str_len s <= 1024 → 1 <= pg_length s <= 1024.
Proof. intros ? ?. pose proof (pg_length_range s). lia. Qed.

Lemma zone_text id : zoneIDPattern id = true → str_len id <= 256.
Proof. intros Hz. apply ident_pattern_len in Hz. lia. Qed.

Ltac measure := rewrite ?pg_length_app, ?str_len_app;
  repeat match goal with
  | |- context [pg_length (String ?c ?s)] =>
      let v := eval vm_compute in (pg_length (String c s)) in change (pg_length (String c s)) with v
  | |- context [str_len (String ?c ?s)] =>
      let v := eval vm_compute in (str_len (String c s)) in change (str_len (String c s)) with v
  end;
  repeat match goal with |- context [pg_length ?s] =>
    lazymatch goal with _ : 0 <= pg_length s <= _ |- _ => fail | _ => pose proof (pg_length_range s) end end.

Lemma speed_fits knots baseline : machine_size knots → machine_size baseline →
  1 <= pg_length (detail_text (DetailSpeed knots baseline)) <= 1024.
Proof.
  intros H1 H2. destruct (format_length 1 knots ltac:(lia) H1). destruct (format_length 1 baseline ltac:(lia) H2).
  apply fits_text; simpl detail_text; measure; lia.
Qed.

Lemma loitering_fits z d : zoneIDPattern z = true → in_int64 d →
  1 <= pg_length (detail_text (DetailLoitering z d)) <= 1024.
Proof.
  intros Hz%zone_text Hd. destruct (duration_length d Hd). apply fits_text; simpl detail_text; measure; lia.
Qed.

Lemma rendezvous_fits r d : machine_size r → in_int64 d →
  1 <= pg_length (detail_text (DetailRendezvous r d)) <= 1024.
Proof.
  intros Hr Hd. destruct (duration_length d Hd). destruct (format_length 0 r ltac:(lia) Hr).
  apply fits_text; simpl detail_text; measure; lia.
Qed.

Lemma dark_fits d z : zoneIDPattern z = true → in_int64 d →
  1 <= pg_length (detail_text (DetailDarkVessel d z)) <= 1024.
Proof.
  intros Hz%zone_text Hd. destruct (duration_length d Hd). apply fits_text; simpl detail_text; measure; lia.
Qed.

Lemma speed_raised config now refs t point em :
  machine_config config → track_ok t → em ∈ speed_rule config now refs t point → raised now (TrackID t) em.1.
Proof.
  intros (_&Hb&_) Ht. unfold speed_rule. destruct (leg_knots t point) as [knots|] eqn:Ek; [|by intros ?%elem_of_nil].
  destruct (fgt _ _); [|by intros ?%elem_of_nil]. intros ->%list_elem_of_singleton.
  split; simpl an_class; [done|done|apply (tok_label _ Ht)|]. apply speed_fits; [|done].
  revert Ek. unfold leg_knots. repeat case_match; intros [= <-]; try apply fmul_size.
Qed.

Lemma rendezvous_raised now refs id point order e out :
  engine_core e → machine_config (eng_config e) →
  (∀ em, em ∈ out → raised now id em.1) →
  ∀ em, em ∈ (foldl (rendezvous_step now refs id point) (e, out) order).2 → raised now id em.1.
Proof.
  revert e out. induction order as [|o order IH]; intros e out HC Hm Hout; cbn [foldl]; [exact Hout|].
  destruct (rendezvous_step now refs id point (e, out) o) as [e1 out1] eqn:E.
  destruct (rendezvous_step_core _ _ _ _ _ _ _ _ _ HC E) as [HC1 (C1&_)].
  apply IH; [done|by rewrite C1|]. revert E. unfold rendezvous_step.
  destruct (tracks e !! id) as [t|] eqn:Et; [|by intros [= <- <-]].
  destruct (tracks e !! o) as [u|] eqn:Eu; [|by intros [= <- <-]].
  destruct (TrackID u =s TrackID t); [by intros [= <- <-]|].
  destruct (Last u) as [lastp|]; [|by intros [= <- <-]].
  destruct (proximity _ _ _ _ _) as [since|]; simpl; [|by intros [= <- <-]].
  destruct (_ && _); intros [= <- <-]; [|done].
  intros em [Hem| ->%list_elem_of_singleton]%elem_of_app; [by apply Hout|].
  pose proof (core_key _ HC _ _ Et) as <-. destruct Hm as (Hv&_&Hr).
  split; simpl; [done|done| |by apply rendezvous_fits; [|apply (config_durations _ Hv)]].
  pose proof (tok_label _ (core_track _ HC _ _ Et)). pose proof (tok_label _ (core_track _ HC _ _ Eu)).
  auto with maritime_auto.
Qed.

Lemma evaluate_raised order now e t point d e' out :
  engine_core e → tracks e !! TrackID t = Some t → machine_config (eng_config e) → Forall zone_wf (zones e) →
  evaluateLocked order now e t point d = (e', out) → ∀ em, em ∈ out → raised now (TrackID t) em.1.
Proof.
  intros HC Ht Hm Hz. unfold evaluateLocked.
  pose proof (core_track _ HC _ _ Ht) as Ok.
  destruct (loiter_rule_spec (eng_config e) now (CorrelationRefs d) (zones e) t point) as (fired&->&_&Hf).
  intros E em Hem. pose proof (f_equal snd E) as E2. simpl in E2. rewrite <- E2 in Hem. revert em Hem.
  apply rendezvous_raised.
  - apply (core_update e t); try done. by destruct Ok.
  - done.
  - intros em [Hem|Hem]%elem_of_app; [by eapply speed_raised|].
    apply list_elem_of_fmap in Hem as (z&->&Hin). apply Hf in Hin as ((zone&Hzone&_&<-&_)&_).
    rewrite Forall_forall in Hz. split; simpl; [done|done|apply (tok_label _ Ok)|].
    apply loitering_fits; [apply (wf_id _ (Hz _ Hzone))|]. destruct Hm as (Hv&_). apply (config_durations _ Hv).
Qed.

Lemma ingest_raised env e d id out e1 :
  engine_inv e → machine_config (eng_config e) → Forall zone_wf (zones e) → tracks e !! env_newID env = None →
  Ingest env e d = Some (Ok (id, out), e1) → ∀ em, em ∈ out → raised (env_now env) id em.1.
Proof.
  intros HI Hm Hz Hf Hin. pose proof (config_radius _ (proj1 Hm)) as Hr.
  destruct (Ingest_Ok _ _ _ _ _ _ HI Hr Hf Hin) as (p&t&e0&ea&[_ Hd _ _ Ht Hid _ HC HT _ HCf HZ HE]).
  assert (Ha : TrackID (absorbed t d p) = id) by done. rewrite <- Ha.
  eapply evaluate_raised; [exact HC| |by rewrite HCf|by rewrite HZ|exact HE].
  by rewrite Ha, HT, lookup_insert_eq.
Qed.

Lemma scan_raised order now e em :
  engine_inv e → machine_config (eng_config e) → Forall zone_wf (zones e) → NoDup order →
  em ∈ (ScanDarkVessels order now e).2 → ∃ id t, tracks e !! id = Some t ∧ raised now id em.1 ∧ an_kind em.1 = AnomalyDarkVessel.
Proof.
  intros HI Hm Hz HN. unfold ScanDarkVessels. rewrite scan_fold by (eauto using inv_keyed). simpl.
  intros (id&Hid&Hem)%list_elem_of_omap. unfold scan_emission in Hem.
  apply bind_Some in Hem as (t&Ht&Hem). apply bind_Some in Hem as (z&Hzone&[= <-]).
  exists id, t. split; [done|]. split; [|done]. pose proof (inv_keyed e HI _ _ Ht) as <-.
  destruct HI as [HC _]. split; simpl; [done|done|apply (tok_label _ (core_track _ HC _ _ Ht))|].
  destruct Hm as (Hv&_). apply dark_fits; [|apply (config_durations _ Hv)].
  revert Hzone. unfold dark_zone. repeat case_match; try done. intros Hh.
  destruct (ZonesContaining _ _) as [|z0 zs] eqn:Ez; [done|]. injection Hh as <-.
  assert (Hin : z0 ∈ ZonesContaining (pt_position _) (zones e)) by (rewrite Ez; apply list_elem_of_here).
  apply list_elem_of_filter in Hin as [_ Hin]. rewrite Forall_forall in Hz. apply (wf_id _ (Hz _ Hin)).
Qed.

(** ** Recording them *)

Lemma Validate_modality d : Validate d = Ok tt → det_modality d ∈ sql_modalities.
Proof.
  intros H. apply detection_contract in H as [_ _ _ _ _ _ _ HP _ _ _]. unfold sql_modalities.
  destruct HP as [[-> _]|[[-> _]|[[-> _]|[[-> _]|[-> _]]]]]; set_solver.
Qed.

Definition short_id (id : string) : Prop := ident_pattern 84 id = true.

Lemma anomaly_id_canonical kind id now : short_id id → identifierPattern (anomaly_id kind id now) = true.
Proof.
  intros Hs. pose proof (ident_pattern_len _ _ Hs) as Hl. pose proof (dec_chars (unix_nano now)) as Hd.
  pose proof (dec_int64_length (unix_nano now) (wrap64_range _)) as Hn.
  pose proof (ident_chars _ _ Hs) as Hc.
  change (anomaly_id kind id now) with
    (String "a"%char ("nomaly-" +:+ kind_string kind +:+ "-" +:+ id +:+ "-" +:+ dec (unix_nano now))).
  unfold identifierPattern, ident_pattern. rewrite !all_chars_app, Hc, Hd, !str_len_app.
  change (str_len "nomaly-") with 7. change (str_len "-") with 1.
  assert (Hk : str_len (kind_string kind) <= 13 ∧ all_chars is_ident_char (kind_string kind) = true)
    by (by destruct kind). destruct Hk as [Hk ->].
  replace (is_alnum "a"%char) with true by done. simpl. apply Z.leb_le. lia.
Qed.

Lemma raised_recordable now id a : raised now id a → short_id id → now ≠ 0 → recordable a.
Proof.
  intros [Hi Hn Hl Hd] Hs Hz. split; [rewrite Hi; by apply anomaly_id_canonical|done|by rewrite Hn|done].
Qed.

Section recording.
Context `{JsonText} (pg_time : Z → Z).

(** The table after a list of anomalies: the first of an identity stays. *)
Definition keep_first (m : gmap string RetainedAnomaly) (a : Anomaly) : gmap string RetainedAnomaly :=
  match m !! AnomalyID a with Some _ => m | None => <[AnomalyID a := anomaly_row pg_time a]> m end.

(** Every UUID drawn is new. *)
Definition fresh_ids (ids : nat → string * string) (db : TrackDB) : Prop :=
  (∀ i, tdb_outbox db !! (ids i).2 = None) ∧ ∀ i j, (ids i).2 = (ids j).2 → i = j.

Lemma record_all db_now ids l : ∀ i db,
  Forall recordable l → (∀ j, (i <= j)%nat → tdb_outbox db !! (ids j).2 = None) →
  (∀ j k, (ids j).2 = (ids k).2 → j = k) →
  ∃ db', record_anomalies pg_time db_now ids i l db = (Ok tt, db') ∧
    tdb_anomalies db' = foldl keep_first (tdb_anomalies db) l ∧
    tdb_tracks db' = tdb_tracks db ∧ tdb_associations db' = tdb_associations db.
Proof.
  induction l as [|a l IH]; intros i db Hl Hf Hinj; [by exists db|].
  apply Forall_cons in Hl as [Ha Hl].
  destruct (recordAnomaly_total pg_time db_now (ids i) a db Ha (Hf i ltac:(lia))) as [db1 E1].
  pose proof E1 as [_ Hrec]%recordAnomaly_Ok.
  assert (Hstep : tdb_anomalies db1 = keep_first (tdb_anomalies db) a ∧ tdb_tracks db1 = tdb_tracks db ∧
    tdb_associations db1 = tdb_associations db ∧
    ∀ oid, oid ≠ (ids i).2 → tdb_outbox db1 !! oid = tdb_outbox db !! oid).
  { unfold keep_first. destruct Hrec as [row ->|x -> _ _]; [done|]. simpl. split_and!; [done..|].
    intros oid Ho. by rewrite lookup_insert_ne. }
  destruct Hstep as (Ea&Et&Es&Ho).
  destruct (IH (S i) db1 Hl) as (db'&E&Ha'&Ht'&Hs'); [|done|].
  { intros j Hj. rewrite Ho; [apply Hf; lia|]. intros Heq%Hinj. lia. }
  exists db'. cbn [record_anomalies]. run_store. rewrite E1. split_and!; [done|by rewrite Ha', Ea|congruence..].
Qed.

Lemma keep_first_kept l m k row : m !! k = Some row → foldl keep_first m l !! k = Some row.
Proof.
  revert m. induction l as [|a l IH]; intros m Hm; [done|]. simpl. apply IH. unfold keep_first.
  destruct (m !! AnomalyID a) eqn:E; [done|]. rewrite lookup_insert_ne; [done|]. intros <-. congruence.
Qed.

(** Every identity of the list is in the table. *)
Lemma keep_first_all l m a : a ∈ l →
  ∃ row, foldl keep_first m l !! AnomalyID a = Some row ∧
    (m !! AnomalyID a = Some row ∨
     ∃ b, b ∈ l ∧ AnomalyID b = AnomalyID a ∧ row = anomaly_row pg_time b).
Proof.
  revert m. induction l as [|x l IH]; intros m Hin; [by apply elem_of_nil in Hin|]. cbn [foldl].
  destruct (decide (AnomalyID x = AnomalyID a)) as [He|Hne].
  - destruct (m !! AnomalyID a) as [row|] eqn:Em.
    + exists row. split; [|by left]. replace (keep_first m x) with m by (unfold keep_first; by rewrite He, Em). by apply keep_first_kept.
    + exists (anomaly_row pg_time x). split; [|right; exists x; set_solver].
      apply keep_first_kept. unfold keep_first. rewrite He, Em. apply lookup_insert_eq.
  - apply elem_of_cons in Hin as [->|Hin]; [done|].
    destruct (IH (keep_first m x) Hin) as (row&Hrow&[Hm|(b&Hb&?&?)]); exists row; (split; [done|]).
    + left. unfold keep_first in Hm. destruct (m !! AnomalyID x); [done|]. by rewrite lookup_insert_ne in Hm.
    + right. exists b. set_solver.
Qed.

End recording.

(** The conditions under which the service records what the engine raises. *)
Record service_engine (e : Engine) : Prop := {
  se_inv : engine_inv e;
  se_config : machine_config (eng_config e);
  se_zones : Forall zone_wf (zones e);
  se_ids : ∀ k, is_Some (tracks e !! k) → short_id k
}.

Lemma nullable_mmsi t : track_ok t → match nullable (trk_mmsi t) with Some m => mmsi_pattern m | None => true end = true.
Proof. intros [_ _ [->|Hm]]; [done|]. unfold nullable. by destruct (trk_mmsi t =s ""). Qed.

Lemma ingest_track env e d id out e' :
  service_engine e → tracks e !! env_newID env = None → short_id (env_newID env) →
  Ingest env e d = Some (Ok (id, out), e') →
  service_engine e' ∧ Validate d = Ok tt ∧ short_id id ∧
  ∃ t p ps q, tracks e' !! id = Some t ∧ TrackID t = id ∧ track_ok t ∧ Points t = p :: ps ∧
    last (Points t) = Some q ∧ pt_observed q = ObservedAt d.
Proof.
  intros [HI Hm Hz Hids] Hf Hnew Hin. pose proof (config_radius _ (proj1 Hm)) as Hr.
  destruct (Ingest_Ok _ _ _ _ _ _ HI Hr Hf Hin) as (p&t&e0&ea&HP).
  destruct (phases_inv _ _ _ _ _ _ _ _ _ _ HP) as (HI'&HC'&HZ'&_&HR).
  destruct (phases_dom _ _ _ _ _ _ _ _ _ _ HI Hr HP) as [Hid Hdom].
  assert (Hshort : short_id id) by (destruct Hid as [?| ->]; auto).
  split. { split; [done|by rewrite HC'|by rewrite HZ'|]. intros k [->|?]%Hdom; auto. }
  split. { revert Hin. unfold Ingest. by destruct (Validate d) as [[]|]. }
  split; [done|]. destruct (proj2 (Hdom id) (or_introl eq_refl)) as [u Hu].
  pose proof (core_track _ (inv_core _ HI') _ _ Hu) as Hok.
  pose proof (inv_keyed _ HI' _ _ Hu) as Hk.
  destruct HP as [HPos _ _ _ _ Htid _ _ HT _ _ _ _].
  assert (Ha : tracks ea !! id = Some (absorbed t d p)) by (by rewrite HT, lookup_insert_eq).
  destruct (HR _ _ _ Ha Hu) as (_&_&HPts). pose proof (absorbed_last t d p) as Hl. unfold Last in Hl.
  rewrite <- HPts in Hl.
  exists u. destruct (Points u) as [|p0 ps] eqn:Ep; [done|]. by exists p0, ps, (point_of d p).
Qed.

Section alerts.
Context `{JsonText} (pg_time : Z → Z).

Lemma RecordFusion_total renv t d l db :
  track_ok t → ident_pattern 127 (TrackID t) = true → Points t ≠ [] → Validate d = Ok tt →
  Forall recordable l → fresh_ids (re_ids renv) db → re_commits renv = true →
  ∃ db', RecordFusion pg_time renv t d l db = (Ok tt, db') ∧
    tdb_anomalies db' = foldl (keep_first pg_time) (tdb_anomalies db) l ∧
    is_Some (tdb_associations db' !! (SourceID d, SourceEventID d)) ∧
    ∃ row, tdb_tracks db' !! TrackID t = Some row ∧ tr_class row = trk_class t ∧
      tr_count row = Z.of_nat (length (Points t)).
Proof.
  intros Hok Hid Hp Hv Hl [Hf Hinj] Hc. destruct (Points t) as [|p ps] eqn:Ep; [done|].
  set (lastp := default p (last (Points t))).
  destruct (record_all pg_time (re_db_now renv) (re_ids renv) l 0
    (associated pg_time renv t (pt_observed p) (pt_observed lastp) d db) Hl) as (db'&E&Ea&Et&Es);
    [intros; apply Hf|exact Hinj|].
  exists db'. split_and!.
  - apply RecordFusion_Ok. exists p, ps. cbv zeta. fold lastp. split_and!; [done| | |exact E|done].
    + unfold track_row_ok, fused_row. simpl. rewrite Hid, nullable_mmsi by done.
      rewrite bool_decide_eq_true_2 by apply (tok_label _ Hok). apply Z.leb_le. lia.
    + unfold association_row_ok, fused_association. simpl.
      rewrite !bool_decide_eq_true_2; [done|apply (dok_label _ (Validate_detection_ok _ Hv))|by apply Validate_modality].
  - done.
  - rewrite Es. unfold associated. simpl. destruct (tdb_associations db !! _) eqn:Eas; [by rewrite Eas|].
    by rewrite lookup_insert_eq.
  - rewrite Et. unfold associated. cbn [tdb_tracks]. rewrite lookup_insert_eq. eexists. split; [done|].
    rewrite <- Ep. by destruct (tdb_tracks db !! TrackID t).
Qed.

(** C31: What an ingest raises is recorded.  On an engine with approved thresholds
    and canonical identities, after a successful ingest the recording
    transaction passes every constraint: the track and the association are
    stored, and the anomaly table grows by exactly the anomalies whose identity
    it does not hold yet, the first of each identity.  The identity of an
    anomaly is its kind, its reporting track and the clock reading, so two
    partners of one rendezvous evaluation, or two restricted zones, share a row
    and only the first is kept and announced. *)
Theorem alerts_recorded ienv renv d e db id out e' :
  service_engine e → tracks e !! env_newID ienv = None → short_id (env_newID ienv) → env_now ienv ≠ 0 →
  Ingest ienv e d = Some (Ok (id, out), e') → fresh_ids (re_ids renv) db → re_commits renv = true →
  ∃ db' track row, fuse_detection pg_time ienv renv d e db = Some (Fused, e', db') ∧
    tracks e' !! id = Some track ∧ tdb_tracks db' !! id = Some row ∧ tr_class row = trk_class track ∧
    is_Some (tdb_associations db' !! (SourceID d, SourceEventID d)) ∧
    tdb_anomalies db' = foldl (keep_first pg_time) (tdb_anomalies db) out.*1 ∧
    ∀ a, a ∈ out.*1 → AnomalyID a = anomaly_id (an_kind a) id (env_now ienv) ∧
      ∃ kept, tdb_anomalies db' !! AnomalyID a = Some kept ∧
        (tdb_anomalies db !! AnomalyID a = Some kept ∨
         ∃ b, b ∈ out.*1 ∧ AnomalyID b = AnomalyID a ∧ kept = anomaly_row pg_time b).
Proof.
  intros Hse Hf Hnew Hnow Hin Hids Hc. pose proof Hse as [HI Hm Hz _].
  destruct (ingest_track _ _ _ _ _ _ Hse Hf Hnew Hin) as (_&Hv&Hs&t&p&ps&_&Ht&Hid&Hok&Hp&_).
  assert (Hraised : ∀ a, a ∈ out.*1 → raised (env_now ienv) id a).
  { intros a (em&->&Hem)%list_elem_of_fmap. by eapply ingest_raised. }
  destruct (RecordFusion_total renv t d out.*1 db Hok) as (db'&E&Ea&Has&row&Hrow&Hcl&_).
  - rewrite Hid. by apply (ident_pattern_mono 84 127).
  - by rewrite Hp.
  - done.
  - apply Forall_forall. intros a Ha. by eapply raised_recordable; [apply Hraised| |].
  - done.
  - done.
  - exists db', t, row. unfold fuse_detection. rewrite Hin. unfold Track_view. rewrite Ht, E.
    rewrite Hid in Hrow. split_and!; try done. intros a Ha.
    split; [apply (ra_ident _ _ _ (Hraised a Ha))|]. rewrite Ea. by apply keep_first_all.
Qed.

(** A scan with its record. *)
Lemma scanOnce_cases order now renv e db log e' db' :
  scanOnce pg_time order now renv e db = (log, e', db') →
  e' = (ScanDarkVessels order now e).1 ∧
  match (ScanDarkVessels order now e).2 with
  | [] => log = ScanQuiet ∧ db' = db
  | out =>
      (∃ err, RecordAnomalies pg_time renv out.*1 db = (Err err, db) ∧ log = ScanFailed (Z.of_nat (length out)) err ∧ db' = db) ∨
      (RecordAnomalies pg_time renv out.*1 db = (Ok tt, db') ∧ log = ScanEmitted (Z.of_nat (length out)))
  end.
Proof.
  unfold scanOnce. destruct (ScanDarkVessels order now e) as [e1 out]. cbn [fst snd].
  destruct (RecordAnomalies pg_time renv out.*1 db) as [[[]|err] db1] eqn:E;
    destruct out as [|em out]; intros [= <- <- <-]; try done; (split; [done|]).
  - by right.
  - left. pose proof (RecordAnomalies_Err _ _ _ _ _ _ E) as ->. eauto.
Qed.

Lemma RecordAnomalies_total renv l db :
  Forall recordable l → fresh_ids (re_ids renv) db → re_commits renv = true →
  ∃ db', RecordAnomalies pg_time renv l db = (Ok tt, db') ∧
    tdb_anomalies db' = foldl (keep_first pg_time) (tdb_anomalies db) l.
Proof.
  intros Hl [Hf Hinj] Hc.
  destruct (record_all pg_time (re_db_now renv) (re_ids renv) l 0 db Hl) as (db'&E&Ea&_); [intros; apply Hf|done|].
  exists db'. split; [|done]. apply RecordAnomalies_Ok. auto.
Qed.

(** C33: A dark-vessel alert is recorded or lost.  When the store is up, a scan
    records every vessel it reports.  When the transaction fails the tables
    keep their state, and no later scan reports the vessel again before its AIS
    does: the engine has latched the alert although nothing was stored. *)
Theorem scan_recorded_or_lost order now renv e db log e' db' :
  service_engine e → range_order order (tracks e) → now ≠ 0 →
  scanOnce pg_time order now renv e db = (log, e', db') →
  (fresh_ids (re_ids renv) db → re_commits renv = true →
     tdb_anomalies db' = foldl (keep_first pg_time) (tdb_anomalies db) (ScanDarkVessels order now e).2.*1 ∧
     ∀ a, a ∈ (ScanDarkVessels order now e).2.*1 → is_Some (tdb_anomalies db' !! AnomalyID a)) ∧
  (∀ count err, log = ScanFailed count err → db' = db ∧ 0 < count ∧
     ∀ k a, a ∈ (ScanDarkVessels order now e).2.*1 → TrackIDs a = [k] →
     ∀ e2 order2 now2 renv2 db2 log2 e3 db3, rtc (silent_step k) e' e2 → range_order order2 (tracks e2) →
       scanOnce pg_time order2 now2 renv2 e2 db2 = (log2, e3, db3) →
       ∀ b, b ∈ (ScanDarkVessels order2 now2 e2).2.*1 → TrackIDs b ≠ [k]).
Proof.
  intros [HI Hm Hz Hids] Ho Hnow E. pose proof (range_order_NoDup _ _ Ho) as HN.
  pose proof (config_radius _ (proj1 Hm)) as Hr. apply scanOnce_cases in E as [He' E]. split.
  - intros Hf Hc.
    assert (Hrec : Forall recordable (ScanDarkVessels order now e).2.*1).
    { apply Forall_forall. intros a (em&->&Hem)%list_elem_of_fmap.
      destruct (scan_raised _ _ _ _ HI Hm Hz HN Hem) as (id&t&Ht&Hra&_).
      eapply raised_recordable; [exact Hra|apply Hids; eauto|done]. }
    destruct (RecordAnomalies_total renv _ db Hrec Hf Hc) as (db1&E1&Ea).
    assert (db' = db1) as ->.
    { destruct (ScanDarkVessels order now e).2 as [|em out]; [destruct E as [_ ->]; simpl in E1; by injection E1|].
      destruct E as [(err&E2&_)|[E2 _]]; congruence. }
    split; [done|]. intros a Ha. rewrite Ea. destruct (keep_first_all pg_time _ (tdb_anomalies db) a Ha) as (row&?&_). eauto.
  - intros count err ->. destruct (ScanDarkVessels order now e).2 as [|em out] eqn:Eout; [by destruct E|].
    destruct E as [(err'&_&[= -> ->]&->)|[_ ?]]; [|done]. split_and!; [done|simpl; lia|].
    intros k a (em1&->&Hem)%list_elem_of_fmap Hk e2 order2 now2 renv2 db2 log2 e3 db3 Hrun Ho2 _ b (em2&->&Hem2)%list_elem_of_fmap.
    rewrite <- Eout in Hem. rewrite He' in Hrun.
    destruct (ScanDarkVessels_inv order now e HI) as [HI1 HC1].
    destruct (silent_run_latch k _ e2 HI1 ltac:(by rewrite HC1) Hrun) as [Hl HI2].
    { by apply (scan_latches order now e k em1 (inv_keyed e HI)). }
    apply (latched_quiet order2 now2 e2 k em2); [by apply inv_keyed|by eapply range_order_NoDup|done|done].
Qed.

End alerts.

(** ** Witnesses *)

Lemma sample_fresh : fresh_ids sample_ids empty_tracks.
Proof.
  split; [intros i; apply lookup_empty|]. intros i j Hij. apply (inj pretty).
  by apply (inj (String.append "outbox-")).
Qed.

Lemma sample_machine : machine_config DefaultConfig.
Proof. split_and!; [by vm_compute|..]; apply valid_size; by vm_compute. Qed.

Lemma sample_service inputs :
  fresh_run inputs sample_engine = true →
  (∀ k, k ∈ elements (dom (tracks (sample_ingests inputs sample_engine))) → short_id k) →
  eng_config (sample_ingests inputs sample_engine) = DefaultConfig →
  zones (sample_ingests inputs sample_engine) = [sample_zone] →
  service_engine (sample_ingests inputs sample_engine).
Proof.
  intros Hf Hk Hc Hz. split.
  - by apply sample_reachable.
  - rewrite Hc. apply sample_machine.
  - rewrite Hz. constructor; [|constructor].
    by apply (NewZone_Ok "zone-1" ZoneKindRestricted (Vertices sample_zone) sample_zone).
  - intros k. rewrite <- elem_of_dom, <- elem_of_elements. apply Hk.
Qed.

Lemma rendezvous_service : service_engine rendezvous_engine.
Proof.
  apply sample_service; [by vm_compute| |by vm_compute..].
  intros k Hk. vm_compute in Hk. repeat apply elem_of_cons in Hk as [->|Hk]; [done..|by apply elem_of_nil in Hk].
Qed.

Lemma dark_service : service_engine dark_engine.
Proof.
  apply sample_service; [by vm_compute| |by vm_compute..].
  intros k Hk. vm_compute in Hk. repeat apply elem_of_cons in Hk as [->|Hk]; [done..|by apply elem_of_nil in Hk].
Qed.

Definition rendezvous_out : list Emission := ingest_out rendezvous_env rendezvous_engine rendezvous_detection.

Lemma alerts_recorded_witness :
  ∃ db', tdb_anomalies db' = foldl (keep_first id) ∅ rendezvous_out.*1 ∧
    is_Some (tdb_anomalies db' !! anomaly_id AnomalyRendezvous "t2" (sample_time 71)).
Proof.
  destruct (alerts_recorded (H := sample_json) id rendezvous_env sample_record_env rendezvous_detection rendezvous_engine
    empty_tracks "t2" rendezvous_out rendezvous_after rendezvous_service) as (db'&t&row&_&_&_&_&_&Ha&_).
  - vm_compute. reflexivity.
  - reflexivity.
  - vm_compute. discriminate.
  - vm_compute. reflexivity.
  - exact sample_fresh.
  - reflexivity.
  - exists db'. split; [exact Ha|]. rewrite Ha. vm_compute. eexists. reflexivity.
Defined.

Lemma scan_recorded_or_lost_witness :
  tdb_anomalies dark_recorded = foldl (keep_first id) ∅ (ScanDarkVessels ["t1"] (sample_time 90) dark_engine).2.*1.
Proof.
  assert (Hnow : sample_time 90 ≠ 0) by (vm_compute; discriminate).
  assert (Horder : range_order ["t1"] (tracks dark_engine)) by (by vm_compute).
  refine (proj1 (proj1 (scan_recorded_or_lost (H := sample_json) id ["t1"] (sample_time 90) sample_record_env dark_engine
    empty_tracks (ScanEmitted 1) (ScanDarkVessels ["t1"] (sample_time 90) dark_engine).1 dark_recorded
    dark_service Horder Hnow _) sample_fresh eq_refl)).
  vm_compute. reflexivity.
Defined.
