(* ===== verification/Restart.v ===== *)
(** * Restart of the service

    A run of the service keeps its engine in memory and its associations in the
    database; after a restart the engine is rebuilt from the associations and
    the retained detections.  This file composes the engine, the detection
    store, the track store and the startup replay. *)

From S2P Require Import Prelude GoStrings GoTime Float64 Geo Classification Detection Fusion FusionInv FusionReplay.
From S2P Require Import FusionRules FusionDark FusionSamples Outbox Envelope GoFormat Incident Feed IsrStore TrackStore TrackStoreProofs Alerts.

From Stdlib Require Import Sorting.Sorted.

Section restart.
Context `{JsonText} (pg_time : Z → Z) (decode : string → option Detection).

Definition association_key (d : Detection) : string * string := (SourceID d, SourceEventID d).

(** The service between two restarts: every fusion of an admitted detection is
    recorded; scans and other users of the database come in between.  The list
    holds what was fused, with the association stored for it. *)
Inductive service_run : Engine → TrackDB → list (string * Detection * AssociationRow) → Engine → TrackDB → Prop :=
| sr_nil e db : service_run e db [] e db
| sr_fuse ienv renv e db d id out e1 db1 l e2 db2 :
    tracks e !! env_newID ienv = None → short_id (env_newID ienv) →
    Ingest ienv e d = Some (Ok (id, out), e1) → range_order (evaluate_order ienv) (tracks e1) →
    tdb_associations db !! association_key d = None →
    fuse_detection pg_time ienv renv d e db = Some (Fused, e1, db1) →
    service_run e1 db1 l e2 db2 →
    service_run e db ((id, d, mkAssociation id (det_modality d) (det_classification d) (pg_time (ObservedAt d))
                                (pg_time (re_associated renv))) :: l) e2 db2
| sr_reject ienv e db d err e1 l e2 db2 :
    Ingest ienv e d = Some (Err err, e1) → service_run e1 db l e2 db2 → service_run e db l e2 db2
| sr_scan order now renv e db log e1 db1 l e2 db2 :
    scanOnce pg_time order now renv e db = (log, e1, db1) → service_run e1 db1 l e2 db2 →
    service_run e db l e2 db2
| sr_outbox step t e db l e2 db2 :
    outbox_step (tdb_outbox db) step t →
    service_run e (mkTrackDB (tdb_tracks db) (tdb_associations db) (tdb_anomalies db) t) l e2 db2 →
    service_run e db l e2 db2.

Definition keyed_row (x : string * Detection * AssociationRow) : (string * string) * AssociationRow :=
  (association_key x.1.2, x.2).

Lemma scan_service order now e :
  service_engine e → service_engine (ScanDarkVessels order now e).1.
Proof.
  intros [HI Hm Hz Hids]. destruct (ScanDarkVessels_inv order now e HI) as [HI1 HC1].
  pose proof (scan_erase order now e (inv_keyed e HI)) as HE.
  split; [done|by rewrite HC1| |].
  - replace (zones (ScanDarkVessels order now e).1) with (zones e); [done|]. by apply (f_equal zones) in HE.
  - intros k Hk. apply Hids. rewrite <- !not_eq_None_Some in *. intros Hn. apply Hk.
    by apply (erase_tracks_None _ _ k HE).
Qed.

(** The in-memory part of a run. *)
Lemma service_ingests e db l e2 db2 :
  service_engine e → service_run e db l e2 db2 → ingest_run e l.*1 e2.
Proof.
  intros Hse Hrun. induction Hrun as [e db|ienv renv e db d id out e1 db1 l e2 db2 Hf Hs Hin Ho Hn Hfu _ IH
    |ienv e db d err e1 l e2 db2 Hin _ IH|order now renv e db log e1 db1 l e2 db2 Hsc _ IH|step t e db l e2 db2 Hst _ IH].
  - constructor.
  - destruct (ingest_track _ _ _ _ _ _ Hse Hf Hs Hin) as (Hse1&_).
    eapply (run_ingest ienv); [done| | |exact Hin|done|by apply IH].
    + destruct (ident_trim _ _ Hs) as [-> ?]. done.
    + apply ident_pattern_len in Hs. lia.
  - pose proof (Ingest_Err _ _ _ _ _ Hin) as ->. eapply run_reject; [exact Hin|by apply IH].
  - apply scanOnce_cases in Hsc as [-> _]. apply (run_scan order now), IH, (scan_service order now _ Hse).
  - by apply IH.
Qed.

Lemma new_service config zs e0 : NewEngine config zs = Ok e0 → machine_config config → service_engine e0.
Proof.
  intros Hnew Hm. pose proof (NewEngine_inv _ _ _ Hnew) as (HI&HC&_&HT&HZ).
  split; [done|by rewrite HC| |intros k; rewrite HT; by intros [? ?]].
  rewrite HZ. unfold NewEngine in Hnew. apply bind_Ok in Hnew as (_&_&Hnew). apply bind_Ok in Hnew as (u&Hz&_).
  apply check_all_Ok in Hz. eapply Forall_impl; [exact Hz|]. intros z Hok. simpl in Hok.
  destruct (NewZone _ _ _) as [z'|] eqn:En; [|done]. apply NewZone_Ok in En as [-> Hwf]. by destruct z.
Qed.

(** ** The association table of a run *)

Lemma recorded_associations db_now ids l i db db' :
  record_anomalies pg_time db_now ids i l db = (Ok tt, db') → tdb_associations db' = tdb_associations db.
Proof.
  intros E. apply (record_anomalies_inv pg_time db_now ids (λ x, tdb_associations x = tdb_associations db)
    ltac:(intros * _ []; done) _ _ _ _ E eq_refl).
Qed.

Lemma fuse_associations ienv renv e db d id out e1 db1 :
  service_engine e → tracks e !! env_newID ienv = None → short_id (env_newID ienv) →
  Ingest ienv e d = Some (Ok (id, out), e1) → tdb_associations db !! association_key d = None →
  fuse_detection pg_time ienv renv d e db = Some (Fused, e1, db1) →
  tdb_associations db1 = <[association_key d :=
    mkAssociation id (det_modality d) (det_classification d) (pg_time (ObservedAt d)) (pg_time (re_associated renv))]>
    (tdb_associations db).
Proof.
  intros Hse Hf Hs Hin Hn. destruct (ingest_track _ _ _ _ _ _ Hse Hf Hs Hin) as (_&_&_&t&p&ps&_&Ht&Hid&_).
  unfold fuse_detection, Track_view. rewrite Hin, Ht.
  destruct (RecordFusion _ _ _ _ _ _) as [[[]|err] db2] eqn:E; [|done]. intros [= <-].
  apply RecordFusion_Ok in E as (p'&ps'&_&_&_&E&_). apply recorded_associations in E as ->.
  unfold associated. cbn [tdb_associations]. fold (association_key d). rewrite Hn. unfold fused_association. by rewrite Hid.
Qed.

Lemma scan_associations order now renv e db log e1 db1 :
  scanOnce pg_time order now renv e db = (log, e1, db1) → tdb_associations db1 = tdb_associations db.
Proof.
  intros [_ E]%scanOnce_cases. destruct (ScanDarkVessels order now e).2 as [|em out]; [by destruct E as [_ ->]|].
  destruct E as [(err&_&_&->)|[[E _]%RecordAnomalies_Ok _]]; [done|]. by eapply recorded_associations.
Qed.

Lemma service_associations e db l e2 db2 :
  service_engine e → service_run e db l e2 db2 →
  map_to_list (tdb_associations db2) ≡ₚ (keyed_row <$> l) ++ map_to_list (tdb_associations db).
Proof.
  intros Hse Hrun. induction Hrun as [e db|ienv renv e db d id out e1 db1 l e2 db2 Hf Hs Hin Ho Hn Hfu _ IH
    |ienv e db d err e1 l e2 db2 Hin _ IH|order now renv e db log e1 db1 l e2 db2 Hsc _ IH|step t e db l e2 db2 Hst _ IH].
  - done.
  - destruct (ingest_track _ _ _ _ _ _ Hse Hf Hs Hin) as (Hse1&_).
    rewrite (IH Hse1), (fuse_associations _ _ _ _ _ _ _ _ _ Hse Hf Hs Hin Hn Hfu), map_to_list_insert by done.
    symmetry. apply Permutation_middle.
  - pose proof (Ingest_Err _ _ _ _ _ Hin) as ->. by apply IH.
  - pose proof (scan_associations _ _ _ _ _ _ _ _ Hsc) as <-. apply IH.
    apply scanOnce_cases in Hsc as [-> _]. by apply scan_service.
  - by apply IH.
Qed.

(** ** The replay *)

(** A sorted listing of strictly ordered rows is their order. *)
Lemma listing_unique {A} (R S : A → A → Prop) (l1 l2 : list A) :
  (∀ x y, S x y → ¬ R y x) → l1 ≡ₚ l2 → StronglySorted R l1 → StronglySorted S l2 → l1 = l2.
Proof.
  intros HS. revert l2. induction l1 as [|a l1 IH]; intros l2 Hp H1 H2.
  - by apply Permutation_nil_l in Hp.
  - destruct l2 as [|b l2]; [by apply Permutation_nil_r in Hp|].
    apply StronglySorted_inv in H1 as [H1 Ha]. apply StronglySorted_inv in H2 as [H2 Hb].
    rewrite Forall_forall in Ha, Hb.
    assert (Hin1 : a ∈ b :: l2) by (rewrite <- Hp; apply list_elem_of_here).
    assert (Hin2 : b ∈ a :: l1) by (rewrite Hp; apply list_elem_of_here).
    apply elem_of_cons in Hin1 as [->|Hab].
    + f_equal. apply IH; [|done|done]. by eapply Permutation_cons_inv.
    + apply elem_of_cons in Hin2 as [->|Hba].
      * f_equal. apply IH; [|done|done]. by eapply Permutation_cons_inv.
      * exfalso. apply (HS b a); [by apply Hb|by apply Ha].
Qed.

Lemma Replay_succeeds order e id d e1 order' f :
  Replay order e id d = (Ok tt, e1) → ∃ f1, Replay order' f id d = (Ok tt, f1).
Proof.
  unfold Replay. destruct (Validate d) as [[]|]; [|done]. destruct (negb (HasPosition d)); [done|].
  destruct (_ || _); [done|]. destruct (NewPosition _ _) as [p|]; [|done]. intros _.
  destruct (match tracks f !! id with Some _ => _ | None => _ end) as [t f0].
  destruct (absorbPointLocked f0 t d p) as [[point t'] f1]. eauto.
Qed.

(** The startup loop performs a replay of the whole list. *)
Lemma replay_loop order_of i l : ∀ e f e2,
  (∀ n keys, order_of n keys ≡ₚ elements keys) → replay_run e l e2 → engine_inv f →
  ∀ payloads, Forall2 (λ x p, decode p = Some x.2) l payloads →
  ∃ f2, replayTrackAssociations decode order_of i (zip_with mkReplay l.*1 payloads) f = (Ok tt, f2) ∧ replay_run f l f2.
Proof.
  revert i. induction l as [|[id d] l IH]; intros i e f e2 Ho Hrun HF payloads Hp.
  - apply Forall2_nil_inv_l in Hp as ->. exists f. split; [done|constructor].
  - apply Forall2_cons_inv_l in Hp as (p&ps&Hd&Hp&->). simpl in Hd.
    inversion Hrun as [|order ? ? ? e1 ? ? Hrep Hord Hrun1]; subst.
    cbn [fmap list_fmap zip_with fst replayTrackAssociations ar_payload ar_track].
    unfold DecodeDetection. rewrite Hd.
    destruct (Replay_succeeds _ _ _ _ _ (order_of i ({[id]} ∪ dom (tracks f))) f Hrep) as [f1 Hf1]. rewrite Hf1.
    destruct (Replay_inv _ _ _ _ _ _ HF Hf1) as (HF1&_&Hdom).
    destruct (IH (S i) e1 f1 e2 Ho Hrun1 HF1 ps Hp) as (f2&E&Hf2). exists f2. split; [exact E|].
    econstructor; [exact Hf1| |exact Hf2].
    unfold range_order. rewrite Ho. replace (dom (tracks f1)) with ({[id]} ∪ dom (tracks f)); [done|].
    apply set_eq. intros k. rewrite elem_of_union, elem_of_singleton, !elem_of_dom, Hdom by done. done.
Qed.

(** Strictly earlier by observation, then by association. *)
Definition fused_before (x y : string * Detection * AssociationRow) : Prop :=
  as_observed x.2 < as_observed y.2 ∨ (as_observed x.2 = as_observed y.2 ∧ as_associated x.2 < as_associated y.2).

Lemma fused_sorted l :
  StronglySorted fused_before l →
  StronglySorted (λ a b, ¬ replay_before b a) (keyed_row <$> l).
Proof.
  induction 1 as [|x l Hs IH Hx]; [constructor|]. constructor; [exact IH|].
  apply Forall_fmap. eapply Forall_impl; [exact Hx|]. intros y Hy. unfold replay_before, fused_before in *. simpl. lia.
Qed.

Lemma joined_payloads (events : gmap (string * string) EventRow) (l : list (string * Detection * AssociationRow)) :
  Forall (λ x, ∃ row, events !! association_key x.1.2 = Some row ∧ decode (er_payload row) = Some x.1.2) l →
  Forall (λ x, as_track x.2 = x.1.1) l →
  ∃ payloads, ListAssociationsForReplay events (keyed_row <$> l) = zip_with mkReplay l.*1.*1 payloads ∧
    Forall2 (λ x p, decode p = Some x.2) l.*1 payloads.
Proof.
  induction l as [|x l IH]; intros He Ht.
  - exists []. split; [done|constructor].
  - apply Forall_cons in He as [(row&Hrow&Hd) He]. apply Forall_cons in Ht as [Hx Ht].
    destruct (IH He Ht) as (ps&E&Hps). exists (er_payload row :: ps). split; [|by constructor].
    unfold ListAssociationsForReplay in *. cbn [fmap list_fmap omap list_omap keyed_row fst snd zip_with].
    rewrite Hrow. cbn [fmap option_fmap option_map]. rewrite Hx. f_equal. exact E.
Qed.

Lemma service_rows e db l e2 db2 : service_run e db l e2 db2 → Forall (λ x, as_track x.2 = x.1.1) l.
Proof. induction 1; [constructor|by constructor|done..]. Qed.

(** C21: A restart loses no track.  Whatever scans, failed alert records and other
    users of the database happened in between, when every fused detection was
    recorded and they arrived in the order of their observation times, the
    startup replay succeeds on the stored associations and rebuilds the engine:
    the same tracks, points, MMSI bindings and rule state, up to the alert
    latches and labels, whatever order the map loops take.  Two conditions on
    the data: no detection carries two different MMSIs (its own and the one of
    its AIS payload), and the retained text of each fused detection still
    decodes to that detection, which the JSONB conversion does not guarantee
    ([retention_changes_label]). *)
Theorem restart_restores config zs e0 l e db events listing order_of :
  NewEngine config zs = Ok e0 → machine_config config →
  service_run e0 empty_tracks l e db → StronglySorted fused_before l →
  Forall (λ x, mmsi_consistent x.1.2) l →
  Forall (λ x, ∃ row, events !! association_key x.1.2 = Some row ∧ decode (er_payload row) = Some x.1.2) l →
  listing ≡ₚ map_to_list (tdb_associations db) → StronglySorted replay_before listing →
  (∀ n keys, order_of n keys ≡ₚ elements keys) →
  ∃ e', replayTrackAssociations decode order_of 0 (ListAssociationsForReplay events listing) e0 = (Ok tt, e') ∧
    erase e' = erase e.
Proof.
  intros Hnew Hm Hrun Hs Hc Hev Hl Hls Ho. pose proof (new_service _ _ _ Hnew Hm) as Hse.
  pose proof (NewEngine_inv _ _ _ Hnew) as (HI&HC&HV&HT&_).
  assert (Hlist : listing = keyed_row <$> l).
  { eapply listing_unique; [| |exact Hls|by apply fused_sorted]; [naive_solver|].
    rewrite Hl, (service_associations _ _ _ _ _ Hse Hrun). simpl. by rewrite map_to_list_empty, app_nil_r. }
  destruct (joined_payloads events l Hev (service_rows _ _ _ _ _ Hrun)) as (ps&E&Hps).
  destruct (replay_run_ok e0 l.*1 e e0 (service_ingests _ _ _ _ _ Hse Hrun) HI HI) as [[f Hf] Hall].
  - rewrite HC. by apply config_radius.
  - intros k. rewrite HT. by intros [? ?].
  - done.
  - apply Forall_fmap. done.
  - destruct (replay_loop order_of 0 l.*1 e0 e0 f Ho Hf HI ps Hps) as (f2&E2&Hf2).
    exists f2. rewrite Hlist, E. split; [exact E2|by apply Hall].
Qed.

End restart.

(** ** Witness *)

Definition sample_payloads (payload : string) : option Detection :=
  if payload =s "ev1" then Some (sample_ais "ev1" "636012345" 0 60)
  else if payload =s "ev2" then Some (sample_sar "ev2" 100 61) else None.

Definition sample_event (d : Detection) : EventRow :=
  mkEventRow (EventID d) (det_modality d) (det_classification d) (ObservedAt d) None None (EventID d) "" "" [] 0.

Definition sample_events : gmap (string * string) EventRow :=
  list_to_map [(("feed-1", "ev1"), sample_event (sample_ais "ev1" "636012345" 0 60));
               (("feed-1", "ev2"), sample_event (sample_sar "ev2" 100 61))].

Definition sample_records (n : nat) (minutes : Z) : RecordEnv :=
  mkRecordEnv (sample_time minutes) (sample_time minutes) (sample_time minutes) (λ i, sample_ids (n + i)) true.

Definition sample_fused : list (string * Detection * AssociationRow) :=
  [("t1", sample_ais "ev1" "636012345" 0 60,
    mkAssociation "t1" ModalityAIS ClassificationRestricted (sample_time 60) (sample_time 70));
   ("t2", sample_sar "ev2" 100 61,
    mkAssociation "t2" ModalitySAR ClassificationConfidential (sample_time 61) (sample_time 71))].

Definition fused_db (ienv : IngestEnv) (renv : RecordEnv) (d : Detection) (e : Engine) (db : TrackDB) : TrackDB :=
  match fuse_detection (H := sample_json) id ienv renv d e db with Some (_, _, db') => db' | None => db end.

Definition sample_db1 : TrackDB :=
  fused_db sample_env1 (sample_records 0 70) (sample_ais "ev1" "636012345" 0 60) sample_engine empty_tracks.
Definition sample_db2 : TrackDB :=
  fused_db sample_env2 (sample_records 10 71) (sample_sar "ev2" 100 61) sample_engine1 sample_db1.

Lemma sample_service_run :
  service_run (H := sample_json) id sample_engine empty_tracks sample_fused sample_engine2 sample_db2.
Proof.
  apply (sr_fuse (H := sample_json) id sample_env1 (sample_records 0 70) _ _ (sample_ais "ev1" "636012345" 0 60) "t1"
    (ingest_out sample_env1 sample_engine (sample_ais "ev1" "636012345" 0 60)) sample_engine1 sample_db1);
    [by vm_compute..|].
  apply (sr_fuse (H := sample_json) id sample_env2 (sample_records 10 71) _ _ (sample_sar "ev2" 100 61) "t2"
    (ingest_out sample_env2 sample_engine1 (sample_sar "ev2" 100 61)) sample_engine2 sample_db2);
    [by vm_compute..| | | |constructor]; vm_compute; first [apply perm_swap|reflexivity].
Qed.

Lemma restart_restores_witness :
  ∃ e', replayTrackAssociations sample_payloads (λ _, elements) 0
      (ListAssociationsForReplay sample_events (keyed_row <$> sample_fused)) sample_engine = (Ok tt, e') ∧
    erase e' = erase sample_engine2.
Proof.
  apply (restart_restores (H := sample_json) id sample_payloads DefaultConfig [sample_zone] sample_engine sample_fused
    sample_engine2 sample_db2 sample_events (keyed_row <$> sample_fused) (λ _, elements)
    sample_engine_new sample_machine sample_service_run).
  - constructor; [constructor; [constructor|apply Forall_nil_2]|apply Forall_cons_2; [|apply Forall_nil_2]].
    left. by vm_compute.
  - apply Forall_cons_2; [|apply Forall_cons_2; [|apply Forall_nil_2]]; [intros a [= <-]; by right|done].
  - apply Forall_cons_2; [|apply Forall_cons_2; [|apply Forall_nil_2]]; (eexists; split; [vm_compute; reflexivity|reflexivity]).
  - vm_compute. first [reflexivity|apply perm_swap].
  - constructor; [constructor; [constructor|apply Forall_nil_2]|apply Forall_cons_2; [|apply Forall_nil_2]].
    left. by vm_compute.
  - intros n keys. reflexivity.
Defined.

(** The order matters: a report that arrives late is last in the track of the
    running engine, and first in the track the restart rebuilds. *)
Theorem late_arrival_reordered :
  let newer := sample_ais "n1" "636012345" 1 61 in
  let older := sample_ais "o1" "636012345" 0 60 in
  let live := sample_ingests [(sample_env [] ["t1"] "t1" 62, newer); (sample_env ["t1"] ["t1"] "t2" 63, older)] sample_engine in
  let restarted := (Replay ["t1"] (Replay ["t1"] sample_engine "t1" older).2 "t1" newer).2 in
  pt_observed <$> (tracks live !! "t1" ≫= Last) = Some (sample_time 60) ∧
  pt_observed <$> (tracks restarted !! "t1" ≫= Last) = Some (sample_time 61).
Proof. vm_compute. done. Qed.
