(* ===== verification/Base64.v ===== *)
(** * [encoding/base64]

    The encodings the program uses: standard and URL alphabets, padded and
    unpadded, in the library's lenient mode (line breaks are skipped, the unused
    bits of the last symbol are not checked), and [DecodeFeedSignature] of
    [internal/incident/feed.go]. *)

From S2P Require Import Prelude GoStrings.
From Stdlib Require Import Ascii.

(** ** Encodings *)

Record Encoding : Type := mkEncoding { enc_62 : ascii; enc_63 : ascii; enc_padded : bool }.

Definition StdEncoding : Encoding := mkEncoding "+" "/" true.
Definition RawStdEncoding : Encoding := mkEncoding "+" "/" false.
Definition URLEncoding : Encoding := mkEncoding "-" "_" true.
Definition RawURLEncoding : Encoding := mkEncoding "-" "_" false.

Definition char_of (z : Z) : ascii := ascii_of_N (Z.to_N z).

(** The alphabet and its inverse. *)
Definition symbol (enc : Encoding) (v : Z) : ascii :=
  if v <? 26 then char_of (65 + v)
  else if v <? 52 then char_of (71 + v)
  else if v <? 62 then char_of (v - 4)
  else if v =? 62 then enc_62 enc else enc_63 enc.

Definition value (enc : Encoding) (c : ascii) : option Z :=
  if is_upper c then Some (code c - 65)
  else if is_lower c then Some (code c - 71)
  else if is_digit c then Some (code c + 4)
  else if Ascii.eqb c (enc_62 enc) then Some 62
  else if Ascii.eqb c (enc_63 enc) then Some 63 else None.

Definition is_pad (c : ascii) : bool := Ascii.eqb c "="%char.
Definition is_newline (c : ascii) : bool := (code c =? 10) || (code c =? 13).

(** The bytes of a 24-bit group. *)
Definition byte2 (v : Z) : ascii := char_of (v / 65536 mod 256).
Definition byte1 (v : Z) : ascii := char_of (v / 256 mod 256).
Definition byte0 (v : Z) : ascii := char_of (v mod 256).

(** Groups of four symbols; [None] is a [CorruptInputError]. *)
Fixpoint decode_groups (enc : Encoding) (l : list ascii) : option (list ascii) :=
  match l with
  | [] => Some []
  | a :: b :: rest2 =>
      match value enc a, value enc b with
      | Some va, Some vb =>
          match rest2 with
          | c :: d :: rest =>
              match value enc c, value enc d with
              | Some vc, Some vd =>
                  let v := va * 262144 + vb * 4096 + vc * 64 + vd in
                  tail ← decode_groups enc rest; Some (byte2 v :: byte1 v :: byte0 v :: tail)
              | Some vc, None =>
                  let v := va * 262144 + vb * 4096 + vc * 64 in
                  if enc_padded enc && is_pad d && bool_decide (rest = []) then Some [byte2 v; byte1 v] else None
              | None, _ =>
                  let v := va * 262144 + vb * 4096 in
                  if enc_padded enc && is_pad c && is_pad d && bool_decide (rest = []) then Some [byte2 v] else None
              end
          | [c] =>
              match value enc c with
              | Some vc =>
                  let v := va * 262144 + vb * 4096 + vc * 64 in
                  if enc_padded enc then None else Some [byte2 v; byte1 v]
              | None => None
              end
          | [] => if enc_padded enc then None else Some [byte2 (va * 262144 + vb * 4096)]
          end
      | _, _ => None
      end
  | [_] => None
  end.

Definition DecodeString (enc : Encoding) (s : string) : option string :=
  String.string_of_list_ascii <$>
    decode_groups enc (List.filter (λ c, negb (is_newline c)) (String.list_ascii_of_string s)).

Fixpoint encode_groups (enc : Encoding) (l : list ascii) : list ascii :=
  match l with
  | [] => []
  | [a] =>
      let v := code a * 65536 in
      [symbol enc (v / 262144); symbol enc (v / 4096 mod 64)] ++
      (if enc_padded enc then ["="%char; "="%char] else [])
  | [a; b] =>
      let v := code a * 65536 + code b * 256 in
      [symbol enc (v / 262144); symbol enc (v / 4096 mod 64); symbol enc (v / 64 mod 64)] ++
      (if enc_padded enc then ["="%char] else [])
  | a :: b :: c :: rest =>
      let v := code a * 65536 + code b * 256 + code c in
      symbol enc (v / 262144) :: symbol enc (v / 4096 mod 64) :: symbol enc (v / 64 mod 64) ::
      symbol enc (v mod 64) :: encode_groups enc rest
  end.

Definition EncodeToString (enc : Encoding) (s : string) : string :=
  String.string_of_list_ascii (encode_groups enc (String.list_ascii_of_string s)).

Example base64_std : EncodeToString StdEncoding "light w" = "bGlnaHQgdw==".
Proof. reflexivity. Qed.

Example base64_lenient : DecodeString RawURLEncoding "QR" = Some "A".
Proof. reflexivity. Qed.

(** ** Detached signatures *)

Definition DecodeFeedSignature (value : string) : result string :=
  let canonical := trim_space value in
  let decoded := match DecodeString StdEncoding canonical with
                 | Some s => Some s
                 | None => DecodeString RawStdEncoding canonical
                 end in
  match decoded with
  | None => Err (EText "illegal base64 data")
  | Some s => _ ← fail_if (negb (str_len s =? 64)) (EText "decoded signature has invalid size"); Ok s
  end.

(** ** Round trip *)

(** The alphabets of the package. *)
Definition standard (enc : Encoding) : Prop :=
  enc ∈ [StdEncoding; RawStdEncoding; URLEncoding; RawURLEncoding].

Lemma symbol_table enc : standard enc → ∀ n, (n < 64)%nat →
  value enc (symbol enc (Z.of_nat n)) = Some (Z.of_nat n) ∧ is_newline (symbol enc (Z.of_nat n)) = false ∧
  is_pad (symbol enc (Z.of_nat n)) = false.
Proof.
  intros He.
  assert (Ht : forallb (λ n, bool_decide (value enc (symbol enc (Z.of_nat n)) = Some (Z.of_nat n)) &&
    negb (is_newline (symbol enc (Z.of_nat n))) && negb (is_pad (symbol enc (Z.of_nat n)))) (seq 0 64) = true).
  { unfold standard in He. repeat apply elem_of_cons in He as [->|He]; [by vm_compute..|by apply elem_of_nil in He]. }
  intros n Hn. rewrite forallb_forall in Ht. specialize (Ht n). rewrite in_seq in Ht.
  specialize (Ht ltac:(lia)). rewrite !andb_true_iff, bool_decide_eq_true, !negb_true_iff in Ht. naive_solver.
Qed.

Lemma symbol_value enc v : standard enc → 0 <= v < 64 →
  value enc (symbol enc v) = Some v ∧ is_newline (symbol enc v) = false ∧ is_pad (symbol enc v) = false.
Proof. intros He Hv. rewrite <- (Z2Nat.id v) by lia. apply symbol_table; [done|lia]. Qed.

Lemma char_of_code a : char_of (code a) = a.
Proof. unfold char_of, code. rewrite N2Z.id. apply ascii_N_embedding. Qed.

Lemma pad_value enc : standard enc → value enc "="%char = None.
Proof. intros He. unfold standard in He. repeat apply elem_of_cons in He as [->|He]; [done..|by apply elem_of_nil in He]. Qed.

(** Induction by groups of three. *)
Lemma list_ind3 {A} (P : list A → Prop) :
  P [] → (∀ a, P [a]) → (∀ a b, P [a; b]) → (∀ a b c l, P l → P (a :: b :: c :: l)) → ∀ l, P l.
Proof.
  intros H0 H1 H2 H3. fix IH 1. intros [|a [|b [|c l]]]; [apply H0|apply H1|apply H2|apply H3, IH].
Qed.

Ltac byte_arith :=
  repeat match goal with |- context [code ?a] =>
    lazymatch goal with _ : 0 <= code a < 256 |- _ => fail | _ => pose proof (code_range a) end end;
  Z.to_euclidean_division_equations; lia.

Lemma sextet_range enc v x : standard enc → 0 <= v / x mod 64 < 64 ∧ 0 <= v mod 64 < 64.
Proof. intros _. split; apply Z.mod_pos_bound; lia. Qed.

Lemma decode_encode enc l : standard enc → decode_groups enc (encode_groups enc l) = Some l.
Proof.
  intros He. assert (Hb : ∀ v a, v mod 256 = code a → char_of (v mod 256) = a) by (intros v a ->; apply char_of_code).
  assert (Hs : ∀ v, 0 <= v < 64 → value enc (symbol enc v) = Some v) by (intros v Hv; by apply symbol_value).
  assert (Hp : is_pad "="%char = true) by done.
  induction l as [|a|a b|a b c l IH] using list_ind3; [done|..]; cbn [encode_groups app].
  - destruct (enc_padded enc) eqn:Ep; cbn [app decode_groups]; rewrite !Hs by byte_arith;
      rewrite ?pad_value, ?Ep, ?Hp by done; cbn [andb]; rewrite ?bool_decide_eq_true_2 by done;
      unfold byte2; rewrite (Hb _ a) by byte_arith; done.
  - destruct (enc_padded enc) eqn:Ep; cbn [app decode_groups]; rewrite !Hs by byte_arith;
      rewrite ?pad_value, ?Ep, ?Hp by done; cbn [andb]; rewrite ?bool_decide_eq_true_2 by done;
      unfold byte2, byte1; rewrite (Hb _ a), (Hb _ b) by byte_arith; done.
  - cbn [decode_groups]. rewrite !Hs by byte_arith. rewrite IH. cbn [mbind option_bind].
    unfold byte2, byte1, byte0. rewrite (Hb _ a), (Hb _ b), (Hb _ c) by byte_arith. done.
Qed.

Lemma encode_no_newline enc l : standard enc → Forall (λ c, is_newline c = false) (encode_groups enc l).
Proof.
  intros He. assert (Hs : ∀ v, 0 <= v < 64 → is_newline (symbol enc v) = false) by (intros v Hv; by apply symbol_value).
  induction l as [|a|a b|a b c l IH] using list_ind3; cbn [encode_groups app]; [constructor|..];
    try destruct (enc_padded enc); repeat (constructor; [first [apply Hs; byte_arith|done]|]); done.
Qed.

Lemma filter_keeps {A} (f : A → bool) l : Forall (λ x, f x = true) l → List.filter f l = l.
Proof. induction 1 as [|x l Hx _ IH]; simpl; [done|]. by rewrite Hx, IH. Qed.

(** Decoding inverts encoding, for each of the four encodings. *)
Lemma base64_round_trip enc s : standard enc → DecodeString enc (EncodeToString enc s) = Some s.
Proof.
  intros He. unfold DecodeString, EncodeToString. rewrite String.list_ascii_of_string_of_list_ascii.
  rewrite filter_keeps.
  - rewrite decode_encode by done. simpl. by rewrite String.string_of_list_ascii_of_string.
  - eapply Forall_impl; [by apply encode_no_newline|]. by intros c ->.
Qed.

(** The text of an encoding holds symbols and padding only. *)
Lemma encode_chars enc s (p : ascii → bool) :
  standard enc → p "="%char = true → (∀ v, 0 <= v < 64 → p (symbol enc v) = true) →
  all_chars p (EncodeToString enc s) = true.
Proof.
  intros He Hp Hs. apply all_chars_list. unfold EncodeToString. rewrite String.list_ascii_of_string_of_list_ascii.
  induction (String.list_ascii_of_string s) as [|a|a b|a b c l IH] using list_ind3;
    cbn [encode_groups app]; [constructor|..]; try destruct (enc_padded enc);
    repeat (constructor; [first [apply Hs; byte_arith|done]|]); done.
Qed.
