(* ===== verification/GoUtf8.v ===== *)
(** * UTF-8 and UTF-16 ([unicode/utf8], [unicode/utf16])

    A Go string is a byte sequence; ranging over it decodes UTF-8, and a byte
    that starts no valid sequence yields U+FFFD. *)

From S2P Require Import Prelude GoStrings Base64.
From Stdlib Require Import Ascii.

Definition RuneError : Z := 65533.

Definition between (lo hi z : Z) : bool := (lo <=? z) && (z <=? hi).

(** [utf8.DecodeRune] of the text [c :: s]: the rune and what follows it. *)
Definition next_rune (c : ascii) (s : string) : Z * string :=
  let b0 := code c in
  if b0 <? 128 then (b0, s)
  else if between 194 223 b0 then
    match s with
    | String c1 s1 =>
        if between 128 191 (code c1) then ((b0 - 192) * 64 + (code c1 - 128), s1) else (RuneError, s)
    | EmptyString => (RuneError, s)
    end
  else if between 224 239 b0 then
    match s with
    | String c1 (String c2 s2) =>
        let lo := if b0 =? 224 then 160 else 128 in
        let hi := if b0 =? 237 then 159 else 191 in
        if between lo hi (code c1) && between 128 191 (code c2)
        then ((b0 - 224) * 4096 + (code c1 - 128) * 64 + (code c2 - 128), s2) else (RuneError, s)
    | _ => (RuneError, s)
    end
  else if between 240 244 b0 then
    match s with
    | String c1 (String c2 (String c3 s3)) =>
        let lo := if b0 =? 240 then 144 else 128 in
        let hi := if b0 =? 244 then 143 else 191 in
        if between lo hi (code c1) && between 128 191 (code c2) && between 128 191 (code c3)
        then ((b0 - 240) * 262144 + (code c1 - 128) * 4096 + (code c2 - 128) * 64 + (code c3 - 128), s3)
        else (RuneError, s)
    | _ => (RuneError, s)
    end
  else (RuneError, s).

(** [for _, r := range s]; a rune takes at least one byte, so the length is
    enough fuel. *)
Fixpoint runes_fuel (fuel : nat) (s : string) : list Z :=
  match fuel, s with
  | S fuel, String c rest => let '(r, s') := next_rune c rest in r :: runes_fuel fuel s'
  | _, _ => []
  end.

Definition runes (s : string) : list Z := runes_fuel (String.length s) s.

(** [utf8.EncodeRune] *)
Definition scalar (r : Z) : bool := between 0 55295 r || between 57344 1114111 r.

Definition encode_rune (r : Z) : string :=
  let r := if scalar r then r else RuneError in
  if r <? 128 then String (char_of r) ""
  else if r <? 2048 then String (char_of (192 + r / 64)) (String (char_of (128 + r mod 64)) "")
  else if r <? 65536 then
    String (char_of (224 + r / 4096)) (String (char_of (128 + r / 64 mod 64)) (String (char_of (128 + r mod 64)) ""))
  else String (char_of (240 + r / 262144)) (String (char_of (128 + r / 4096 mod 64))
         (String (char_of (128 + r / 64 mod 64)) (String (char_of (128 + r mod 64)) ""))).

Definition encode_runes (rs : list Z) : string := foldr (λ r s, encode_rune r +:+ s) "" rs.

(** [utf16.Encode] and [utf16.DecodeRune] *)
Definition utf16_units (r : Z) : list Z :=
  if r <? 65536 then [r] else [55296 + (r - 65536) / 1024; 56320 + (r - 65536) mod 1024].

Definition utf16_encode (rs : list Z) : list Z := rs ≫= utf16_units.

Definition is_surrogate (r : Z) : bool := between 55296 57343 r.

Definition utf16_pair (r1 r2 : Z) : Z :=
  if between 55296 56319 r1 && between 56320 57343 r2 then (r1 - 55296) * 1024 + (r2 - 56320) + 65536
  else RuneError.

Example runes_euro : runes "€" = [8364].
Proof. reflexivity. Qed.

Example runes_invalid : runes (String (char_of 255) "a") = [RuneError; 97].
Proof. reflexivity. Qed.

(** ** Lemmas *)

Lemma code_char_of z : 0 <= z < 256 → code (char_of z) = z.
Proof. intros Hz. unfold code, char_of. rewrite N_ascii_embedding by lia. lia. Qed.

Lemma between_iff lo hi z : between lo hi z = true ↔ lo <= z <= hi.
Proof. unfold between. lia. Qed.

Lemma scalar_range r : scalar r = true ↔ 0 <= r <= 55295 ∨ 57344 <= r <= 1114111.
Proof. unfold scalar. by rewrite orb_true_iff, !between_iff. Qed.

Ltac decide_tests :=
  repeat match goal with
  | |- context [if ?b then _ else _] =>
      first [ replace b with true by (symmetry; unfold between; lia)
            | replace b with false by (symmetry; unfold between; lia) ]; cbv iota
  end.

Lemma next_rune_encode r : scalar r = true →
  ∃ c s', encode_rune r = String c s' ∧ ∀ rest, next_rune c (s' +:+ rest) = (r, rest).
Proof.
  intros Hs. pose proof Hs as Hr%scalar_range. unfold encode_rune. rewrite Hs.
  destruct (Z.ltb_spec r 128); [|destruct (Z.ltb_spec r 2048); [|destruct (Z.ltb_spec r 65536)]];
    do 2 eexists; (split; [reflexivity|]); intros rest; cbn [String.append]; unfold next_rune.
  - rewrite code_char_of by lia. decide_tests. done.
  - rewrite ?str_app_cons, ?str_app_nil_l, !code_char_of by (Z.to_euclidean_division_equations; lia).
    assert (B1 : 194 <= 192 + r / 64 <= 223) by (Z.to_euclidean_division_equations; lia).
    assert (B2 : 128 <= 128 + r mod 64 <= 191) by (Z.to_euclidean_division_equations; lia).
    assert (B3 : r = r / 64 * 64 + r mod 64) by (Z.to_euclidean_division_equations; lia).
    revert B1 B2 B3. generalize (r / 64), (r mod 64). intros x y B1 B2 B3.
    decide_tests. f_equal. lia.
  - rewrite ?str_app_cons, ?str_app_nil_l, !code_char_of by (Z.to_euclidean_division_equations; lia).
    assert (B1 : 14 * 16 <= 224 + r / 4096 <= 239) by (Z.to_euclidean_division_equations; lia).
    assert (B2 : 128 <= 128 + r / 64 mod 64 <= 191) by (Z.to_euclidean_division_equations; lia).
    assert (B3 : 128 <= 128 + r mod 64 <= 191) by (Z.to_euclidean_division_equations; lia).
    assert (B4 : 224 + r / 4096 = 224 → 160 <= 128 + r / 64 mod 64) by (Z.to_euclidean_division_equations; lia).
    assert (B5 : 224 + r / 4096 = 237 → 128 + r / 64 mod 64 <= 159) by (Z.to_euclidean_division_equations; lia).
    assert (B6 : r = r / 4096 * 4096 + r / 64 mod 64 * 64 + r mod 64) by (Z.to_euclidean_division_equations; lia).
    revert B1 B2 B3 B4 B5 B6. generalize (r / 4096), (r / 64 mod 64), (r mod 64). intros x y z B1 B2 B3 B4 B5 B6.
    replace (224 + x <? 128) with false by lia. replace (between 194 223 (224 + x)) with false by (unfold between; lia).
    replace (between 224 239 (224 + x)) with true by (unfold between; lia).
    replace (between _ _ (128 + y) && between 128 191 (128 + z)) with true.
    + f_equal. lia.
    + unfold between. destruct (Z.eqb_spec (224 + x) 224), (Z.eqb_spec (224 + x) 237); lia.
  - rewrite ?str_app_cons, ?str_app_nil_l, !code_char_of by (Z.to_euclidean_division_equations; lia).
    assert (B1 : 240 <= 240 + r / 262144 <= 244) by (Z.to_euclidean_division_equations; lia).
    assert (B2 : 128 <= 128 + r / 4096 mod 64 <= 191) by (Z.to_euclidean_division_equations; lia).
    assert (B3 : 128 <= 128 + r / 64 mod 64 <= 191) by (Z.to_euclidean_division_equations; lia).
    assert (B4 : 128 <= 128 + r mod 64 <= 191) by (Z.to_euclidean_division_equations; lia).
    assert (B5 : 240 + r / 262144 = 240 → 144 <= 128 + r / 4096 mod 64) by (Z.to_euclidean_division_equations; lia).
    assert (B6 : 240 + r / 262144 = 244 → 128 + r / 4096 mod 64 <= 143) by (Z.to_euclidean_division_equations; lia).
    assert (B7 : r = r / 262144 * 262144 + r / 4096 mod 64 * 4096 + r / 64 mod 64 * 64 + r mod 64)
      by (Z.to_euclidean_division_equations; lia).
    revert B1 B2 B3 B4 B5 B6 B7. generalize (r / 262144), (r / 4096 mod 64), (r / 64 mod 64), (r mod 64).
    intros x y z w B1 B2 B3 B4 B5 B6 B7.
    replace (240 + x <? 128) with false by lia. replace (between 194 223 (240 + x)) with false by (unfold between; lia).
    replace (between 224 239 (240 + x)) with false by (unfold between; lia).
    replace (between 240 244 (240 + x)) with true by (unfold between; lia).
    replace (between _ _ (128 + y) && between 128 191 (128 + z) && between 128 191 (128 + w)) with true.
    + f_equal. lia.
    + unfold between. destruct (Z.eqb_spec (240 + x) 240), (Z.eqb_spec (240 + x) 244); lia.
Qed.

Lemma next_rune_scalar c s : scalar (next_rune c s).1 = true ∧ (String.length (next_rune c s).2 <= String.length s)%nat.
Proof.
  pose proof (code_range c). pose proof code_range as Hc. unfold next_rune.
  repeat match goal with
  | |- context [if ?b then _ else _] => destruct b eqn:?
  | |- context [match s with _ => _ end] => destruct s
  end; cbn [fst snd String.length]; (split; [|lia]); try done;
  apply scalar_range; rewrite ?andb_true_iff, ?between_iff in *;
  repeat match goal with H : context [if ?b then _ else _] |- _ => destruct b eqn:? end; lia.
Qed.

Lemma string_length_app (a b : string) : String.length (a +:+ b) = (String.length a + String.length b)%nat.
Proof. induction a as [|x a IH]; [done|]. rewrite str_app_cons. cbn [String.length]. by rewrite IH. Qed.

(** Decoding inverts encoding. *)
Lemma runes_encode rs : Forall (λ r, scalar r = true) rs → runes (encode_runes rs) = rs.
Proof.
  intros Hrs. unfold runes. generalize (Nat.le_refl (String.length (encode_runes rs))).
  generalize (String.length (encode_runes rs)) at 2 3. intros fuel. revert fuel.
  induction Hrs as [|r rs Hr _ IH]; intros fuel Hf; [by destruct fuel|].
  cbn [encode_runes foldr] in *. fold (encode_runes rs) in *.
  destruct (next_rune_encode r Hr) as (c&s'&He&Hn). rewrite He in *. rewrite str_app_cons in *.
  destruct fuel as [|fuel]; [simpl in Hf; lia|]. cbn [runes_fuel]. rewrite Hn. f_equal. apply IH.
  cbn [String.length] in Hf. rewrite string_length_app in Hf. lia.
Qed.

Lemma runes_scalar s : Forall (λ r, scalar r = true) (runes s).
Proof.
  unfold runes. generalize (String.length s) as fuel. intros fuel. revert s.
  induction fuel as [|fuel IH]; intros [|c s]; cbn [runes_fuel]; try constructor.
  pose proof (next_rune_scalar c s) as [Hs _]. destruct (next_rune c s) as [r s']. by constructor.
Qed.

(** A valid UTF-8 string is one that encodes its runes. *)
Definition valid_utf8 (s : string) : Prop := encode_runes (runes s) = s.

Lemma encode_valid rs : Forall (λ r, scalar r = true) rs → valid_utf8 (encode_runes rs).
Proof. intros H. unfold valid_utf8. by rewrite runes_encode. Qed.
