(* ===== verification/GoNumber.v ===== *)
(** * Decimal text of a [float64] ([strconv.ParseFloat], [strconv.FormatFloat])

    [ParseFloat] returns the binary64 number nearest to the decimal, ties to
    even; [FormatFloat] with precision -1 the shortest decimal that parses back.
    Both compute on exact integers here, so every call evaluates. *)

From S2P Require Import Prelude GoStrings GoTime Float64 GoFormat.
From Stdlib Require Import Ascii.

(** ** Rounding a ratio *)

(** [n / d] rounded to nearest even. *)
Definition round_ratio (s : bool) (n d : Z) : f64 :=
  let '(q, e, l) := SFdiv_core_binary prec emax n 0 d 0 in binary_round_aux prec emax s q e l.

(** [c * 10 ^ k] rounded. *)
Definition round_decimal (s : bool) (c k : Z) : f64 :=
  if c =? 0 then S754_zero s else round_ratio s (c * 10 ^ Z.max k 0) (10 ^ Z.max (- k) 0).

Example round_tenth : round_decimal false 1 (-1) = f_of_Q 1 10.
Proof. reflexivity. Qed.

(** ** [ParseFloat] on decimal texts *)

Fixpoint take_digits (s : string) : string * string :=
  match s with
  | String c rest => if is_digit c then let '(d, r) := take_digits rest in (String c d, r) else ("", s)
  | EmptyString => ("", "")
  end.

Definition sign_of (s : string) : bool * string :=
  match s with
  | String c rest =>
      if Ascii.eqb c "-"%char then (true, rest) else if Ascii.eqb c "+"%char then (false, rest) else (false, s)
  | EmptyString => (false, s)
  end.

Definition digits_of (s : string) : Z := default 0 (digits_value 0 s).

(** The exponent digits; the reader stops accumulating at 10000. *)
Fixpoint exponent_value (acc : Z) (s : string) : Z :=
  match s with
  | String c rest => exponent_value (if acc <? 10000 then acc * 10 + (code c - 48) else acc) rest
  | EmptyString => acc
  end.

(** The optional exponent part: its value and the rest of the text. *)
Definition read_exponent (s : string) : option (Z * string) :=
  match s with
  | String c rest =>
      if Ascii.eqb c "e"%char || Ascii.eqb c "E"%char then
        let '(negative, body) := sign_of rest in
        let '(ds, rest') := take_digits body in
        if ds =s "" then None
        else Some (if negative then - exponent_value 0 ds else exponent_value 0 ds, rest')
      else Some (0, s)
  | EmptyString => Some (0, s)
  end.

Definition read_fraction (s : string) : string * string :=
  match s with
  | String c rest => if Ascii.eqb c "."%char then take_digits rest else ("", s)
  | EmptyString => ("", s)
  end.

(** Sign, integer mantissa and decimal exponent of a text. *)
Definition read_float (s : string) : option (bool * Z * Z) :=
  let '(negative, body) := sign_of s in
  let '(int, rest1) := take_digits body in
  let '(frac, rest2) := read_fraction rest1 in
  if int +:+ frac =s "" then None
  else '(e, rest3) ← read_exponent rest2;
       if rest3 =s "" then Some (negative, digits_of (int +:+ frac), e - str_len frac) else None.

(** [ErrSyntax] or, for a value beyond the format, [ErrRange]. *)
Definition ParseFloat (s : string) : result f64 :=
  match read_float s with
  | None => Err (ESentinel "strconv.ErrSyntax")
  | Some (negative, c, k) =>
      let x := round_decimal negative c k in
      _ ← fail_if (is_inf x) (ESentinel "strconv.ErrRange"); Ok x
  end.

Example parse_ordinary : ParseFloat "-12.50e1" = Ok (f_of_Z (-125)).
Proof. reflexivity. Qed.

Example parse_overflow : ParseFloat "1e400" = Err (ESentinel "strconv.ErrRange").
Proof. vm_compute. reflexivity. Qed.

Example parse_underflow : ParseFloat "1e-400" = Ok fzero.
Proof. vm_compute. reflexivity. Qed.

(** ** [FormatFloat(x, 'e', -1, 64)] *)

(** A positive number [m * 2 ^ e] as an exact decimal [c * 10 ^ k]. *)
Definition exact_decimal (m e : Z) : Z * Z :=
  if 0 <=? e then (m * 2 ^ e, 0) else (m * 5 ^ (- e), e).

(** The decimals with [drop] digits less next to it, the nearer first. *)
Definition neighbours (c : Z) (drop : Z) : list Z :=
  let p := 10 ^ drop in
  let q := c / p in
  let r := c mod p in
  if r =? 0 then [q]
  else if 2 * r <? p then [q; q + 1]
  else if p <? 2 * r then [q + 1; q]
  else if Z.even q then [q; q + 1] else [q + 1; q].

(** A carry out of the leading digit leaves a power of ten. *)
Definition carry (digits c k : Z) : Z * Z := if c =? 10 ^ digits then (1, k + digits) else (c, k).

Definition parses_to (x : f64) (d : Z * Z) : bool := bool_decide (round_decimal false d.1 d.2 = x).

Fixpoint shortest_from (x : f64) (digits c k : Z) (drop : nat) : Z * Z :=
  match drop with
  | O => (c, k)
  | S drop' =>
      match List.find (parses_to x)
              ((λ q, carry (digits - Z.of_nat drop) q (k + Z.of_nat drop)) <$> neighbours c (Z.of_nat drop)) with
      | Some d => d
      | None => shortest_from x digits c k drop'
      end
  end.

(** The digits [c] and the exponent [k] of the shortest decimal. *)
Definition shortest (m : positive) (e : Z) : Z * Z :=
  let '(c, k) := exact_decimal (Zpos m) e in
  let digits := str_len (dec c) in
  shortest_from (S754_finite false m e) digits c k (Z.to_nat (digits - 1)).

Example shortest_tenth : shortest 7205759403792794 (-56) = (1, -1).
Proof. vm_compute. reflexivity. Qed.

Example shortest_1e23 : shortest 5960464477539062 24 = (1, 23).
Proof. vm_compute. reflexivity. Qed.

Example shortest_denormal : shortest 1 (-1074) = (5, -324).
Proof. vm_compute. reflexivity. Qed.

Definition first_char (s : string) : string := String.substring 0 1 s.
Definition from_char (n : nat) (s : string) : string := str_drop n s.

(** At least two exponent digits. *)
Definition exponent_text (e : Z) : string :=
  "e" +:+ (if e <? 0 then "-" else "+") +:+ pad 2 (Z.abs e).

Definition format_e (c k : Z) : string :=
  let ds := dec c in
  let tail := from_char 1 ds in
  first_char ds +:+ (if tail =s "" then "" else "." +:+ tail) +:+ exponent_text (str_len ds + k - 1).

Definition FormatFloat_e (x : f64) : string :=
  match x with
  | S754_nan => "NaN"
  | S754_infinity s => if s then "-Inf" else "+Inf"
  | S754_zero s => (if s then "-" else "") +:+ "0e+00"
  | S754_finite s m e => (if s then "-" else "") +:+ let '(c, k) := shortest m e in format_e c k
  end.

Example format_knots : FormatFloat_e (f_of_Q 1225 100) = "1.225e+01".
Proof. vm_compute. reflexivity. Qed.

(** ** Rounding an exact ratio, and the range of a rounding *)

Lemma Zdigits2_log2 m : 0 < m → Zdigits2 m = Z.log2 m + 1.
Proof.
  intros Hm. destruct m as [|p|p]; [lia| |lia].
  change (Zdigits2 (Zpos p)) with (Zpos (digits2_pos p)). destruct (digits2_pos_bound p) as [Hl Hu].
  assert (Z.log2 (Zpos p) = Zpos (digits2_pos p) - 1); [|lia].
  apply Z.log2_unique; [lia|]. replace (Z.succ (Zpos (digits2_pos p) - 1)) with (Zpos (digits2_pos p)) by lia. lia.
Qed.

Lemma Zdigits2_pos m : 0 < m → 0 < Zdigits2 m.
Proof. intros Hm. rewrite Zdigits2_log2 by done. pose proof (Z.log2_nonneg m). lia. Qed.

Lemma lt_pow_digits m : 0 < m → m < 2 ^ Zdigits2 m.
Proof. intros Hm. rewrite Zdigits2_log2 by done. by apply Z.log2_spec. Qed.

Lemma Zdigits2_shift m j : 0 < m → 0 <= j → Zdigits2 (m * 2 ^ j) = Zdigits2 m + j.
Proof.
  intros Hm Hj. assert (0 < 2 ^ j) by (apply Z.pow_pos_nonneg; lia).
  rewrite !Zdigits2_log2, Z.log2_mul_pow2 by nia. lia.
Qed.

(** Shifting out zeros is exact. *)
Lemma iter_shr_exact p m : 0 <= m →
  iter_pos shr_1 p (Build_shr_record (m * 2 ^ Zpos p) false false) = Build_shr_record m false false.
Proof.
  assert (Hone : ∀ m, 0 <= m → shr_1 (Build_shr_record (m * 2) false false) = Build_shr_record m false false).
  { intros [|q|q] Hq; [done| |lia]. replace (Zpos q * 2) with (Zpos q~0) by lia. done. }
  revert m. induction p as [p IH|p IH|]; intros m Hm; cbn [iter_pos].
  - replace (m * 2 ^ Zpos p~1) with (m * 2 ^ Zpos p * 2 ^ Zpos p * 2).
    + assert (0 < 2 ^ Zpos p) by (by apply Z.pow_pos_nonneg). rewrite Hone, !IH; [done|nia..].
    + replace (Zpos p~1) with (Zpos p + Zpos p + 1) by lia. rewrite !Z.pow_add_r by lia. lia.
  - replace (m * 2 ^ Zpos p~0) with (m * 2 ^ Zpos p * 2 ^ Zpos p).
    + assert (0 < 2 ^ Zpos p) by (by apply Z.pow_pos_nonneg). rewrite !IH; [done|nia..].
    + replace (Zpos p~0) with (Zpos p + Zpos p) by lia. rewrite !Z.pow_add_r by lia. lia.
  - by apply Hone.
Qed.

Lemma bounded_iff m e :
  bounded prec emax m e = true ↔ fexp prec emax (Zdigits2 (Zpos m) + e) = e ∧ e <= 971.
Proof. unfold bounded, canonical_mantissa. bprop. done. Qed.

Lemma shr_fexp_exact m e e' : bounded prec emax m e = true → e' <= e →
  shr_fexp prec emax (Zpos m * 2 ^ (e - e')) e' loc_Exact = (Build_shr_record (Zpos m) false false, e).
Proof.
  rewrite bounded_iff. intros [Hc _] He. unfold shr_fexp. rewrite Zdigits2_shift by lia.
  replace (Zdigits2 (Zpos m) + (e - e') + e') with (Zdigits2 (Zpos m) + e) by lia. rewrite Hc. unfold shr. cbn [shr_record_of_loc].
  destruct (e - e') as [|p|p] eqn:E; [|rewrite iter_shr_exact by lia|lia].
  - rewrite Z.mul_1_r. f_equal. lia.
  - f_equal. lia.
Qed.

Lemma round_aux_exact s m e e' : bounded prec emax m e = true → e' <= e →
  binary_round_aux prec emax s (Zpos m * 2 ^ (e - e')) e' loc_Exact = S754_finite s m e.
Proof.
  intros Hb He. unfold binary_round_aux. rewrite shr_fexp_exact by done. cbn.
  pose proof (shr_fexp_exact m e e Hb ltac:(lia)) as Hx. rewrite Z.sub_diag, Z.mul_1_r in Hx. rewrite Hx. cbn [shr_m].
  apply bounded_iff in Hb as [_ Hm]. replace (e <=? emax - prec) with true by (symmetry; apply Z.leb_le; lia). done.
Qed.

(** A ratio that is a machine number rounds to it. *)
Lemma round_ratio_exact s n d m e : 0 < d → bounded prec emax m e = true →
  n * 2 ^ Z.max (- e) 0 = Zpos m * 2 ^ Z.max e 0 * d → round_ratio s n d = S754_finite s m e.
Proof.
  intros Hd Hb Hn. set (j := Z.max (- e) 0) in *. set (i := Z.max e 0) in *.
  assert (Hpj : 0 < 2 ^ j) by (apply Z.pow_pos_nonneg; lia). assert (Hpi : 0 < 2 ^ i) by (apply Z.pow_pos_nonneg; lia).
  assert (Hn0 : 0 < n) by nia. unfold round_ratio, SFdiv_core_binary. rewrite !Z.add_0_r, Z.sub_0_r.
  set (e' := Z.min _ 0). assert (He' : e' <= e).
  { pose proof Hb as [Hc _]%bounded_iff. enough (e' <= fexp prec emax (Zdigits2 (Zpos m) + e)) by lia. unfold e'.
    assert (Hm : Zdigits2 n - Zdigits2 d <= Zdigits2 (Zpos m) + e); [|unfold fexp, emin; lia].
    assert (Zdigits2 n + j <= Zdigits2 (Zpos m) + i + Zdigits2 d); [|lia].
    rewrite <- Zdigits2_shift, Hn by lia. rewrite <- (Zdigits2_shift (Zpos m) i) by lia.
    assert (Hp : 0 < Zpos m * 2 ^ i) by nia. pose proof (Zdigits2_pos _ Hp). pose proof (Zdigits2_pos _ Hd).
    apply Zdigits2_le; [nia|lia|]. rewrite Z.pow_add_r by lia.
    apply Z.mul_lt_mono_nonneg; [lia|by apply lt_pow_digits|lia|by apply lt_pow_digits]. }
  replace (match 0 - e' with Z0 => n | Z.pos _ => Z.shiftl n (0 - e') | Z.neg _ => 0 end) with (n * 2 ^ (- e')).
  2:{ destruct (0 - e') eqn:E; [replace (- e') with 0 by lia; lia| |lia].
      rewrite Z.shiftl_mul_pow2 by lia. do 2 f_equal. lia. }
  assert (Hq : n * 2 ^ (- e') = (Zpos m * 2 ^ (e - e')) * d).
  { apply (Z.mul_cancel_r _ _ (2 ^ j)); [lia|].
    transitivity (n * 2 ^ j * 2 ^ (- e')); [lia|]. rewrite Hn.
    transitivity (Zpos m * d * (2 ^ i * 2 ^ (- e'))); [lia|]. transitivity (Zpos m * d * (2 ^ (e - e') * 2 ^ j)); [|lia].
    rewrite <- !Z.pow_add_r by lia. do 2 f_equal. lia. }
  rewrite Hq. pose proof (Z.div_eucl_eq (Zpos m * 2 ^ (e - e') * d) d ltac:(lia)) as Hdiv.
  destruct (Z.div_eucl _ d) as [q r] eqn:E.
  assert (q = Zpos m * 2 ^ (e - e') ∧ r = 0) as [-> ->].
  { pose proof (Z.div_mul (Zpos m * 2 ^ (e - e')) d ltac:(lia)) as Hd1.
    pose proof (Z.mod_mul (Zpos m * 2 ^ (e - e')) d ltac:(lia)) as Hd2.
    unfold Z.div, Z.modulo in *. by rewrite E in Hd1, Hd2. }
  replace (new_location d 0) with loc_Exact by (unfold new_location; by destruct (IntDef.Z.even d)).
  by apply round_aux_exact.
Qed.

(** One alignment step leaves a canonical mantissa. *)
Lemma shr_fexp_canonical m e l r e' : 0 <= m → e <= fexp prec emax (Zdigits2 m + e) →
  shr_fexp prec emax m e l = (r, e') →
  shr_m r = Z.shiftr m (e' - e) ∧ e' = fexp prec emax (Zdigits2 m + e) ∧
  (0 < shr_m r → fexp prec emax (Zdigits2 (shr_m r) + e') = e').
Proof.
  intros Hm He. unfold shr_fexp, shr. set (f := fexp _ _ _) in *.
  assert (Hr : shr_m (shr_record_of_loc m l) = m) by apply shr_record_of_loc_m.
  destruct (f - e) as [|p|p] eqn:E; [| |lia]; intros [= <- <-].
  - rewrite Hr. replace e with f by lia. rewrite Z.sub_diag. split_and!; [done|lia|]. intros _. unfold f. f_equal. lia.
  - rewrite iter_shr_m by (rewrite Hr; lia). rewrite Hr. split_and!; [f_equal; lia|lia|].
    intros Hpos. replace (e + Zpos p) with f by lia.
    assert (Hm0 : 0 < m).
    { destruct (decide (m = 0)) as [->|]; [|lia]. rewrite Z.shiftr_0_l in Hpos. lia. }
    assert (Hd : Zdigits2 (Z.shiftr m (Zpos p)) = Zdigits2 m - Zpos p).
    { rewrite !Zdigits2_log2, Z.log2_shiftr by done.
      destruct (Z.max_spec 0 (Z.log2 m - Zpos p)) as [[? ->]|[Hle ->]]; [lia|].
      rewrite Z.shiftr_div_pow2 in Hpos by lia. pose proof (Z.log2_spec m Hm0) as [_ Hl].
      assert (Z.log2 m = Zpos p); [|lia].
      destruct (Z.eq_dec (Z.log2 m) (Zpos p)) as [|Hne]; [done|].
      rewrite Z.div_small in Hpos; [lia|]. split; [lia|]. eapply Z.lt_le_trans; [exact Hl|].
      apply Z.pow_le_mono_r; lia. }
    rewrite Hd. unfold f. f_equal. lia.
Qed.

Lemma round_aux_valid s m e l : 0 <= m → e <= fexp prec emax (Zdigits2 m + e) →
  valid (binary_round_aux prec emax s m e l) = true.
Proof.
  intros Hm He. unfold binary_round_aux.
  destruct (shr_fexp _ _ m e l) as [r e1] eqn:E1. apply shr_fexp_canonical in E1 as (Hr&He1&Hc1); [|done..].
  assert (Hr0 : 0 <= shr_m r) by (rewrite Hr; by apply Z.shiftr_nonneg).
  set (m2 := round_nearest_even _ _).
  assert (Hm2 : shr_m r <= m2 <= shr_m r + 1).
  { unfold m2, round_nearest_even. destruct (loc_of_shr_record r) as [|[]]; try lia. destruct (IntDef.Z.even _); lia. }
  assert (He2 : e1 <= fexp prec emax (Zdigits2 m2 + e1)).
  { destruct (decide (shr_m r = 0)) as [Hz|Hz].
    - rewrite Hz in Hr. symmetry in Hr. apply Z.shiftr_eq_0_iff in Hr as [->|[Hm0 Hlog]].
      + change (Zdigits2 0) with 0 in *. unfold fexp in *. lia.
      + pose proof (Zdigits2_log2 m Hm0). unfold fexp in *. lia.
    - rewrite <- (Hc1 ltac:(lia)) at 1. unfold fexp.
      assert (Zdigits2 (shr_m r) <= Zdigits2 m2); [|lia].
      rewrite !Zdigits2_log2 by lia. pose proof (Z.log2_le_mono (shr_m r) m2). lia. }
  destruct (shr_fexp _ _ m2 e1 loc_Exact) as [r2 e2] eqn:E2. apply shr_fexp_canonical in E2 as (Hr2&He2'&Hc2); [|lia|done].
  destruct (shr_m r2) as [|p|p] eqn:E3; [done| |done].
  destruct (e2 <=? emax - prec) eqn:E4; [|done]. apply bounded_iff. split; [by apply Hc2|by apply Z.leb_le].
Qed.

Lemma round_ratio_valid s n d : 0 < n → 0 < d → valid (round_ratio s n d) = true.
Proof.
  intros Hn Hd. unfold round_ratio, SFdiv_core_binary. rewrite !Z.add_0_r, Z.sub_0_r.
  set (e' := Z.min _ 0).
  replace (match 0 - e' with Z0 => n | Z.pos _ => Z.shiftl n (0 - e') | Z.neg _ => 0 end) with (n * 2 ^ (- e')).
  2:{ destruct (0 - e') eqn:E; [replace (- e') with 0 by lia; lia| |lia].
      rewrite Z.shiftl_mul_pow2 by lia. do 2 f_equal. lia. }
  destruct (Z.div_eucl _ d) as [q r] eqn:E.
  assert (q = n * 2 ^ (- e') / d) as -> by (unfold Z.div; by rewrite E).
  assert (Hp : 0 < 2 ^ (- e')) by (apply Z.pow_pos_nonneg; lia).
  apply round_aux_valid; [apply Z.div_pos; nia|].
  (* the quotient keeps at least the digits of the difference *)
  set (q := n * 2 ^ (- e') / d).
  destruct (Z.le_gt_cases (Zdigits2 n - e' - Zdigits2 d) 0) as [Hle|Hgt].
  - assert (0 <= Zdigits2 q); [|unfold fexp, emin in *; lia].
    assert (0 <= q) as [H0|<-]%Z.le_lteq by (apply Z.div_pos; nia); [|done]. pose proof (Zdigits2_pos q H0). lia.
  - assert (Hq : 2 ^ (Zdigits2 n - e' - Zdigits2 d - 1) <= q).
    { apply Z.div_le_lower_bound; [done|]. pose proof (lt_pow_digits d Hd).
      pose proof (Z.log2_spec n Hn) as [Hln _]. rewrite (Zdigits2_log2 n) in * by done.
      transitivity (2 ^ Zdigits2 d * 2 ^ (Z.log2 n + 1 - e' - Zdigits2 d - 1)).
      - apply Z.mul_le_mono_nonneg_r; [by apply Z.pow_nonneg|lia].
      - pose proof (Zdigits2_pos d Hd). rewrite <- Z.pow_add_r by lia.
        replace (Zdigits2 d + (Z.log2 n + 1 - e' - Zdigits2 d - 1)) with (Z.log2 n + - e') by lia.
        rewrite Z.pow_add_r by (pose proof (Z.log2_nonneg n); lia). nia. }
    assert (Hq0 : 0 < q) by (eapply Z.lt_le_trans; [apply Z.pow_pos_nonneg|exact Hq]; lia).
    assert (Zdigits2 n - e' - Zdigits2 d <= Zdigits2 q).
    { rewrite (Zdigits2_log2 q) by done.
      assert (Zdigits2 n - e' - Zdigits2 d - 1 <= Z.log2 q); [|lia]. by apply Z.log2_le_pow2. }
    unfold fexp, emin in *. lia.
Qed.

(** ** The shortest decimal parses back *)

Lemma round_ratio_sign s n d m e :
  round_ratio false n d = S754_finite false m e → round_ratio s n d = S754_finite s m e.
Proof.
  unfold round_ratio. destruct (SFdiv_core_binary _ _ _ _ _ _) as [[q e'] l]. unfold binary_round_aux.
  destruct (shr_fexp _ _ q e' l) as [r e1]. destruct (shr_fexp _ _ _ e1 _) as [r2 e2].
  destruct (shr_m r2); [done| |done]. destruct (_ <=? _); [|done]. by intros [= <- <-].
Qed.

Lemma round_decimal_sign s c k m e :
  round_decimal false c k = S754_finite false m e → round_decimal s c k = S754_finite s m e.
Proof. unfold round_decimal. destruct (c =? 0); [done|]. apply round_ratio_sign. Qed.

Lemma round_decimal_scale s c k : 0 <= k → round_decimal s (c * 10 ^ k) 0 = round_decimal s c k.
Proof.
  intros Hk. unfold round_decimal. assert (0 < 10 ^ k) by (by apply Z.pow_pos_nonneg).
  destruct (Z.eqb_spec c 0) as [->|Hc]; [done|]. destruct (Z.eqb_spec (c * 10 ^ k) 0); [nia|].
  rewrite (Z.max_l k 0), (Z.max_r (- k) 0) by lia. f_equal. change (10 ^ Z.max 0 0) with 1. lia.
Qed.

Lemma round_decimal_valid s c k : 0 <= c → valid (round_decimal s c k) = true.
Proof.
  intros Hc. unfold round_decimal. destruct (Z.eqb_spec c 0); [done|].
  apply round_ratio_valid; [apply Z.mul_pos_pos; [lia|]|]; apply Z.pow_pos_nonneg; lia.
Qed.

Lemma exact_decimal_rounds m e : bounded prec emax m e = true →
  round_decimal false (exact_decimal (Zpos m) e).1 (exact_decimal (Zpos m) e).2 = S754_finite false m e.
Proof.
  intros Hb. unfold exact_decimal. destruct (Z.leb_spec 0 e) as [He|He]; cbn [fst snd]; unfold round_decimal.
  - assert (0 < 2 ^ e) by (by apply Z.pow_pos_nonneg). destruct (Z.eqb_spec (Zpos m * 2 ^ e) 0); [lia|].
    apply round_ratio_exact; [done|done|]. rewrite (Z.max_r (- e) 0), (Z.max_l e 0) by lia.
    change (10 ^ Z.max 0 0) with 1. change (10 ^ Z.max (- 0) 0) with 1. change (2 ^ 0) with 1. lia.
  - assert (0 < 5 ^ (- e)) by (apply Z.pow_pos_nonneg; lia). destruct (Z.eqb_spec (Zpos m * 5 ^ (- e)) 0); [nia|].
    rewrite (Z.max_r e 0), (Z.max_l (- e) 0) by lia.
    apply round_ratio_exact; [apply Z.pow_pos_nonneg; lia|done|]. rewrite (Z.max_l (- e) 0), (Z.max_r e 0) by lia.
    change (10 ^ 0) with 1. change (2 ^ 0) with 1. replace 10 with (5 * 2) by lia. rewrite Z.pow_mul_l. lia.
Qed.

(** What every candidate satisfies holds of the result. *)
Lemma shortest_from_spec x digits c k drop (P : Z * Z → Prop) :
  P (c, k) → round_decimal false c k = x →
  (∀ j q, (1 <= j <= drop)%nat → q ∈ neighbours c (Z.of_nat j) → P (carry (digits - Z.of_nat j) q (k + Z.of_nat j))) →
  round_decimal false (shortest_from x digits c k drop).1 (shortest_from x digits c k drop).2 = x ∧
  P (shortest_from x digits c k drop).
Proof.
  intros H0 Hx. induction drop as [|drop IH]; intros Hc; [done|]. cbn [shortest_from].
  destruct (List.find _ _) as [d|] eqn:E.
  - apply find_some in E as [Hin Hp]. unfold parses_to in Hp. apply bool_decide_eq_true in Hp. split; [done|].
    apply list_elem_of_In, list_elem_of_fmap in Hin as (q&->&Hq). apply Hc; [lia|done].
  - apply IH. intros j q Hj. apply Hc. lia.
Qed.

Lemma neighbours_range c j q : 0 <= c → 0 <= j → q ∈ neighbours c j → 0 <= q <= c + 1.
Proof.
  intros Hc Hj. unfold neighbours. assert (Hp : 0 < 10 ^ j) by (by apply Z.pow_pos_nonneg).
  assert (0 <= c / 10 ^ j <= c) by (split; [by apply Z.div_pos|apply Z.div_le_upper_bound; nia]).
  repeat case_match; rewrite ?elem_of_cons, ?elem_of_nil; intros; destruct_or?; try done; lia.
Qed.

(** Bounds of the exact decimal: crude, enough for the exponent reader. *)
Lemma exact_decimal_range m e : bounded prec emax m e = true →
  0 < (exact_decimal (Zpos m) e).1 < 10 ^ 900 ∧ -1074 <= (exact_decimal (Zpos m) e).2 <= 0.
Proof.
  intros Hb. pose proof (valid_mantissa false m e Hb) as Hm. apply bounded_iff in Hb as [Hf He].
  assert (He' : -1074 <= e) by (rewrite <- Hf; unfold fexp, emin; lia). clear Hf.
  unfold exact_decimal. destruct (Z.leb_spec 0 e); cbn [fst snd]; (split; [|lia]).
  - assert (0 < 2 ^ e <= 2 ^ 971) by (split; [by apply Z.pow_pos_nonneg|apply Z.pow_le_mono_r; lia]).
    split; [lia|]. apply Z.lt_le_trans with (2 ^ 53 * 2 ^ 971); [nia|by vm_compute].
  - assert (0 < 5 ^ (- e) <= 5 ^ 1074) by (split; [apply Z.pow_pos_nonneg; lia|apply Z.pow_le_mono_r; lia]).
    split; [lia|]. apply Z.lt_le_trans with (2 ^ 53 * 5 ^ 1074); [nia|by vm_compute].
Qed.

Lemma shortest_spec m e : bounded prec emax m e = true →
  round_decimal false (shortest m e).1 (shortest m e).2 = S754_finite false m e ∧
  0 < (shortest m e).1 < 10 ^ 901 ∧ -1074 <= (shortest m e).2 <= 1800.
Proof.
  intros Hb. unfold shortest. pose proof (exact_decimal_range m e Hb) as [Hc Hk].
  pose proof (exact_decimal_rounds m e Hb) as Hr. destruct (exact_decimal (Zpos m) e) as [c k]. cbn [fst snd] in *.
  assert (Hl : 1 <= str_len (dec c) <= 900).
  { split; [|by apply (dec_length 900); [lia|rewrite ?Nat2Z.inj_succ; lia]].
    pose proof (pg_length_dec c ltac:(lia)). pose proof (pg_length_range (dec c)). lia. }
  pose proof (shortest_from_spec (S754_finite false m e) (str_len (dec c)) c k (Z.to_nat (str_len (dec c) - 1))
    (λ d, 0 <= d.1 < 10 ^ 901 ∧ -1074 <= d.2 <= 1800)) as Hs.
  destruct (shortest_from _ _ c k _) as [c' k']. cbn [fst snd] in *.
  assert (H901 : 10 ^ 900 + 1 < 10 ^ 901) by by vm_compute. revert Hc Hs H901. generalize (10 ^ 900), (10 ^ 901).
  intros b1 b2 Hc Hs H901. destruct Hs as [Hr' Hd]; [lia|done| |].
  - intros j q Hj Hq. apply neighbours_range in Hq; [|lia..]. unfold carry. destruct (_ =? _); cbn [fst snd]; lia.
  - split_and!; try lia; [done|]. destruct (decide (c' = 0)) as [->|]; [done|lia].
Qed.

(** ** Digit texts *)

Definition zeros (n : nat) : string := String.string_of_list_ascii (replicate n "0"%char).

Definition digit_head (s : string) : bool := match s with String c _ => is_digit c | EmptyString => false end.

Lemma str_app_is_nil (a b : string) : a +:+ b = "" → a = "" ∧ b = "".
Proof. by destruct a. Qed.

Lemma take_digits_app d r : all_chars is_digit d = true → digit_head r = false → take_digits (d +:+ r) = (d, r).
Proof.
  intros Hd Hr. induction d as [|c d IH]; simpl in Hd.
  - rewrite str_app_nil_l. destruct r as [|c r]; [done|]. simpl in *. by rewrite Hr.
  - apply andb_true_iff in Hd as [Hc Hd]. rewrite str_app_cons. cbn [take_digits]. by rewrite Hc, IH.
Qed.

Lemma digits_value_step d : all_chars is_digit d = true →
  ∃ v, 0 <= v ∧ ∀ a s, digits_value a (d +:+ s) = digits_value (a * 10 ^ str_len d + v) s.
Proof.
  induction d as [|c d IH]; intros Hd; simpl in Hd.
  - exists 0. split; [done|]. intros a s. rewrite str_app_nil_l. f_equal. unfold str_len. simpl. lia.
  - apply andb_true_iff in Hd as [Hc Hd]. destruct (IH Hd) as (v&Hv&Hs).
    assert (Hr : 0 <= code c - 48) by (unfold is_digit, in_class in Hc; bprop; lia).
    assert (0 <= 10 ^ str_len d) by (apply Z.pow_nonneg; lia).
    exists ((code c - 48) * 10 ^ str_len d + v). split; [nia|]. intros a s.
    rewrite str_app_cons. cbn [digits_value]. rewrite Hc, Hs. f_equal.
    unfold str_len. cbn [String.length]. rewrite Nat2Z.inj_succ, Z.pow_succ_r by lia. lia.
Qed.

Lemma digits_value_app a d s : all_chars is_digit d = true →
  digits_value a (d +:+ s) = digits_value (a * 10 ^ str_len d + digits_of d) s.
Proof.
  intros (v&Hv&Hs)%digits_value_step. assert (digits_of d = v) as ->; [|by rewrite Hs].
  unfold digits_of. pose proof (Hs 0 "") as Hx. rewrite str_app_nil_r in Hx. rewrite Hx. simpl. lia.
Qed.

Lemma digits_of_app d s : all_chars is_digit d = true → all_chars is_digit s = true →
  digits_of (d +:+ s) = digits_of d * 10 ^ str_len s + digits_of s.
Proof.
  intros Hd Hs. unfold digits_of at 1. rewrite digits_value_app by done.
  pose proof (digits_value_app (0 * 10 ^ str_len d + digits_of d) s "" Hs) as Hx. rewrite str_app_nil_r in Hx.
  rewrite Hx. simpl. lia.
Qed.

Lemma zeros_facts n : all_chars is_digit (zeros n) = true ∧ digits_of (zeros n) = 0 ∧ str_len (zeros n) = Z.of_nat n.
Proof.
  assert (Hz : ∀ n, all_chars is_digit (zeros n) = true ∧ str_len (zeros n) = Z.of_nat n).
  { clear. induction n as [|n [IH1 IH2]]; [done|]. unfold zeros, str_len in *.
    cbn [replicate String.string_of_list_ascii all_chars String.length]. split; [by rewrite IH1|lia]. }
  split; [apply Hz|]. split; [|apply Hz]. induction n as [|n IH]; [done|].
  change (zeros (S n)) with ("0" +:+ zeros n). rewrite digits_of_app by (done || apply Hz). by rewrite IH.
Qed.

Lemma digits_of_nonneg d : 0 <= digits_of d.
Proof.
  unfold digits_of. assert (Hg : ∀ a, 0 <= a → ∀ v, digits_value a d = Some v → 0 <= v).
  { induction d as [|c d IH]; simpl; intros a Ha v; [by intros [= <-]|].
    destruct (is_digit c) eqn:Hc; [|done]. apply IH. unfold is_digit, in_class in Hc. bprop. lia. }
  destruct (digits_value 0 d) as [v|] eqn:E; [|done]. simpl. by eapply (Hg 0).
Qed.

(** *** The decimal text of a positive integer *)

Lemma pretty_char d : (d < 10)%N →
  is_digit (pretty_N_char d) = true ∧ code (pretty_N_char d) = 48 + Z.of_N d.
Proof.
  intros Hd. assert (d ∈ [0; 1; 2; 3; 4; 5; 6; 7; 8; 9]%N) as Hin.
  { rewrite !elem_of_cons. lia. }
  repeat (apply elem_of_cons in Hin as [->|Hin]; [done|]). by apply elem_of_nil in Hin.
Qed.

Lemma pretty_N_go_value x : ∀ s, digits_value 0 (pretty_N_go x s) = digits_value (Z.of_N x) s.
Proof.
  induction (N.lt_wf_0 x) as [x _ IH]. intros s.
  destruct (decide (x = 0%N)) as [->|Hx]; [by rewrite pretty_N_go_0|].
  rewrite pretty_N_go_step by lia. rewrite IH by (apply N.div_lt; lia). cbn [digits_value].
  destruct (pretty_char (x mod 10)) as [Hd Hc]; [by apply N.mod_lt|]. rewrite Hd, Hc. f_equal.
  rewrite N2Z.inj_div, N2Z.inj_mod. pose proof (Z.div_mod (Z.of_N x) 10 ltac:(lia)). simpl Z.of_N in *. lia.
Qed.

Lemma pretty_N_go_head x : (0 < x)%N → ∀ s, ∃ d s', (0 < d < 10)%N ∧ pretty_N_go x s = String (pretty_N_char d) s' ∧
  (all_chars is_digit s = true → all_chars is_digit s' = true).
Proof.
  induction (N.lt_wf_0 x) as [x _ IH]. intros Hx s. rewrite pretty_N_go_step by lia.
  destruct (pretty_char (x mod 10)) as [Hd _]; [by apply N.mod_lt|].
  destruct (N.lt_ge_cases x 10) as [Hlt|Hge].
  - rewrite N.div_small, pretty_N_go_0, N.mod_small by done. exists x, s. split_and!; [lia|lia|done|done].
  - destruct (IH (x / 10)%N) with (s := String (pretty_N_char (x mod 10)) s) as (d&s'&Hd'&He&Hs).
    + apply N.div_lt; lia.
    + by apply N.div_str_pos.
    + exists d, s'. split; [done|]. split; [done|]. intros Hs'. apply Hs. simpl. by rewrite Hd.
Qed.

(** A leading digit that is not zero, digits only, and the value. *)
Lemma dec_positive c : 0 < c → ∃ h t, dec c = String h t ∧ is_digit h = true ∧ h ≠ "0"%char ∧
  all_chars is_digit t = true ∧ digits_of (dec c) = c.
Proof.
  intros Hc. destruct c as [|p|p]; [done| |done]. change (dec (Zpos p)) with (pretty_N_go (Npos p) "").
  destruct (pretty_N_go_head (Npos p) ltac:(lia) "") as (d&t&Hd&He&Ht). exists (pretty_N_char d), t.
  destruct (pretty_char d) as [Hdig Hcode]; [lia|]. split_and!; [done|done| |by apply Ht|].
  - intros E. rewrite E in Hcode. change (code "0"%char) with 48 in Hcode. lia.
  - unfold digits_of. by rewrite pretty_N_go_value.
Qed.

Lemma dec_value c : 0 <= c → all_chars is_digit (dec c) = true ∧ digits_of (dec c) = c ∧ 1 <= str_len (dec c).
Proof.
  intros Hc. destruct (decide (c = 0)) as [->|]; [done|].
  destruct (dec_positive c) as (h&t&He&Hh&_&Ht&Hv); [lia|]. split_and!; [|done|].
  - rewrite He. simpl. by rewrite Hh, Ht.
  - rewrite He. unfold str_len. simpl. lia.
Qed.
