(* ===== verification/FloatBounds.v ===== *)
(** * How far rounding moves a number

    Exact values of non-negative machine numbers, as multiples of [2 ^ -K], and
    what subtraction, division and addition of them return: never more than a
    machine number the exact value does not exceed, and the exact value up to
    one unit in the last place. *)

From S2P Require Import Prelude GoStrings GoTime Float64 GoFormat GoNumber.

Section bounds.
Context (K : Z) (HK : 3000 <= K).

(** Zero or positive, and not infinite. *)
Definition nonneg (x : f64) : bool :=
  match x with S754_zero _ => true | S754_finite s _ _ => negb s | _ => false end.

Definition units (x : f64) : Z := match x with S754_finite _ m e => Zpos m * 2 ^ (e + K) | _ => 0 end.

Lemma pow_split a b : 0 <= a → 0 <= b → 2 ^ (a + b) = 2 ^ a * 2 ^ b.
Proof. intros. by rewrite Z.pow_add_r. Qed.

Lemma pow_pos a : 0 <= a → 0 < 2 ^ a.
Proof. intros. by apply Z.pow_pos_nonneg. Qed.

Lemma units_nonneg x : 0 <= units x.
Proof. destruct x as [s|s| |s m e]; cbn [units]; try lia. Qed.

Lemma bounded_range m e : bounded prec emax m e = true → -1074 <= e <= 971 ∧ Zpos m < 2 ^ 53 ∧ (-1074 < e → 2 ^ 52 <= Zpos m).
Proof.
  intros [Hc He]%bounded_iff. unfold fexp, emin in Hc. cbn [Zdigits2] in Hc. destruct (digits2_pos_bound m) as [H1 H2].
  split; [lia|]. split.
  - eapply Z.lt_le_trans; [exact H1|]. apply Z.pow_le_mono_r; lia.
  - intros Hlt. replace 52 with (Zpos (digits2_pos m) - 1) by lia. exact H2.
Qed.

(** Larger exponents mean larger values. *)
Lemma units_exponent m1 e1 m2 e2 : bounded prec emax m1 e1 = true → bounded prec emax m2 e2 = true → e1 < e2 →
  Zpos m1 * 2 ^ (e1 + K) < Zpos m2 * 2 ^ (e2 + K).
Proof.
  intros (B1&M1&_)%bounded_range (B2&_&M2)%bounded_range He. specialize (M2 ltac:(lia)).
  assert (Hp : 0 < 2 ^ (e1 + K)) by (apply pow_pos; lia).
  eapply Z.lt_le_trans; [apply Z.mul_lt_mono_pos_r; [exact Hp|exact M1]|].
  replace (2 ^ 53) with (2 ^ 52 * 2 ^ 1) by done. rewrite <- Z.mul_assoc, <- pow_split by lia.
  apply Z.mul_le_mono_nonneg; [by apply Z.pow_nonneg|done|by apply Z.pow_nonneg|]. apply Z.pow_le_mono_r; lia.
Qed.

(** The comparison of non-negative numbers is that of their exact values. *)
Lemma fle_units x y : nonneg x = true → nonneg y = true → valid x = true → valid y = true →
  fle x y = true ↔ units x <= units y.
Proof.
  destruct x as [s|s| |[] m e]; try done; destruct y as [s'|s'| |[] m' e']; try done; intros _ _ Vx Vy; simpl units.
  - split; intros; [lia|done].
  - split; [done|]. intros Hle. pose proof (bounded_range _ _ Vx) as (?&_).
    assert (0 < Zpos m * 2 ^ (e + K)) by (apply Z.mul_pos_pos; [lia|apply pow_pos; lia]). lia.
  - change (valid (S754_finite false m e)) with (bounded prec emax m e) in Vx.
    change (valid (S754_finite false m' e')) with (bounded prec emax m' e') in Vy.
    unfold fle, SFleb. cbn [SFcompare]. destruct (Z.compare_spec e e') as [->|He|He].
    + rewrite pos_compare_cont_eq. pose proof (bounded_range _ _ Vy) as (?&_).
      assert (0 < 2 ^ (e' + K)) by (apply pow_pos; lia).
      destruct (Pos.compare_spec m m') as [->|Hm|Hm]; (split; [intros Hx|intros Hx]); try done; try lia; nia.
    + pose proof (units_exponent _ _ _ _ Vx Vy He). split; [lia|done].
    + pose proof (units_exponent _ _ _ _ Vy Vx He). split; [done|lia].
Qed.

Lemma shiftr_units m j e : 0 <= m → 0 <= j → 0 <= e + K → Z.shiftr m j * 2 ^ (e + j + K) <= m * 2 ^ (e + K).
Proof.
  intros Hm Hj He. rewrite Z.shiftr_div_pow2 by done. replace (e + j + K) with (j + (e + K)) by lia.
  rewrite pow_split by done. rewrite Z.mul_assoc. apply Z.mul_le_mono_nonneg_r; [by apply Z.pow_nonneg|].
  pose proof (Z.mul_div_le m (2 ^ j) (pow_pos j Hj)). lia.
Qed.

(** What [binary_round_aux] does to a non-negative value. *)
Lemma round_steps m e l : 0 <= m → e <= fexp prec emax (Zdigits2 m + e) → - K <= e →
  ∃ m2 m3 e3, let e1 := fexp prec emax (Zdigits2 m + e) in
    binary_round_aux prec emax false m e l =
      match m3 with Z0 => S754_zero false | Zpos p => if e3 <=? 971 then S754_finite false p e3 else S754_infinity false | _ => S754_nan end ∧
    0 <= m3 ∧ - K <= e3 ∧ m3 * 2 ^ (e3 + K) <= m2 * 2 ^ (e1 + K) ∧ (0 < m3 → fexp prec emax (Zdigits2 m3 + e3) = e3) ∧
    ∃ m1, 0 <= m1 ∧ m1 * 2 ^ (e1 + K) <= m * 2 ^ (e + K) ∧ m1 <= m2 <= m1 + 1.
Proof.
  intros Hm He HeK. unfold binary_round_aux.
  destruct (shr_fexp _ _ m e l) as [r e1] eqn:E1. apply shr_fexp_canonical in E1 as (Hr&He1&Hc1); [|done..].
  assert (Hr0 : 0 <= shr_m r) by (rewrite Hr; by apply Z.shiftr_nonneg).
  set (m2 := round_nearest_even _ _).
  assert (Hm2 : shr_m r <= m2 <= shr_m r + 1).
  { unfold m2, round_nearest_even. destruct (loc_of_shr_record r) as [|[]]; try lia. destruct (IntDef.Z.even _); lia. }
  assert (He2 : e1 <= fexp prec emax (Zdigits2 m2 + e1)).
  { destruct (decide (shr_m r = 0)) as [Hz|Hz].
    - rewrite Hz in Hr. symmetry in Hr. apply Z.shiftr_eq_0_iff in Hr as [->|[Hm0 Hlog]].
      + change (Zdigits2 0) with 0 in *. unfold fexp in *. lia.
      + pose proof (Zdigits2_log2 m Hm0). unfold fexp in *. lia.
    - rewrite <- (Hc1 ltac:(lia)) at 1. unfold fexp.
      assert (Zdigits2 (shr_m r) <= Zdigits2 m2); [|lia].
      rewrite !Zdigits2_log2 by lia. pose proof (Z.log2_le_mono (shr_m r) m2). lia. }
  destruct (shr_fexp _ _ m2 e1 loc_Exact) as [r2 e2] eqn:E2. apply shr_fexp_canonical in E2 as (Hr2&He2'&Hc2); [|lia|done].
  exists m2, (shr_m r2), e2. rewrite <- He1. split_and!.
  - done.
  - rewrite Hr2. apply Z.shiftr_nonneg. lia.
  - lia.
  - rewrite Hr2. replace (e2 + K) with (e1 + (e2 - e1) + K) by lia. apply shiftr_units; lia.
  - exact Hc2.
  - exists (shr_m r). split_and!; [done| |lia..]. rewrite Hr. replace (e1 + K) with (e + (e1 - e) + K) by lia. apply shiftr_units; lia.
Qed.
(** The rounded mantissa does not pass a machine number the value is below. *)
Lemma step_below m e m1 m2 my ey : 0 <= m → - K <= e → e <= fexp prec emax (Zdigits2 m + e) → bounded prec emax my ey = true →
  m * 2 ^ (e + K) < Zpos my * 2 ^ (ey + K) →
  m1 * 2 ^ (fexp prec emax (Zdigits2 m + e) + K) <= m * 2 ^ (e + K) → m2 <= m1 + 1 →
  m2 * 2 ^ (fexp prec emax (Zdigits2 m + e) + K) <= Zpos my * 2 ^ (ey + K).
Proof.
  intros Hm HeK He Hb Hlt Hm1 Hm2. set (e1 := fexp _ _ _) in *. pose proof (bounded_range _ _ Hb) as (By&My&_).
  destruct (Z.le_gt_cases e1 ey) as [Hey|Hey].
  - assert (Hp : 0 < 2 ^ (e1 + K)) by (apply pow_pos; lia).
    assert (Hy : Zpos my * 2 ^ (ey + K) = Zpos my * 2 ^ (ey - e1) * 2 ^ (e1 + K)).
    { rewrite <- Z.mul_assoc, <- pow_split by lia. do 2 f_equal. lia. }
    rewrite Hy in Hlt |- *. apply Z.mul_le_mono_nonneg_r; [lia|].
    assert (m1 < Zpos my * 2 ^ (ey - e1)); [|lia]. apply (Z.mul_lt_mono_pos_r _ _ _ Hp). lia.
  - exfalso. assert (He1 : e1 = Zdigits2 m + e - 53) by (unfold e1, fexp, emin in *; lia).
    assert (Hm0 : 0 < m).
    { destruct (decide (m = 0)) as [->|]; [|lia]. change (Zdigits2 0) with 0 in *. lia. }
    assert (Hd : 2 ^ (Zdigits2 m - 1) <= m).
    { rewrite Zdigits2_log2 by done. replace (Z.log2 m + 1 - 1) with (Z.log2 m) by lia. apply Z.log2_spec. lia. }
    pose proof (Zdigits2_pos m Hm0).
    assert (Hl : 2 ^ (Zdigits2 m - 1 + (e + K)) <= m * 2 ^ (e + K)).
    { rewrite pow_split by lia. apply Z.mul_le_mono_nonneg_r; [by apply Z.pow_nonneg|done]. }
    assert (Hu : Zpos my * 2 ^ (ey + K) <= 2 ^ (53 + (ey + K))).
    { rewrite (pow_split 53) by lia. apply Z.mul_le_mono_nonneg_r; [by apply Z.pow_nonneg|lia]. }
    assert (2 ^ (53 + (ey + K)) <= 2 ^ (Zdigits2 m - 1 + (e + K))) by (apply Z.pow_le_mono_r; lia). lia.
Qed.

(** The exact value is below a machine number, or is one that needs no rounding. *)
Definition below (m e : Z) (l : location) (y : f64) : Prop :=
  valid y = true ∧ nonneg y = true ∧ (m * 2 ^ (e + K) < units y ∨ (l = loc_Exact ∧ 0 < m ∧ m * 2 ^ (e + K) = units y)).

Lemma exact_mantissa m e my ey : 0 < m → - K <= e → e <= fexp prec emax (Zdigits2 m + e) → bounded prec emax my ey = true →
  m * 2 ^ (e + K) = Zpos my * 2 ^ (ey + K) → e <= ey ∧ m = Zpos my * 2 ^ (ey - e).
Proof.
  intros Hm HeK He Hb Heq. pose proof (bounded_range _ _ Hb) as (By&_). pose proof Hb as [Hc _]%bounded_iff.
  assert (Hd : Zdigits2 m + (e + K) = Zdigits2 (Zpos my) + (ey + K)).
  { rewrite <- !Zdigits2_shift by lia. by rewrite Heq. }
  assert (Hle : e <= ey) by (rewrite <- Hc; replace (Zdigits2 (Zpos my) + ey) with (Zdigits2 m + e) by lia; done).
  split; [done|]. apply (Z.mul_cancel_r _ _ (2 ^ (e + K))); [pose proof (pow_pos (e + K)); lia|].
  rewrite Heq, <- Z.mul_assoc, <- pow_split by lia. do 2 f_equal. lia.
Qed.

(** Rounding a value below a machine number. *)
Lemma round_below m e l y : 0 <= m → e <= fexp prec emax (Zdigits2 m + e) → - K <= e → below m e l y →
  let r := binary_round_aux prec emax false m e l in
  nonneg r = true ∧ valid r = true ∧ units r <= units y ∧
  units r <= m * 2 ^ (e + K) + 2 ^ (fexp prec emax (Zdigits2 m + e) + K).
Proof.
  intros Hm He HeK (Vy&Ny&Hb) r. assert (He1 : - K <= fexp prec emax (Zdigits2 m + e)) by lia.
  assert (Hp1 : 0 <= 2 ^ (fexp prec emax (Zdigits2 m + e) + K)) by (by apply Z.pow_nonneg).
  pose proof (round_aux_valid false m e l Hm He) as Hv. fold r in Hv.
  destruct y as [s|s| |[] my ey]; try done.
  { cbn [units] in Hb. pose proof (Z.pow_nonneg 2 (e + K)). nia. }
  change (valid (S754_finite false my ey)) with (bounded prec emax my ey) in Vy. cbn [units] in *.
  destruct Hb as [Hlt|(->&Hm0&Heq)].
  - destruct (round_steps m e l Hm He HeK) as (m2&m3&e3&Hr&Hm3&He3&H32&Hc3&m1&Hm1&H1&H12). fold r in Hr.
    pose proof (step_below m e m1 m2 my ey Hm HeK He Vy Hlt H1 ltac:(lia)) as H2. pose proof (bounded_range _ _ Vy) as (By&My&_).
    assert (Hu : m2 * 2 ^ (fexp prec emax (Zdigits2 m + e) + K) <= m * 2 ^ (e + K) + 2 ^ (fexp prec emax (Zdigits2 m + e) + K)) by nia.
    destruct m3 as [|p|p]; [|destruct (Z.leb_spec e3 971) as [Hle|Hgt]|lia]; rewrite Hr in *.
    + cbn [units nonneg]. split_and!; try done; lia.
    + cbn [units nonneg]. split_and!; try done; lia.
    + exfalso. specialize (Hc3 ltac:(lia)). unfold fexp, emin in Hc3. cbn [Zdigits2] in Hc3. destruct (digits2_pos_bound p) as [_ Hd].
      assert (Hd' : 2 ^ 52 <= Zpos p) by (etrans; [|exact Hd]; apply Z.pow_le_mono_r; lia).
      assert (2 ^ (52 + (e3 + K)) <= Zpos p * 2 ^ (e3 + K)).
      { rewrite pow_split by lia. apply Z.mul_le_mono_nonneg_r; [by apply Z.pow_nonneg|done]. }
      assert (Zpos my * 2 ^ (ey + K) < 2 ^ (53 + (ey + K))).
      { rewrite (pow_split 53) by lia. apply Z.mul_lt_mono_pos_r; [apply pow_pos; lia|done]. }
      assert (2 ^ (53 + (ey + K)) <= 2 ^ (52 + (e3 + K))) by (apply Z.pow_le_mono_r; lia). lia.
  - destruct (exact_mantissa m e my ey Hm0 HeK He Vy Heq) as [Hle Hmm].
    assert (Hr : r = S754_finite false my ey) by (unfold r; rewrite Hmm; by apply round_aux_exact).
    rewrite Hr in *. cbn [units nonneg]. split_and!; try done; lia.
Qed.

(** ** Sums and differences *)

Lemma shl_align_spec m e e' : shl_align m e e' = (Z.to_pos (Zpos m * 2 ^ (e - Z.min e e')), Z.min e e').
Proof.
  unfold shl_align. destruct (e' - e) as [|d|d] eqn:E.
  1,2: rewrite Z.min_l, Z.sub_diag, Z.mul_1_r by lia; done.
  rewrite Z.min_r by lia. f_equal. replace (e - e') with (Zpos d) by lia. clear E.
  assert (Hi : ∀ n, Zpos (Pos.iter xO m n) = Zpos m * 2 ^ Zpos n).
  { intros n. induction n as [|n IH] using Pos.peano_ind; [simpl; lia|].
    rewrite Pos.iter_succ, Pos2Z.inj_succ, Z.pow_succ_r by lia. rewrite (Pos2Z.inj_xO (Pos.iter xO m n)), IH. lia. }
  apply Pos2Z.inj. rewrite Hi, Z2Pos.id; [done|]. apply Z.mul_pos_pos; [lia|]. by apply pow_pos.
Qed.

Lemma aligned m e e' : e' <= e → Zpos (shl_align m e e').1 = Zpos m * 2 ^ (e - e').
Proof.
  intros He. rewrite shl_align_spec. cbn [fst]. rewrite Z.min_r by done. apply Z2Pos.id.
  apply Z.mul_pos_pos; [lia|]. apply pow_pos. lia.
Qed.

(** Rounding an exact positive value [d * 2 ^ ez]. *)
Lemma normalize_below d ez y : 0 < d → -1074 <= ez <= 971 → below d ez loc_Exact y →
  let r := binary_normalize prec emax d ez false in
  nonneg r = true ∧ valid r = true ∧ units r <= units y ∧
  2 ^ 52 * units r <= (2 ^ 52 + 1) * (d * 2 ^ (ez + K)) ∧
  ∀ k, d * 2 ^ (ez + K) < 2 ^ (k + K) → -1000 <= k → units r <= d * 2 ^ (ez + K) + 2 ^ (k - 53 + K).
Proof.
  intros Hd Hez Hb r. destruct d as [|d|d]; try lia. unfold r, binary_normalize, binary_round. clear r.
  rewrite shl_align_spec. set (f := fexp _ _ _). set (ez' := Z.min ez f).
  assert (Hf : -1074 <= f) by (unfold f, fexp, emin; lia).
  assert (Hpos : 0 < Zpos d * 2 ^ (ez - ez')) by (apply Z.mul_pos_pos; [lia|apply pow_pos; lia]).
  rewrite Z2Pos.id by done. set (mz := Zpos d * 2 ^ (ez - ez')) in *.
  assert (Hval : mz * 2 ^ (ez' + K) = Zpos d * 2 ^ (ez + K)).
  { unfold mz. rewrite <- Z.mul_assoc, <- pow_split by lia. do 2 f_equal. lia. }
  assert (Hdig : Zdigits2 mz + ez' = Zdigits2 (Zpos d) + ez) by (unfold mz; rewrite Zdigits2_shift by lia; lia).
  assert (Hfe : fexp prec emax (Zdigits2 mz + ez') = f) by (rewrite Hdig; done).
  assert (Hb' : below mz ez' loc_Exact y).
  { destruct Hb as (?&?&Hb). split_and!; [done|done|]. rewrite Hval. destruct Hb as [?|(?&?&?)]; [by left|right; done]. }
  destruct (round_below mz ez' loc_Exact y ltac:(lia) ltac:(lia) ltac:(lia) Hb') as (Hn&Hv&Hy&Hu).
  set (r := binary_round_aux _ _ _ _ _ _) in *. rewrite Hval, Hfe in Hu.
  assert (Hdl : 2 ^ (Zdigits2 (Zpos d) - 1) <= Zpos d) by (destruct (digits2_pos_bound d); done).
  assert (Hu2 : units r <= Zpos d * 2 ^ (ez + K) ∨ f = Zdigits2 (Zpos d) + ez - 53).
  { destruct (Z.le_gt_cases f ez) as [Hle|Hgt]; [left|right; unfold f, fexp, emin in *; lia].
    assert (ez' = f) as E by lia. destruct mz as [|p|p] eqn:Em; try lia.
    assert (Hbd : bounded prec emax p ez' = true).
    { apply bounded_iff. split; [rewrite E in *; exact Hfe|lia]. }
    pose proof (round_aux_exact false p ez' ez' Hbd ltac:(lia)) as Hx. rewrite Z.sub_diag, Z.mul_1_r in Hx.
    unfold r. rewrite Hx. cbn [units]. lia. }
  split_and!; [done..| |].
  - destruct Hu2 as [Hu2|Hf2]; [pose proof (Z.pow_nonneg 2 (ez + K)); nia|].
    assert (2 ^ 52 * 2 ^ (f + K) <= Zpos d * 2 ^ (ez + K)); [|lia].
    rewrite <- pow_split by lia. replace (52 + (f + K)) with (Zdigits2 (Zpos d) - 1 + (ez + K)) by lia.
    pose proof (Zdigits2_pos (Zpos d) ltac:(lia)). rewrite (pow_split (Zdigits2 _ - 1)) by lia.
    apply Z.mul_le_mono_nonneg_r; [by apply Z.pow_nonneg|done].
  - intros k Hk Hk0. assert (0 <= 2 ^ (k - 53 + K)) by (by apply Z.pow_nonneg). destruct Hu2 as [Hu2|Hf2]; [lia|].
    assert (2 ^ (f + K) <= 2 ^ (k - 53 + K)); [|lia]. apply Z.pow_le_mono_r; [lia|].
    assert (Zdigits2 (Zpos d) + ez <= k); [|lia]. pose proof (Zdigits2_pos (Zpos d) ltac:(lia)).
    assert (Hlt : 2 ^ (Zdigits2 (Zpos d) - 1 + (ez + K)) < 2 ^ (k + K)).
    { eapply Z.le_lt_trans; [|exact Hk]. rewrite (pow_split (Zdigits2 _ - 1)) by lia.
      apply Z.mul_le_mono_nonneg_r; [by apply Z.pow_nonneg|done]. }
    apply Z.pow_lt_mono_r_iff in Hlt; lia.
Qed.
Lemma units_zero x : nonneg x = true → valid x = true → units x <= 0 → is_zero x = true.
Proof.
  destruct x as [s|s| |[] m e]; try done. intros _ Vx Hu. pose proof (bounded_range _ _ Vx) as (?&_).
  pose proof (pow_pos (e + K)). cbn [units] in Hu. nia.
Qed.

(** The units of two numbers at their common exponent. *)
Lemma common_units m e e' : -1074 <= e' <= e →
  Zpos m * 2 ^ (e + K) = Zpos (shl_align m e e').1 * 2 ^ (e' + K).
Proof. intros He. rewrite aligned by lia. rewrite <- Z.mul_assoc, <- pow_split by lia. do 2 f_equal. lia. Qed.

Lemma fsub_units x y : nonneg x = true → nonneg y = true → valid x = true → valid y = true → units y <= units x →
  nonneg (fsub x y) = true ∧ valid (fsub x y) = true ∧ units (fsub x y) <= units x ∧
  2 ^ 52 * units (fsub x y) <= (2 ^ 52 + 1) * (units x - units y).
Proof.
  intros Nx Ny Vx Vy Hle. destruct x as [s|s| |[] m e]; try done.
  - apply units_zero in Hle; [|done..]. destruct y as [s'|s'| |]; try done. by destruct s, s'.
  - destruct y as [s'|s'| |[] m' e']; try done.
    { change (fsub _ _) with (S754_finite false m e). split_and!; try done. cbn [units].
      pose proof (units_nonneg (S754_finite false m e)) as Hu. cbn [units] in Hu. lia. }
    change (valid (S754_finite false m e)) with (bounded prec emax m e) in Vx.
    change (valid (S754_finite false m' e')) with (bounded prec emax m' e') in Vy.
    pose proof (bounded_range _ _ Vx) as (Bx&_). pose proof (bounded_range _ _ Vy) as (By&_).
    unfold fsub, SFsub. cbn [cond_Zopp]. set (ez := Z.min e e'). cbn [units] in Hle |- *.
    rewrite (common_units m e ez), (common_units m' e' ez) in * by lia.
    set (a := (shl_align m e ez).1) in *. set (b := (shl_align m' e' ez).1) in *.
    assert (Hp : 0 < 2 ^ (ez + K)) by (apply pow_pos; lia).
    assert (Hab : Zpos b <= Zpos a) by nia.
    destruct (decide (Zpos a - Zpos b = 0)) as [Hz|Hz].
    + rewrite Hz. split_and!; try done; cbn [units binary_normalize]; nia.
    + assert (Hbl : below (Zpos a - Zpos b) ez loc_Exact (S754_finite false m e)).
      { split_and!; [done|done|]. left. cbn [units]. rewrite (common_units m e ez) by lia. fold a. nia. }
      destruct (normalize_below (Zpos a - Zpos b) ez _ ltac:(lia) ltac:(lia) Hbl) as (?&?&Hu&Hv&_).
      cbn [units] in Hu. rewrite (common_units m e ez) in Hu by lia. fold a in Hu. split_and!; [done..|].
      etrans; [exact Hv|]. lia.
Qed.

Lemma fadd_units x y : nonneg x = true → nonneg y = true → valid x = true → valid y = true →
  units x <= 2 ^ K → units y <= 2 ^ K →
  nonneg (fadd x y) = true ∧ valid (fadd x y) = true ∧ units (fadd x y) <= units x + units y + 2 ^ (K - 51).
Proof.
  intros Nx Ny Vx Vy Hx Hy. assert (Hp : 0 <= 2 ^ (K - 51)) by (by apply Z.pow_nonneg).
  destruct x as [s|s| |[] m e]; try done; destruct y as [s'|s'| |[] m' e']; try done.
  { assert (fadd (S754_zero s) (S754_zero s') = S754_zero false ∨ fadd (S754_zero s) (S754_zero s') = S754_zero true) as [->| ->]
      by (destruct s, s'; auto); split_and!; try done; cbn [units]; lia. }
  { change (fadd _ _) with (S754_finite false m' e'). split_and!; try done. cbn [units]. lia. }
  { change (fadd _ _) with (S754_finite false m e). split_and!; try done. cbn [units]. lia. }
  change (valid (S754_finite false m e)) with (bounded prec emax m e) in Vx.
  change (valid (S754_finite false m' e')) with (bounded prec emax m' e') in Vy.
  pose proof (bounded_range _ _ Vx) as (Bx&_). pose proof (bounded_range _ _ Vy) as (By&_).
  unfold fadd, SFadd. cbn [cond_Zopp]. set (ez := Z.min e e'). cbn [units] in Hx, Hy |- *.
  rewrite (common_units m e ez), (common_units m' e' ez) in * by lia.
  set (a := (shl_align m e ez).1) in *. set (b := (shl_align m' e' ez).1) in *.
  assert (Hk : (Zpos a + Zpos b) * 2 ^ (ez + K) < 2 ^ (2 + K)).
  { rewrite (pow_split 2) by lia. pose proof (pow_pos K). lia. }
  assert (Hbl : below (Zpos a + Zpos b) ez loc_Exact (f_of_Z 4)).
  { split_and!; [done|done|]. left. replace (units (f_of_Z 4)) with (2 ^ (2 + K)); [exact Hk|].
    change (f_of_Z 4) with (S754_finite false (2 ^ 52) (-50)). cbn [units].
    change (Zpos (2 ^ 52)) with (2 ^ 52). rewrite <- pow_split by lia. f_equal. lia. }
  destruct (normalize_below (Zpos a + Zpos b) ez _ ltac:(lia) ltac:(lia) Hbl) as (?&?&_&_&Hu).
  split_and!; [done..|]. specialize (Hu 2 Hk ltac:(lia)). replace (2 - 53 + K) with (K - 51) in Hu by lia. lia.
Qed.

(** ** Quotients *)

Lemma div_core n e1 d e2 : 0 < n → 0 < d →
  ∃ q e' l, SFdiv_core_binary prec emax n e1 d e2 = (q, e', l) ∧ 0 <= q ∧ e' <= e1 - e2 ∧
    q = n * 2 ^ (e1 - e2 - e') / d ∧ e' <= fexp prec emax (Zdigits2 q + e') ∧
    Z.min (-1074) (e1 - e2) <= e' ∧ (n * 2 ^ (e1 - e2 - e') = q * d → l = loc_Exact).
Proof.
  intros Hn Hd. unfold SFdiv_core_binary. set (e' := Z.min _ (e1 - e2)). set (j := e1 - e2 - e').
  replace (match j with Z0 => n | Z.pos _ => Z.shiftl n j | Z.neg _ => 0 end) with (n * 2 ^ j).
  2:{ destruct j eqn:E; [lia| |lia]. by rewrite Z.shiftl_mul_pow2 by lia. }
  assert (Hj : 0 <= j) by lia. pose proof (Z.div_eucl_eq (n * 2 ^ j) d ltac:(lia)) as Hdiv.
  destruct (Z.div_eucl _ d) as [q r] eqn:E.
  assert (q = n * 2 ^ j / d) as Hq by (unfold Z.div; by rewrite E).
  exists q, e', (new_location d r). pose proof (pow_pos j Hj) as Hp.
  split_and!; [done|rewrite Hq; apply Z.div_pos; nia|lia|done| |unfold e', fexp, emin; lia|].
  - destruct (Z.le_gt_cases (Zdigits2 n + j - Zdigits2 d) 0) as [Hle|Hgt].
    + assert (0 <= Zdigits2 q) by (by destruct q). unfold e', fexp, emin in *. lia.
    + assert (Hlow : 2 ^ (Zdigits2 n + j - Zdigits2 d - 1) <= q).
      { rewrite Hq. apply Z.div_le_lower_bound; [done|]. pose proof (lt_pow_digits d Hd). pose proof (Zdigits2_pos d Hd).
        rewrite (Zdigits2_log2 n) in * by done. pose proof (Z.log2_spec n Hn) as [Hln _]. pose proof (Z.log2_nonneg n).
        transitivity (2 ^ Zdigits2 d * 2 ^ (Z.log2 n + 1 + j - Zdigits2 d - 1)).
        - apply Z.mul_le_mono_nonneg_r; [by apply Z.pow_nonneg|lia].
        - rewrite <- pow_split by lia. replace (Zdigits2 d + (Z.log2 n + 1 + j - Zdigits2 d - 1)) with (Z.log2 n + j) by lia.
          rewrite pow_split by lia. nia. }
      assert (Hq0 : 0 < q) by (eapply Z.lt_le_trans; [apply pow_pos|exact Hlow]; lia).
      assert (Zdigits2 n + j - Zdigits2 d <= Zdigits2 q).
      { rewrite (Zdigits2_log2 q) by done. assert (Zdigits2 n + j - Zdigits2 d - 1 <= Z.log2 q); [|lia]. by apply Z.log2_le_pow2. }
      unfold e', fexp, emin in *. lia.
  - intros Heq. fold j in Heq. fold e' in Heq. fold j in Heq. assert (r = 0) as -> by lia. unfold new_location. by destruct (IntDef.Z.even d).
Qed.

Lemma units_one : units fone = 2 ^ K.
Proof.
  change fone with (S754_finite false (2 ^ 52) (-52)). cbn [units]. change (Zpos (2 ^ 52)) with (2 ^ 52).
  rewrite <- pow_split by lia. f_equal. lia.
Qed.

(** A quotient of at most one. *)
Lemma fdiv_units x s : nonneg x = true → nonneg s = true → valid x = true → valid s = true →
  0 < units s → units x <= units s →
  nonneg (fdiv x s) = true ∧ valid (fdiv x s) = true ∧ units (fdiv x s) <= 2 ^ K ∧
  units (fdiv x s) * units s <= units x * 2 ^ K + 2 ^ (K - 52) * units s.
Proof.
  intros Nx Ns Vx Vs Hs Hle. destruct s as [b|b| |[] ms es]; try done.
  assert (Hpk : 0 < 2 ^ (K - 52)) by (apply pow_pos; lia).
  destruct x as [b|b| |[] m e]; try done.
  { assert (fdiv (S754_zero b) (S754_finite false ms es) = S754_zero b) as -> by (by destruct b).
    assert (0 <= 2 ^ K) by (apply Z.pow_nonneg; lia). split_and!; try done. cbn [units] in Hs |- *. nia. }
  change (valid (S754_finite false m e)) with (bounded prec emax m e) in Vx.
  change (valid (S754_finite false ms es)) with (bounded prec emax ms es) in Vs.
  pose proof (bounded_range _ _ Vx) as (Bx&_). pose proof (bounded_range _ _ Vs) as (Bs&_).
  unfold fdiv, SFdiv. cbn [xorb].
  destruct (div_core (Zpos m) e (Zpos ms) es ltac:(lia) ltac:(lia)) as (q&e'&l&->&Hq0&He&Hq&He'&Hlow&Hex).
  cbn [units] in Hs, Hle |- *. set (j := e - es - e') in *.
  assert (Hps : 0 < 2 ^ (es + K)) by (apply pow_pos; lia). assert (Hpe : 0 < 2 ^ (e' + K)) by (apply pow_pos; lia).
  assert (Hm : Zpos m * 2 ^ (e + K) * 2 ^ K = Zpos m * 2 ^ j * 2 ^ (e' + K) * 2 ^ (es + K)).
  { rewrite <- !Z.mul_assoc, <- !pow_split by lia. do 2 f_equal. lia. }
  assert (Hqm : q * Zpos ms <= Zpos m * 2 ^ j) by (rewrite Hq, Z.mul_comm; apply Z.mul_div_le; lia).
  assert (Hqu : q * 2 ^ (e' + K) * (Zpos ms * 2 ^ (es + K)) <= Zpos m * 2 ^ (e + K) * 2 ^ K).
  { rewrite Hm. apply (Z.mul_le_mono_nonneg_r _ _ (2 ^ (e' + K) * 2 ^ (es + K))) in Hqm; [lia|nia]. }
  assert (Hone : q * 2 ^ (e' + K) <= 2 ^ K).
  { apply (Z.mul_le_mono_pos_r _ _ (Zpos ms * 2 ^ (es + K))); [lia|]. pose proof (Z.pow_nonneg 2 K). nia. }
  assert (Hbl : below q e' l fone).
  { split_and!; [done|done|]. rewrite units_one. destruct (Z.eq_dec (q * 2 ^ (e' + K)) (2 ^ K)) as [Heq|]; [right|left; lia].
    assert (0 < q) by (pose proof (pow_pos K); nia). split_and!; [|done|done]. apply Hex.
    rewrite Heq in Hqu. assert (Hmle : Zpos m * 2 ^ j * (2 ^ (e' + K) * 2 ^ (es + K)) <= q * Zpos ms * (2 ^ (e' + K) * 2 ^ (es + K))).
    { replace (q * Zpos ms * (2 ^ (e' + K) * 2 ^ (es + K))) with (q * 2 ^ (e' + K) * (Zpos ms * 2 ^ (es + K))) by lia.
      rewrite Z.mul_assoc, <- Hm, Heq, Z.mul_comm. apply Z.mul_le_mono_nonneg_l; [apply Z.pow_nonneg; lia|done]. }
    apply Z.mul_le_mono_pos_r in Hmle; [lia|nia]. }
  destruct (round_below q e' l fone Hq0 He' ltac:(lia) Hbl) as (?&?&Hu1&Hu2). rewrite units_one in Hu1.
  split_and!; [done..|]. set (r := binary_round_aux _ _ _ _ _ _) in *.
  assert (Hf : 2 ^ (fexp prec emax (Zdigits2 q + e') + K) <= 2 ^ (K - 52)).
  { apply Z.pow_le_mono_r; [lia|]. assert (Zdigits2 q + e' <= 1); [|unfold fexp, emin; lia].
    destruct (decide (q = 0)) as [->|Hq1]; [change (Zdigits2 0) with 0 in *; unfold fexp, emin in He'; lia|].
    rewrite Zdigits2_log2 by lia. assert (Hl : 2 ^ (Z.log2 q + (e' + K)) <= 2 ^ K).
    { etrans; [|exact Hone]. pose proof (Z.log2_nonneg q). rewrite pow_split by lia. apply Z.mul_le_mono_nonneg_r; [lia|].
      apply Z.log2_spec. lia. }
    apply Z.pow_le_mono_r_iff in Hl; lia. }
  assert (Hur : units r <= q * 2 ^ (e' + K) + 2 ^ (K - 52)) by lia.
  apply (Z.mul_le_mono_nonneg_r _ _ (Zpos ms * 2 ^ (es + K))) in Hur; [|lia]. lia.
Qed.

End bounds.
