(* ===== verification/GoJson.v ===== *)
(** * Decoding JSON ([encoding/json])

    [Decoder.Decode] into [any] with [UseNumber]: the grammar of the package's
    scanner (nesting limit included), the unquoting of strings, and
    [Decoder.More].  A decoded object is a member list with one entry per key,
    the last occurrence winning, as in a Go map; the order of the list carries
    no meaning and no theorem depends on it. *)

From S2P Require Import Prelude GoStrings Base64 GoUtf8 GoNumber.
From Stdlib Require Import Ascii.

(** ** Values *)

Inductive jvalue : Type :=
| VNull
| VBool (b : bool)
| VNumber (literal : string)
| VString (s : string)
| VArray (items : list jvalue)
| VObject (members : list (string * jvalue)).

Definition members_of (v : jvalue) : option (list (string * jvalue)) :=
  match v with VObject m => Some m | _ => None end.

(** [m[key]], [m[key] = value] and [delete(m, key)] *)
Fixpoint obj_get {A} (k : string) (m : list (string * A)) : option A :=
  match m with
  | [] => None
  | (k', v) :: rest => if k' =s k then Some v else obj_get k rest
  end.

Fixpoint obj_put {A} (k : string) (v : A) (m : list (string * A)) : list (string * A) :=
  match m with
  | [] => [(k, v)]
  | (k', v') :: rest => if k' =s k then (k, v) :: rest else (k', v') :: obj_put k v rest
  end.

Definition obj_delete {A} (k : string) (m : list (string * A)) : list (string * A) :=
  List.filter (λ p, p.1 <>s k) m.

(** ** Lexical structure *)

Definition json_space (c : ascii) : bool :=
  (code c =? 32) || (code c =? 9) || (code c =? 10) || (code c =? 13).

Fixpoint skip_space (s : string) : string :=
  match s with
  | String c rest => if json_space c then skip_space rest else s
  | EmptyString => ""
  end.

(** The text after one given byte. *)
Definition expect (c : ascii) (s : string) : option string :=
  match s with
  | String c' rest => if Ascii.eqb c' c then Some rest else None
  | EmptyString => None
  end.

Fixpoint expect_text (w s : string) : option string :=
  match w with
  | EmptyString => Some s
  | String c w' => s' ← expect c s; expect_text w' s'
  end.

Definition quote : ascii := ascii_of_nat 34.
Definition backslash : ascii := ascii_of_nat 92.

Definition is_hex (c : ascii) : bool := is_digit c || in_class 97 102 c || in_class 65 70 c.

Inductive scan_state : Type := InString | InEscape | InHex (n : nat).

(** Bytes a backslash may precede. *)
Definition simple_escape (c : ascii) : bool :=
  List.existsb (Ascii.eqb c) [quote; backslash; "/"; "b"; "f"; "n"; "r"; "t"]%char.

(** The raw body of a string up to its closing quote, and the rest. *)
Fixpoint scan_string (st : scan_state) (s : string) : option (string * string) :=
  match s with
  | EmptyString => None
  | String c rest =>
      let continue st' := '(body, r) ← scan_string st' rest; Some (String c body, r) in
      match st with
      | InString =>
          if Ascii.eqb c quote then Some ("", rest)
          else if Ascii.eqb c backslash then continue InEscape
          else if code c <? 32 then None else continue InString
      | InEscape =>
          if simple_escape c then continue InString
          else if Ascii.eqb c "u"%char then continue (InHex 4) else None
      | InHex n =>
          if is_hex c then continue (match n with S (S n') => InHex (S n') | _ => InString end) else None
      end
  end.

Definition hex_value (c : ascii) : Z :=
  if is_digit c then code c - 48 else if in_class 97 102 c then code c - 87 else code c - 55.

(** [getu4] on the text after [\u]: the code unit and the rest. *)
Definition unicode_escape (s : string) : option (Z * string) :=
  match s with
  | String a (String b (String c (String d rest))) =>
      if is_hex a && is_hex b && is_hex c && is_hex d
      then Some (hex_value a * 4096 + hex_value b * 256 + hex_value c * 16 + hex_value d, rest) else None
  | _ => None
  end.

Definition escape_value (c : ascii) : option string :=
  if Ascii.eqb c "b"%char then Some (String (char_of 8) "")
  else if Ascii.eqb c "f"%char then Some (String (char_of 12) "")
  else if Ascii.eqb c "n"%char then Some (String (char_of 10) "")
  else if Ascii.eqb c "r"%char then Some (String (char_of 13) "")
  else if Ascii.eqb c "t"%char then Some (String (char_of 9) "")
  else if List.existsb (Ascii.eqb c) [quote; backslash; "/"%char; "'"%char] then Some (String c "") else None.

(** The text of a scanned body: escapes resolved, a lone surrogate and every
    invalid UTF-8 byte replaced (a body the scanner accepts has no other escape).
    Each step consumes a byte, so the length is
    enough fuel. *)
Fixpoint unquote_fuel (fuel : nat) (s : string) : string :=
  match fuel, s with
  | S fuel, String c rest =>
      if Ascii.eqb c backslash then
        match rest with
        | EmptyString => ""
        | String e rest2 =>
            if Ascii.eqb e "u"%char then
              match unicode_escape rest2 with
              | None => ""
              | Some (r1, rest3) =>
                  if is_surrogate r1 then
                    match (after ← expect_text (String backslash "u") rest3; unicode_escape after) with
                    | Some (r2, rest4) =>
                        let r := utf16_pair r1 r2 in
                        if r =? RuneError then encode_rune RuneError +:+ unquote_fuel fuel rest3
                        else encode_rune r +:+ unquote_fuel fuel rest4
                    | None => encode_rune RuneError +:+ unquote_fuel fuel rest3
                    end
                  else encode_rune r1 +:+ unquote_fuel fuel rest3
              end
            else match escape_value e with Some t => t +:+ unquote_fuel fuel rest2 | None => "" end
        end
      else let '(r, s') := next_rune c rest in encode_rune r +:+ unquote_fuel fuel s'
  | _, _ => ""
  end.

Definition unquote (s : string) : string := unquote_fuel (String.length s) s.

(** Numbers: [-? (0 | [1-9] digits) (. digits)? ([eE] [+-]? digits)?], read as
    far as the grammar goes. *)
Definition scan_int (s : string) : option (string * string) :=
  match s with
  | String c rest =>
      if Ascii.eqb c "0"%char then Some ("0", rest)
      else if is_digit c then let '(ds, r) := take_digits rest in Some (String c ds, r) else None
  | EmptyString => None
  end.

Definition scan_fraction (s : string) : option (string * string) :=
  match expect "." s with
  | None => Some ("", s)
  | Some rest => let '(ds, r) := take_digits rest in if ds =s "" then None else Some ("." +:+ ds, r)
  end.

Definition scan_sign (s : string) : string * string :=
  match s with
  | String c rest => if Ascii.eqb c "+"%char || Ascii.eqb c "-"%char then (String c "", rest) else ("", s)
  | EmptyString => ("", "")
  end.

Definition scan_exponent (s : string) : option (string * string) :=
  match s with
  | String c rest =>
      if Ascii.eqb c "e"%char || Ascii.eqb c "E"%char then
        let '(sg, r1) := scan_sign rest in
        let '(ds, r2) := take_digits r1 in
        if ds =s "" then None else Some (String c (sg +:+ ds), r2)
      else Some ("", s)
  | EmptyString => Some ("", "")
  end.

Definition scan_number (s : string) : option (string * string) :=
  let '(sg, r0) := match expect "-" s with Some r => ("-", r) | None => ("", s) end in
  '(int, r1) ← scan_int r0;
  '(frac, r2) ← scan_fraction r1;
  '(exp, r3) ← scan_exponent r2;
  Some (sg +:+ int +:+ frac +:+ exp, r3).

Example scan_number_prefix : scan_number "-0.50E+07, 1" = Some ("-0.50E+07", ", 1").
Proof. reflexivity. Qed.

(** ** Documents *)

Definition maxNestingDepth : Z := 10000.

Definition scan_literal (s : string) : option (jvalue * string) :=
  match expect_text "true" s, expect_text "false" s, expect_text "null" s with
  | Some r, _, _ => Some (VBool true, r)
  | _, Some r, _ => Some (VBool false, r)
  | _, _, Some r => Some (VNull, r)
  | None, None, None => '(l, r) ← scan_number s; Some (VNumber l, r)
  end.

(** [put] adds a member to the members read so far: [obj_put] for a Go map,
    [put_last] for the fields of a struct, which are stored one by one. *)
Section parser.
Variable put : string → jvalue → list (string * jvalue) → list (string * jvalue).

Fixpoint parse_value (fuel : nat) (depth : Z) (s : string) : option (jvalue * string) :=
  match fuel with
  | O => None
  | S fuel =>
      match skip_space s with
      | EmptyString => None
      | String c rest =>
          if Ascii.eqb c quote then
            '(raw, r) ← scan_string InString rest; Some (VString (unquote raw), r)
          else if Ascii.eqb c "{"%char then
            if maxNestingDepth <? depth + 1 then None
            else match expect "}" (skip_space rest) with
                 | Some r => Some (VObject [], r)
                 | None => parse_members fuel (depth + 1) [] rest
                 end
          else if Ascii.eqb c "["%char then
            if maxNestingDepth <? depth + 1 then None
            else match expect "]" (skip_space rest) with
                 | Some r => Some (VArray [], r)
                 | None => parse_elements fuel (depth + 1) [] rest
                 end
          else scan_literal (String c rest)
      end
  end
with parse_elements (fuel : nat) (depth : Z) (acc : list jvalue) (s : string) : option (jvalue * string) :=
  match fuel with
  | O => None
  | S fuel =>
      '(v, r) ← parse_value fuel depth s;
      match expect "," (skip_space r), expect "]" (skip_space r) with
      | Some r', _ => parse_elements fuel depth (acc ++ [v]) r'
      | None, Some r' => Some (VArray (acc ++ [v]), r')
      | None, None => None
      end
  end
with parse_members (fuel : nat) (depth : Z) (acc : list (string * jvalue)) (s : string) : option (jvalue * string) :=
  match fuel with
  | O => None
  | S fuel =>
      r0 ← expect quote (skip_space s);
      '(raw, r1) ← scan_string InString r0;
      r2 ← expect ":" (skip_space r1);
      '(v, r3) ← parse_value fuel depth r2;
      match expect "," (skip_space r3), expect "}" (skip_space r3) with
      | Some r', _ => parse_members fuel depth (put (unquote raw) v acc) r'
      | None, Some r' => Some (VObject (put (unquote raw) v acc), r')
      | None, None => None
      end
  end.

(** One value and the rest of the text; twice the length is enough fuel
    ([parse_fuel]). *)
Definition parse_text (raw : string) : option (jvalue * string) :=
  parse_value (2 * String.length raw + 2) 0 raw.

End parser.

Definition put_last (k : string) (v : jvalue) (m : list (string * jvalue)) : list (string * jvalue) := m ++ [(k, v)].

(** Into [any]. *)
Definition parse_document : string → option (jvalue * string) := parse_text obj_put.

(** [Decoder.More]: whether the next byte is something else than a closing
    bracket. *)
Definition decoder_more (rest : string) : bool :=
  match skip_space rest with
  | EmptyString => false
  | String c _ => negb (Ascii.eqb c "]"%char) && negb (Ascii.eqb c "}"%char)
  end.

Definition text (l : list Z) : string := String.string_of_list_ascii (char_of <$> l).

Example parse_nested :
  parse_document "  {'a' : [1, -2.5e3 ,true], 'b':{}, 'a':null} x" = None.
Proof. vm_compute. reflexivity. Qed.

(** With quotes for the apostrophes. *)
Fixpoint quoted (s : string) : string :=
  match s with
  | String c rest => String (if Ascii.eqb c "'"%char then quote else c) (quoted rest)
  | EmptyString => ""
  end.

Example parse_duplicate :
  parse_document (quoted " {'a' : [1, -2.5e3 ,true], 'b':{}, 'a':null} x") =
  Some (VObject [("a", VNull); ("b", VObject [])], " x").
Proof. vm_compute. reflexivity. Qed.

Example parse_escape :
  parse_document (quoted "'\u0041\ud83d\ude00\n\ud800-'") = Some (VString ("A😀" +:+ text [10] +:+ "�-"), "").
Proof. vm_compute. reflexivity. Qed.
