(* ===== verification/JsonProofs.v ===== *)
(** * The JSON decoder: termination, shape of what it returns

    The fuel of [parse_document] never runs out ([parse_fuel]), what is decoded
    is well formed ([parse_ok]), and a number is read back from any text it
    starts ([scan_number_extend]). *)

From S2P Require Import Prelude GoStrings Base64 GoUtf8 GoNumber GoJson.
From Stdlib Require Import Ascii.

Arguments maxNestingDepth : simpl never.

(** ** Induction on values *)

Section jvalue_induction.
Variable P : jvalue → Prop.
Hypothesis HNull : P VNull.
Hypothesis HBool : ∀ b, P (VBool b).
Hypothesis HNumber : ∀ l, P (VNumber l).
Hypothesis HString : ∀ s, P (VString s).
Hypothesis HArray : ∀ items, Forall P items → P (VArray items).
Hypothesis HObject : ∀ members, Forall (λ p, P p.2) members → P (VObject members).

Fixpoint jvalue_nested (v : jvalue) : P v :=
  match v with
  | VNull => HNull
  | VBool b => HBool b
  | VNumber l => HNumber l
  | VString s => HString s
  | VArray items =>
      HArray items ((fix go (l : list jvalue) : Forall P l :=
        match l with [] => Forall_nil_2 P | x :: r => Forall_cons_2 P x r (jvalue_nested x) (go r) end) items)
  | VObject members =>
      HObject members ((fix go (l : list (string * jvalue)) : Forall (λ p, P p.2) l :=
        match l with
        | [] => Forall_nil_2 _
        | (k, x) :: r => Forall_cons_2 (λ p, P p.2) (k, x) r (jvalue_nested x) (go r)
        end) members)
  end.
End jvalue_induction.

(** ** Well-formed values *)

Fixpoint height (v : jvalue) : Z :=
  match v with
  | VArray items => 1 + foldr Z.max 0 (List.map height items)
  | VObject members => 1 + foldr Z.max 0 (List.map (λ p, height p.2) members)
  | _ => 0
  end.

Inductive wf_json : jvalue → Prop :=
| wf_null : wf_json VNull
| wf_bool b : wf_json (VBool b)
| wf_number l : scan_number l = Some (l, "") → wf_json (VNumber l)
| wf_string s : valid_utf8 s → wf_json (VString s)
| wf_array items : Forall wf_json items → wf_json (VArray items)
| wf_object members :
    NoDup members.*1 → Forall (λ p, valid_utf8 p.1) members → Forall (λ p, wf_json p.2) members →
    wf_json (VObject members).

Definition ok_at (depth : Z) (v : jvalue) : Prop := wf_json v ∧ depth + height v <= maxNestingDepth.

(** ** Members *)

Lemma obj_put_keys {A} k (v : A) m : NoDup m.*1 → NoDup (obj_put k v m).*1 ∧ ∀ x, x ∈ (obj_put k v m).*1 ↔ x = k ∨ x ∈ m.*1.
Proof.
  induction m as [|[k' v'] m IH]; intros Hnd; simpl in *.
  - split; [by apply NoDup_singleton|]. intros x. rewrite elem_of_cons. done.
  - apply NoDup_cons in Hnd as [Hk Hnd]. destruct (IH Hnd) as [IH1 IH2].
    destruct (String.eqb_spec k' k) as [->|Hne]; simpl.
    + split; [by apply NoDup_cons|]. intros x. rewrite !elem_of_cons. naive_solver.
    + split; [|intros x; rewrite !elem_of_cons, IH2; naive_solver].
      apply NoDup_cons. split; [|done]. rewrite IH2. naive_solver.
Qed.

Lemma obj_put_Forall {A} (P : string * A → Prop) k v m : P (k, v) → Forall P m → Forall P (obj_put k v m).
Proof.
  intros Hk. induction 1 as [|[k' v'] m H1 H2 IH]; simpl; [by constructor|].
  destruct (k' =s k); by constructor.
Qed.

Lemma obj_put_new {A} k (v : A) m : k ∉ m.*1 → obj_put k v m = m ++ [(k, v)].
Proof.
  induction m as [|[k' v'] m IH]; intros Hk; simpl in *; [done|]. rewrite elem_of_cons in Hk.
  destruct (String.eqb_spec k' k) as [->|Hne]; [naive_solver|]. rewrite IH; naive_solver.
Qed.

Lemma obj_get_Some {A} k (m : list (string * A)) v : obj_get k m = Some v → (k, v) ∈ m.
Proof.
  induction m as [|[k' v'] m IH]; simpl; [done|]. destruct (String.eqb_spec k' k) as [->|]; rewrite elem_of_cons; naive_solver.
Qed.

Lemma obj_get_elem {A} k (m : list (string * A)) v : NoDup m.*1 → (k, v) ∈ m → obj_get k m = Some v.
Proof.
  induction m as [|[k' v'] m IH]; simpl; intros Hnd; [by rewrite elem_of_nil|]. apply NoDup_cons in Hnd as [Hk Hnd].
  rewrite elem_of_cons. intros [[= -> ->]|Hin]; [by rewrite String.eqb_refl|].
  destruct (String.eqb_spec k' k) as [->|]; [|by apply IH]. destruct Hk. apply list_elem_of_fmap. by exists (k, v).
Qed.

(** ** Lexical lemmas *)

Lemma expect_Some c s r : expect c s = Some r → s = String c r.
Proof. destruct s as [|c' s]; simpl; [done|]. destruct (Ascii.eqb_spec c' c) as [->|]; naive_solver. Qed.

Lemma expect_same c r : expect c (String c r) = Some r.
Proof. simpl. by rewrite Ascii.eqb_refl. Qed.

Lemma expect_text_Some w : ∀ s r, expect_text w s = Some r → s = w +:+ r.
Proof.
  induction w as [|c w IH]; simpl; intros s r H; [by injection H as ->|].
  destruct (expect c s) as [s'|] eqn:E; [|done]. apply expect_Some in E as ->. simpl in H. by rewrite (IH _ _ H).
Qed.

Lemma skip_space_le s : (String.length (skip_space s) <= String.length s)%nat.
Proof. induction s as [|c s IH]; simpl; [done|]. destruct (json_space c); simpl; lia. Qed.

Lemma scan_string_lt s : ∀ st b r, scan_string st s = Some (b, r) → (String.length r < String.length s)%nat.
Proof.
  induction s as [|c s IH]; intros st b r; [done|]. cbn [scan_string String.length].
  assert (Hc : ∀ st', ('(body, r0) ← scan_string st' s; Some (String c body, r0)) = Some (b, r) → (String.length r < S (String.length s))%nat).
  { intros st'. destruct (scan_string st' s) as [[b' r']|] eqn:E; simpl; [|done]. intros [= <- <-]. apply IH in E. lia. }
  destruct st; repeat case_match; try done; try (by apply Hc). intros [= <- <-]. lia.
Qed.

Lemma take_digits_spec s d r : take_digits s = (d, r) → s = d +:+ r ∧ all_chars is_digit d = true ∧ digit_head r = false.
Proof.
  revert d r. induction s as [|c s IH]; intros d r; simpl; [by intros [= <- <-]|].
  destruct (is_digit c) eqn:Hc; [|intros [= <- <-]; simpl; auto].
  destruct (take_digits s) as [d' r']. intros [= <- <-]. destruct (IH d' r' eq_refl) as (->&Hd&Hr).
  split_and!; [done| |done]. simpl. by rewrite Hc.
Qed.

(** What may follow a number: no digit, point or exponent mark. *)
Definition number_end (s : string) : Prop :=
  digit_head s = false ∧ expect "." s = None ∧ expect "e" s = None ∧ expect "E" s = None.

Lemma scan_int_extend s i r : scan_int s = Some (i, r) →
  s = i +:+ r ∧ i ≠ "" ∧ ∀ r', digit_head r' = false → scan_int (i +:+ r') = Some (i, r').
Proof.
  destruct s as [|c s]; [done|]. cbn [scan_int]. destruct (Ascii.eqb_spec c "0"%char) as [->|Hc].
  - intros [= <- <-]. split_and!; done.
  - destruct (is_digit c) eqn:Hd; [|done]. destruct (take_digits s) as [d r0] eqn:E. intros [= <- <-].
    apply take_digits_spec in E as (->&Hds&_). split_and!; [done|done|]. intros r' Hr'.
    rewrite str_app_cons. cbn [scan_int]. rewrite Hd, take_digits_app by done. by destruct (Ascii.eqb_spec c "0"%char).
Qed.

Lemma scan_fraction_extend s f r : scan_fraction s = Some (f, r) →
  s = f +:+ r ∧ (f = "" ∨ ∃ t, f = String "." t) ∧ ∀ r', digit_head r' = false → expect "." r' = None → scan_fraction (f +:+ r') = Some (f, r').
Proof.
  unfold scan_fraction. destruct (expect "." s) as [s1|] eqn:E.
  - apply expect_Some in E as ->. destruct (take_digits s1) as [d r0] eqn:E. apply take_digits_spec in E as (->&Hd&_).
    destruct (String.eqb_spec d ""); [done|]. intros [= <- <-]. rewrite !str_app_assoc. split; [done|]. split; [right; by eexists|].
    intros r' Hr' _. rewrite str_app_assoc, str_app_cons, str_app_nil_l, expect_same, take_digits_app by done.
    by destruct (String.eqb_spec d "").
  - intros [= <- <-]. split; [done|]. split; [by left|]. intros r' _ Hr'. by rewrite str_app_nil_l, Hr'.
Qed.

Lemma scan_sign_spec s sg r : scan_sign s = (sg, r) → s = sg +:+ r ∧
  ∀ d r', all_chars is_digit d = true → d ≠ "" → scan_sign (sg +:+ d +:+ r') = (sg, d +:+ r').
Proof.
  destruct s as [|c s]; cbn [scan_sign].
  - intros [= <- <-]. split; [done|]. intros [|c d] r' Hd Hne; [done|]. rewrite str_app_nil_l, str_app_cons. cbn [scan_sign].
    simpl in Hd. destruct (Ascii.eqb_spec c "+"%char) as [->|]; [done|]. by destruct (Ascii.eqb_spec c "-"%char) as [->|].
  - destruct (_ || _) eqn:E; intros [= <- <-]; (split; [done|]); intros d r' Hd Hne.
    + rewrite str_app_cons, str_app_nil_l. cbn [scan_sign]. by rewrite E.
    + destruct d as [|c' d]; [done|]. rewrite str_app_nil_l, str_app_cons. cbn [scan_sign].
      simpl in Hd. destruct (Ascii.eqb_spec c' "+"%char) as [->|]; [done|]. by destruct (Ascii.eqb_spec c' "-"%char) as [->|].
Qed.

Lemma scan_exponent_extend s x r : scan_exponent s = Some (x, r) →
  s = x +:+ r ∧ (x = "" ∨ ∃ c t, x = String c t ∧ (c = "e"%char ∨ c = "E"%char)) ∧
  ∀ r', number_end r' → scan_exponent (x +:+ r') = Some (x, r').
Proof.
  assert (Hnil : ∀ r', number_end r' → scan_exponent ("" +:+ r') = Some ("", r')).
  { intros r' (_&_&He&HE). rewrite str_app_nil_l. destruct r' as [|c r']; [done|]. cbn [scan_exponent]. simpl in He, HE.
    destruct (Ascii.eqb c "e"%char); [done|]. by destruct (Ascii.eqb c "E"%char). }
  destruct s as [|c s]; cbn [scan_exponent]; [intros [= <- <-]; auto|].
  destruct (_ || _) eqn:Ec; [|intros [= <- <-]; auto].
  destruct (scan_sign s) as [sg r1] eqn:Es. apply scan_sign_spec in Es as [-> Hs].
  destruct (take_digits r1) as [d r2] eqn:Ed. apply take_digits_spec in Ed as (->&Hd&_).
  destruct (String.eqb_spec d "") as [|Hne]; [done|]. intros [= <- <-].
  split; [by rewrite str_app_cons, str_app_assoc|]. split.
  { right. exists c, (sg +:+ d). split; [done|]. apply orb_true_iff in Ec as [Ec|Ec]; apply Ascii.eqb_eq in Ec; auto. }
  intros r' (Hr'&_). rewrite str_app_cons, str_app_assoc. cbn [scan_exponent]. rewrite Ec, Hs, take_digits_app by done.
  by destruct (String.eqb_spec d "").
Qed.

(** A number is read back from every text it starts. *)
Lemma scan_number_extend s l r : scan_number s = Some (l, r) →
  s = l +:+ r ∧ l ≠ "" ∧ ∀ r', number_end r' → scan_number (l +:+ r') = Some (l, r').
Proof.
  unfold scan_number. set (sr := match expect "-" s with Some r => ("-", r) | None => ("", s) end).
  assert (Hsr : s = sr.1 +:+ sr.2 ∧ (sr.1 = "-" ∨ sr.1 = "")).
  { unfold sr. destruct (expect "-" s) eqn:E; [apply expect_Some in E as ->|]; auto. }
  destruct sr as [sg r0]. cbn [fst snd] in Hsr. destruct Hsr as [-> Hsg].
  destruct (scan_int r0) as [[i r1]|] eqn:Ei; [|done]. apply scan_int_extend in Ei as (->&Hi0&Hi). cbn [mbind option_bind].
  destruct (scan_fraction r1) as [[f r2]|] eqn:Ef; [|done]. apply scan_fraction_extend in Ef as (->&Hf0&Hf). cbn [mbind option_bind].
  destruct (scan_exponent r2) as [[x r3]|] eqn:Ex; [|done]. apply scan_exponent_extend in Ex as (->&Hx0&Hx). cbn [mbind option_bind].
  intros [= <- <-]. split; [by rewrite !str_app_assoc|]. split.
  { intros E. apply str_app_is_nil in E as [_ E]. by apply str_app_is_nil in E as [? _]. }
  intros r' He. rewrite !str_app_assoc.
  assert (Hhead : ∀ t, expect "-" (i +:+ t) = None ∧ i +:+ t ≠ "").
  { intros t. destruct i as [|c i]; [done|]. rewrite str_app_cons. split; [|done]. simpl.
    destruct (Ascii.eqb_spec c "-"%char) as [->|]; [|done]. by specialize (Hi "" eq_refl). }
  set (t := i +:+ (f +:+ (x +:+ r'))).
  assert (Ht : (match expect "-" (sg +:+ t) with Some r => ("-", r) | None => ("", sg +:+ t) end) = (sg, t)).
  { destruct Hsg as [->| ->]; [by rewrite str_app_cons, str_app_nil_l, expect_same|]. rewrite str_app_nil_l.
    unfold t. by rewrite (proj1 (Hhead _)). }
  rewrite Ht. unfold t. rewrite Hi.
  2:{ destruct Hf0 as [->|[? ->]]; [|done]. rewrite str_app_nil_l.
      destruct Hx0 as [->|(c&?&->&[->| ->])]; [|done..]. rewrite str_app_nil_l. apply He. }
  cbn [mbind option_bind]. rewrite Hf.
  2,3: destruct Hx0 as [->|(c&?&->&[->| ->])]; [|done..]; rewrite str_app_nil_l; apply He.
  cbn [mbind option_bind]. by rewrite Hx.
Qed.

(** ** The parser consumes its input *)

Definition shorter {A} (s : string) (o : option (A * string)) : Prop :=
  ∀ v r, o = Some (v, r) → (String.length r < String.length s)%nat.

Lemma expect_shorter c s r : expect c s = Some r → (String.length r < String.length s)%nat.
Proof. intros ->%expect_Some. simpl. lia. Qed.

Lemma expect_space_shorter c s r : expect c (skip_space s) = Some r → (String.length r < String.length s)%nat.
Proof. intros H%expect_shorter. pose proof (skip_space_le s). lia. Qed.

Lemma str_length_app (a b : string) : String.length (a +:+ b) = (String.length a + String.length b)%nat.
Proof. induction a as [|c a IH]; [done|]. rewrite str_app_cons. cbn [String.length]. lia. Qed.

Lemma scan_literal_shorter s : shorter s (scan_literal s).
Proof.
  intros v r. unfold scan_literal.
  assert (Hw : ∀ w, w ≠ "" → ∀ r, expect_text w s = Some r → (String.length r < String.length s)%nat).
  { intros w Hw r0 H%expect_text_Some. subst s. rewrite str_length_app. destruct w; [done|simpl; lia]. }
  destruct (expect_text "true" s) eqn:E1; [intros [= <- <-]; eapply Hw; [|done]; done|].
  destruct (expect_text "false" s) eqn:E2; [intros [= <- <-]; eapply Hw; [|done]; done|].
  destruct (expect_text "null" s) eqn:E3; [intros [= <- <-]; eapply Hw; [|done]; done|].
  destruct (scan_number s) as [[l r']|] eqn:E4; [|done]. simpl. intros [= <- <-].
  apply scan_number_extend in E4 as (->&Hl&_). rewrite str_length_app. destruct l; [done|simpl; lia].
Qed.

(** Case analysis on the binds of the option monad in hypothesis [H]. *)
Ltac opt_cases H :=
  repeat match type of H with
  | mbind _ ?m = Some _ => let E := fresh "E" in destruct m as [[? ?]|] eqn:E; [|done]; cbn [mbind option_bind] in H
  | mbind _ ?m = Some _ => let E := fresh "E" in destruct m eqn:E; [|done]; cbn [mbind option_bind] in H
  end.

Section any_object.
Variable put : string → jvalue → list (string * jvalue) → list (string * jvalue).

Lemma parse_shorter fuel :
  (∀ depth s, shorter s (parse_value put fuel depth s)) ∧
  (∀ depth acc s, shorter s (parse_elements put fuel depth acc s)) ∧
  (∀ depth acc s, shorter s (parse_members put fuel depth acc s)).
Proof.
  induction fuel as [|fuel (IHv&IHe&IHm)]; [split_and!; by intros|].
  split_and!; intros depth; [|intros acc|intros acc]; intros s v r.
  - cbn [parse_value]. pose proof (skip_space_le s) as Hs. destruct (skip_space s) as [|c s0]; [done|]. simpl in Hs.
    destruct (Ascii.eqb c quote).
    { destruct (scan_string _ s0) as [[raw r0]|] eqn:E; [|done]. simpl. intros [= <- <-]. apply scan_string_lt in E. lia. }
    destruct (Ascii.eqb c "{"%char).
    { destruct (_ <? _); [done|]. destruct (expect "}" _) eqn:E; [|intros H%IHm; lia].
      apply expect_space_shorter in E. intros [= <- <-]. lia. }
    destruct (Ascii.eqb c "["%char).
    { destruct (_ <? _); [done|]. destruct (expect "]" _) eqn:E; [|intros H%IHe; lia].
      apply expect_space_shorter in E. intros [= <- <-]. lia. }
    intros H%scan_literal_shorter. simpl in H. lia.
  - cbn [parse_elements]. destruct (parse_value put _ _ _) as [[v0 r0]|] eqn:E; [|done]. apply IHv in E. simpl.
    destruct (expect "," _) eqn:E1; [apply expect_space_shorter in E1; intros H%IHe; lia|].
    destruct (expect "]" _) eqn:E2; [|done]. apply expect_space_shorter in E2. intros [= <- <-]. lia.
  - cbn [parse_members]. destruct (expect quote _) as [r0|] eqn:E0; [|done]. apply expect_space_shorter in E0. simpl.
    destruct (scan_string _ r0) as [[raw r1]|] eqn:E1; [|done]. apply scan_string_lt in E1. simpl.
    destruct (expect ":" _) as [r2|] eqn:E2; [|done]. apply expect_space_shorter in E2. simpl.
    destruct (parse_value put _ _ _) as [[v0 r3]|] eqn:E3; [|done]. apply IHv in E3. simpl.
    destruct (expect "," _) eqn:E4; [apply expect_space_shorter in E4; intros H%IHm; lia|].
    destruct (expect "}" _) eqn:E5; [|done]. apply expect_space_shorter in E5. intros [= <- <-]. lia.
Qed.

(** ** The fuel of [parse_text] is enough: more changes nothing *)

Lemma parse_fuel_step fuel :
  (∀ fuel' depth s, (2 * String.length s < fuel)%nat → (2 * String.length s < fuel')%nat →
     parse_value put fuel depth s = parse_value put fuel' depth s) ∧
  (∀ fuel' depth acc s, (2 * String.length s + 1 < fuel)%nat → (2 * String.length s + 1 < fuel')%nat →
     parse_elements put fuel depth acc s = parse_elements put fuel' depth acc s) ∧
  (∀ fuel' depth acc s, (2 * String.length s + 1 < fuel)%nat → (2 * String.length s + 1 < fuel')%nat →
     parse_members put fuel depth acc s = parse_members put fuel' depth acc s).
Proof.
  induction fuel as [|fuel (IHv&IHe&IHm)]; [split_and!; intros; lia|].
  split_and!; intros [|fuel'] depth; try (intros; lia); [|intros acc|intros acc]; intros s Hf Hf'.
  - cbn [parse_value]. pose proof (skip_space_le s) as Hs. destruct (skip_space s) as [|c s0]; [done|]. simpl in Hs.
    rewrite (IHe fuel'), (IHm fuel') by lia. done.
  - cbn [parse_elements]. rewrite (IHv fuel') by lia.
    destruct (parse_value put fuel' depth s) as [[v0 r0]|] eqn:E; [|done].
    apply (proj1 (parse_shorter fuel')) in E. simpl. destruct (expect "," _) as [r'|] eqn:E1; [|done].
    apply expect_space_shorter in E1. apply IHe; lia.
  - cbn [parse_members]. destruct (expect quote _) as [r0|] eqn:E0; [|done]. apply expect_space_shorter in E0. simpl.
    destruct (scan_string _ r0) as [[raw r1]|] eqn:E1; [|done]. apply scan_string_lt in E1. simpl.
    destruct (expect ":" _) as [r2|] eqn:E2; [|done]. apply expect_space_shorter in E2. simpl. rewrite (IHv fuel') by lia.
    destruct (parse_value put fuel' depth r2) as [[v0 r3]|] eqn:E3; [|done]. apply (proj1 (parse_shorter fuel')) in E3. simpl.
    destruct (expect "," _) as [r'|] eqn:E4; [|done]. apply expect_space_shorter in E4. apply IHm; lia.
Qed.

Lemma parse_fuel fuel depth s : (2 * String.length s < fuel)%nat →
  parse_value put fuel depth s = parse_value put (2 * String.length s + 2) depth s.
Proof. intros Hf. apply parse_fuel_step; lia. Qed.

End any_object.

(** ** What is decoded is well formed *)

Lemma unquote_valid fuel : ∀ s, ∃ rs, Forall (λ r, scalar r = true) rs ∧ unquote_fuel fuel s = encode_runes rs.
Proof.
  assert (Henc : ∀ r s, (∃ rs, Forall (λ r, scalar r = true) rs ∧ s = encode_runes rs) →
    ∃ rs, Forall (λ r, scalar r = true) rs ∧ encode_rune r +:+ s = encode_runes rs).
  { intros r s (rs&Hrs&->). exists ((if scalar r then r else RuneError) :: rs). split.
    - constructor; [|done]. by destruct (scalar r) eqn:E.
    - unfold encode_runes at 2. cbn [foldr]. fold (encode_runes rs). f_equal. unfold encode_rune.
      destruct (scalar r) eqn:E; [by rewrite E|done]. }
  induction fuel as [|fuel IH]; intros s; [by exists []|]. cbn [unquote_fuel].
  assert (Hnil : ∃ rs, Forall (λ r, scalar r = true) rs ∧ "" = encode_runes rs) by (by exists []).
  destruct s as [|c rest]; [done|]. destruct (Ascii.eqb c backslash).
  - destruct rest as [|e rest2]; [done|]. destruct (Ascii.eqb e "u"%char).
    + destruct (unicode_escape rest2) as [[r1 rest3]|]; [|done]. destruct (is_surrogate r1); [|auto].
      destruct (after ← _; _) as [[r2 rest4]|]; [|auto]. destruct (_ =? _); auto.
    + destruct (escape_value e) as [t|] eqn:E; [|done].
      assert (∃ r, t = encode_rune r) as [r ->]; [|auto].
      revert E. unfold escape_value. destruct (List.existsb _ _) eqn:Ex.
      * apply existsb_exists in Ex as (x&Hx&->%Ascii.eqb_eq). apply list_elem_of_In in Hx. intros E.
        repeat (apply elem_of_cons in Hx as [->|Hx]; [injection E as <-; match goal with |- ∃ r, String ?c "" = _ => by exists (code c) end|]).
        by apply elem_of_nil in Hx.
      * repeat (destruct (Ascii.eqb _ _); [intros [= <-]; match goal with |- ∃ r, String ?c "" = _ => by exists (code c) end|]). done.
  - destruct (next_rune c rest) as [r s']. auto.
Qed.

Lemma number_end_nil : number_end "".
Proof. done. Qed.

Lemma unquote_is_valid s : valid_utf8 (unquote s).
Proof. destruct (unquote_valid (String.length s) s) as (rs&Hrs&He). unfold unquote. rewrite He. by apply encode_valid. Qed.

Lemma scan_literal_ok s v r : scan_literal s = Some (v, r) → wf_json v ∧ height v = 0.
Proof.
  unfold scan_literal. destruct (expect_text "true" s); [intros [= <- <-]; split; [constructor|done]|].
  destruct (expect_text "false" s); [intros [= <- <-]; split; [constructor|done]|].
  destruct (expect_text "null" s); [intros [= <- <-]; split; [constructor|done]|].
  destruct (scan_number s) as [[l r']|] eqn:E; [|done]. simpl. intros [= <- <-]. split; [|done].
  apply scan_number_extend in E as (_&_&He). constructor. specialize (He "" number_end_nil). by rewrite str_app_nil_r in He.
Qed.

Lemma heights_bound {A} (f : A → Z) l b : 0 <= b → Forall (λ x, f x <= b) l → foldr Z.max 0 (List.map f l) <= b.
Proof. intros Hb. induction 1 as [|x l Hx _ IH]; simpl; lia. Qed.

Lemma ok_array depth items : depth <= maxNestingDepth → Forall (ok_at depth) items → ok_at (depth - 1) (VArray items).
Proof.
  intros Hd Hi. split; [constructor; eapply Forall_impl; [exact Hi|]; by intros v [H _]|]. cbn [height].
  assert (foldr Z.max 0 (List.map height items) <= maxNestingDepth - depth); [|lia].
  apply heights_bound; [lia|]. eapply Forall_impl; [exact Hi|]. intros v [_ H]. lia.
Qed.

Definition ok_member (depth : Z) (p : string * jvalue) : Prop := valid_utf8 p.1 ∧ ok_at depth p.2.

Lemma ok_object depth members : depth <= maxNestingDepth → NoDup members.*1 → Forall (ok_member depth) members →
  ok_at (depth - 1) (VObject members).
Proof.
  intros Hd Hn Hm. split.
  - constructor; [done|..]; (eapply Forall_impl; [exact Hm|]); intros p H; apply H.
  - cbn [height]. assert (foldr Z.max 0 (List.map (λ p : string * jvalue, height p.2) members) <= maxNestingDepth - depth); [|lia].
    apply heights_bound; [lia|]. eapply Forall_impl; [exact Hm|]. intros v (_&_&H). lia.
Qed.

Lemma ok_object_nil depth : depth <= maxNestingDepth → ok_at (depth - 1) (VObject []).
Proof. intros Hd. by apply ok_object; [|constructor|]. Qed.

Lemma parse_ok fuel :
  (∀ depth s v r, depth <= maxNestingDepth → parse_value obj_put fuel depth s = Some (v, r) → ok_at depth v) ∧
  (∀ depth acc s v r, depth <= maxNestingDepth → Forall (ok_at depth) acc →
     parse_elements obj_put fuel depth acc s = Some (v, r) → ok_at (depth - 1) v) ∧
  (∀ depth acc s v r, depth <= maxNestingDepth → NoDup acc.*1 → Forall (ok_member depth) acc →
     parse_members obj_put fuel depth acc s = Some (v, r) → ok_at (depth - 1) v).
Proof.
  induction fuel as [|fuel (IHv&IHe&IHm)]; [split_and!; by intros|].
  split_and!; intros depth; [|intros acc|intros acc]; intros s v r Hd.
  - cbn [parse_value]. destruct (skip_space s) as [|c s0]; [done|].
    destruct (Ascii.eqb c quote).
    { destruct (scan_string _ s0) as [[raw r0]|]; [|done]. simpl. intros [= <- <-].
      split; [constructor; apply unquote_is_valid|simpl; lia]. }
    destruct (Ascii.eqb c "{"%char); [|destruct (Ascii.eqb c "["%char)].
    + destruct (Z.ltb_spec maxNestingDepth (depth + 1)); [done|]. replace depth with (depth + 1 - 1) by lia.
      destruct (expect "}" _).
      * intros [= <- <-]. by apply ok_object_nil.
      * replace (depth + 1 - 1 + 1) with (depth + 1) by lia. apply IHm; [done|constructor|done].
    + destruct (Z.ltb_spec maxNestingDepth (depth + 1)); [done|]. replace depth with (depth + 1 - 1) by lia.
      destruct (expect "]" _).
      * intros [= <- <-]. by apply ok_array.
      * replace (depth + 1 - 1 + 1) with (depth + 1) by lia. by apply IHe.
    + intros [Hw Hh]%scan_literal_ok. split; [done|lia].
  - intros Hacc. cbn [parse_elements]. destruct (parse_value obj_put _ _ _) as [[v0 r0]|] eqn:E; [|done]. apply IHv in E; [|done]. simpl.
    assert (Hacc' : Forall (ok_at depth) (acc ++ [v0])) by (apply Forall_app; split; [done|by constructor]).
    destruct (expect "," _); [by apply IHe|]. destruct (expect "]" _); [|done]. intros [= <- <-]. by apply ok_array.
  - intros Hn Hacc. cbn [parse_members]. destruct (expect quote _) as [r0|]; [|done]. simpl.
    destruct (scan_string _ r0) as [[raw r1]|]; [|done]. simpl. destruct (expect ":" _) as [r2|]; [|done]. simpl.
    destruct (parse_value obj_put _ _ _) as [[v0 r3]|] eqn:E; [|done]. apply IHv in E; [|done]. simpl.
    destruct (obj_put_keys (unquote raw) v0 acc Hn) as [Hn' _].
    assert (Hacc' : Forall (ok_member depth) (obj_put (unquote raw) v0 acc)).
    { apply obj_put_Forall; [|done]. split; [apply unquote_is_valid|done]. }
    destruct (expect "," _); [by apply IHm|]. destruct (expect "}" _); [|done]. intros [= <- <-]. by apply ok_object.
Qed.

Lemma parse_document_ok raw v r : parse_document raw = Some (v, r) → ok_at 0 v.
Proof. intros H. by eapply (proj1 (parse_ok _)) in H. Qed.
