(* ===== verification/Jcs.v ===== *)
(** * Canonical JSON ([internal/provenance/provenance.go], [Canonicalize])

    RFC 8785 text of a decoded document.  The [float64] branch of
    [canonicalValue] is not reached: documents are decoded with [UseNumber]. *)

From S2P Require Import Prelude GoStrings GoTime Float64 GoFormat Base64 GoUtf8 GoNumber GoJson.
From Stdlib Require Import Ascii.

(** ** Strings *)

Definition esc (s : string) : string := String backslash s.

Definition canonical_rune (r : Z) : string :=
  if r =? 34 then esc (String quote "")
  else if r =? 92 then esc (String backslash "")
  else if r =? 8 then esc "b"
  else if r =? 12 then esc "f"
  else if r =? 10 then esc "n"
  else if r =? 13 then esc "r"
  else if r =? 9 then esc "t"
  else if r <? 32 then
    esc "u00" +:+ String (hex_digit (Z.land (Z.shiftr r 4) 15)) (String (hex_digit (Z.land r 15)) "")
  else encode_rune r.

(** [for _, r := range value], each rune written by [f]. *)
Definition rune_body (f : Z → string) (rs : list Z) : string := foldr (λ r s, f r +:+ s) "" rs.

Definition canonical_body : list Z → string := rune_body canonical_rune.

Definition canonicalString (value : string) : string :=
  String quote (canonical_body (runes value) +:+ String quote "").

(** ** Numbers *)

Fixpoint index_byte (c : ascii) (s : string) : option nat :=
  match s with
  | EmptyString => None
  | String c' rest => if Ascii.eqb c' c then Some 0%nat else S <$> index_byte c rest
  end.

(** [strings.Replace(s, string(c), "", 1)] *)
Fixpoint remove_first (c : ascii) (s : string) : string :=
  match s with
  | EmptyString => ""
  | String c' rest => if Ascii.eqb c' c then rest else String c' (remove_first c rest)
  end.

(** The ECMAScript layout of [digits] with the point after [n] digits. *)
Definition layout (digits : string) (n : Z) : string :=
  let k := str_len digits in
  if (k <=? n) && (n <=? 21) then digits +:+ zeros (Z.to_nat (n - k))
  else if (0 <? n) && (n <=? 21) then str_take (Z.to_nat n) digits +:+ "." +:+ str_drop (Z.to_nat n) digits
  else if (-6 <? n) && (n <=? 0) then "0." +:+ zeros (Z.to_nat (- n)) +:+ digits
  else
    let '(exponentSign, exponentValue) := if n - 1 <? 0 then ("-", - (n - 1)) else ("+", n - 1) in
    let mantissaOut := str_take 1 digits +:+ (if 1 <? k then "." +:+ str_drop 1 digits else "") in
    mantissaOut +:+ "e" +:+ exponentSign +:+ dec exponentValue.

Definition canonicalNumber (literal : string) : result string :=
  value ← wrap_err "number is not a valid double" (ParseFloat literal);
  if feq value fzero then Ok "0"
  else
    let '(sign, value) := if flt value fzero then ("-", fneg value) else ("", value) in
    let shortest := FormatFloat_e value in
    '(mantissa, exponent) ←
      match index_byte "e" shortest with
      | Some index =>
          match atoi (str_drop (S index) shortest) with
          | Some parsed => Ok (str_take index shortest, parsed)
          | None => Err (EText "number has an invalid exponent")
          end
      | None => Ok (shortest, 0)
      end;
    let digits := remove_first "." mantissa in
    Ok (sign +:+ layout digits (exponent + 1)).

(** The samples of RFC 8785. *)
Example jcs_numbers :
  canonicalNumber <$> ["333333333.33333329"; "1E30"; "4.50"; "2e-3"; "0.000000000000000000000000001"; "-0"; "-1e-7"] =
  Ok <$> ["333333333.3333333"; "1e+30"; "4.5"; "0.002"; "1e-27"; "0"; "-1e-7"].
Proof. vm_compute. reflexivity. Qed.

Example jcs_layouts :
  canonicalNumber <$> ["100000000000000000000"; "1e21"; "123.456"; "5e-324"; "1.7976931348623157e308"] =
  Ok <$> ["100000000000000000000"; "1e+21"; "123.456"; "5e-324"; "1.7976931348623157e+308"].
Proof. vm_compute. reflexivity. Qed.

(** ** Key order: UTF-16 code units *)

Fixpoint units_less (a b : list Z) : bool :=
  match a, b with
  | [], [] => false
  | [], _ :: _ => true
  | _ :: _, [] => false
  | x :: a', y :: b' => if x =? y then units_less a' b' else x <? y
  end.

Definition utf16Less (a b : string) : bool := units_less (utf16_encode (runes a)) (utf16_encode (runes b)).

(** [sort.Slice] by key: the keys of an object differ, so the order determines
    the result ([sort_unique]). *)
Section sorting.
Context {A : Type}.

Fixpoint insert_member (p : string * A) (l : list (string * A)) : list (string * A) :=
  match l with
  | [] => [p]
  | q :: rest => if utf16Less p.1 q.1 then p :: q :: rest else q :: insert_member p rest
  end.

Definition sort_members (l : list (string * A)) : list (string * A) := foldr insert_member [] l.

End sorting.

(** ** Values *)

(** [','] between the items. *)
Fixpoint comma_separated (l : list string) : string :=
  match l with
  | [] => ""
  | [x] => x
  | x :: rest => x +:+ "," +:+ comma_separated rest
  end.

Fixpoint all_ok {A} (l : list (result A)) : result (list A) :=
  match l with
  | [] => Ok []
  | r :: rest => x ← r; xs ← all_ok rest; Ok (x :: xs)
  end.

Definition member_text (p : string * result string) : result string :=
  t ← p.2; Ok (canonicalString p.1 +:+ ":" +:+ t).

Fixpoint canonicalValue (value : jvalue) : result string :=
  match value with
  | VNull => Ok "null"
  | VBool b => Ok (if b then "true" else "false")
  | VString s => Ok (canonicalString s)
  | VNumber literal => canonicalNumber literal
  | VArray items =>
      texts ← all_ok (List.map canonicalValue items);
      Ok ("[" +:+ comma_separated texts +:+ "]")
  | VObject members =>
      texts ← all_ok (List.map member_text (sort_members (List.map (λ p, (p.1, canonicalValue p.2)) members)));
      Ok ("{" +:+ comma_separated texts +:+ "}")
  end.

Definition Canonicalize (value : jvalue) : result string := canonicalValue value.

Example canonicalize_sample :
  (v ← (match parse_document (quoted "{'b': [1.0, 'x\ny', null], '': -0, 'a':{'k':1e2}}") with Some (v, _) => Ok v | None => Err (EText "syntax") end);
   Canonicalize v) = Ok (quoted "{'':0,'a':{'k':100},'b':[1,'x\ny',null]}").
Proof. vm_compute. reflexivity. Qed.
