(* ===== verification/JcsProofs.v ===== *)
(** * Canonical JSON is read back: the canonical text determines the document

    [canonical_parses] shows that decoding the canonical text gives the normal
    form of the document; [Canonicalize] is constant on normal forms. *)

From stdpp Require Import sorting.
From Stdlib Require Import Ascii Sorting.Sorted.
From S2P Require Import Prelude GoStrings GoTime Float64 GoFormat Base64 GoUtf8 GoNumber GoJson JsonProofs Jcs.

(** ** Strings *)

Definition plain_char (c : ascii) : bool :=
  negb (Ascii.eqb c quote) && negb (Ascii.eqb c backslash) && (32 <=? code c).

Lemma scan_plain p t : all_chars plain_char p = true →
  scan_string InString (p +:+ t) = '(b, x) ← scan_string InString t; Some (p +:+ b, x).
Proof.
  induction p as [|c p IH]; intros Hp.
  - rewrite str_app_nil_l. destruct (scan_string InString t) as [[b x]|]; [|done]. simpl. by rewrite str_app_nil_l.
  - simpl in Hp. apply andb_true_iff in Hp as [Hc Hp]. unfold plain_char in Hc. apply andb_true_iff in Hc as [Hc H32].
    apply andb_true_iff in Hc as [Hq Hb]. rewrite str_app_cons. cbn [scan_string].
    rewrite negb_true_iff in Hq, Hb. rewrite Hq, Hb. replace (code c <? 32) with false by lia. rewrite (IH Hp).
    destruct (scan_string InString t) as [[b x]|]; done.
Qed.

Lemma encode_rune_plain r : scalar r = true → 32 <= r → r ≠ 34 → r ≠ 92 → all_chars plain_char (encode_rune r) = true.
Proof.
  intros Hs H32 Hq Hb. pose proof Hs as Hr%scalar_range. unfold encode_rune. rewrite Hs.
  assert (Hhigh : ∀ z, 128 <= z < 256 → plain_char (char_of z) = true).
  { intros z Hz. unfold plain_char. rewrite code_char_of by lia.
    assert (Hne : ∀ c, code c < 128 → Ascii.eqb (char_of z) c = false).
    { intros c Hc. apply Ascii.eqb_neq. intros <-. rewrite code_char_of in Hc; lia. }
    rewrite !Hne by done. simpl. lia. }
  repeat case_match; cbn [all_chars]; rewrite ?andb_true_r, ?andb_true_iff; split_and?;
    try (apply Hhigh; Z.to_euclidean_division_equations; lia).
  unfold plain_char. rewrite code_char_of by lia. rewrite !andb_true_iff, !negb_true_iff. split_and!; [..|lia].
  - apply Ascii.eqb_neq. intros E. apply Hq. by rewrite <- (code_char_of r), E by lia.
  - apply Ascii.eqb_neq. intros E. apply Hb. by rewrite <- (code_char_of r), E by lia.
Qed.

(** A text a decoder reads as the rune [r]: the rune itself, a short escape or
    four hexadecimal digits. *)
Inductive rune_text (r : Z) : string → Prop :=
| text_plain : all_chars plain_char (encode_rune r) = true → rune_text r (encode_rune r)
| text_escape c : simple_escape c = true → escape_value c = Some (encode_rune r) → rune_text r (esc (String c ""))
| text_hex a b c d : is_hex a && is_hex b && is_hex c && is_hex d = true →
    hex_value a * 4096 + hex_value b * 256 + hex_value c * 16 + hex_value d = r →
    rune_text r (esc (String "u" (String a (String b (String c (String d "")))))).

Lemma hex_digits r : 0 <= r < 128 →
  is_hex (hex_digit (Z.land (Z.shiftr r 4) 15)) && is_hex (hex_digit (Z.land r 15)) = true ∧
  hex_value (hex_digit (Z.land (Z.shiftr r 4) 15)) * 16 + hex_value (hex_digit (Z.land r 15)) = r.
Proof.
  intros Hr. assert (Ht : forallb (λ r, is_hex (hex_digit (Z.land (r ≫ 4) 15)) && is_hex (hex_digit (Z.land r 15)) &&
    (hex_value (hex_digit (Z.land (r ≫ 4) 15)) * 16 + hex_value (hex_digit (Z.land r 15)) =? r)) (seqZ 0 128) = true)
    by by vm_compute.
  assert (Hin : r ∈ seqZ 0 128) by (apply elem_of_seqZ; lia).
  rewrite forallb_forall in Ht. apply list_elem_of_In, Ht in Hin. rewrite andb_true_iff in Hin. destruct Hin as [? ?%Z.eqb_eq]. done.
Qed.

Lemma text_control r : 0 <= r < 128 →
  rune_text r (esc "u00" +:+ String (hex_digit (Z.land (Z.shiftr r 4) 15)) (String (hex_digit (Z.land r 15)) "")).
Proof.
  intros Hr. destruct (hex_digits r Hr) as [Hh Hv]. apply text_hex; [|change (hex_value "0") with 0; lia].
  change (is_hex "0") with true. done.
Qed.

Lemma canonical_rune_text r : scalar r = true → rune_text r (canonical_rune r).
Proof.
  intros Hs. pose proof Hs as Hr%scalar_range. unfold canonical_rune.
  repeat match goal with
  | |- context [if r =? ?z then _ else _] => destruct (Z.eqb_spec r z) as [->|?]; [by apply text_escape|]
  end.
  destruct (Z.ltb_spec r 32) as [H|H]; [apply text_control; lia|apply text_plain; by apply encode_rune_plain].
Qed.

Lemma scan_rune r x t : rune_text r x →
  scan_string InString (x +:+ t) = '(b, y) ← scan_string InString t; Some (x +:+ b, y).
Proof.
  intros [Hp|c Hc _|a b c d Hh _]; [by apply scan_plain|..]; unfold esc; rewrite !str_app_cons, str_app_nil_l; cbn [scan_string];
    simpl (Ascii.eqb backslash _); cbv iota.
  - rewrite Hc. destruct (scan_string InString t) as [[b y]|]; done.
  - simpl (Ascii.eqb _ _). cbv iota. simpl (simple_escape _). cbv iota. rewrite !andb_true_iff in Hh.
    destruct Hh as (((->&->)&->)&->). destruct (scan_string InString t) as [[z y]|]; done.
Qed.

(** Unquoting the text of one rune consumes it. *)
Lemma unquote_rune r x t fuel : scalar r = true → rune_text r x →
  unquote_fuel (S fuel) (x +:+ t) = encode_rune r +:+ unquote_fuel fuel t ∧ x ≠ "".
Proof.
  intros Hs Hx. destruct Hx as [Hp|c Hc Hv|a b c d Hh Hv].
  - destruct (next_rune_encode r Hs) as (c&s'&He&Hn). rewrite He in Hp |- *. split; [|done].
    rewrite str_app_cons. cbn [unquote_fuel]. simpl in Hp. apply andb_true_iff in Hp as [Hc _].
    unfold plain_char in Hc. rewrite !andb_true_iff, !negb_true_iff in Hc. destruct Hc as [[_ ->] _]. rewrite Hn, He. done.
  - split; [|done]. unfold esc. rewrite !str_app_cons, str_app_nil_l. cbn [unquote_fuel]. rewrite Ascii.eqb_refl.
    destruct (Ascii.eqb_spec c "u"%char) as [->|_]; [done|]. by rewrite Hv.
  - split; [|done]. unfold esc. rewrite !str_app_cons, str_app_nil_l. cbn [unquote_fuel]. rewrite Ascii.eqb_refl. cbv iota.
    simpl (Ascii.eqb "u" "u"). cbv iota. cbn [unicode_escape]. rewrite Hh, Hv.
    replace (is_surrogate r) with false; [done|]. apply scalar_range in Hs. unfold is_surrogate, between. lia.
Qed.

Section body.
Variable f : Z → string.
Hypothesis Hf : ∀ r, scalar r = true → rune_text r (f r).

Lemma scan_body rs t : Forall (λ r, scalar r = true) rs →
  scan_string InString (rune_body f rs +:+ String quote t) = Some (rune_body f rs, t).
Proof.
  induction 1 as [|r rs Hr _ IH]; [by rewrite str_app_nil_l|]. cbn [rune_body foldr]. fold (rune_body f rs).
  by rewrite str_app_assoc, (scan_rune r), IH by auto.
Qed.

Lemma unquote_body rs : Forall (λ r, scalar r = true) rs → ∀ fuel,
  (String.length (rune_body f rs) <= fuel)%nat → unquote_fuel fuel (rune_body f rs) = encode_runes rs.
Proof.
  induction 1 as [|r rs Hr _ IH]; intros fuel Hl; [by destruct fuel|].
  cbn [rune_body foldr] in *. fold (rune_body f rs) in *. rewrite str_length_app in Hl.
  destruct (unquote_rune r (f r) (rune_body f rs) (pred fuel) Hr (Hf r Hr)) as [Hu Hne].
  destruct fuel as [|fuel]; [destruct (f r); [done|simpl in Hl; lia]|]. cbn [pred] in Hu. rewrite Hu.
  unfold encode_runes. cbn [foldr]. rewrite IH; [done|]. destruct (f r); [done|]. simpl in Hl. lia.
Qed.

(** A quoted string is scanned and unquoted to itself. *)
Lemma body_scans s t : valid_utf8 s →
  ∃ raw, scan_string InString (rune_body f (runes s) +:+ String quote t) = Some (raw, t) ∧ unquote raw = s.
Proof.
  intros Hv. exists (rune_body f (runes s)). split; [apply scan_body, runes_scalar|].
  unfold unquote. rewrite unquote_body; [by apply Hv|apply runes_scalar|done].
Qed.
End body.

Lemma canonical_string_scans s t : valid_utf8 s →
  ∃ raw, scan_string InString (canonical_body (runes s) +:+ String quote t) = Some (raw, t) ∧ unquote raw = s.
Proof. apply body_scans, canonical_rune_text. Qed.

(** ** Numbers in parts: sign, integer digits, fraction digits, exponent *)

Definition exponent_part (x : option (string * string)) : string :=
  match x with None => "" | Some (sg, ds) => String "e" (sg +:+ ds) end.

Definition number_text (negative : bool) (int frac : string) (x : option (string * string)) : string :=
  (if negative then "-" else "") +:+ int +:+ (if frac =s "" then "" else "." +:+ frac) +:+ exponent_part x.

Definition exponent_of (x : option (string * string)) : Z :=
  match x with None => 0 | Some (sg, ds) => if sg =s "-" then - exponent_value 0 ds else exponent_value 0 ds end.

Record parts_ok (int frac : string) (x : option (string * string)) : Prop := {
  po_int : all_chars is_digit int = true;
  po_head : int = "0" ∨ ∃ h t, int = String h t ∧ h ≠ "0"%char;
  po_frac : all_chars is_digit frac = true;
  po_exp : ∀ sg ds, x = Some (sg, ds) → (sg = "+" ∨ sg = "-") ∧ all_chars is_digit ds = true ∧ ds ≠ "" }.

Lemma po_nonempty int frac x : parts_ok int frac x → int ≠ "".
Proof. intros [_ [->|(h&t&->&_)] _ _]; done. Qed.

Lemma exponent_part_head x : digit_head (exponent_part x) = false ∧ expect "." (exponent_part x) = None.
Proof. by destruct x as [[sg ds]|]. Qed.

Lemma frac_part_head frac x :
  digit_head ((if frac =s "" then "" else "." +:+ frac) +:+ exponent_part x) = false.
Proof. destruct (frac =s ""); [rewrite str_app_nil_l; apply exponent_part_head|done]. Qed.

Lemma sign_of_digits h t : is_digit h = true → sign_of (String h t) = (false, String h t).
Proof.
  intros Hd. cbn [sign_of]. destruct (Ascii.eqb_spec h "-"%char) as [->|]; [done|].
  by destruct (Ascii.eqb_spec h "+"%char) as [->|].
Qed.

Lemma digit_string d : all_chars is_digit d = true → d ≠ "" → ∃ h t, d = String h t ∧ is_digit h = true.
Proof. destruct d as [|h t]; [done|]. simpl. rewrite andb_true_iff. intros [Hh _] _. by exists h, t. Qed.

Lemma read_exponent_part x : (∀ sg ds, x = Some (sg, ds) → (sg = "+" ∨ sg = "-") ∧ all_chars is_digit ds = true ∧ ds ≠ "") →
  read_exponent (exponent_part x) = Some (exponent_of x, "").
Proof.
  destruct x as [[sg ds]|]; [|done]. intros Hx. destruct (Hx sg ds eq_refl) as (Hsg&Hd&Hne).
  cbn [exponent_part read_exponent]. simpl (_ || _).
  assert (sign_of (sg +:+ ds) = (sg =s "-", ds)) as -> by (by destruct Hsg as [->| ->]). cbv iota beta zeta.
  assert (take_digits ds = (ds, "")) as ->.
  { rewrite <- (str_app_nil_r ds) at 1. by apply take_digits_app. }
  cbv iota beta. by destruct (String.eqb_spec ds "").
Qed.

Lemma number_text_reads negative int frac x : parts_ok int frac x →
  read_float (number_text negative int frac x) =
  Some (negative, digits_of (int +:+ frac), exponent_of x - str_len frac).
Proof.
  intros Hp. pose proof (po_nonempty _ _ _ Hp) as Hne. destruct Hp as [Hi _ Hf Hx]. unfold read_float, number_text.
  set (rest := (if frac =s "" then "" else "." +:+ frac) +:+ exponent_part x).
  assert (sign_of ((if negative then "-" else "") +:+ int +:+ rest) = (negative, int +:+ rest)) as ->.
  { destruct negative; [done|]. destruct (digit_string int Hi Hne) as (h&t&->&Hh). rewrite str_app_nil_l, str_app_cons.
    by apply sign_of_digits. }
  rewrite take_digits_app by (done || apply frac_part_head).
  assert (read_fraction rest = (frac, exponent_part x)) as ->.
  { unfold rest. destruct (String.eqb_spec frac "") as [->|Hn].
    - rewrite str_app_nil_l. by destruct x as [[? ?]|].
    - rewrite str_app_assoc, str_app_cons, str_app_nil_l. cbn [read_fraction]. rewrite Ascii.eqb_refl.
      apply take_digits_app; [done|apply exponent_part_head]. }
  destruct (String.eqb_spec (int +:+ frac) "") as [E|_]; [by apply str_app_is_nil in E as [? _]|].
  by rewrite read_exponent_part.
Qed.

Lemma number_text_scans negative int frac x : parts_ok int frac x →
  scan_number (number_text negative int frac x) = Some (number_text negative int frac x, "").
Proof.
  intros Hp. pose proof (po_nonempty _ _ _ Hp) as Hne. destruct Hp as [Hi Hh Hf Hx]. unfold scan_number, number_text.
  set (rest := (if frac =s "" then "" else "." +:+ frac) +:+ exponent_part x).
  assert (Hs : (match expect "-" ((if negative then "-" else "") +:+ int +:+ rest) with
                | Some r => ("-", r) | None => ("", (if negative then "-" else "") +:+ int +:+ rest) end) =
               ((if negative then "-" else ""), int +:+ rest)).
  { destruct negative; [done|]. destruct (digit_string int Hi Hne) as (h&t&->&Hd). rewrite str_app_nil_l, str_app_cons. cbn [expect].
    by destruct (Ascii.eqb_spec h "-"%char) as [->|]. }
  rewrite Hs. cbv iota beta.
  assert (scan_int (int +:+ rest) = Some (int, rest)) as ->.
  { destruct Hh as [->|(h&t&->&H0)]; [done|]. rewrite str_app_cons. cbn [scan_int]. simpl in Hi.
    apply andb_true_iff in Hi as [Hdh Hdt]. destruct (Ascii.eqb_spec h "0"%char); [done|].
    by rewrite Hdh, take_digits_app by (done || apply frac_part_head). }
  cbn [mbind option_bind].
  assert (scan_fraction rest = Some (if frac =s "" then "" else "." +:+ frac, exponent_part x)) as ->.
  { unfold rest, scan_fraction. destruct (String.eqb_spec frac "") as [->|Hn].
    - rewrite str_app_nil_l. by rewrite (proj2 (exponent_part_head x)).
    - rewrite str_app_assoc, str_app_cons, str_app_nil_l, expect_same, take_digits_app by (done || apply exponent_part_head).
      by destruct (String.eqb_spec frac ""). }
  cbn [mbind option_bind].
  assert (scan_exponent (exponent_part x) = Some (exponent_part x, "")) as ->; [|done].
  destruct x as [[sg ds]|]; [|done]. destruct (Hx sg ds eq_refl) as (Hsg&Hd&Hn). cbn [exponent_part scan_exponent]. simpl (_ || _).
  assert (scan_sign (sg +:+ ds) = (sg, ds)) as -> by (by destruct Hsg as [->| ->]). cbv iota beta.
  assert (take_digits ds = (ds, "")) as -> by (rewrite <- (str_app_nil_r ds) at 1; by apply take_digits_app).
  cbv iota beta. by destruct (String.eqb_spec ds "").
Qed.

(** ** The ECMAScript layout denotes the decimal it lays out *)

Lemma take_drop n s : str_take n s +:+ str_drop n s = s.
Proof. revert s. induction n as [|n IH]; intros [|c s]; [done..|]. cbn [str_take str_drop]. by rewrite str_app_cons, IH. Qed.

Lemma take_len n s : Z.of_nat n <= str_len s → str_len (str_take n s) = Z.of_nat n.
Proof.
  revert s. unfold str_len. induction n as [|n IH]; intros [|c s] Hn; cbn [str_take String.length] in *; try lia.
  rewrite Nat2Z.inj_succ, IH; lia.
Qed.

Lemma drop_len n s : Z.of_nat n <= str_len s → str_len (str_drop n s) = str_len s - Z.of_nat n.
Proof. intros Hn. pose proof (take_len n s Hn) as Ht. rewrite <- (take_drop n s) at 2. rewrite str_len_app. lia. Qed.

Lemma take_drop_digits n s : all_chars is_digit s = true →
  all_chars is_digit (str_take n s) = true ∧ all_chars is_digit (str_drop n s) = true.
Proof. intros Hs. rewrite <- (take_drop n s), all_chars_app in Hs. by apply andb_true_iff. Qed.

Lemma exponent_value_small d : all_chars is_digit d = true → ∀ a, 0 <= a → a * 10 ^ str_len d + digits_of d < 100000 →
  exponent_value a d = a * 10 ^ str_len d + digits_of d.
Proof.
  induction d as [|c d IH]; intros Hd a Ha Hlt; [change (a = a * 1 + 0); lia|].
  simpl in Hd. apply andb_true_iff in Hd as [Hc Hd]. cbn [exponent_value].
  assert (Hdig : digits_of (String c d) = (code c - 48) * 10 ^ str_len d + digits_of d).
  { change (String c d) with (String c "" +:+ d). rewrite digits_of_app by (simpl; rewrite ?Hc; done).
    unfold digits_of at 1. cbn [digits_value]. by rewrite Hc. }
  assert (Hr : 0 <= code c - 48) by (unfold is_digit, in_class in Hc; bprop; lia).
  assert (Hv : 0 <= digits_of d).
  { destruct (digits_value_step d Hd) as (v&Hv&Hs). unfold digits_of. pose proof (Hs 0 "") as Hx.
    rewrite str_app_nil_r in Hx. rewrite Hx. simpl. lia. }
  rewrite Hdig in Hlt |- *. assert (Hl : str_len (String c d) = str_len d + 1) by (unfold str_len; cbn [String.length]; lia).
  rewrite Hl, Z.pow_add_r, Z.pow_1_r in Hlt |- * by (try apply str_len_nonneg; lia).
  assert (1 <= 10 ^ str_len d) by (pose proof (Z.pow_pos_nonneg 10 (str_len d) ltac:(lia) (str_len_nonneg d)); lia).
  replace (a <? 10000) with true by (symmetry; apply Z.ltb_lt; nia).
  rewrite IH; [lia|done|nia|nia].
Qed.

Lemma exponent_value_dec z : 0 <= z < 100000 → exponent_value 0 (dec z) = z.
Proof.
  intros Hz. destruct (dec_value z) as (Hd&Hv&_); [lia|].
  rewrite exponent_value_small; rewrite ?Hv; try done; lia.
Qed.

Lemma digits_of_0 s : digits_of (String "0" s) = digits_of s.
Proof. done. Qed.

(** The decimal a number text denotes. *)
Definition denotes (int frac : string) (x : option (string * string)) (c k : Z) : Prop :=
  (digits_of (int +:+ frac) = c ∧ exponent_of x - str_len frac = k) ∨
  (0 <= k ∧ digits_of (int +:+ frac) = c * 10 ^ k ∧ exponent_of x - str_len frac = 0).

Lemma layout_parts c k : 0 < c → -3000 <= k <= 3000 → str_len (dec c) <= 3000 →
  ∃ int frac x, parts_ok int frac x ∧ denotes int frac x c k ∧
    layout (dec c) (str_len (dec c) + k) =
    int +:+ (if frac =s "" then "" else "." +:+ frac) +:+ exponent_part x.
Proof.
  intros Hc Hk Hlen. destruct (dec_positive c Hc) as (h&t&He&Hh&H0&Ht&Hv).
  assert (Hd : all_chars is_digit (dec c) = true) by (apply dec_value; lia).
  assert (Hl : 1 <= str_len (dec c)) by (apply dec_value; lia).
  assert (Hhead : ∀ n, (1 <= n)%nat → ∃ t', str_take n (dec c) = String h t') by (intros [|n] Hn; [lia|rewrite He; by eexists]).
  unfold layout. set (L := str_len (dec c)) in *.
  destruct ((L <=? L + k) && (L + k <=? 21)) eqn:C1; [|destruct ((0 <? L + k) && (L + k <=? 21)) eqn:C2;
    [|destruct ((-6 <? L + k) && (L + k <=? 0)) eqn:C3]].
  - (* an integer *)
    bprop. destruct (zeros_facts (Z.to_nat (L + k - L))) as (Hz&Hz0&Hzl).
    exists (dec c +:+ zeros (Z.to_nat (L + k - L))), "", None.
    split; [constructor|split]; [|right; rewrite He; do 2 eexists; by rewrite str_app_cons|done|done| |by rewrite !str_app_nil_r].
    + by rewrite all_chars_app, Hd, Hz.
    + right. split; [lia|]. split; [|done]. rewrite str_app_nil_r, digits_of_app by done. rewrite Hz0, Hzl, Hv, Z2Nat.id by lia.
      replace (L + k - L) with k by lia. lia.
  - (* a point inside the digits *)
    bprop. set (n := Z.to_nat (L + k)). assert (Hn : Z.of_nat n = L + k) by lia.
    destruct (take_drop_digits n (dec c) Hd) as [Hd1 Hd2]. destruct (Hhead n) as [t' Ht']; [lia|].
    pose proof (drop_len n (dec c) ltac:(fold L; lia)) as Hdl. fold L in Hdl.
    exists (str_take n (dec c)), (str_drop n (dec c)), None.
    split; [constructor|split]; [done|right; rewrite Ht'; by do 2 eexists|done|done|left; rewrite take_drop; split; [done|simpl; lia]|].
    destruct (String.eqb_spec (str_drop n (dec c)) "") as [E|_]; [rewrite E in Hdl; change (str_len "") with 0 in Hdl; lia|].
    by rewrite str_app_nil_r.
  - (* leading zeros *)
    bprop. set (n := Z.to_nat (- (L + k))). destruct (zeros_facts n) as (Hz&Hz0&Hzl).
    exists "0", (zeros n +:+ dec c), None.
    split; [constructor|split]; [done|by left|by rewrite all_chars_app, Hz, Hd|done| |].
    + left. change ("0" +:+ (zeros n +:+ dec c)) with (String "0" (zeros n +:+ dec c)).
      rewrite digits_of_0, digits_of_app by done. rewrite str_len_app, Hz0, Hzl, Hv. fold L. simpl exponent_of. split; [lia|lia].
    + destruct (String.eqb_spec (zeros n +:+ dec c) "") as [E|_]; [apply str_app_is_nil in E as [_ E]; by rewrite He in E|].
      by rewrite str_app_nil_r.
  - (* an exponent *)
    destruct (take_drop_digits 1 (dec c) Hd) as [Hd1 Hd2]. destruct (Hhead 1%nat) as [t' Ht']; [lia|].
    pose proof (drop_len 1 (dec c) ltac:(fold L; lia)) as Hdl. fold L in Hdl.
    set (e := L + k - 1). set (sg := if e <? 0 then "-" else "+").
    assert (Hfrac : (if 1 <? L then "." +:+ str_drop 1 (dec c) else "") =
                    (if str_drop 1 (dec c) =s "" then "" else "." +:+ str_drop 1 (dec c))).
    { destruct (String.eqb_spec (str_drop 1 (dec c)) "") as [E|E].
      - rewrite E in Hdl. change (str_len "") with 0 in Hdl. replace (1 <? L) with false by lia. done.
      - assert (str_len (str_drop 1 (dec c)) ≠ 0); [destruct (str_drop 1 (dec c)); [done|unfold str_len; simpl; lia]|].
        replace (1 <? L) with true by lia. done. }
    exists (str_take 1 (dec c)), (str_drop 1 (dec c)), (Some (sg, dec (Z.abs e))).
    destruct (dec_value (Z.abs e)) as (He1&He2&He3); [lia|].
    split; [constructor|split]; [done|right; rewrite Ht'; by do 2 eexists|done| | |].
    + intros ? ? [= <- <-]. split; [unfold sg; destruct (e <? 0); auto|]. split; [done|]. intros E. rewrite E in He3. done.
    + left. rewrite take_drop. split; [done|]. cbn [exponent_of]. rewrite exponent_value_dec by lia.
      unfold sg. destruct (Z.ltb_spec e 0); [change ("-" =s "-") with true|change ("+" =s "-") with false]; cbv iota; lia.
    + rewrite Hfrac. fold e. cbn [exponent_part]. unfold sg. destruct (Z.ltb_spec e 0);
        [replace (Z.abs e) with (- e) by lia|replace (Z.abs e) with e by lia]; cbv iota beta; by rewrite str_app_assoc.
Qed.

(** ** [canonicalNumber] re-reads the text of [FormatFloat] *)

Lemma str_take_app a b : str_take (String.length a) (a +:+ b) = a.
Proof. induction a as [|c a IH]; [by destruct b|]. rewrite str_app_cons. cbn [String.length str_take]. by rewrite IH. Qed.

Lemma str_drop_app a b : str_drop (String.length a) (a +:+ b) = b.
Proof. induction a as [|c a IH]; [by destruct b|]. rewrite str_app_cons. cbn [String.length str_drop]. by rewrite IH. Qed.

Lemma index_byte_app c a b : all_chars (λ x, negb (Ascii.eqb x c)) a = true →
  index_byte c (a +:+ String c b) = Some (String.length a).
Proof.
  induction a as [|x a IH]; intros Ha; [by rewrite str_app_nil_l; simpl; rewrite Ascii.eqb_refl|].
  simpl in Ha. rewrite andb_true_iff, negb_true_iff in Ha. destruct Ha as [Hx Ha].
  rewrite str_app_cons. cbn [index_byte]. by rewrite Hx, (IH Ha).
Qed.

Lemma all_chars_weaken (p q : ascii → bool) s : (∀ c, p c = true → q c = true) → all_chars p s = true → all_chars q s = true.
Proof.
  intros Hpq. induction s as [|c s IH]; [done|]. simpl. rewrite !andb_true_iff. intros [Hc Hs]. auto.
Qed.

Lemma digit_not c : is_digit c = false → ∀ x, is_digit x = true → negb (Ascii.eqb x c) = true.
Proof. intros Hc x Hx. rewrite negb_true_iff. apply Ascii.eqb_neq. intros ->. congruence. Qed.

Lemma atoi_digits sg d : (sg = "+" ∨ sg = "-") → all_chars is_digit d = true → d ≠ "" → 0 <= digits_of d < 2 ^ 62 →
  atoi (sg +:+ d) = Some (if sg =s "-" then - digits_of d else digits_of d).
Proof.
  intros Hsg Hd Hne Hr. assert (Hv : digits_value 0 d = Some (digits_of d)).
  { pose proof (digits_value_app 0 d "" Hd) as Hx. rewrite str_app_nil_r in Hx. rewrite Hx. simpl. f_equal. }
  assert (Hb : ∀ v, - 2 ^ 62 < v < 2 ^ 62 → (min_int64 <=? v) && (v <=? max_int64) = true) by (unfold min_int64, max_int64; lia).
  destruct Hsg as [->| ->]; rewrite str_app_cons, str_app_nil_l; unfold atoi; simpl (Ascii.eqb _ _); cbv iota beta;
    (destruct (String.eqb_spec d ""); [done|]); rewrite Hv, Hb by lia; done.
Qed.

Lemma pad_digits z : 0 <= z → all_chars is_digit (pad 2 z) = true ∧ digits_of (pad 2 z) = z ∧ pad 2 z ≠ "".
Proof.
  intros Hz. destruct (dec_value z Hz) as (Hd&Hv&Hl). destruct (zeros_facts (2 - String.length (dec z))) as (Hz1&Hz2&Hz3).
  unfold pad. change (String.string_of_list_ascii _) with (zeros (2 - String.length (dec z))).
  rewrite all_chars_app, Hz1, Hd, digits_of_app, Hz2, Hv by done. split_and!; [done|lia|].
  intros [_ E]%str_app_is_nil. by rewrite E in Hl.
Qed.

Lemma exponent_text_atoi e : -5000 <= e <= 5000 → ∃ b, exponent_text e = String "e" b ∧ atoi b = Some e.
Proof.
  intros He. destruct (pad_digits (Z.abs e)) as (Hd&Hv&Hne); [lia|]. unfold exponent_text. eexists. split; [reflexivity|].
  rewrite atoi_digits; [|destruct (e <? 0); auto|done|done|rewrite Hv; lia].
  rewrite Hv. destruct (Z.ltb_spec e 0); f_equal; [change ("-" =s "-") with true|change ("+" =s "-") with false]; cbv iota; lia.
Qed.

(** The digits and the exponent are recovered from [format_e]. *)
Lemma format_e_reads c k : 0 < c → -1500 <= k <= 2000 → str_len (dec c) <= 1000 →
  ∃ a b, format_e c k = a +:+ String "e" b ∧ all_chars (λ x, negb (Ascii.eqb x "e")) a = true ∧
    atoi b = Some (str_len (dec c) + k - 1) ∧ remove_first "." a = dec c.
Proof.
  intros Hc Hk Hlen. destruct (dec_positive c Hc) as (h&t&He&Hh&_&Ht&_).
  assert (Hl : 1 <= str_len (dec c)) by (apply dec_value; lia).
  destruct (exponent_text_atoi (str_len (dec c) + k - 1)) as (b&Hb&Hat); [lia|].
  unfold format_e. rewrite Hb. unfold first_char, from_char. clear Hb.
  assert (String.substring 0 1 (dec c) = String h "") as -> by (rewrite He; simpl; by destruct t).
  assert (str_drop 1 (dec c) = t) as -> by by rewrite He.
  exists (String h "" +:+ (if t =s "" then "" else "." +:+ t)), b. split; [by rewrite str_app_assoc|].
  assert (Hdot : Ascii.eqb h "." = false) by (apply Ascii.eqb_neq; by intros ->).
  split_and!; [|done|].
  - rewrite str_app_cons, str_app_nil_l. simpl. rewrite (digit_not "e") by done. simpl. destruct (t =s ""); [done|]. simpl.
    by apply (all_chars_weaken is_digit); [apply digit_not|].
  - rewrite str_app_cons, str_app_nil_l, He. cbn [remove_first]. rewrite Hdot.
    destruct (String.eqb_spec t "") as [->|Hne]; [done|]. rewrite str_app_cons, str_app_nil_l. cbn [remove_first]. by rewrite Ascii.eqb_refl.
Qed.

(** ** What [canonicalNumber] returns *)

Lemma round_decimal_not_nan s c k : 0 <= c → round_decimal s c k ≠ S754_nan.
Proof.
  intros Hc. unfold round_decimal. destruct (Z.eqb_spec c 0); [done|]. unfold round_ratio.
  destruct (SFdiv_core_binary _ _ _ _ _ _) as [[q e] l] eqn:E. intros Hn.
  assert (Hq : 0 <= q).
  { revert E. unfold SFdiv_core_binary. set (m' := match _ with Z0 => _ | _ => _ end).
    assert (Hm : 0 <= m').
    { unfold m'. destruct (_ - _ - _); [|apply Z.shiftl_nonneg|done]; apply Z.mul_nonneg_nonneg; try lia; apply Z.pow_nonneg; lia. }
    destruct (Z.div_eucl m' _) as [q0 r0] eqn:Ed. intros [= <- <- <-].
    assert (q0 = m' / 10 ^ Z.max (- k) 0) as -> by (unfold Z.div; by rewrite Ed).
    apply Z.div_pos; [done|]. apply Z.pow_pos_nonneg; lia. }
  pose proof (round_aux_signed s q e l Hq) as Hs. by rewrite Hn in Hs.
Qed.

(** A parsed number is a machine number. *)
Lemma ParseFloat_Ok l x : ParseFloat l = Ok x →
  (∃ s, x = S754_zero s) ∨ (∃ s m e, x = S754_finite s m e ∧ bounded prec emax m e = true).
Proof.
  unfold ParseFloat. destruct (read_float l) as [[[neg c] k]|] eqn:E; [|done]. intros H. inv_ok H.
  assert (Hc : 0 <= c).
  { revert E. unfold read_float. destruct (sign_of l). destruct (take_digits _). destruct (read_fraction _).
    destruct (_ =s ""); [done|]. destruct (read_exponent _) as [[? ?]|]; [|done]. simpl. destruct (_ =s ""); [|done].
    intros [= <- <- <-]. apply digits_of_nonneg. }
  pose proof (round_decimal_not_nan neg c k Hc). pose proof (round_decimal_valid neg c k Hc) as Hv.
  destruct (round_decimal neg c k) as [s|s| |s m e]; try done; eauto 10.
Qed.

(** The canonical text of a machine number. *)
Definition canonical_text (x : f64) : string :=
  match x with
  | S754_finite s m e =>
      let '(c, k) := shortest m e in (if s then "-" else "") +:+ layout (dec c) (str_len (dec c) + k)
  | _ => "0"
  end.

(** Both zeros have one text. *)
Definition canonical_value (x : f64) : f64 := match x with S754_zero _ => fzero | _ => x end.

Lemma shortest_bounds m e : bounded prec emax m e = true →
  0 < (shortest m e).1 ∧ -1074 <= (shortest m e).2 <= 1800 ∧ str_len (dec (shortest m e).1) <= 901 ∧
  round_decimal false (shortest m e).1 (shortest m e).2 = S754_finite false m e.
Proof.
  intros Hb. destruct (shortest_spec m e Hb) as (Hr&Hc&Hk). split_and!; [lia|lia|lia| |done].
  apply (dec_length 901); [lia|]. split; [lia|]. destruct Hc as [_ Hc]. exact Hc.
Qed.

Lemma canonicalNumber_value l x : ParseFloat l = Ok x → canonicalNumber l = Ok (canonical_text x).
Proof.
  intros Hl. unfold canonicalNumber. rewrite Hl. simpl wrap_err. cbn [mbind result_bind].
  destruct (ParseFloat_Ok l x Hl) as [[s ->]|(s&m&e&->&Hb)]; [by destruct s|].
  assert (feq (S754_finite s m e) fzero = false) as -> by (by destruct s).
  destruct (shortest_bounds m e Hb) as (Hc&Hk&Hlen&_). unfold canonical_text.
  assert (Hf : FormatFloat_e (S754_finite false m e) = format_e (shortest m e).1 (shortest m e).2).
  { unfold FormatFloat_e. rewrite str_app_nil_l. by destruct (shortest m e). }
  destruct (shortest m e) as [c k]. cbn [fst snd] in *.
  destruct (format_e_reads c k) as (a&b&He&Ha&Hat&Hrm); [lia|lia|lia|]. rewrite He in Hf. clear He.
  assert (Hdrop : str_drop (S (String.length a)) (a +:+ String "e" b) = b).
  { change (String "e" b) with ("e" +:+ b). rewrite <- str_app_assoc.
    replace (S (String.length a)) with (String.length (a +:+ "e")) by (rewrite str_length_app; simpl; lia). apply str_drop_app. }
  destruct s; [change (flt _ _) with true|change (flt _ _) with false]; cbv iota beta;
    [change (fneg (S754_finite true m e)) with (S754_finite false m e)|];
    rewrite Hf, index_byte_app by done; rewrite Hdrop, Hat, str_take_app; cbn [mbind result_bind]; rewrite Hrm;
    do 3 f_equal; lia.
Qed.

Lemma canonical_text_parses l x : ParseFloat l = Ok x →
  ParseFloat (canonical_text x) = Ok (canonical_value x) ∧ scan_number (canonical_text x) = Some (canonical_text x, "").
Proof.
  intros [[s ->]|(s&m&e&->&Hb)]%ParseFloat_Ok; [done|].
  destruct (shortest_bounds m e Hb) as (Hc&Hk&Hlen&Hr). unfold canonical_text. destruct (shortest m e) as [c k]. cbn [fst snd] in *.
  destruct (layout_parts c k) as (int&frac&x&Hp&Hd&->); [lia|lia|lia|].
  fold (number_text s int frac x). split; [|by apply number_text_scans].
  unfold ParseFloat. rewrite (number_text_reads s int frac x Hp). destruct Hd as [[-> ->]|(H0&->&->)].
  - by rewrite (round_decimal_sign _ _ _ _ _ Hr).
  - rewrite round_decimal_scale by done. by rewrite (round_decimal_sign _ _ _ _ _ Hr).
Qed.

Lemma canonicalNumber_Ok l t : canonicalNumber l = Ok t →
  ∃ x, ParseFloat l = Ok x ∧ t = canonical_text x.
Proof.
  intros H. destruct (ParseFloat l) as [x|e] eqn:E.
  - exists x. split; [done|]. rewrite (canonicalNumber_value l x E) in H. by injection H.
  - unfold canonicalNumber in H. by rewrite E in H.
Qed.

(** The canonical text of a number is a JSON number with the same value and is
    its own canonical text. *)
Lemma canonicalNumber_fixed l t : canonicalNumber l = Ok t →
  scan_number t = Some (t, "") ∧ canonicalNumber t = Ok t ∧
  ∃ x, ParseFloat l = Ok x ∧ ParseFloat t = Ok (canonical_value x).
Proof.
  intros (x&Hx&->)%canonicalNumber_Ok. destruct (canonical_text_parses l x Hx) as [Hp Hs].
  split_and!; [done| |by exists x]. rewrite (canonicalNumber_value _ _ Hp). by destruct x.
Qed.

(** ** The key order is a strict total order on valid keys *)

Lemma units_less_irrefl a : units_less a a = false.
Proof. induction a as [|x a IH]; [done|]. simpl. by rewrite Z.eqb_refl. Qed.

Lemma units_less_asym a b : units_less a b = true → units_less b a = false.
Proof.
  revert b. induction a as [|x a IH]; intros [|y b]; simpl; [done..|].
  rewrite (Z.eqb_sym y x). destruct (Z.eqb_spec x y); [apply IH|]. intros. lia.
Qed.

Lemma units_less_total a b : units_less a b = false → units_less b a = false → a = b.
Proof.
  revert b. induction a as [|x a IH]; intros [|y b]; simpl; [done..|].
  rewrite (Z.eqb_sym y x). destruct (Z.eqb_spec x y) as [->|]; [intros; f_equal; by apply IH|]. intros. lia.
Qed.

Lemma units_less_trans a b c : units_less a b = true → units_less b c = true → units_less a c = true.
Proof.
  revert b c. induction a as [|x a IH]; intros [|y b] [|z c]; simpl; try done.
  destruct (Z.eqb_spec x y) as [->|]; destruct (Z.eqb_spec y z) as [->|]; rewrite ?Z.eqb_refl.
  - apply IH.
  - destruct (Z.eqb_spec y z); [lia|done].
  - destruct (Z.eqb_spec x z); [lia|done].
  - intros. destruct (Z.eqb_spec x z); lia.
Qed.

(** UTF-16 is a prefix code on scalar values. *)
Lemma utf16_encode_inj rs1 : ∀ rs2, Forall (λ r, scalar r = true) rs1 → Forall (λ r, scalar r = true) rs2 →
  utf16_encode rs1 = utf16_encode rs2 → rs1 = rs2.
Proof.
  assert (Hcons : ∀ r rs, utf16_encode (r :: rs) = utf16_units r ++ utf16_encode rs) by done.
  assert (Hunits : ∀ r, utf16_units r = if r <? 65536 then [r] else [55296 + (r - 65536) / 1024; 56320 + (r - 65536) mod 1024]) by done.
  induction rs1 as [|r1 rs1 IH]; intros [|r2 rs2] Hr1 Hr2; rewrite ?Hcons, ?Hunits; try done.
  - by destruct (r2 <? 65536).
  - by destruct (r1 <? 65536).
  - apply Forall_cons in Hr1 as [Hr1 Hrs1]. apply Forall_cons in Hr2 as [Hr2 Hrs2].
    apply scalar_range in Hr1. apply scalar_range in Hr2.
    destruct (Z.ltb_spec r1 65536), (Z.ltb_spec r2 65536); cbn [app]; intros [=];
      try (Z.to_euclidean_division_equations; lia); f_equal; try (by apply IH); Z.to_euclidean_division_equations; lia.
Qed.

Lemma utf16Less_total a b : valid_utf8 a → valid_utf8 b → a ≠ b → utf16Less a b = false → utf16Less b a = true.
Proof.
  intros Ha Hb Hne Hl. destruct (utf16Less b a) eqn:E; [done|]. destruct Hne.
  rewrite <- Ha, <- Hb. f_equal. apply utf16_encode_inj; [apply runes_scalar..|]. by apply units_less_total.
Qed.

(** ** Sorting the members *)

Section sort_lemmas.
Context {A : Type}.
Implicit Types (l : list (string * A)).

Definition key_less (p q : string * A) : Prop := utf16Less p.1 q.1 = true.

#[local] Instance key_less_antisymm : AntiSymm (=) key_less.
Proof. intros p q H1 H2. unfold key_less in *. apply units_less_asym in H1. unfold utf16Less in H2. congruence. Qed.

Definition keys_ok l : Prop := NoDup l.*1 ∧ Forall (λ p, valid_utf8 p.1) l.

Lemma keys_ok_perm l1 l2 : l1 ≡ₚ l2 → keys_ok l1 → keys_ok l2.
Proof. intros Hp. unfold keys_ok. by rewrite Hp. Qed.

Lemma insert_perm p l : insert_member p l ≡ₚ p :: l.
Proof.
  induction l as [|q l IH]; simpl; [done|]. destruct (utf16Less p.1 q.1); [done|]. rewrite IH. apply perm_swap.
Qed.

Lemma sort_perm l : sort_members l ≡ₚ l.
Proof. induction l as [|p l IH]; simpl; [done|]. by rewrite insert_perm, IH. Qed.

Lemma insert_sorted p l : keys_ok (p :: l) → StronglySorted key_less l → StronglySorted key_less (insert_member p l).
Proof.
  intros Hk. induction 1 as [|q l Hs IH Hq]; simpl; [by repeat constructor|].
  destruct Hk as [Hn Hv]. apply NoDup_cons in Hn as [Hp Hn]. apply Forall_cons in Hv as [Hvp Hv].
  simpl in Hn, Hp. apply NoDup_cons in Hn as [Hqn Hn]. apply Forall_cons in Hv as [Hvq Hv]. rewrite elem_of_cons in Hp.
  destruct (utf16Less p.1 q.1) eqn:E.
  - constructor; [by constructor|]. constructor; [done|]. eapply Forall_impl; [exact Hq|].
    intros x Hx. unfold key_less, utf16Less in *. by eapply units_less_trans.
  - constructor.
    + apply IH. split; [apply NoDup_cons; naive_solver|by constructor].
    + rewrite insert_perm. constructor; [|done]. unfold key_less. apply utf16Less_total; naive_solver.
Qed.

Lemma sort_sorted l : keys_ok l → StronglySorted key_less (sort_members l).
Proof.
  induction l as [|p l IH]; intros Hk; simpl; [constructor|].
  assert (keys_ok l) by (destruct Hk as [Hn Hv]; split; [by apply NoDup_cons in Hn as [_ ?]|by apply Forall_cons in Hv as [_ ?]]).
  apply insert_sorted; [|by apply IH]. eapply keys_ok_perm; [|exact Hk]. by rewrite sort_perm.
Qed.

(** The sorted list does not depend on the order of the members. *)
Lemma sort_unique l1 l2 : keys_ok l1 → l1 ≡ₚ l2 → sort_members l1 = sort_members l2.
Proof.
  intros Hk Hp. apply (StronglySorted_unique key_less).
  - by apply sort_sorted.
  - apply sort_sorted. by eapply keys_ok_perm.
  - by rewrite !sort_perm.
Qed.

Lemma sort_idemp l : keys_ok l → sort_members (sort_members l) = sort_members l.
Proof. intros Hk. symmetry. apply sort_unique; [done|]. by rewrite sort_perm. Qed.

End sort_lemmas.

Lemma sort_map {A B} (f : A → B) (l : list (string * A)) :
  sort_members (List.map (λ p, (p.1, f p.2)) l) = List.map (λ p, (p.1, f p.2)) (sort_members l).
Proof.
  induction l as [|p l IH]; simpl; [done|]. rewrite IH. clear IH. induction (sort_members l) as [|q l' IH]; simpl; [done|].
  destruct (utf16Less p.1 q.1); simpl; [done|]. by rewrite IH.
Qed.

(** ** The normal form of a document *)

(** Numbers as their canonical text, members in key order. *)
Fixpoint normal (v : jvalue) : jvalue :=
  match v with
  | VNumber l => VNumber (match canonicalNumber l with Ok t => t | Err _ => l end)
  | VArray items => VArray (List.map normal items)
  | VObject members => VObject (sort_members (List.map (λ p, (p.1, normal p.2)) members))
  | _ => v
  end.

Lemma all_ok_Ok {A} (l : list (result A)) xs : all_ok l = Ok xs ↔ Forall2 (λ r x, r = Ok x) l xs.
Proof.
  revert xs. induction l as [|r l IH]; intros xs; simpl.
  - split; [intros [= <-]; constructor|by inversion 1].
  - rewrite bind_Ok. setoid_rewrite bind_Ok. split.
    + intros (x&->&ys&Hys&[= <-]). constructor; [done|by apply IH].
    + inversion 1 as [|? x ? ys Hx Hys]; subst. exists x. split; [done|]. exists ys. split; [by apply IH|done].
Qed.

(** The texts of an array, of an object. *)
Lemma canonical_array items t : canonicalValue (VArray items) = Ok t ↔
  ∃ texts, Forall2 (λ v x, canonicalValue v = Ok x) items texts ∧ t = "[" +:+ comma_separated texts +:+ "]".
Proof.
  cbn [canonicalValue]. rewrite bind_Ok. split.
  - intros (xs&Hxs%all_ok_Ok&[= <-]). exists xs. split; [by apply Forall2_fmap_l in Hxs|done].
  - intros (xs&Hxs&->). exists xs. split; [|done]. apply all_ok_Ok. by apply Forall2_fmap_l.
Qed.

Lemma canonical_object members t : canonicalValue (VObject members) = Ok t ↔
  ∃ texts, Forall2 (λ p x, canonicalValue p.2 = Ok x) (sort_members members) texts ∧
    t = "{" +:+ comma_separated (zip_with (λ p x, canonicalString p.1 +:+ ":" +:+ x) (sort_members members) texts) +:+ "}".
Proof.
  cbn [canonicalValue]. rewrite sort_map, bind_Ok. set (l := sort_members members). clearbody l. split.
  - intros (xs&Hxs%all_ok_Ok&[= <-]). rewrite !Forall2_fmap_l in Hxs.
    assert (∃ texts, Forall2 (λ p x, canonicalValue p.2 = Ok x) l texts ∧
      xs = zip_with (λ p x, canonicalString p.1 +:+ ":" +:+ x) l texts) as (texts&Ht&->); [|by exists texts].
    induction Hxs as [|p x l xs Hx _ (texts&Ht&->)]; [by exists []|]. unfold compose, member_text in Hx. apply bind_Ok in Hx as (y&Hy&[= <-]).
    exists (y :: texts). split; [by constructor|done].
  - intros (texts&Ht&->). eexists. split; [|reflexivity]. apply all_ok_Ok. rewrite !Forall2_fmap_l.
    induction Ht as [|p x l texts Hx _ IH]; [constructor|]. cbn [zip_with]. constructor; [|done].
    unfold compose, member_text. cbn [fst snd]. by rewrite Hx.
Qed.

(** The first byte of a canonical text. *)
Lemma canonical_head v t : canonicalValue v = Ok t →
  ∃ c t', t = String c t' ∧ json_space c = false ∧ Ascii.eqb c "]" = false ∧ Ascii.eqb c "}" = false.
Proof.
  assert (Hn : ∀ t, scan_number t = Some (t, "") →
    ∃ c t', t = String c t' ∧ json_space c = false ∧ Ascii.eqb c "]" = false ∧ Ascii.eqb c "}" = false).
  { intros [|c t0] Ht; [done|]. exists c, t0. split; [done|]. unfold scan_number in Ht. cbn [expect] in Ht.
    destruct (Ascii.eqb_spec c "-"%char) as [->|]; [done|]. cbn [scan_int] in Ht.
    destruct (Ascii.eqb_spec c "0"%char) as [->|]; [done|]. destruct (is_digit c) eqn:Hd; [|done].
    split_and!; [|apply Ascii.eqb_neq; by intros ->..].
    unfold is_digit, in_class in Hd. unfold json_space. lia. }
  destruct v as [|b|l|s|items|members].
  - intros [= <-]. by do 2 eexists.
  - intros [= <-]. destruct b; by do 2 eexists.
  - intros [H _]%canonicalNumber_fixed. by apply Hn.
  - intros [= <-]. by do 2 eexists.
  - intros (?&_&->)%canonical_array. by do 2 eexists.
  - intros (?&_&->)%canonical_object. by do 2 eexists.
Qed.

Lemma skip_space_head c s : json_space c = false → skip_space (String c s) = String c s.
Proof. intros Hc. simpl. by rewrite Hc. Qed.

Lemma scan_literal_number t rest : scan_number t = Some (t, "") → number_end rest →
  ∃ c t', t = String c t' ∧ Ascii.eqb c quote = false ∧ Ascii.eqb c "{" = false ∧ Ascii.eqb c "[" = false ∧
  json_space c = false ∧ scan_literal (t +:+ rest) = Some (VNumber t, rest).
Proof.
  intros Ht Hr. pose proof (scan_number_extend _ _ _ Ht) as (_&Hne&He). specialize (He rest Hr).
  destruct t as [|c t0]; [done|]. exists c, t0. split; [done|].
  assert (Hc : c = "-"%char ∨ is_digit c = true).
  { unfold scan_number in Ht. cbn [expect] in Ht. destruct (Ascii.eqb_spec c "-"%char) as [->|]; [by left|right].
    cbn [scan_int] in Ht. destruct (Ascii.eqb_spec c "0"%char) as [->|]; [done|]. by destruct (is_digit c). }
  assert (Hno : ∀ x, x ≠ "-"%char → is_digit x = false → Ascii.eqb c x = false).
  { intros x Hx Hd. apply Ascii.eqb_neq. intros ->. destruct Hc; congruence. }
  rewrite !Hno by done. split_and!; try done.
  - destruct Hc as [->|Hc]; [done|]. unfold is_digit, in_class in Hc. unfold json_space. lia.
  - unfold scan_literal. rewrite str_app_cons in He |- *. cbn [expect_text expect]. rewrite !Hno by done. cbn [mbind option_bind].
    by rewrite He.
Qed.

(** ** Decoding the canonical text *)

(** The text [t] is read as the normal form of [v], wherever it stands. *)
Definition parses_as (v : jvalue) (t : string) : Prop :=
  ∀ depth rest fuel, depth + height v <= maxNestingDepth → number_end rest →
    (2 * String.length (t +:+ rest) < fuel)%nat → parse_value obj_put fuel depth (t +:+ rest) = Some (normal v, rest).

Lemma number_end_mark c rest : is_digit c = false → c ≠ "."%char → c ≠ "e"%char → c ≠ "E"%char → number_end (String c rest).
Proof. intros Hd H1 H2 H3. unfold number_end. cbn [digit_head expect]. by rewrite Hd, !(proj2 (Ascii.eqb_neq _ _)) by done. Qed.

Lemma comma_cons x y l : comma_separated (x :: y :: l) = x +:+ String "," (comma_separated (y :: l)).
Proof. done. Qed.

Lemma elements_parse items texts : Forall2 parses_as items texts → items ≠ [] → ∀ acc depth rest fuel,
  Forall (λ v, depth + height v <= maxNestingDepth) items →
  (2 * String.length (comma_separated texts +:+ String "]" rest) + 1 < fuel)%nat →
  parse_elements obj_put fuel depth acc (comma_separated texts +:+ String "]" rest) =
  Some (VArray (acc ++ List.map normal items), rest).
Proof.
  induction 1 as [|v t items texts Hv Hall IH]; intros Hne acc depth rest fuel Hh Hf; [done|]. clear Hne.
  apply Forall_cons in Hh as [Hh Hhs]. destruct fuel as [|fuel]; [lia|]. cbn [parse_elements].
  destruct Hall as [|v' t' items texts Hv' Hall].
  - cbn [comma_separated] in *. rewrite Hv by (done || lia || by apply number_end_mark). cbn [mbind option_bind].
    rewrite skip_space_head by done. simpl (expect "," _). rewrite expect_same. done.
  - rewrite comma_cons, str_app_assoc, str_app_cons in *.
    rewrite Hv by (done || (rewrite str_length_app in *; simpl in *; lia) || by apply number_end_mark). cbn [mbind option_bind].
    rewrite skip_space_head, expect_same by done. rewrite IH; [|done|done|].
    + cbn [List.map]. by rewrite <- app_assoc.
    + rewrite str_length_app in Hf. cbn [String.length] in Hf. lia.
Qed.

Definition member_of (p : string * jvalue) (x : string) : string := canonicalString p.1 +:+ ":" +:+ x.

Lemma members_parse members texts : Forall2 (λ p t, parses_as p.2 t ∧ ∃ c t', t = String c t' ∧ json_space c = false) members texts →
  members ≠ [] → ∀ acc depth rest fuel,
  NoDup (acc.*1 ++ members.*1) → Forall (λ p, valid_utf8 p.1) members →
  Forall (λ p, depth + height p.2 <= maxNestingDepth) members →
  (2 * String.length (comma_separated (zip_with member_of members texts) +:+ String "}" rest) + 1 < fuel)%nat →
  parse_members obj_put fuel depth acc (comma_separated (zip_with member_of members texts) +:+ String "}" rest) =
  Some (VObject (acc ++ List.map (λ p, (p.1, normal p.2)) members), rest).
Proof.
  induction 1 as [|p t members texts [Hv _] Hall IH]; intros Hne acc depth rest fuel Hn Hu Hh Hf; [done|]. clear Hne.
  apply Forall_cons in Hh as [Hh Hhs]. apply Forall_cons in Hu as [Hu Hus]. destruct fuel as [|fuel]; [lia|].
  cbn [parse_members]. assert (Hp : p.1 ∉ acc.*1).
  { apply NoDup_app in Hn as (_&Hn&_). intros Hin. by apply (Hn _ Hin), elem_of_cons; left. }
  assert (Hput : ∀ v, obj_put p.1 v acc = acc ++ [(p.1, v)]) by (intros; by apply obj_put_new).
  (* the key *)
  set (tail := match members with [] => String "}" rest | _ => String "," (comma_separated (zip_with member_of members texts) +:+ String "}" rest) end).
  assert (Htext : comma_separated (zip_with member_of (p :: members) (t :: texts)) +:+ String "}" rest =
    String quote (canonical_body (runes p.1) +:+ String quote (String ":" (t +:+ tail)))).
  { unfold tail. destruct Hall; cbn [zip_with]; [cbn [comma_separated]|rewrite comma_cons];
      unfold member_of at 1; unfold canonicalString; by rewrite !str_app_assoc, !str_app_cons, !str_app_assoc. }
  rewrite Htext in Hf |- *. clear Htext. rewrite skip_space_head, expect_same by done. cbn [mbind option_bind].
  destruct (canonical_string_scans p.1 (String ":" (t +:+ tail)) Hu) as (raw&->&Hraw). cbn [mbind option_bind].
  rewrite skip_space_head, expect_same by done. cbn [mbind option_bind]. rewrite Hraw.
  assert (Hlen : (2 * String.length (t +:+ tail) + 4 < fuel)%nat).
  { cbn [String.length] in Hf. rewrite str_length_app in Hf. cbn [String.length] in Hf. lia. }
  rewrite Hv; [|done| |lia]; [|unfold tail; destruct members; by apply number_end_mark]. cbn [mbind option_bind].
  unfold tail in *. clear tail. destruct Hall as [|p' t' members texts Hp' Hall].
  - rewrite skip_space_head by done. simpl (expect "," _). rewrite expect_same. by rewrite Hput.
  - rewrite skip_space_head, expect_same by done. rewrite Hput, IH; try done.
    + rewrite <- app_assoc. done.
    + rewrite fmap_app, <- app_assoc. done.
    + rewrite str_length_app in Hlen. cbn [String.length] in Hlen. lia.
Qed.

Lemma height_items v items : v ∈ items → height v < height (VArray items).
Proof.
  intros Hv. cbn [height]. induction items as [|x l IH]; [by apply elem_of_nil in Hv|].
  apply elem_of_cons in Hv as [->|Hv]; simpl in *; [lia|specialize (IH Hv); lia].
Qed.

Lemma height_members p members : p ∈ members → height p.2 < height (VObject members).
Proof.
  intros Hv. cbn [height]. induction members as [|x l IH]; [by apply elem_of_nil in Hv|].
  apply elem_of_cons in Hv as [->|Hv]; simpl in *; [lia|specialize (IH Hv); lia].
Qed.

Lemma parses_number l t : canonicalNumber l = Ok t → parses_as (VNumber l) t.
Proof.
  intros Hc depth rest fuel _ Hr Hf. pose proof (canonicalNumber_fixed l t Hc) as (Hs&_).
  destruct (scan_literal_number t rest Hs Hr) as (c&t'&Ht&H1&H2&H3&H4&H5). rewrite Ht in *. rewrite str_app_cons in *.
  destruct fuel as [|fuel]; [lia|]. cbn [parse_value]. rewrite skip_space_head, H1, H2, H3, H5 by done. simpl. by rewrite Hc.
Qed.

Lemma parses_string s : valid_utf8 s → parses_as (VString s) (canonicalString s).
Proof.
  intros Hs depth rest fuel _ _ Hf. destruct fuel as [|fuel]; [lia|]. unfold canonicalString in *.
  rewrite str_app_cons, str_app_assoc, str_app_cons, str_app_nil_l. cbn [parse_value]. rewrite skip_space_head by done.
  rewrite Ascii.eqb_refl. destruct (canonical_string_scans s rest Hs) as (raw&->&<-). done.
Qed.

Lemma parses_array items texts : Forall2 parses_as items texts →
  Forall2 (λ v x, canonicalValue v = Ok x) items texts → parses_as (VArray items) ("[" +:+ comma_separated texts +:+ "]").
Proof.
  intros Hp Hc depth rest fuel Hd Hr Hf. destruct fuel as [|fuel]; [lia|].
  rewrite !str_app_assoc, !str_app_cons, !str_app_nil_l in Hf |- *. cbn [parse_value]. rewrite skip_space_head by done.
  simpl (Ascii.eqb _ _). cbv iota.
  assert (Hh : 0 <= foldr Z.max 0 (List.map height items)) by (clear; induction items; simpl; lia).
  destruct (Z.ltb_spec maxNestingDepth (depth + 1)); [cbn [height] in Hd; lia|].
  destruct Hp as [|v t items texts Hv Hall]; [done|]. inversion Hc as [|? ? ? ? Hvt]; subst.
  destruct (canonical_head v t Hvt) as (c&t'&Et&Hsp&Hb&_).
  assert (Hhead : ∃ r, comma_separated (t :: texts) +:+ String "]" rest = String c r).
  { rewrite Et. destruct texts; eexists; [cbn [comma_separated]; by rewrite str_app_cons|by rewrite comma_cons, !str_app_cons]. }
  destruct Hhead as [r Er]. rewrite Er at 1. rewrite skip_space_head by done. cbn [expect]. rewrite Hb.
  rewrite (elements_parse (v :: items)); [done|by constructor|done| |cbn [String.length] in Hf; lia].
  apply Forall_forall. intros x Hx. pose proof (height_items x (v :: items) Hx). lia.
Qed.

Lemma parses_object members texts :
  keys_ok members → Forall2 (λ p x, parses_as p.2 x ∧ canonicalValue p.2 = Ok x) members texts →
  ∀ depth rest fuel, depth + height (VObject members) <= maxNestingDepth → number_end rest →
  let t := "{" +:+ comma_separated (zip_with member_of members texts) +:+ "}" in
  (2 * String.length (t +:+ rest) < fuel)%nat →
  parse_value obj_put fuel depth (t +:+ rest) = Some (VObject (List.map (λ p, (p.1, normal p.2)) members), rest).
Proof.
  intros [Hn Hk] Hp depth rest fuel Hd Hr t Hf. subst t. destruct fuel as [|fuel]; [lia|].
  rewrite !str_app_assoc, !str_app_cons, !str_app_nil_l in Hf |- *. cbn [parse_value]. rewrite skip_space_head by done.
  simpl (Ascii.eqb _ _). cbv iota.
  assert (Hh : 0 <= foldr Z.max 0 (List.map (λ p : string * jvalue, height p.2) members)) by (clear; induction members; simpl; lia).
  destruct (Z.ltb_spec maxNestingDepth (depth + 1)); [cbn [height] in Hd; lia|].
  destruct (decide (members = [])) as [->|Hne]; [done|].
  assert (Hhead : ∃ r, comma_separated (zip_with member_of members texts) +:+ String "}" rest = String quote r).
  { destruct Hp as [|p x members texts _ Hall]; [done|]. destruct Hall; cbn [zip_with]; [cbn [comma_separated]|rewrite comma_cons];
      unfold member_of at 1, canonicalString; eexists; by rewrite !str_app_cons. }
  destruct Hhead as [r Er]. rewrite Er at 1. rewrite skip_space_head by done. simpl (expect _ _).
  rewrite members_parse; [done| |done|done|done| |cbn [String.length] in Hf; lia].
  - eapply Forall2_impl; [exact Hp|]. intros p x [H1 (c&t'&->&Hc&_)%canonical_head]. split; [done|]. by exists c, t'.
  - apply Forall_forall. intros p Hx. pose proof (height_members p members Hx). lia.
Qed.

Lemma canonical_parses v : wf_json v → ∀ t, canonicalValue v = Ok t → parses_as v t.
Proof.
  induction v as [|b|l|s|items IH|members IH] using jvalue_nested; intros Hw t Ht.
  - injection Ht as <-. intros depth rest [|fuel] _ _ Hf; [lia|]. done.
  - injection Ht as <-. intros depth rest [|fuel] _ _ Hf; [lia|]. by destruct b.
  - by apply parses_number.
  - inversion Hw; subst. injection Ht as <-. by apply parses_string.
  - inversion Hw as [| | | |? Hws|]; subst. apply canonical_array in Ht as (texts&Ht&->). apply parses_array; [|done].
    clear Hw. revert IH Hws. induction Ht as [|v x items texts Hv _ IHt]; intros IH Hws; [constructor|].
    apply Forall_cons in IH as [IH1 IH]. apply Forall_cons in Hws as [Hw Hws]. constructor; auto.
  - inversion Hw as [| | | | |? Hn Hk Hws]; subst. apply canonical_object in Ht as (texts&Ht&->).
    assert (Hperm : sort_members members ≡ₚ members) by apply sort_perm.
    assert (Hp : Forall2 (λ p x, parses_as p.2 x ∧ canonicalValue p.2 = Ok x) (sort_members members) texts).
    { rewrite <- Hperm in IH, Hws. clear Hw Hn Hk Hperm. revert IH Hws.
      induction Ht as [|p x l texts Hv _ IHt]; intros IH Hws; [constructor|].
      apply Forall_cons in IH as [IH1 IH]. apply Forall_cons in Hws as [Hw Hws]. constructor; auto. }
    intros depth rest fuel Hd Hr Hf. cbn [normal]. rewrite sort_map.
    apply parses_object; [|done| |done|done].
    + eapply keys_ok_perm; [symmetry; apply sort_perm|done].
    + cbn [height] in *. replace (foldr Z.max 0 (List.map (λ p : string * jvalue, height p.2) (sort_members members)))
        with (foldr Z.max 0 (List.map (λ p : string * jvalue, height p.2) members)); [done|].
      clear -Hperm. induction Hperm; simpl; lia.
Qed.

(** ** Normal forms are canonical *)

Lemma wf_normal v t : wf_json v → canonicalValue v = Ok t → wf_json (normal v) ∧ canonicalValue (normal v) = Ok t.
Proof.
  revert t. induction v as [|b|l|s|items IH|members IH] using jvalue_nested; intros t Hw Ht; try done.
  - destruct (canonicalNumber_fixed l t Ht) as (Hs&Hf&_). change (canonicalNumber l = Ok t) in Ht.
    cbn [normal]. rewrite Ht. split; [by constructor|done].
  - inversion Hw as [| | | |? Hws|]; subst. apply canonical_array in Ht as (texts&Ht&->).
    assert (Hn : Forall wf_json (List.map normal items) ∧ Forall2 (λ v x, canonicalValue v = Ok x) (List.map normal items) texts).
    { clear Hw. revert IH Hws. induction Ht as [|v x items texts Hv _ IHt]; intros IH Hws; [by split; constructor|].
      apply Forall_cons in IH as [IH1 IH]. apply Forall_cons in Hws as [Hw Hws].
      destruct (IH1 x Hw Hv) as [H1 H2], (IHt IH Hws) as [H3 H4]. split; constructor; done. }
    destruct Hn as [Hn1 Hn2]. split; [by constructor|]. apply canonical_array. by exists texts.
  - inversion Hw as [| | | | |? Hn Hk Hws]; subst. apply canonical_object in Ht as (texts&Ht&->).
    assert (Hperm : sort_members members ≡ₚ members) by apply sort_perm. cbn [normal]. rewrite sort_map.
    assert (Hs : Forall (λ p, wf_json p.2) (List.map (λ p, (p.1, normal p.2)) (sort_members members)) ∧
      Forall2 (λ p x, canonicalValue p.2 = Ok x) (List.map (λ p, (p.1, normal p.2)) (sort_members members)) texts).
    { rewrite <- Hperm in IH, Hws. clear Hw Hn Hk Hperm. revert IH Hws.
      induction Ht as [|p x l texts Hv _ IHt]; intros IH Hws; [by split; constructor|].
      apply Forall_cons in IH as [IH1 IH]. apply Forall_cons in Hws as [Hw Hws].
      destruct (IH1 x Hw Hv) as [H1 H2], (IHt IH Hws) as [H3 H4]. split; constructor; done. }
    destruct Hs as [Hs1 Hs2]. set (l := List.map (λ p, (p.1, normal p.2)) (sort_members members)) in *.
    assert (Hkeys : l.*1 = (sort_members members).*1).
    { unfold l. clear. induction (sort_members members) as [|p m IH]; [done|]. cbn [List.map fmap list_fmap fst]. f_equal. apply IH. }
    assert (Hl : keys_ok l).
    { split; [by rewrite Hkeys, Hperm|]. apply Forall_forall. intros p Hp. rewrite <- Hperm in Hk.
      assert (Hin : p.1 ∈ (sort_members members).*1) by (rewrite <- Hkeys; by apply list_elem_of_fmap_2).
      apply list_elem_of_fmap in Hin as (q&->&Hq). by rewrite Forall_forall in Hk; apply Hk. }
    split; [constructor; [apply Hl|apply Hl|done]|]. apply canonical_object.
    assert (Hsort : sort_members l = l) by (unfold l; rewrite sort_map, sort_idemp by done; done).
    exists texts. rewrite Hsort. split; [done|]. do 3 f_equal. unfold l.
    clear. generalize (sort_members members). intros m. revert texts. induction m as [|p m IH]; intros [|x texts]; try done.
    cbn [List.map zip_with]. f_equal. apply IH.
Qed.

(** The decoder reads a canonical text as the normal form, whole. *)
Lemma parse_canonical v t : ok_at 0 v → canonicalValue v = Ok t → parse_document t = Some (normal v, "").
Proof.
  intros [Hw Hh] Ht. unfold parse_document, parse_text. rewrite <- (str_app_nil_r t) at 2.
  apply canonical_parses; [done|done|lia|done|]. rewrite str_app_nil_r. lia.
Qed.

(** ** Documents that differ in the order of their members only *)

Inductive same_document : jvalue → jvalue → Prop :=
| same_refl v : same_document v v
| same_array l1 l2 : Forall2 same_document l1 l2 → same_document (VArray l1) (VArray l2)
| same_object m1 m2 m : m1 ≡ₚ m →
    Forall2 (λ p q, p.1 = q.1 ∧ same_document p.2 q.2) m m2 → same_document (VObject m1) (VObject m2).

Lemma same_canonical v1 : ∀ v2, wf_json v1 → same_document v1 v2 → canonicalValue v1 = canonicalValue v2.
Proof.
  induction v1 as [|b|l|s|items IH|members IH] using jvalue_nested; intros v2 Hw Hs; inversion Hs as [|l1 l2 Hl|m1 m2 m Hp Hm]; subst; try done.
  - inversion Hw as [| | | |? Hws|]; subst. cbn [canonicalValue]. do 2 f_equal. clear Hw Hs. revert IH Hws.
    induction Hl as [|x y l1 l2 Hxy _ IHl]; intros IH Hws; [done|].
    apply Forall_cons in IH as [IH1 IH]. apply Forall_cons in Hws as [Hw Hws]. cbn [List.map]. f_equal; auto.
  - inversion Hw as [| | | | |? Hn Hk Hws]; subst. cbn [canonicalValue]. rewrite !sort_map.
    rewrite (sort_unique members m) by (split || done; done). rewrite Hp in IH, Hws, Hn, Hk. clear Hw Hs Hp.
    assert (Hvals : List.map (λ p, (p.1, canonicalValue p.2)) m = List.map (λ p, (p.1, canonicalValue p.2)) m2).
    { clear Hn Hk. revert IH Hws. induction Hm as [|x y l1 l2 [Hk Hxy] _ IHl]; intros IH Hws; [done|].
      apply Forall_cons in IH as [IH1 IH]. apply Forall_cons in Hws as [Hw Hws]. cbn [List.map].
      f_equal; [|auto]. rewrite Hk. f_equal. auto. }
    rewrite <- !sort_map, Hvals. done.
Qed.
