(* ===== verification/Unmarshal.v ===== *)
(** * Decoding JSON into typed values ([json.Unmarshal], [Decoder.Decode])

    A decoder takes the value a field has before and what the document says
    about it, as the package does: [null] leaves a scalar or a struct as it is, a
    repeated member is decoded over what the first one left, and the elements of
    a repeated array over those that were there.  The package collects a type
    error and goes on; since it returns the error in the end, a decoder stops at
    it.  Field names match up to case folding.  A [json.RawMessage] is the member
    list of its text. *)

From S2P Require Import Prelude GoStrings Float64 GoFormat GoUtf8 GoNumber GoJson.
From Stdlib Require Import Ascii.

Definition Decoder (A : Type) : Type := A → jvalue → result A.

Definition ErrUnmarshal : error := EText "json: cannot unmarshal value".

(** ** Scalars *)

Definition dec_string : Decoder string := λ old v,
  match v with VString s => Ok s | VNull => Ok old | _ => Err ErrUnmarshal end.

Definition dec_bool : Decoder bool := λ old v,
  match v with VBool b => Ok b | VNull => Ok old | _ => Err ErrUnmarshal end.

(** [strconv.ParseInt(literal, 10, 64)] *)
Definition dec_int64 : Decoder Z := λ old v,
  match v with
  | VNumber l => match atoi l with Some z => Ok z | None => Err ErrUnmarshal end
  | VNull => Ok old
  | _ => Err ErrUnmarshal
  end.

Definition dec_float64 : Decoder f64 := λ old v,
  match v with
  | VNumber l => match ParseFloat l with Ok x => Ok x | Err _ => Err ErrUnmarshal end
  | VNull => Ok old
  | _ => Err ErrUnmarshal
  end.

Definition valid_number (s : string) : bool := bool_decide (scan_number s = Some (s, "")).

(** A [json.Number]: a number, or a string that spells one. *)
Definition dec_number : Decoder string := λ old v,
  match v with
  | VNumber l => Ok l
  | VString s => if valid_number s then Ok s else Err ErrUnmarshal
  | VNull => Ok old
  | _ => Err ErrUnmarshal
  end.

(** A [json.RawMessage]; [None] is the empty message. *)
Definition dec_raw : Decoder (option jvalue) := λ _ v, Ok (Some v).

(** ** Slices

    The backing array keeps the elements a longer slice had. *)

Record slice (A : Type) : Type := mkSlice { sl_len : nat; sl_backing : list A }.
Arguments mkSlice {A}. Arguments sl_len {A}. Arguments sl_backing {A}.

Definition nil_slice {A} : slice A := mkSlice 0 [].
Definition elements_of {A} (s : slice A) : list A := take (sl_len s) (sl_backing s).

Fixpoint dec_elements {A} (zero : A) (d : Decoder A) (backing : list A) (items : list jvalue) : result (list A) :=
  match items with
  | [] => Ok backing
  | v :: rest =>
      x ← d (hd zero backing) v;
      xs ← dec_elements zero d (tl backing) rest;
      Ok (x :: xs)
  end.

Definition dec_slice {A} (zero : A) (d : Decoder A) : Decoder (slice A) := λ old v,
  match v with
  | VArray [] => Ok nil_slice
  | VArray items => backing ← dec_elements zero d (sl_backing old) items; Ok (mkSlice (length items) backing)
  | VNull => Ok nil_slice
  | _ => Err ErrUnmarshal
  end.

(** ** Maps and structs *)

Fixpoint dec_entries {A} (zero : A) (d : Decoder A) (m : gmap string A) (members : list (string * jvalue))
    : result (gmap string A) :=
  match members with
  | [] => Ok m
  | (k, v) :: rest => x ← d zero v; dec_entries zero d (<[k := x]> m) rest
  end.

Definition dec_map {A} (zero : A) (d : Decoder A) : Decoder (gmap string A) := λ old v,
  match v with VObject members => dec_entries zero d old members | VNull => Ok ∅ | _ => Err ErrUnmarshal end.

(** Field names match up to case folding; beside the ASCII letters only the
    Kelvin sign and the long s fold to a letter of a field name. *)
Definition fold_rune (r : Z) : Z :=
  if (97 <=? r) && (r <=? 122) then r - 32 else if r =? 8490 then 75 else if r =? 383 then 83 else r.

Definition same_name (name key : string) : bool :=
  bool_decide (fold_rune <$> runes name = fold_rune <$> runes key).

Fixpoint find_field {A} (key : string) (fields : list (string * Decoder A)) : option (Decoder A) :=
  match fields with
  | [] => None
  | (name, d) :: rest => if same_name name key then Some d else find_field key rest
  end.

(** [strict] is [DisallowUnknownFields]. *)
Fixpoint dec_fields {A} (strict : bool) (fields : list (string * Decoder A)) (x : A) (members : list (string * jvalue))
    : result A :=
  match members with
  | [] => Ok x
  | (k, v) :: rest =>
      match find_field k fields with
      | Some d => x' ← d x v; dec_fields strict fields x' rest
      | None => if strict then Err ErrUnmarshal else dec_fields strict fields x rest
      end
  end.

Definition dec_struct {A} (strict : bool) (fields : list (string * Decoder A)) : Decoder A := λ old v,
  match v with VObject members => dec_fields strict fields old members | VNull => Ok old | _ => Err ErrUnmarshal end.

(** A field of a struct: how to read and to store it. *)
Definition field {A B} (name : string) (get : A → B) (set : A → B → A) (d : Decoder B) : string * Decoder A :=
  (name, λ x v, y ← d (get x) v; Ok (set x y)).

(** ** Entry points *)

(** [json.Unmarshal]: one value and nothing but space after it. *)
Definition Unmarshal {A} (d : Decoder A) (zero : A) (raw : string) : result A :=
  match parse_text put_last raw with
  | Some (v, rest) => if skip_space rest =s "" then d zero v else Err (EText "invalid character after top-level value")
  | None => Err (EText "invalid JSON")
  end.

(** [Decoder.Decode]: the first value, whatever follows. *)
Definition Decode {A} (d : Decoder A) (zero : A) (raw : string) : result A :=
  match parse_text put_last raw with
  | Some (v, _) => d zero v
  | None => Err (EText "invalid JSON")
  end.

(** [json.Unmarshal] of a [json.RawMessage]. *)
Definition UnmarshalRaw {A} (d : Decoder A) (zero : A) (raw : option jvalue) : result A :=
  match raw with Some v => d zero v | None => Err (EText "unexpected end of JSON input") end.

Example decode_folded :
  Unmarshal (dec_struct false [field "alg" (λ s, s) (λ _ s, s) dec_string]) "" (quoted "{'ALG': 'x', 'other': 1} ") = Ok "x".
Proof. vm_compute. reflexivity. Qed.

(** ** What decoding keeps *)

(** A decoder keeps what all its fields keep. *)
Lemma dec_fields_inv {A} (Q : A → Prop) strict (fields : list (string * Decoder A)) members : ∀ x y,
  (∀ name d x y v, (name, d) ∈ fields → Q x → d x v = Ok y → Q y) →
  Q x → dec_fields strict fields x members = Ok y → Q y.
Proof.
  induction members as [|[k v] rest IH]; intros x y Hd Hx; simpl; [by intros [= <-]|].
  destruct (find_field k fields) as [d|] eqn:Ef.
  - intros (x'&Hv&Hr)%bind_Ok. eapply (IH x'); [done| |exact Hr].
    assert (Hin : ∃ name, (name, d) ∈ fields).
    { clear -Ef. induction fields as [|[name d'] fields IH]; simpl in Ef; [done|]. destruct (same_name name k).
      - simplify_eq. exists name. by left.
      - destruct (IH Ef) as [name' ?]. exists name'. by right. }
    destruct Hin as [name Hin]. by eapply Hd.
  - destruct strict; [done|]. by apply IH.
Qed.
