(* ===== verification/Provenance.v ===== *)
(** * Envelope provenance ([internal/provenance/provenance.go])

    A JWS over the canonical JSON of an envelope without its signature field.
    Ed25519 is a parameter: [Ed25519] verifies, [Ed25519Signer] signs and
    derives the public key of a seed, [Ed25519Laws] states that a signature
    verifies when the private key was derived from its seed.  Nothing is
    assumed of a key whose second half is something else. *)

From S2P Require Import Prelude GoStrings GoTime GoFormat Base64 GoUtf8 GoNumber GoJson JsonProofs Jcs JcsProofs Unmarshal Feed.
From Stdlib Require Import Ascii.

Class Ed25519Signer : Type := {
  ed25519_sign : string → string → string;
  ed25519_seed_public : string → string }.

(** [NewKeyFromSeed] and [PrivateKey.Public]: a private key is its seed followed
    by the public key of the seed, and its public half is read off the end. *)
Definition ed25519_from_seed `{Ed25519Signer} (seed : string) : string :=
  seed +:+ ed25519_seed_public seed.
Definition ed25519_public (key : string) : string := str_drop 32 key.

(** A private key whose public half belongs to its seed. *)
Definition matched_key `{Ed25519Signer} (key : string) : Prop :=
  ∃ seed, str_len seed = 32 ∧ key = ed25519_from_seed seed.

Class Ed25519Laws `{Ed25519} `{Ed25519Signer} : Prop := {
  verify_sign seed m : str_len seed = 32 →
    ed25519_verify (ed25519_seed_public seed) m (ed25519_sign (ed25519_from_seed seed) m) = true;
  sign_size k m : str_len k = 64 → str_len (ed25519_sign k m) = 64;
  seed_public_size seed : str_len seed = 32 → str_len (ed25519_seed_public seed) = 32 }.

(** ** Constants and key identifiers *)

Definition Algorithm : string := "EdDSA".
Definition maxDirectoryBytes : Z := 1048576.
Definition maxKidLength : Z := 128.
Definition PrivateKeySize : Z := 64.
Definition SeedSize : Z := 32.

(** The bytes of ContainsAny's argument: quote, point, space, tab, CR, LF. *)
Definition kid_forbidden (c : ascii) : bool :=
  Ascii.eqb c quote || Ascii.eqb c "." || (code c =? 32) || (code c =? 9) || (code c =? 13) || (code c =? 10).

Definition validateKid (kid : string) : result unit :=
  fail_if ((kid =s "") || (maxKidLength <? str_len kid) || (trim_space kid <>s kid) ||
           negb (all_chars (λ c, negb (kid_forbidden c)) kid))
    (EText "key id is not canonical non-empty text").

(** Unpadded or padded URL-safe base64. *)
Definition decodeBase64URL (value : string) : option string :=
  match DecodeString RawURLEncoding value with
  | Some decoded => Some decoded
  | None => DecodeString URLEncoding value
  end.

Definition decodeJSON (raw : string) : result jvalue :=
  match parse_document raw with
  | None => Err (EText "invalid JSON")
  | Some (document, rest) =>
      _ ← fail_if (decoder_more rest) (EText "trailing data after JSON document"); Ok document
  end.

(** ** The signed payload *)

Definition member_string (m : list (string * jvalue)) (k : string) : string :=
  match obj_get k m with Some (VString s) => s | _ => "" end.

(** The document without [provenance.signature], and the signature. *)
Definition unsigned_document (document : jvalue) : result (jvalue * string) :=
  match document with
  | VObject object =>
      match obj_get "provenance" object with
      | Some (VObject provenance) =>
          Ok (VObject (obj_put "provenance" (VObject (obj_delete "signature" provenance)) object),
              member_string provenance "signature")
      | _ => Err (EText "envelope provenance is not a JSON object")
      end
  | _ => Err (EText "envelope is not a JSON object")
  end.

Definition SignedPayload (raw : string) : result (string * string) :=
  document ← wrap_err "decode envelope for provenance" (decodeJSON raw);
  '(unsigned, signature) ← unsigned_document document;
  canonical ← wrap_err "canonicalize envelope" (Canonicalize unsigned);
  Ok (canonical, signature).

(** ** Signer *)

(** A string as [json.Marshal] writes it: the HTML characters and the line
    separators are escaped, an invalid byte becomes [\ufffd]. *)
Definition marshal_rune (r : Z) : string :=
  if r =? 34 then esc (String quote "")
  else if r =? 92 then esc (String backslash "")
  else if r =? 8 then esc "b"
  else if r =? 12 then esc "f"
  else if r =? 10 then esc "n"
  else if r =? 13 then esc "r"
  else if r =? 9 then esc "t"
  else if (r <? 32) || (r =? 60) || (r =? 62) || (r =? 38) then
    esc "u00" +:+ String (hex_digit (Z.land (Z.shiftr r 4) 15)) (String (hex_digit (Z.land r 15)) "")
  else if (r =? 8232) || (r =? 8233) then esc "u202" +:+ String (hex_digit (Z.land r 15)) ""
  else encode_rune r.

Fixpoint marshal_body (fuel : nat) (s : string) : string :=
  match fuel, s with
  | S fuel, String c rest =>
      let '(r, s') := next_rune c rest in
      (if (r =? RuneError) && (s' =s rest) then esc "ufffd" else marshal_rune r) +:+ marshal_body fuel s'
  | _, _ => ""
  end.

Definition marshal_string (s : string) : string :=
  String quote (marshal_body (String.length s) s +:+ String quote "").

(** [{"alg":"EdDSA","kid":<kid>}] *)
Definition header_text (kid : string) : string :=
  "{" +:+ marshal_string "alg" +:+ ":" +:+ marshal_string Algorithm +:+ "," +:+
  marshal_string "kid" +:+ ":" +:+ marshal_string kid +:+ "}".

Record Signer : Type := mkSigner { sg_kid : string; sg_key : string }.

Section signer.
Context `{Ed25519Signer}.

Definition NewSigner (kid key : string) : result Signer :=
  _ ← validateKid kid;
  if str_len key =? PrivateKeySize then Ok (mkSigner kid key)
  else if str_len key =? SeedSize then Ok (mkSigner kid (ed25519_from_seed key))
  else Err (EText "Ed25519 private key has a wrong size").

(** [environment] is the value of PROVENANCE_SIGNING_KEY. *)
Definition LoadSignerFromEnv (environment kid : string) : result Signer :=
  let value := trim_space environment in
  if value =s "" then Err (EText "PROVENANCE_SIGNING_KEY is required")
  else match decodeBase64URL value with
       | None => Err (EText "PROVENANCE_SIGNING_KEY is not base64url")
       | Some key => NewSigner kid key
       end.

(** A nil signer is [None]. *)
Definition PrivateKey (s : option Signer) : option string := sg_key <$> s.
Definition KeyID (s : Signer) : string := sg_kid s.
Definition PublicKey (s : Signer) : string := EncodeToString RawURLEncoding (ed25519_public (sg_key s)).

Definition Sign (s : option Signer) (payload : string) : result string :=
  match s with
  | None => Err (EText "provenance signer is required")
  | Some s =>
      if sg_key s =s "" then Err (EText "provenance signer is required")
      else
        let input := EncodeToString RawURLEncoding (header_text (sg_kid s)) +:+ "." +:+ EncodeToString RawURLEncoding payload in
        let signature := ed25519_sign (sg_key s) input in
        Ok (input +:+ "." +:+ EncodeToString RawURLEncoding signature)
  end.

(** [raw] is what [json.Marshal] writes for the envelope, or its error. *)
Definition SignEnvelope (s : option Signer) (raw : result string) : result string :=
  raw ← wrap_err "encode envelope for signing" raw;
  '(payload, _) ← SignedPayload raw;
  Sign s payload.

End signer.

(** ** Directory *)

Record Directory : Type := mkDirectory { dir_keys : gmap string string }.

(** [order] is the order of the range over the decoded map. *)
Fixpoint directory_entries (order : list string) (object : list (string * jvalue)) (keys : gmap string string)
    : result (gmap string string) :=
  match order with
  | [] => Ok keys
  | kid :: rest =>
      _ ← wrap_err "key directory entry" (validateKid kid);
      match obj_get kid object with
      | Some (VString encoded) =>
          match decodeBase64URL encoded with
          | Some key =>
              _ ← fail_if (negb (str_len key =? PublicKeySize)) (EText "key directory entry is not an Ed25519 public key");
              directory_entries rest object (<[kid := key]> keys)
          | None => Err (EText "key directory entry is not an Ed25519 public key")
          end
      | _ => Err (EText "key directory entry is not a base64url string")
      end
  end.

Definition ParseDirectory (order : list string) (raw : string) : result Directory :=
  _ ← fail_if ((str_len raw =? 0) || (maxDirectoryBytes <? str_len raw)) (EText "key directory has a wrong size");
  document ← wrap_err "decode key directory" (decodeJSON raw);
  match document with
  | VObject object =>
      _ ← fail_if (bool_decide (object = [])) (EText "key directory must be a non-empty JSON object");
      keys ← directory_entries order object ∅;
      Ok (mkDirectory keys)
  | _ => Err (EText "key directory must be a non-empty JSON object")
  end.

(** What [os.Stat] reports of the file. *)
Record FileInfo : Type := mkFileInfo { fi_regular : bool; fi_size : Z }.

Definition LoadDirectory (order : list string) (path : string) (stat : result FileInfo) (read : result string)
    : result Directory :=
  if trim_space path =s "" then Err (EText "key directory path is required")
  else
    info ← wrap_err "stat key directory" stat;
    _ ← fail_if (negb (fi_regular info) || (fi_size info =? 0) || (maxDirectoryBytes <? fi_size info))
          (EText "key directory is not a regular file of an admissible size");
    raw ← wrap_err "read key directory" read;
    ParseDirectory order raw.

Definition LoadDirectoryFromEnv (order : list string) (environment : string) (stat : result FileInfo)
    (read : result string) : result Directory :=
  let path := trim_space environment in
  if path =s "" then Err (EText "KEY_DIRECTORY_PATH is required")
  else LoadDirectory order path stat read.

(** ** JWS *)

Record JWSHeader : Type := mkHeader { hd_alg : string; hd_kid : string }.

Definition header_fields : list (string * Decoder JWSHeader) :=
  [field "alg" hd_alg (λ h s, mkHeader s (hd_kid h)) dec_string;
   field "kid" hd_kid (λ h s, mkHeader (hd_alg h) s) dec_string].

(** What follows the first value is not read. *)
Definition decode_header (raw : string) : result JWSHeader :=
  wrap_err "JWS protected header is invalid" (Decode (dec_struct true header_fields) (mkHeader "" "") raw).

(** The key id, the protected-header segment and the raw signature. *)
Definition parseJWS (jws : string) : result (string * string * string) :=
  match split_on "." jws with
  | [part0; part1; part2] =>
      _ ← fail_if ((part0 =s "") || (part1 =s "") || (part2 =s "")) (EText "JWS compact serialization must have three non-empty segments");
      match decodeBase64URL part0 with
      | None => Err (EText "JWS protected header is not base64url")
      | Some headerRaw =>
          header ← decode_header headerRaw;
          _ ← fail_if (hd_alg header <>s Algorithm) (EText "JWS algorithm is not EdDSA");
          _ ← wrap_err "JWS key id" (validateKid (hd_kid header));
          match decodeBase64URL part1 with
          | None => Err (EText "JWS payload is not base64url")
          | Some _ =>
              match decodeBase64URL part2 with
              | Some signature =>
                  _ ← fail_if (negb (str_len signature =? SignatureSize)) (EText "JWS signature is not a base64url Ed25519 signature");
                  Ok (hd_kid header, part0, signature)
              | None => Err (EText "JWS signature is not a base64url Ed25519 signature")
              end
          end
      end
  | _ => Err (EText "JWS compact serialization must have three non-empty segments")
  end.

Section verify.
Context `{Ed25519}.

(** A nil directory is [None]. *)
Definition Verify (d : option Directory) (payload jws : string) : result unit :=
  '(kid, headerSegment, signature) ← parseJWS jws;
  match d with
  | None => Err (EText "key directory is required")
  | Some d =>
      match dir_keys d !! kid with
      | None => Err (EText "unknown provenance key id")
      | Some key =>
          let input := headerSegment +:+ "." +:+ EncodeToString RawURLEncoding payload in
          fail_if (negb (ed25519_verify key input signature)) (EText "provenance signature verification failed")
      end
  end.

Definition VerifyEnvelope (d : option Directory) (raw : string) : result unit :=
  '(payload, signature) ← SignedPayload raw;
  if signature =s "" then Err (EText "envelope provenance signature is missing")
  else Verify d payload signature.

End verify.
