(* ===== verification/ProvenanceProofs.v ===== *)
(** * Provenance: the signed payload binds the document, signatures verify *)

From stdpp Require Import sorting.
From Stdlib Require Import Ascii Sorting.Sorted.
From S2P Require Import Prelude GoStrings GoTime GoFormat Sha256 Base64 GoUtf8 GoNumber GoJson JsonProofs Jcs JcsProofs Unmarshal Feed Provenance.

(** ** The unsigned document stays well formed *)

Lemma decodeJSON_ok raw d : decodeJSON raw = Ok d → ok_at 0 d.
Proof.
  unfold decodeJSON. destruct (parse_document raw) as [[v r]|] eqn:E; [|done]. intros H. inv_ok H.
  by eapply parse_document_ok.
Qed.

Lemma object_members depth m : ok_at depth (VObject m) → depth + 1 <= maxNestingDepth ∧ NoDup m.*1 ∧ Forall (ok_member (depth + 1)) m.
Proof.
  intros [Hw Hh]. inversion Hw as [| | | | |? Hn Hk Hws]; subst.
  assert (0 <= foldr Z.max 0 (List.map (λ p : string * jvalue, height p.2) m)) by (clear; induction m; simpl; lia).
  split; [cbn [height] in Hh; lia|]. split; [done|]. apply Forall_forall. intros p Hp. rewrite Forall_forall in Hk, Hws.
  split; [by apply Hk|]. split; [by apply Hws|]. pose proof (height_members p m Hp). lia.
Qed.

Lemma obj_delete_sub {A} k (m : list (string * A)) : NoDup m.*1 →
  NoDup (obj_delete k m).*1 ∧ ∀ p, p ∈ obj_delete k m → p ∈ m.
Proof.
  assert (Hsub : ∀ p, p ∈ obj_delete k m → p ∈ m).
  { intros p Hp. apply list_elem_of_In, filter_In in Hp as [Hp _]. by apply list_elem_of_In. }
  intros Hn. split; [|done]. clear Hsub. unfold obj_delete. induction m as [|p m IH]; [done|].
  apply NoDup_cons in Hn as [Hp Hn]. cbn [List.filter]. destruct (p.1 <>s k); [|by apply IH].
  cbn [fmap list_fmap]. apply NoDup_cons. split; [|by apply IH]. intros (q&Hq&Hin)%list_elem_of_fmap. apply Hp.
  apply list_elem_of_In, filter_In in Hin as [Hin _]. apply list_elem_of_fmap. exists q. split; [done|]. by apply list_elem_of_In.
Qed.

Lemma obj_delete_ok depth k m : ok_at depth (VObject m) → ok_at depth (VObject (obj_delete k m)).
Proof.
  intros (Hd&Hn&Hm)%object_members. replace depth with (depth + 1 - 1) by lia.
  destruct (obj_delete_sub k m Hn) as [Hn' Hsub]. apply ok_object; [done|done|].
  apply Forall_forall. intros p Hp. rewrite Forall_forall in Hm. by apply Hm, Hsub.
Qed.

Lemma unsigned_ok d u s : ok_at 0 d → unsigned_document d = Ok (u, s) → ok_at 0 u.
Proof.
  intros Hd. unfold unsigned_document. destruct d as [| | | | |object]; try done.
  destruct (obj_get "provenance" object) as [[| | | | |p]|] eqn:Hg; try done. intros [= <- _].
  apply object_members in Hd as (Hd&Hn&Hm). change 0 with (0 + 1 - 1). apply ok_object; [done|by apply obj_put_keys|].
  apply obj_put_Forall; [|done]. apply obj_get_Some in Hg. rewrite Forall_forall in Hm. destruct (Hm _ Hg) as [Hk Hp].
  split; [done|]. by apply obj_delete_ok.
Qed.

Lemma SignedPayload_Ok raw p s : SignedPayload raw = Ok (p, s) →
  ∃ d u, decodeJSON raw = Ok d ∧ unsigned_document d = Ok (u, s) ∧ Canonicalize u = Ok p ∧ ok_at 0 u.
Proof.
  unfold SignedPayload. intros H. inv_ok H. destruct (unsigned_document _) as [[u s']|] eqn:E; [|done]. inv_ok H.
  do 2 eexists. split_and!; [done|exact E|done|]. eapply unsigned_ok; [|done]. by eapply decodeJSON_ok.
Qed.

Lemma decode_canonical u p : ok_at 0 u → Canonicalize u = Ok p →
  decodeJSON p = Ok (normal u) ∧ Canonicalize (normal u) = Ok p.
Proof.
  intros Hu Hc. split; [|by apply wf_normal; [apply Hu|]]. unfold decodeJSON. by rewrite (parse_canonical u p Hu Hc).
Qed.

(** C30: The signed payload determines the document: decoding the payload gives
    the normal form of the document without its signature, which is canonical,
    so envelopes with one payload differ at most in member order, number
    notation, string escapes and the signature itself. *)
Theorem payload_binds raw1 raw2 p s1 s2 :
  SignedPayload raw1 = Ok (p, s1) → SignedPayload raw2 = Ok (p, s2) →
  ∃ d1 d2 u1 u2, decodeJSON raw1 = Ok d1 ∧ decodeJSON raw2 = Ok d2 ∧
    unsigned_document d1 = Ok (u1, s1) ∧ unsigned_document d2 = Ok (u2, s2) ∧
    decodeJSON p = Ok (normal u1) ∧ Canonicalize (normal u1) = Ok p ∧ normal u1 = normal u2.
Proof.
  intros (d1&u1&Hd1&Hu1&Hc1&Ho1)%SignedPayload_Ok (d2&u2&Hd2&Hu2&Hc2&Ho2)%SignedPayload_Ok.
  destruct (decode_canonical u1 p Ho1 Hc1) as [Hp1 Hn1]. destruct (decode_canonical u2 p Ho2 Hc2) as [Hp2 _].
  exists d1, d2, u1, u2. split_and!; try done. congruence.
Qed.

Definition sample_envelope : string :=
  quoted "{'provenance': {'signature': 'x.y.z', 'producer': 'cv'}, 'payload': {'mmsi': '1', 'n': 10.50}}".
Definition sample_reordered : string :=
  quoted "{'payload': {'n': 1.05e1, 'mm\u0073i': '1'}, 'provenance': {'producer': 'cv'}}".
Definition sample_payload : string :=
  quoted "{'payload':{'mmsi':'1','n':10.5},'provenance':{'producer':'cv'}}".

Lemma payload_binds_witness :
  ∃ d1 d2 u1 u2, decodeJSON sample_envelope = Ok d1 ∧ decodeJSON sample_reordered = Ok d2 ∧
    unsigned_document d1 = Ok (u1, "x.y.z") ∧ unsigned_document d2 = Ok (u2, "") ∧
    decodeJSON sample_payload = Ok (normal u1) ∧ Canonicalize (normal u1) = Ok sample_payload ∧ normal u1 = normal u2.
Proof. apply (payload_binds sample_envelope sample_reordered sample_payload "x.y.z" ""); by vm_compute. Defined.

(** Canonical bytes do not depend on the order in which the members of a
    decoded document are ranged over, at any depth. *)
Theorem Canonicalize_unordered raw1 raw2 d1 d2 :
  decodeJSON raw1 = Ok d1 → decodeJSON raw2 = Ok d2 → same_document d1 d2 → Canonicalize d1 = Canonicalize d2.
Proof. intros Hd1%decodeJSON_ok _ Hs. apply same_canonical; [apply Hd1|done]. Qed.

(** ** The protected header is read back *)

Lemma marshal_rune_text r : scalar r = true → rune_text r (marshal_rune r).
Proof.
  intros Hs. pose proof Hs as Hr%scalar_range. unfold marshal_rune.
  repeat match goal with
  | |- context [if r =? ?z then _ else _] => destruct (Z.eqb_spec r z) as [->|?]; [by apply text_escape|]
  end.
  destruct ((r <? 32) || (r =? 60) || (r =? 62) || (r =? 38)) eqn:Eh.
  { apply text_control. rewrite !orb_true_iff in Eh. lia. }
  destruct ((r =? 8232) || (r =? 8233)) eqn:El.
  { rewrite orb_true_iff, !Z.eqb_eq in El. destruct El as [->| ->]; by apply text_hex. }
  rewrite !orb_false_iff in Eh. apply text_plain, encode_rune_plain; lia || done.
Qed.

(** On valid UTF-8 the bytes are those of the runes. *)
Lemma marshal_body_runes rs : Forall (λ r, scalar r = true) rs → ∀ fuel,
  (String.length (encode_runes rs) <= fuel)%nat → marshal_body fuel (encode_runes rs) = rune_body marshal_rune rs.
Proof.
  induction 1 as [|r rs Hr _ IH]; intros fuel Hf; [by destruct fuel|].
  unfold encode_runes, rune_body in *. cbn [foldr] in *. fold (encode_runes rs) in *.
  destruct (next_rune_encode r Hr) as (c&s'&He&Hn). rewrite He, str_app_cons in *. cbn [String.length] in Hf.
  rewrite str_length_app in Hf. destruct fuel as [|fuel]; [lia|]. cbn [marshal_body]. rewrite Hn, IH by lia.
  destruct (Z.eqb_spec r RuneError) as [->|]; [|done]. destruct (String.eqb_spec (encode_runes rs) (s' +:+ encode_runes rs)) as [E|]; [|done].
  apply (f_equal String.length) in E. rewrite str_length_app in E. assert (String.length s' = 2%nat); [|lia].
  by injection He as _ <-.
Qed.

Lemma marshal_string_valid s : valid_utf8 s → marshal_string s = String quote (rune_body marshal_rune (runes s) +:+ String quote "").
Proof.
  intros Hs. pose proof (marshal_body_runes (runes s) (runes_scalar s) (String.length s)) as Hb.
  unfold valid_utf8 in Hs. rewrite Hs in Hb. unfold marshal_string. by rewrite Hb.
Qed.

Lemma scan_word w t : all_chars plain_char w = true → scan_string InString (w +:+ String quote t) = Some (w, t).
Proof.
  intros Hw. rewrite scan_plain by done. cbn [scan_string]. rewrite Ascii.eqb_refl. cbn [mbind option_bind].
  by rewrite str_app_nil_r.
Qed.

(** One member of a flat object of strings. *)
Lemma parse_string_member put fuel depth acc key raw_key body value t : 
  scan_string InString (raw_key +:+ String quote (String ":" (String quote (body +:+ String quote t)))) =
    Some (raw_key, String ":" (String quote (body +:+ String quote t))) → unquote raw_key = key →
  scan_string InString (body +:+ String quote t) = Some (body, t) → unquote body = value →
  parse_members put (S (S fuel)) depth acc (String quote (raw_key +:+ String quote (String ":" (String quote (body +:+ String quote t))))) =
  match expect "," (skip_space t), expect "}" (skip_space t) with
  | Some r', _ => parse_members put (S fuel) depth (put key (VString value) acc) r'
  | None, Some r' => Some (VObject (put key (VString value) acc), r')
  | None, None => None
  end.
Proof.
  intros Hk <- Hb <-. cbn [parse_members]. rewrite skip_space_head, expect_same by done. cbn [mbind option_bind].
  rewrite Hk. cbn [mbind option_bind]. rewrite skip_space_head, expect_same by done. cbn [mbind option_bind parse_value].
  rewrite skip_space_head, Ascii.eqb_refl, Hb by done. done.
Qed.

Lemma header_reads kid : valid_utf8 kid → decode_header (header_text kid) = Ok (mkHeader Algorithm kid).
Proof.
  intros Hk. unfold decode_header, Decode, parse_text.
  assert (Hh : header_text kid = String "{" (String quote ("alg" +:+ String quote (String ":" (String quote ("EdDSA" +:+ String quote
    (String "," (String quote ("kid" +:+ String quote (String ":" (String quote (rune_body marshal_rune (runes kid) +:+ String quote "}")))))))))))).
  { unfold header_text. rewrite (marshal_string_valid kid Hk). rewrite !str_app_cons, !str_app_assoc. done. }
  destruct (body_scans marshal_rune marshal_rune_text kid "}" Hk) as (raw&Hscan&Hraw).
  assert (raw = rune_body marshal_rune (runes kid)) as ->.
  { pose proof (scan_body marshal_rune marshal_rune_text (runes kid) "}" (runes_scalar kid)). congruence. }
  rewrite <- (parse_fuel put_last (S (S (S (S (2 * String.length (header_text kid) + 2)))))) by lia. rewrite Hh. clear Hh.
  revert Hscan Hraw. generalize (rune_body marshal_rune (runes kid)). intros body Hscan Hraw.
  match goal with |- context [(2 * ?n + 2)%nat] => generalize (2 * n + 2)%nat end. intros fuel.
  cbn [parse_value]. rewrite skip_space_head by done. simpl (Ascii.eqb _ _). cbv iota.
  change (maxNestingDepth <? 0 + 1) with false. cbv iota. rewrite skip_space_head by done. simpl (expect _ _). cbv iota.
  rewrite (parse_string_member put_last _ _ [] "alg" "alg" "EdDSA" "EdDSA") by (reflexivity || by apply scan_word).
  rewrite skip_space_head, expect_same by done.
  rewrite (parse_string_member put_last _ _ _ "kid" "kid" body kid) by (reflexivity || done || by apply scan_word).
  simpl (expect "," _). simpl (expect "}" _). cbv iota. done.
Qed.

(** ** Segments *)

Definition no_dot (c : ascii) : bool := negb (Ascii.eqb c ".").

Lemma raw_url_standard : standard RawURLEncoding.
Proof. unfold standard. rewrite !elem_of_cons. auto. Qed.

Lemma encoded_no_dot s : all_chars no_dot (EncodeToString RawURLEncoding s) = true.
Proof.
  apply encode_chars; [apply raw_url_standard|done|]. intros v Hv. unfold no_dot. rewrite negb_true_iff. apply Ascii.eqb_neq.
  intros E. destruct (symbol_value RawURLEncoding v raw_url_standard Hv) as [H _]. by rewrite E in H.
Qed.

Lemma encoded_nonempty s : s ≠ "" → EncodeToString RawURLEncoding s ≠ "".
Proof.
  intros Hs E. apply Hs. pose proof (base64_round_trip RawURLEncoding s raw_url_standard) as H. rewrite E in H. by injection H.
Qed.

Lemma decode_encoded s : decodeBase64URL (EncodeToString RawURLEncoding s) = Some s.
Proof. unfold decodeBase64URL. by rewrite base64_round_trip by apply raw_url_standard. Qed.

Lemma split_on_app a s : all_chars no_dot a = true → split_on "." (a +:+ String "." s) = a :: split_on "." s.
Proof.
  induction a as [|c a IH]; intros Ha; [done|]. simpl in Ha. apply andb_true_iff in Ha as [Hc Ha].
  unfold no_dot in Hc. rewrite negb_true_iff in Hc. rewrite str_app_cons. cbn [split_on]. by rewrite Hc, IH.
Qed.

Lemma split_on_last a : all_chars no_dot a = true → split_on "." a = [a].
Proof.
  induction a as [|c a IH]; intros Ha; [done|]. simpl in Ha. apply andb_true_iff in Ha as [Hc Ha].
  unfold no_dot in Hc. rewrite negb_true_iff in Hc. cbn [split_on]. by rewrite Hc, IH.
Qed.

(** ** Acceptance of a JWS *)

(** The three segments and what they decode to. *)
Record jws_parts (jws : string) (part0 part1 part2 kid signature : string) : Prop := {
  jp_text : jws = part0 +:+ "." +:+ part1 +:+ "." +:+ part2;
  jp_header : ∃ raw, decodeBase64URL part0 = Some raw ∧ decode_header raw = Ok (mkHeader Algorithm kid);
  jp_kid : validateKid kid = Ok tt;
  jp_payload : is_Some (decodeBase64URL part1);
  jp_signature : decodeBase64URL part2 = Some signature ∧ str_len signature = SignatureSize }.

Lemma parseJWS_Ok jws kid part0 signature : parseJWS jws = Ok (kid, part0, signature) →
  ∃ part1 part2, jws_parts jws part0 part1 part2 kid signature.
Proof.
  unfold parseJWS. pose proof (split_on_join "." jws) as Hj.
  destruct (split_on "." jws) as [|p0 [|p1 [|p2 [|? ?]]]]; try done. intros H. inv_ok H.
  destruct (decodeBase64URL p0) as [raw|] eqn:E0; [|done]. inv_ok H. destruct x as [alg k]. simpl in *.
  destruct (decodeBase64URL p1) as [pl|] eqn:E1; [|done].
  destruct (decodeBase64URL p2) as [sg|] eqn:E2; [|done]. inv_ok H. bprop. subst. exists p1, p2. split; eauto.
Qed.

Section acceptance.
Context `{Ed25519}.

(** C28: An accepted envelope is authentic: its signature is a JWS with algorithm
    EdDSA whose key id names a directory key, and that key signs the protected
    header together with the canonical bytes of this very document. *)
Theorem VerifyEnvelope_authentic d raw u :
  VerifyEnvelope (Some d) raw = Ok u →
  ∃ payload jws kid key part0 part1 part2 signature,
    SignedPayload raw = Ok (payload, jws) ∧ jws_parts jws part0 part1 part2 kid signature ∧
    dir_keys d !! kid = Some key ∧
    ed25519_verify key (part0 +:+ "." +:+ EncodeToString RawURLEncoding payload) signature = true.
Proof.
  unfold VerifyEnvelope. destruct (SignedPayload raw) as [[payload jws]|] eqn:Ep; [|done]. cbn [mbind result_bind].
  destruct (jws =s ""); [done|]. unfold Verify. destruct (parseJWS jws) as [[[kid part0] signature]|] eqn:Ej; [|done].
  cbn [mbind result_bind]. apply parseJWS_Ok in Ej as (part1&part2&Hj).
  destruct (dir_keys d !! kid) as [key|] eqn:Ek; [|done]. intros Hv%fail_if_Ok. rewrite negb_false_iff in Hv.
  by exists payload, jws, kid, key, part0, part1, part2, signature.
Qed.

End acceptance.

Section signing.
Context `{Ed25519Laws}.

Lemma str_length a n : str_len a = Z.of_nat n → String.length a = n.
Proof. unfold str_len. lia. Qed.

Lemma matched_size key : matched_key key → str_len key = 64.
Proof.
  intros (seed&Hs&->). unfold ed25519_from_seed. rewrite str_len_app, (seed_public_size seed Hs). lia.
Qed.

(** The signature of a matched key verifies under its public half. *)
Lemma matched_verifies key m :
  matched_key key → ed25519_verify (ed25519_public key) m (ed25519_sign key m) = true.
Proof.
  intros (seed&Hs&->). unfold ed25519_public, ed25519_from_seed at 1.
  pose proof (str_drop_app seed (ed25519_seed_public seed)) as Hd.
  rewrite (str_length seed 32 Hs) in Hd. rewrite Hd. by apply verify_sign.
Qed.

Lemma NewSigner_Ok kid key s :
  NewSigner kid key = Ok s → (str_len key = 64 → matched_key key) →
  validateKid kid = Ok tt ∧ sg_kid s = kid ∧ matched_key (sg_key s).
Proof.
  unfold NewSigner. intros H' Hm. apply bind_Ok in H' as ([]&Hk&H'). split; [done|].
  destruct (Z.eqb_spec (str_len key) PrivateKeySize) as [E|_]; [injection H' as <-; by auto|].
  destruct (Z.eqb_spec (str_len key) SeedSize); [|done]. injection H' as <-. split; [done|]. by exists key.
Qed.

(** C29: A signature made by a configured signer verifies: for every signer
    [NewSigner] makes from a seed, or from a private key whose public half
    belongs to its seed, under a key identifier in valid UTF-8, every envelope
    it signs and every document that carries the signature, whatever the order
    of its members, a directory holding the signer's public key accepts the
    document.  Without the condition on the key it does not, see
    [mismatched_key_never_verifies]. *)
Theorem signed_envelope_verifies kid key s raw jws raw' d d' u u' old dir :
  NewSigner kid key = Ok s → (str_len key = 64 → matched_key key) → valid_utf8 kid →
  SignEnvelope (Some s) (Ok raw) = Ok jws →
  decodeJSON raw = Ok d → unsigned_document d = Ok (u, old) →
  decodeJSON raw' = Ok d' → unsigned_document d' = Ok (u', jws) → same_document u u' →
  dir_keys dir !! kid = Some (ed25519_public (sg_key s)) →
  VerifyEnvelope (Some dir) raw' = Ok tt.
Proof.
  intros Hs Hm Hkid Hsign Hd Hu Hd' Hu' Hsame Hdir.
  apply (NewSigner_Ok _ _ _ Hs) in Hm as (Hv&Hsk&Hmk). pose proof (matched_size _ Hmk) as Hlen. unfold SignEnvelope in Hsign. cbn [wrap_err mbind result_bind] in Hsign.
  destruct (SignedPayload raw) as [[p sig]|] eqn:Ep; [|done]. cbn [mbind result_bind] in Hsign.
  apply SignedPayload_Ok in Ep as (d0&u0&Hd0&Hu0&Hc&Hok). rewrite Hd in Hd0. injection Hd0 as <-.
  rewrite Hu in Hu0. injection Hu0 as <- <-. subst kid.
  assert (Ep' : SignedPayload raw' = Ok (p, jws)).
  { unfold SignedPayload. rewrite Hd'. cbn [wrap_err mbind result_bind]. rewrite Hu'. cbn [mbind result_bind].
    unfold Canonicalize in *. by rewrite <- (same_canonical u u' (proj1 Hok) Hsame), Hc. }
  assert (Hp : p ≠ "").
  { destruct (canonical_head u p Hc) as (c&t&->&_). done. }
  unfold Sign in Hsign. destruct (String.eqb_spec (sg_key s) "") as [E|_]; [by rewrite E in Hlen|]. injection Hsign as <-.
  unfold VerifyEnvelope. rewrite Ep'. cbn [mbind result_bind].
  set (h := EncodeToString RawURLEncoding (header_text (sg_kid s))). set (b := EncodeToString RawURLEncoding p).
  set (g := ed25519_sign (sg_key s) (h +:+ "." +:+ b)).
  assert (Hh : h ≠ "") by by apply encoded_nonempty. assert (Hb : b ≠ "") by by apply encoded_nonempty.
  assert (Hg : EncodeToString RawURLEncoding g ≠ "").
  { apply encoded_nonempty. intros E. pose proof (sign_size (sg_key s) (h +:+ "." +:+ b) Hlen) as Hl. fold g in Hl. by rewrite E in Hl. }
  assert (Hparse : parseJWS ((h +:+ "." +:+ b) +:+ "." +:+ EncodeToString RawURLEncoding g) = Ok (sg_kid s, h, g)).
  { unfold parseJWS. rewrite !str_app_assoc, !str_app_cons, !str_app_nil_l.
    rewrite split_on_app, split_on_app, split_on_last by apply encoded_no_dot.
    destruct (String.eqb_spec h ""), (String.eqb_spec b ""), (String.eqb_spec (EncodeToString RawURLEncoding g) ""); try done.
    cbn [orb fail_if mbind result_bind]. unfold h. rewrite decode_encoded, header_reads by done. cbn [mbind result_bind hd_alg hd_kid].
    change (Algorithm <>s Algorithm) with false. cbn [fail_if mbind result_bind]. rewrite Hv. cbn [wrap_err mbind result_bind].
    unfold b. rewrite !decode_encoded. unfold g. by rewrite sign_size. }
  destruct (String.eqb_spec ((h +:+ "." +:+ b) +:+ "." +:+ EncodeToString RawURLEncoding g) "") as [E|_];
    [by apply str_app_is_nil in E as [[E%Hh _]%str_app_is_nil _]|].
  unfold Verify. rewrite Hparse. cbn [mbind result_bind]. rewrite Hdir. fold b. unfold g. by rewrite matched_verifies.
Qed.

End signing.

(** ** The key directory *)

(** The public key an entry of the document denotes. *)
Definition entry_key (object : list (string * jvalue)) (kid : string) : option string :=
  match obj_get kid object with Some (VString encoded) => decodeBase64URL encoded | _ => None end.

Lemma directory_entries_Ok order object : NoDup order → ∀ keys0 keys,
  directory_entries order object keys0 = Ok keys → ∀ kid,
  (kid ∈ order → validateKid kid = Ok tt ∧ ∃ key, entry_key object kid = Some key ∧ str_len key = PublicKeySize ∧ keys !! kid = Some key) ∧
  (kid ∉ order → keys !! kid = keys0 !! kid).
Proof.
  induction 1 as [|k order Hk Hn IH]; intros keys0 keys; cbn [directory_entries].
  - intros [= ->] kid. split; [by intros ?%elem_of_nil|done].
  - intros H kid. apply bind_Ok in H as ([]&Hv&H). apply wrap_err_Ok in Hv.
    destruct (obj_get k object) as [[| | |encoded| |]|] eqn:Eg; try done.
    destruct (decodeBase64URL encoded) as [key|] eqn:Ed; [|done]. apply bind_Ok in H as ([]&Hl&H).
    apply fail_if_Ok in Hl. rewrite negb_false_iff, Z.eqb_eq in Hl. destruct (IH _ _ H kid) as [IH1 IH2]. split.
    + intros [->|Hin]%elem_of_cons; [|by apply IH1]. split; [done|]. exists key. unfold entry_key. rewrite Eg.
      split_and!; [done|done|]. rewrite IH2 by done. by rewrite lookup_insert_eq.
    + rewrite not_elem_of_cons. intros [Hne Hin]. rewrite IH2 by done. by rewrite lookup_insert_ne.
Qed.

(** A loaded directory holds exactly the entries of its document: every entry
    is a canonical key id with a 32-byte public key, whatever the order in which
    the decoded map is ranged over, and one bad entry refuses the document. *)
Theorem ParseDirectory_exact order raw d :
  (∀ object, decodeJSON raw = Ok (VObject object) → order ≡ₚ object.*1) →
  ParseDirectory order raw = Ok d →
  ∃ object, decodeJSON raw = Ok (VObject object) ∧ object ≠ [] ∧
    (∀ kid, dir_keys d !! kid = entry_key object kid) ∧
    ∀ kid, kid ∈ object.*1 → validateKid kid = Ok tt ∧ str_len <$> entry_key object kid = Some PublicKeySize.
Proof.
  intros Ho. unfold ParseDirectory. intros H. apply bind_Ok in H as ([]&_&H). apply bind_Ok in H as (doc&Hd&H).
  apply wrap_err_Ok in Hd. destruct doc as [| | | | |object]; try done.
  apply bind_Ok in H as ([]&Hne&H). apply fail_if_Ok in Hne. rewrite bool_decide_eq_false in Hne.
  apply bind_Ok in H as (keys&Hk&[= <-]). exists object. specialize (Ho object Hd).
  pose proof (proj1 (proj2 (object_members 0 object (decodeJSON_ok _ _ Hd)))) as Hn.
  assert (Hno : NoDup order) by by rewrite Ho. pose proof (directory_entries_Ok order object Hno _ _ Hk) as Hall.
  split_and!; [done|done| |].
  - intros kid. destruct (Hall kid) as [Hin Hout]. cbn [dir_keys]. destruct (decide (kid ∈ order)) as [Hi|Hi].
    + destruct (Hin Hi) as (_&key&->&_&->). done.
    + rewrite Hout, lookup_empty by done. unfold entry_key. destruct (obj_get kid object) as [v|] eqn:E; [|done].
      apply obj_get_Some in E. destruct Hi. rewrite Ho. by apply (list_elem_of_fmap_2 fst) in E.
  - intros kid Hi. rewrite <- Ho in Hi. destruct (proj1 (Hall kid) Hi) as (Hv&key&->&Hl&_). split; [done|]. simpl. by rewrite Hl.
Qed.

(** ** Witnesses: a scheme whose signatures are digests of keys and message *)

Definition digest_scheme : Ed25519 := λ key message signature,
  signature =s sha256_hex (key +:+ key +:+ message).

Definition digest_public (seed : string) : string := str_take 32 (sha256_hex seed).

(** Like the real scheme, the signature depends on the seed and on the public
    half of the key. *)
Definition digest_signature (k m : string) : string :=
  sha256_hex (digest_public (str_take 32 k) +:+ str_drop 32 k +:+ m).

Definition digest_signer : Ed25519Signer := {|
  ed25519_sign := digest_signature;
  ed25519_seed_public := digest_public |}.

Lemma str_take_len n s : Z.of_nat n <= str_len s → str_len (str_take n s) = Z.of_nat n.
Proof.
  unfold str_len. revert s. induction n as [|n IH]; intros s Hn; [by destruct s|].
  destruct s as [|c s]; simpl in *; [lia|]. specialize (IH s). lia.
Qed.

Lemma digest_laws : @Ed25519Laws digest_scheme digest_signer.
Proof.
  constructor.
  - intros seed m Hs.
    change (digest_signature (@ed25519_from_seed digest_signer seed) m =s
            sha256_hex (digest_public seed +:+ digest_public seed +:+ m) = true).
    change (@ed25519_from_seed digest_signer seed) with (seed +:+ digest_public seed).
    unfold digest_signature.
    pose proof (str_drop_app seed (digest_public seed)) as Hd.
    pose proof (str_take_app seed (digest_public seed)) as Ht.
    rewrite (str_length seed 32 Hs) in Hd, Ht. rewrite Hd, Ht. apply String.eqb_refl.
  - intros k m _. change (str_len (digest_signature k m) = 64). apply sha256_hex_len.
  - intros seed _. change (str_len (digest_public seed) = 32). unfold digest_public.
    apply (str_take_len 32). rewrite sha256_hex_len. lia.
Qed.

Definition sample_seed : string := "0123456789abcdef0123456789abcdef".
Definition sample_public : string := digest_public sample_seed.
Definition sample_signer : Signer := mkSigner "cv-1" (sample_seed +:+ sample_public).
Definition sample_directory : Directory := mkDirectory {[ "cv-1" := sample_public ]}.

Definition sample_draft : string := quoted "{'payload': {'n': 1.50}, 'provenance': {'signature': ''}}".
Definition sample_jws : string :=
  match SignEnvelope (H := digest_signer) (Some sample_signer) (Ok sample_draft) with Ok jws => jws | Err _ => "" end.
Definition sample_signed : string :=
  quoted "{'provenance':{'signature':'" +:+ sample_jws +:+ quoted "'},'payload':{'n':1.50}}".

Definition sample_unsigned (raw : string) : jvalue :=
  match (d ← decodeJSON raw; unsigned_document d) with Ok (u, _) => u | Err _ => VNull end.
Definition sample_decoded (raw : string) : jvalue := match decodeJSON raw with Ok d => d | Err _ => VNull end.

Lemma VerifyEnvelope_authentic_witness :
  ∃ payload jws kid key part0 part1 part2 signature,
    SignedPayload sample_signed = Ok (payload, jws) ∧ jws_parts jws part0 part1 part2 kid signature ∧
    dir_keys sample_directory !! kid = Some key ∧
    digest_scheme key (part0 +:+ "." +:+ EncodeToString RawURLEncoding payload) signature = true.
Proof. apply (VerifyEnvelope_authentic (H := digest_scheme) sample_directory sample_signed tt). by vm_compute. Defined.

Lemma Canonicalize_unordered_witness :
  Canonicalize (sample_decoded (quoted "{'a':1,'b':[]}")) = Canonicalize (sample_decoded (quoted "{'b':[],'a':1}")).
Proof.
  apply (Canonicalize_unordered (quoted "{'a':1,'b':[]}") (quoted "{'b':[],'a':1}")); [by vm_compute..|].
  vm_compute. apply (same_object _ _ [("b", VArray []); ("a", VNumber "1")]); [apply perm_swap|].
  repeat constructor.
Defined.

Definition sample_directory_text : string :=
  quoted "{'cv-1':'M2ViMWJkNDM5OTQ3ZWI3NjI5OThlNTY2Y2NjMmUwOTk'}".

Lemma ParseDirectory_exact_witness :
  ∃ object, decodeJSON sample_directory_text = Ok (VObject object) ∧ object ≠ [] ∧
    (∀ kid, dir_keys sample_directory !! kid = entry_key object kid) ∧
    ∀ kid, kid ∈ object.*1 → validateKid kid = Ok tt ∧ str_len <$> entry_key object kid = Some PublicKeySize.
Proof.
  apply (ParseDirectory_exact ["cv-1"] sample_directory_text sample_directory); [|by vm_compute].
  intros object. vm_compute. intros [= <-]. reflexivity.
Defined.

Lemma signed_envelope_verifies_witness :
  VerifyEnvelope (H := digest_scheme) (Some sample_directory) sample_signed = Ok tt.
Proof.
  apply (signed_envelope_verifies (H := digest_scheme) (H0 := digest_signer) (H1 := digest_laws) "cv-1" sample_seed sample_signer
    sample_draft sample_jws sample_signed (sample_decoded sample_draft) (sample_decoded sample_signed)
    (sample_unsigned sample_draft) (sample_unsigned sample_signed) "" sample_directory);
    [by vm_compute|intros Hl; vm_compute in Hl; discriminate Hl|by vm_compute..| |by vm_compute].
  vm_compute. eapply same_object; [apply perm_swap|]. repeat constructor.
Defined.

(** ** What modelling found *)

(** [Decoder.More] answers false before a closing bracket, so [decodeJSON]
    accepts whatever follows one. *)
Lemma trailing_bracket_accepted :
  decodeJSON (quoted "{'a':1}] garbage") = Ok (VObject [("a", VNumber "1")]).
Proof. by vm_compute. Qed.

(** [NewSigner] takes any 64 bytes for a private key.  With a public half that
    is not that of the seed it signs, but neither the public half nor the
    seed's own public key verifies what it signs. *)
Example mismatched_key_never_verifies :
  let key := sample_seed +:+ sample_seed in
  NewSigner (H := digest_signer) "cv-1" key = Ok (mkSigner "cv-1" key) ∧
  digest_scheme (ed25519_public key) "m" (@ed25519_sign digest_signer key "m") = false ∧
  digest_scheme sample_public "m" (@ed25519_sign digest_signer key "m") = false.
Proof. split_and!; by vm_compute. Qed.
