(* ===== verification/GoTimeParse.v ===== *)
(** * Parsing times ([time.Parse(time.RFC3339, ..)], [Time.UnmarshalJSON])

    The layout accepts more than RFC 3339: an hour of one digit, a comma before
    the fraction, an offset of 24 hours or 60 minutes; the fast path of the
    library agrees with it where it applies.  Digits of the fraction beyond the
    ninth are dropped.  A JSON time is the text of its string; the package looks
    at the text before unescaping, so a time spelt with escapes, which it
    refuses, is read here. *)

From S2P Require Import Prelude GoStrings GoTime GoFormat GoNumber GoJson Unmarshal.
From Stdlib Require Import Ascii.

(** ** Calendar *)

Definition is_leap (year : Z) : bool := (year mod 4 =? 0) && (negb (year mod 100 =? 0) || (year mod 400 =? 0)).

Definition daysIn (month year : Z) : Z :=
  if month =? 2 then (if is_leap year then 29 else 28)
  else if (month =? 4) || (month =? 6) || (month =? 9) || (month =? 11) then 30 else 31.

(** Days since 1 January of year 1. *)
Definition days_from_civil (year month day : Z) : Z :=
  let y := if month <=? 2 then year - 1 else year in
  let yoe := y mod 400 in
  let mp := if month <=? 2 then month + 9 else month - 3 in
  let doy := (153 * mp + 2) / 5 + day - 1 in
  y / 400 * 146097 + (yoe * 365 + yoe / 4 - yoe / 100 + doy) - 306.

(** ** Fields of the layout *)

(** Exactly [n] digits. *)
Fixpoint fixed_num (n : nat) (acc : Z) (s : string) : option (Z * string) :=
  match n, s with
  | O, _ => Some (acc, s)
  | S n', String c rest => if is_digit c then fixed_num n' (acc * 10 + (code c - 48)) rest else None
  | S _, EmptyString => None
  end.

(** [getnum(value, false)]: one or two digits. *)
Definition getnum (s : string) : option (Z * string) :=
  match fixed_num 2 0 s with Some r => Some r | None => fixed_num 1 0 s end.

Definition literal (c : ascii) (s : string) : option string :=
  match s with String c' rest => if Ascii.eqb c' c then Some rest else None | EmptyString => None end.

(** [parseNanoseconds] *)
Definition nanoseconds (digits : string) : Z :=
  let ds := str_take 9 digits in digits_of ds * 10 ^ (9 - str_len ds).

(** A fraction may follow the seconds although the layout has none. *)
Definition parse_fraction (s : string) : Z * string :=
  match s with
  | String c rest =>
      if Ascii.eqb c "." || Ascii.eqb c "," then
        let '(ds, r) := take_digits rest in
        if ds =s "" then (0, s) else (nanoseconds ds, r)
      else (0, s)
  | EmptyString => (0, s)
  end.

(** The zone, in seconds east of UTC. *)
Definition parse_zone (s : string) : option (Z * string) :=
  match s with
  | EmptyString => None
  | String c rest =>
      if Ascii.eqb c "Z" then Some (0, rest)
      else
        '(hh, r) ← fixed_num 2 0 rest;
        r ← literal ":" r;
        '(mm, r) ← fixed_num 2 0 r;
        if (24 <? hh) || (60 <? mm) then None
        else if Ascii.eqb c "+" then Some ((hh * 60 + mm) * 60, r)
        else if Ascii.eqb c "-" then Some (- ((hh * 60 + mm) * 60), r)
        else None
  end.

Definition in_range (lo hi v : Z) : option unit := if (lo <=? v) && (v <=? hi) then Some tt else None.

(** [time.Parse(time.RFC3339, s)] *)
Definition time_parse (s : string) : option Z :=
  '(year, s) ← fixed_num 4 0 s;
  s ← literal "-" s;
  '(month, s) ← fixed_num 2 0 s;
  _ ← in_range 1 12 month;
  s ← literal "-" s;
  '(day, s) ← fixed_num 2 0 s;
  s ← literal "T" s;
  '(hour, s) ← getnum s;
  _ ← in_range 0 23 hour;
  s ← literal ":" s;
  '(minute, s) ← fixed_num 2 0 s;
  _ ← in_range 0 59 minute;
  s ← literal ":" s;
  '(second, s) ← fixed_num 2 0 s;
  _ ← in_range 0 59 second;
  let '(nsec, s) := parse_fraction s in
  '(offset, s) ← parse_zone s;
  _ ← (if s =s "" then Some tt else None);
  _ ← in_range 1 (daysIn month year) day;
  Some ((days_from_civil year month day * 86400 + hour * 3600 + minute * 60 + second - offset) * Second + nsec).

(** A [time.Time] of a document. *)
Definition dec_time : Decoder Z := λ old v,
  match v with
  | VString s => match time_parse s with Some t => Ok t | None => Err (EText "parsing time") end
  | VNull => Ok old
  | _ => Err (EText "Time.UnmarshalJSON: input is not a JSON string")
  end.

Example parse_epoch : time_parse "1970-01-01T00:00:00Z" = Some unix_epoch.
Proof. reflexivity. Qed.
Example parse_lenient : time_parse "1970-01-01T1:30:00,25+01:30" = Some (unix_epoch + 250000000).
Proof. reflexivity. Qed.
Example parse_leap : time_parse "2023-02-29T00:00:00Z" = None.
Proof. reflexivity. Qed.

(** ** Round trip

    The text [rfc3339nano] prints for a time of the years 0 to 9999 is read back. *)

Lemma fixed_num_app n : ∀ acc s r v, fixed_num n acc s = Some (v, "") → fixed_num n acc (s +:+ r) = Some (v, r).
Proof.
  induction n as [|n IH]; intros acc s r v; cbn [fixed_num]; [by intros [= -> ->]|].
  destruct s as [|c s]; [done|]. rewrite str_app_cons. destruct (is_digit c); [|done]. apply IH.
Qed.

(** A test of every integer of an interval. *)
Fixpoint all_below (p : Z → bool) (n : nat) (k : Z) : bool :=
  match n with O => true | S n' => p k && all_below p n' (k + 1) end.

Lemma all_below_spec p n : ∀ k, all_below p n k = true → ∀ z, k <= z < k + Z.of_nat n → p z = true.
Proof.
  induction n as [|n IH]; intros k; cbn [all_below]; [lia|]. rewrite andb_true_iff. intros [Hp Ha] z Hz.
  destruct (decide (z = k)) as [->|]; [done|]. apply (IH (k + 1) Ha). lia.
Qed.

Lemma all_in_range p b : 0 <= b → all_below p (Z.to_nat b) 0 = true → ∀ z, 0 <= z < b → p z = true.
Proof. intros Hb H z Hz. apply (all_below_spec _ _ _ H). rewrite Z2Nat.id; lia. Qed.

(** Every value of a field in range, by evaluation. *)
Definition reads_back (n : nat) (v : Z) : bool := bool_decide (fixed_num n 0 (pad n v) = Some (v, "")).

Lemma reads_back_app n v r : reads_back n v = true → fixed_num n 0 (pad n v +:+ r) = Some (v, r).
Proof. intros H. by eapply fixed_num_app, bool_decide_eq_true, H. Qed.

Lemma pad2_reads v r : 0 <= v < 100 → fixed_num 2 0 (pad 2 v +:+ r) = Some (v, r).
Proof. intros H. apply reads_back_app, (all_in_range (reads_back 2) 100); [done|by vm_compute|done]. Qed.

Lemma pad4_reads v r : 0 <= v < 10000 → fixed_num 4 0 (pad 4 v +:+ r) = Some (v, r).
Proof. intros H. apply reads_back_app, (all_in_range (reads_back 4) 10000); [done|by vm_compute|done]. Qed.

(** A day of the 400-year era is a valid date. *)
Definition day_ok (doe : Z) : bool :=
  let yoe := (doe - doe / 1460 + doe / 36524 - doe / 146096) / 365 in
  let doy := doe - (365 * yoe + yoe / 4 - yoe / 100) in
  let mp := (5 * doy + 2) / 153 in
  let d := doy - (153 * mp + 2) / 5 + 1 in
  let m := if mp <? 10 then mp + 3 else mp - 9 in
  (0 <=? yoe) && (yoe <? 400) && (0 <=? mp) && (mp <? 12) && (1 <=? d) && (d <=? daysIn m (yoe + (if m <=? 2 then 1 else 0))).

Lemma days_ok doe : 0 <= doe < 146097 → day_ok doe = true.
Proof. apply all_in_range; [done|by vm_compute]. Qed.

Lemma is_leap_era y era : is_leap (y + era * 400) = is_leap y.
Proof.
  unfold is_leap. replace (y + era * 400) with (y + (era * 100) * 4) at 1 by lia. rewrite Z_mod_plus_full.
  replace (y + era * 400) with (y + (era * 4) * 100) at 1 by lia. by rewrite !Z_mod_plus_full.
Qed.

Lemma daysIn_era m y era : daysIn m (y + era * 400) = daysIn m y.
Proof. unfold daysIn. by rewrite is_leap_era. Qed.

Lemma daysIn_le m y : daysIn m y <= 31.
Proof. unfold daysIn. repeat case_match; lia. Qed.

(** The calendar date of a day number denotes it, and is a date. *)
Lemma civil_inverse n : let '(y, m, d) := civil_from_days n in
  days_from_civil y m d = n ∧ 1 <= m <= 12 ∧ 1 <= d <= daysIn m y.
Proof.
  unfold civil_from_days. pose proof (days_ok ((n + 306) mod 146097) ltac:(apply Z.mod_pos_bound; lia)) as Hok.
  unfold day_ok in Hok. cbv zeta in *. set (doe := (n + 306) mod 146097) in *. set (era := (n + 306) / 146097).
  assert (Hn : n = era * 146097 + doe - 306) by (pose proof (Z.div_mod (n + 306) 146097 ltac:(lia)); lia).
  set (yoe := (doe - doe / 1460 + doe / 36524 - doe / 146096) / 365) in *.
  set (doy := doe - (365 * yoe + yoe / 4 - yoe / 100)) in *. set (mp := (5 * doy + 2) / 153) in *.
  set (d := doy - (153 * mp + 2) / 5 + 1) in *.
  rewrite !andb_true_iff, !Z.leb_le, !Z.ltb_lt in Hok. destruct Hok as [[[[[Hy0 Hy1] Hm0] Hm1] Hd0] Hd1].
  rewrite (Z.add_comm yoe), <- Z.add_assoc, (Z.add_comm (era * 400)), daysIn_era.
  assert (Hm : 1 <= (if mp <? 10 then mp + 3 else mp - 9) <= 12) by (destruct (Z.ltb_spec mp 10); lia).
  split; [|split; [done|split; done]]. unfold days_from_civil. cbv zeta.
  assert (Hmp : (if (if mp <? 10 then mp + 3 else mp - 9) <=? 2 then (if mp <? 10 then mp + 3 else mp - 9) + 9
    else (if mp <? 10 then mp + 3 else mp - 9) - 3) = mp).
  { destruct (Z.ltb_spec mp 10); [destruct (Z.leb_spec (mp + 3) 2)|destruct (Z.leb_spec (mp - 9) 2)]; lia. }
  rewrite Hmp. set (m := if mp <? 10 then mp + 3 else mp - 9) in *.
  assert (Hyear : (if m <=? 2 then yoe + (if m <=? 2 then 1 else 0) + era * 400 - 1
    else yoe + (if m <=? 2 then 1 else 0) + era * 400) = yoe + era * 400) by (destruct (m <=? 2); lia).
  rewrite Hyear, Z.div_add, Z.div_small, Z_mod_plus_full, Z.mod_small by lia. unfold d. subst doy. lia.
Qed.

(** *** The fraction *)

Lemma str_take_all n s : str_len s <= Z.of_nat n → str_take n s = s.
Proof.
  revert s. induction n as [|n IH]; intros [|c s]; unfold str_len; cbn [String.length str_take]; try done.
  intros H. f_equal. apply IH. unfold str_len. lia.
Qed.

(** The text without its final zeros and the zeros. *)
Lemma strip_zeros_split s : ∃ n, s = strip_zeros s +:+ zeros n.
Proof.
  induction s as [|c s [n IH]]; [by exists 0%nat|]. cbn [strip_zeros].
  destruct (Ascii.eqb_spec c "0"%char) as [->|]; cbn [andb].
  - destruct (String.eqb_spec (strip_zeros s) "") as [E|_]; [|exists n; by rewrite str_app_cons, <- IH].
    exists (S n). rewrite E in IH. rewrite str_app_nil_l in *. by rewrite IH at 1.
  - exists n. by rewrite str_app_cons, <- IH.
Qed.

Lemma dec_width c k : 0 <= c < 10 ^ k → 1 <= k → str_len (dec c) <= k.
Proof.
  intros Hc Hk. destruct (decide (c = 0)) as [->|]; [done|].
  destruct (dec_positive c) as (h&t&He&Hh&H0&Ht&Hv); [lia|]. rewrite He in *.
  destruct (Z.le_gt_cases (str_len (String h t)) k) as [|Hgt]; [done|exfalso].
  change (String h t) with (String h "" +:+ t) in Hv. rewrite digits_of_app in Hv by (simpl; rewrite ?Hh; done).
  assert (Hpos : 0 <= digits_of t) by (apply digits_of_nonneg; done).
  assert (Hhd : 1 <= digits_of (String h "")).
  { unfold digits_of. cbn [digits_value]. rewrite Hh. cbn [default]. change (1 <= 0 * 10 + (code h - 48)). unfold is_digit, in_class in Hh.
    rewrite andb_true_iff, !Z.leb_le in Hh. assert (code h ≠ 48); [|lia]. intros E. apply H0.
    rewrite <- (ascii_N_embedding h). unfold code in E. replace (N_of_ascii h) with 48%N by lia. done. }
  assert (10 ^ k <= 10 ^ str_len t).
  { apply Z.pow_le_mono_r; [lia|]. unfold str_len in *. cbn [String.length] in Hgt. lia. }
  nia.
Qed.

Lemma padded_value k v : (1 <= k)%nat → 0 <= v < 10 ^ Z.of_nat k →
  all_chars is_digit (pad k v) = true ∧ digits_of (pad k v) = v ∧ str_len (pad k v) = Z.of_nat k.
Proof.
  intros Hk Hv. unfold pad. fold (zeros (k - String.length (dec v))).
  destruct (zeros_facts (k - String.length (dec v))) as (Hzd&Hzv&Hzl). destruct (dec_value v) as (Hd&Hdv&_); [lia|].
  pose proof (dec_width v (Z.of_nat k) Hv ltac:(lia)) as Hl.
  rewrite all_chars_app, digits_of_app, str_len_app, Hzd, Hzv, Hzl, Hd, Hdv by done. unfold str_len in *.
  split_and!; [done|lia|lia].
Qed.

Lemma digits_zeros ds n : all_chars is_digit ds = true → digits_of (ds +:+ zeros n) = digits_of ds * 10 ^ Z.of_nat n.
Proof. intros Hd. destruct (zeros_facts n) as (Hz&Hv&Hl). rewrite digits_of_app, Hv, Hl by done. lia. Qed.

(** The printed fraction is read as its nanoseconds. *)
Lemma fraction_reads f : 0 <= f < Second →
  parse_fraction ((if strip_zeros (pad 9 f) =s "" then "" else String "." (strip_zeros (pad 9 f))) +:+ "Z") = (f, "Z").
Proof.
  intros Hf. destruct (padded_value 9 f ltac:(lia) ltac:(unfold Second in Hf; change (10 ^ Z.of_nat 9) with 1000000000; lia)) as (Hd&Hv&Hl).
  destruct (strip_zeros_split (pad 9 f)) as [n Hs]. set (ds := strip_zeros (pad 9 f)) in *.
  rewrite Hs, all_chars_app, andb_true_iff in Hd. destruct Hd as [Hd _]. destruct (zeros_facts n) as (_&_&Hn).
  rewrite Hs, digits_zeros in Hv by done. rewrite Hs, str_len_app, Hn in Hl.
  destruct (String.eqb_spec ds "") as [E|E].
  - rewrite E in Hv. change (digits_of "") with 0 in Hv. replace f with 0 by lia. done.
  - rewrite str_app_cons. cbn [parse_fraction]. change (Ascii.eqb "." "." || Ascii.eqb "." ",") with true. cbv iota.
    rewrite take_digits_app by done. destruct (String.eqb_spec ds ""); [done|]. f_equal. unfold nanoseconds. rewrite str_take_all by lia.
    replace (9 - str_len ds) with (Z.of_nat n) by lia. done.
Qed.

Lemma in_range_Some lo hi v : lo <= v <= hi → in_range lo hi v = Some tt.
Proof. intros H. unfold in_range. by rewrite (proj2 (Z.leb_le lo v)), (proj2 (Z.leb_le v hi)) by lia. Qed.

(** A printed time is read back: the text of every time of the years 0 to 9999
    denotes that time. *)
Lemma time_parse_rfc3339nano t :
  0 <= (civil_from_days (t / Second / 86400)).1.1 <= 9999 → time_parse (rfc3339nano t) = Some t.
Proof.
  intros Hy. unfold rfc3339nano, civil_text. cbv zeta. set (n := t / Second) in *.
  pose proof (civil_inverse (n / 86400)) as Hc. destruct (civil_from_days (n / 86400)) as [[y m] d]. cbn [fst] in Hy.
  destruct Hc as (Hn&Hm&Hd). set (r := n mod 86400). assert (Hr : 0 <= r < 86400) by (apply Z.mod_pos_bound; lia).
  assert (Hnr : n = n / 86400 * 86400 + r) by (pose proof (Z.div_mod n 86400 ltac:(lia)); unfold r; lia).
  assert (Ht : t = n * Second + t mod Second) by (pose proof (Z.div_mod t Second ltac:(done)); unfold n; lia).
  assert (Hd31 : d <= 31) by (pose proof (daysIn_le m y); lia).
  assert (Hhour : 0 <= r / 3600 < 24) by (split; [apply Z.div_pos; lia|apply Z.div_lt_upper_bound; lia]).
  assert (Hmin : 0 <= r / 60 mod 60 < 60) by (apply Z.mod_pos_bound; lia).
  assert (Hsec : 0 <= r mod 60 < 60) by (apply Z.mod_pos_bound; lia).
  assert (Hclock : r / 3600 * 3600 + r / 60 mod 60 * 60 + r mod 60 = r).
  { pose proof (Z.div_mod r 60 ltac:(lia)). pose proof (Z.div_mod (r / 60) 60 ltac:(lia)) as Hq.
    rewrite Z.div_div in Hq by lia. change (60 * 60) with 3600 in Hq. lia. }
  repeat rewrite ?str_app_assoc, ?str_app_cons, ?str_app_nil_l.
  unfold time_parse, getnum.
  repeat (first [rewrite pad4_reads by lia | rewrite pad2_reads by lia | rewrite in_range_Some by lia];
    cbn [mbind option_bind literal]; rewrite ?Ascii.eqb_refl; cbn [mbind option_bind]).
  rewrite fraction_reads by (apply Z.mod_pos_bound; done). cbn [parse_zone mbind option_bind]. rewrite Ascii.eqb_refl.
  cbn [mbind option_bind]. change ("" =s "") with true. cbn [mbind option_bind].
  cbn [mbind option_bind]. f_equal. rewrite Hn. lia.
Qed.
