(* ===== verification/GoDuration.v ===== *)
(** * Parsing durations ([time.ParseDuration]) and scanning integers ([fmt.Sscanf])

    Both are standard library code that reads settings.  [ParseDuration] follows
    the package, with its uint64 accumulator: the sum of the terms wraps before
    it is compared with 2^63.  The fuel of the loop over the terms is the length
    of the text, of which a term takes a character at least
    ([parse_terms_fuel]). *)

From S2P Require Import Prelude GoStrings GoTime Float64 GoFormat GoNumber.
From Stdlib Require Import Ascii.

(** ** The parts of a term *)

(** [unitMap]; the two micro signs are U+00B5 and U+03BC. *)
Definition unit_value (u : string) : option Z :=
  if u =s "ns" then Some 1
  else if (u =s "us") || (u =s "µs") || (u =s "μs") then Some 1000
  else if u =s "ms" then Some 1000000
  else if u =s "s" then Some Second
  else if u =s "m" then Some Minute
  else if u =s "h" then Some Hour
  else None.

(** [leadingInt]: [None] when the number passes 2^63. *)
Fixpoint leadingInt (x : Z) (s : string) : option (Z * string) :=
  match s with
  | String c rest =>
      if is_digit c then
        if 2 ^ 63 / 10 <? x then None
        else let x := x * 10 + (code c - 48) in if 2 ^ 63 <? x then None else leadingInt x rest
      else Some (x, s)
  | EmptyString => Some (x, s)
  end.

(** [leadingFraction]: digits past the precision of the format are dropped. *)
Fixpoint leadingFraction (x : Z) (scale : f64) (overflow : bool) (s : string) : Z * f64 * string :=
  match s with
  | String c rest =>
      if is_digit c then
        if overflow then leadingFraction x scale true rest
        else if max_int64 / 10 <? x then leadingFraction x scale true rest
        else
          let y := x * 10 + (code c - 48) in
          if 2 ^ 63 <? y then leadingFraction x scale true rest
          else leadingFraction y (fmul scale (f_of_Z 10)) false rest
      else (x, scale, s)
  | EmptyString => (x, scale, s)
  end.

(** The text up to the next digit or point. *)
Fixpoint take_unit (s : string) : string * string :=
  match s with
  | String c rest =>
      if is_digit c || Ascii.eqb c "."%char then ("", s)
      else let '(u, r) := take_unit rest in (String c u, r)
  | EmptyString => ("", "")
  end.

Definition starts_number (s : string) : bool :=
  match s with String c _ => is_digit c || Ascii.eqb c "."%char | EmptyString => false end.

(** One term: its nanoseconds and the rest. *)
Definition parse_term (s : string) : option (Z * string) :=
  if starts_number s then
    '(v, rest1) ← leadingInt 0 s;
    let pre := negb (str_len rest1 =? str_len s) in
    let '(f, scale, rest2, post) :=
      match rest1 with
      | String c r =>
          if Ascii.eqb c "."%char then
            let '(f, scale, r') := leadingFraction 0 fone false r in (f, scale, r', negb (str_len r' =? str_len r))
          else (0, fone, rest1, false)
      | EmptyString => (0, fone, rest1, false)
      end in
    if negb pre && negb post then None
    else
      let '(u, rest3) := take_unit rest2 in
      if u =s "" then None
      else
        unit ← unit_value u;
        if 2 ^ 63 / unit <? v then None
        else
          let w := v * unit + (if 0 <? f then f_trunc (fmul (f_of_Z f) (fdiv (f_of_Z unit) scale)) else 0) in
          if 2 ^ 63 <? w then None else Some (w, rest3)
  else None.

(** The sum of the terms. *)
Fixpoint parse_terms (fuel : nat) (d : Z) (s : string) : option Z :=
  if s =s "" then Some d
  else
    match fuel with
    | O => None
    | S fuel' =>
        '(v, rest) ← parse_term s;
        let d := to_uint64 (d + v) in
        if 2 ^ 63 <? d then None else parse_terms fuel' d rest
    end.

Definition ParseDuration (s : string) : option Z :=
  let '(neg, body) := sign_of s in
  if body =s "0" then Some 0
  else if body =s "" then None
  else
    d ← parse_terms (String.length body) 0 body;
    if neg then Some (wrap64 (- wrap64 d)) else if max_int64 <? d then None else Some d.

Example parse_mixed : ParseDuration "1h15m30.918s" = Some 4530918000000.
Proof. reflexivity. Qed.
Example parse_half : ParseDuration "-.5m" = Some (- 30 * Second).
Proof. reflexivity. Qed.
Example parse_micro : ParseDuration "1.5µs" = Some 1500.
Proof. reflexivity. Qed.
Example parse_unitless : ParseDuration "30" = None.
Proof. reflexivity. Qed.
Example parse_max : ParseDuration "9223372036854775807ns" = Some max_int64.
Proof. reflexivity. Qed.
Example parse_beyond : ParseDuration "9223372036854775808ns" = None ∧ ParseDuration "2562048h" = None.
Proof. split; reflexivity. Qed.
(** The sum of two halves of 2^64 wraps to nothing. *)
Example parse_wraps : ParseDuration "9223372036854775808ns9223372036854775808ns1s" = Some Second.
Proof. reflexivity. Qed.

(** ** [fmt.Sscanf(value, "%d", &x)] for a uint64

    White space is skipped, the longest run of digits is read, what follows is
    not looked at. *)

Definition is_scan_space (c : ascii) : bool := in_class 9 13 c || Ascii.eqb c " "%char.

Fixpoint scan_skip (s : string) : string :=
  match s with String c rest => if is_scan_space c then scan_skip rest else s | EmptyString => s end.

Definition scan_uint64 (value : string) : option Z :=
  let digits := (take_digits (scan_skip value)).1 in
  if digits =s "" then None
  else let n := digits_of digits in if 2 ^ 64 <=? n then None else Some n.

Example scan_number : scan_uint64 "17" = Some 17.
Proof. reflexivity. Qed.
Example scan_prefix : scan_uint64 "1o" = Some 1.
Proof. reflexivity. Qed.
Example scan_negative : scan_uint64 "-1" = None.
Proof. reflexivity. Qed.

(** ** Lemmas *)

Lemma leadingInt_range x s v r : 0 <= x <= 2 ^ 63 → leadingInt x s = Some (v, r) → 0 <= v <= 2 ^ 63.
Proof.
  revert x. induction s as [|c s IH]; intros x Hx; cbn [leadingInt]; [congruence|].
  destruct (is_digit c) eqn:Ec; [|congruence]. destruct (2 ^ 63 / 10 <? x) eqn:E; [done|].
  destruct (2 ^ 63 <? x * 10 + (code c - 48)) eqn:E2; [done|]. apply IH.
  unfold is_digit, in_class in Ec. bprop. lia.
Qed.

Lemma leadingInt_length x s v r : leadingInt x s = Some (v, r) → (String.length r <= String.length s)%nat.
Proof.
  revert x. induction s as [|c s IH]; intros x; cbn [leadingInt]; [by intros [= _ <-]|].
  repeat case_match; intros Hv; try done; [apply IH in Hv; simpl; lia|by injection Hv as _ <-].
Qed.

Lemma leadingFraction_length x scale o s : (String.length (leadingFraction x scale o s).2 <= String.length s)%nat.
Proof.
  revert x scale o. induction s as [|c s IH]; intros x scale o; cbn [leadingFraction]; [done|].
  repeat case_match; cbn [snd String.length]; try (etransitivity; [apply IH|]); lia.
Qed.

Lemma take_unit_length s u r : take_unit s = (u, r) → u ≠ "" → (String.length r < String.length s)%nat.
Proof.
  revert u r. induction s as [|c s IH]; intros u r; simpl; [by intros [= <- <-]|].
  destruct (_ || _); [by intros [= <- <-]|]. destruct (take_unit s) as [u' r'] eqn:E. intros [= <- <-] _.
  destruct (decide (u' = "")) as [->|Hne]; [|specialize (IH _ _ eq_refl Hne); lia].
  destruct s as [|c' s]; simpl in *; [injection E as <-; simpl; lia|]. destruct (_ || _); [injection E as <-; simpl; lia|].
  destruct (take_unit s). done.
Qed.

(** A term takes a character at least and is at most 2^63 nanoseconds. *)
Lemma parse_term_spec s v rest : parse_term s = Some (v, rest) →
  v <= 2 ^ 63 ∧ (String.length rest < String.length s)%nat.
Proof.
  unfold parse_term. destruct (starts_number s); [|done].
  destruct (leadingInt 0 s) as [[x rest1]|] eqn:E1; [|done]. cbn [mbind option_bind].
  destruct (match rest1 with EmptyString => (0, fone, rest1, false) | String _ _ => _ end) as [[[f scale] rest2] post] eqn:E2.
  assert (H2 : (String.length rest2 <= String.length rest1)%nat).
  { destruct rest1 as [|c r]; [by injection E2 as _ _ <- _|]. destruct (Ascii.eqb c "."); [|by injection E2 as _ _ <- _].
    pose proof (leadingFraction_length 0 fone false r) as HL. destruct (leadingFraction 0 fone false r) as [[f' sc'] r'].
    injection E2 as _ _ <- _. simpl in *. lia. }
  apply leadingInt_length in E1. destruct (_ && _); [done|]. destruct (take_unit rest2) as [u rest3] eqn:E3.
  destruct (u =s "") eqn:Eu; [done|]. apply take_unit_length in E3; [|bprop; done].
  destruct (unit_value u) as [unit|]; [|done]. cbn [mbind option_bind].
  destruct (2 ^ 63 / unit <? x); [done|]. destruct (2 ^ 63 <? _) eqn:Ew; [done|]. intros [= <- <-]. lia.
Qed.

(** More fuel than characters changes nothing. *)
Lemma parse_terms_fuel n m d s : (String.length s <= n)%nat → (n <= m)%nat → parse_terms m d s = parse_terms n d s.
Proof.
  revert m d s. induction n as [|n IH]; intros m d s Hn Hm.
  - destruct s; [|simpl in Hn; lia]. by destruct m.
  - destruct m as [|m]; [lia|]. cbn [parse_terms]. destruct (s =s ""); [done|].
    destruct (parse_term s) as [[v rest]|] eqn:E; [|done]. apply parse_term_spec in E as [_ Hr].
    cbn [mbind option_bind]. destruct (2 ^ 63 <? _); [done|]. apply IH; lia.
Qed.

Lemma parse_terms_range n d s v : 0 <= d <= 2 ^ 63 → parse_terms n d s = Some v → 0 <= v <= 2 ^ 63.
Proof.
  revert d s. induction n as [|n IH]; intros d s Hd; cbn [parse_terms]; destruct (s =s ""); try congruence.
  destruct (parse_term s) as [[w rest]|]; [|done]. cbn [mbind option_bind]. destruct (2 ^ 63 <? _) eqn:E; [done|].
  apply IH. pose proof (Z.mod_pos_bound (d + w) (2 ^ 64)). unfold to_uint64 in *. lia.
Qed.

Lemma ParseDuration_int64 s d : ParseDuration s = Some d → in_int64 d.
Proof.
  unfold ParseDuration. destruct (sign_of s) as [neg body]. destruct (body =s "0"); [by intros [= <-]|].
  destruct (body =s ""); [done|]. destruct (parse_terms _ 0 body) as [v|] eqn:E; [|done]. cbn [mbind option_bind].
  apply parse_terms_range in E; [|lia]. destruct neg; [intros [= <-]; apply wrap64_range|].
  destruct (max_int64 <? v) eqn:Em; [done|]. intros [= <-]. unfold in_int64, min_int64, max_int64 in *. lia.
Qed.
