(* ===== verification/PublisherLoop.v ===== *)
(** * The publisher process ([cmd/maritime-intelligence-outbox-publisher/main.go])

    Settings, the polling loop of either worker and [run].  A process that is
    alone on a table whose rows are due empties it: the loop is followed to its
    end, the messages come in the order of the rows. *)

From S2P Require Import Prelude GoStrings GoTime GoDuration Outbox Incident Envelope Publisher.
From Stdlib Require Import Ascii Sorted.

(** ** Settings *)

Record PublisherConfig : Type := mkPublisherConfig {
  pc_database : string;
  pc_brokers : list string;
  pc_topic : string;
  pc_source : string;
  pc_worker : Config;
  pc_poll : Z;
  pc_transport : string
}.

Definition splitNonEmpty (value : string) : list string :=
  filter (λ part, part ≠ "") (trim_space <$> split_on ","%char value).

Definition durationEnv (environment : string → string) (name : string) (fallback : Z) : result Z :=
  let value := environment name in
  if value =s "" then Ok fallback
  else
    match ParseDuration value with
    | Some parsed => if parsed <=? 0 then Err (EText (name +:+ " must be a positive duration")) else Ok parsed
    | None => Err (EText (name +:+ " must be a positive duration"))
    end.

Definition loadConfig (environment : string → string) : result PublisherConfig :=
  let databaseURL := environment "DATABASE_URL" in
  _ ← fail_if (databaseURL =s "") (EText "DATABASE_URL must be set");
  let brokers := splitNonEmpty (environment "KAFKA_BROKERS") in
  _ ← fail_if (bool_decide (brokers = [])) (EText "KAFKA_BROKERS must contain at least one broker");
  let source := trim_space (environment "OUTBOX_SOURCE") in
  let source := if source =s "" then "incident" else source in
  _ ← fail_if ((source <>s "incident") && (source <>s "isr")) (EText "OUTBOX_SOURCE must be incident or isr");
  let topic := environment "KAFKA_TOPIC" in
  _ ← fail_if ((source =s "incident") && ((trim_space topic =s "") || (trim_space topic <>s topic)))
        (EText "KAFKA_TOPIC must be canonical non-empty text");
  _ ← fail_if ((source =s "isr") && (topic <>s ""))
        (EText "KAFKA_TOPIC must be unset in isr mode; topics come from outbox rows");
  let transport := environment "KAFKA_TRANSPORT" in
  let transport := if transport =s "" then "local_plaintext" else transport in
  _ ← fail_if ((transport <>s "local_plaintext") && (transport <>s "tls"))
        (EText "KAFKA_TRANSPORT must be local_plaintext or tls");
  _ ← fail_if (transport =s "tls")
        (EText "KAFKA_TRANSPORT=tls requires Ministry-approved TLS/SASL configuration before enablement");
  let workerID := environment "OUTBOX_WORKER_ID" in
  _ ← fail_if ((trim_space workerID =s "") || (trim_space workerID <>s workerID))
        (EText "OUTBOX_WORKER_ID must be canonical non-empty text");
  lease ← durationEnv environment "OUTBOX_LEASE" (60 * Second);
  poll ← durationEnv environment "OUTBOX_POLL_INTERVAL" (500 * 1000000);
  maxBackoff ← durationEnv environment "OUTBOX_MAX_BACKOFF" (5 * Minute);
  Ok (mkPublisherConfig databaseURL brokers topic source (mkConfig workerID lease maxBackoff) poll transport).

(** ** The polling loop

    One environment per round of the ticker; the end of the list is the
    cancelled context.  The answer is what was logged. *)

Section loop.
Context {S I K V : Type} `{OutboxStore S I} `{Broker K V}.

Definition logged (r : result unit) : list error :=
  match r with
  | Ok _ => []
  | Err e => if errors_is e ob_none then [] else [e]
  end.

Fixpoint loop (message : OutboxEvent I → Message V) (cfg : Config) (envs : list DeliverEnv) (w : S * K)
    : list error * (S * K) :=
  match envs with
  | [] => ([], w)
  | env :: rest =>
      let '(r, w1) := deliver message cfg env w in
      let '(l, w2) := loop message cfg rest w1 in
      (logged r ++ l, w2)
  end.

End loop.

Definition worker_loop {K} `{Broker K IncidentPayload} (topic : string) : Config → list DeliverEnv → IncidentDB * K →
    list error * (IncidentDB * K) := loop (worker_message topic).

Definition isrWorker_loop {K} `{Broker K Envelope} : Config → list DeliverEnv → ISROutbox * K →
    list error * (ISROutbox * K) := loop isr_message.

(** [run]: the settings choose the worker; [opened] is the answer of
    [incident.Open]. *)
Definition run {K} `{Broker K IncidentPayload} `{Broker K Envelope} (environment : string → string) (opened : result unit)
    (envs : list DeliverEnv) (w : IncidentDB * ISROutbox * K) : result (list error) * (IncidentDB * ISROutbox * K) :=
  let '(db, outbox, k) := w in
  match (cfg ← loadConfig environment; _ ← opened; Ok cfg) with
  | Err e => (Err e, w)
  | Ok cfg =>
      if pc_source cfg =s "isr" then
        let '(l, (outbox, k)) := isrWorker_loop (pc_worker cfg) envs (outbox, k) in (Ok l, (db, outbox, k))
      else
        let '(l, (db, k)) := worker_loop (pc_topic cfg) (pc_worker cfg) envs (db, k) in (Ok l, (db, outbox, k))
  end.

(** ** What the settings promise *)

Record well_configured (cfg : PublisherConfig) : Prop := {
  wc_brokers : pc_brokers cfg ≠ [] ∧ Forall (λ b, b ≠ "" ∧ trim_space b = b) (pc_brokers cfg);
  wc_source : (pc_source cfg = "incident" ∧ trim_space (pc_topic cfg) = pc_topic cfg ∧ pc_topic cfg ≠ "") ∨
              (pc_source cfg = "isr" ∧ pc_topic cfg = "");
  wc_transport : pc_transport cfg = "local_plaintext";
  wc_worker : canonical_worker (workerID (pc_worker cfg)) = true;
  wc_durations : Forall (λ d, 0 < d <= max_int64) [cfg_lease (pc_worker cfg); pc_poll cfg; maxBackoff (pc_worker cfg)]
}.

Lemma durationEnv_positive environment name fallback d :
  0 < fallback <= max_int64 → durationEnv environment name fallback = Ok d → 0 < d <= max_int64.
Proof.
  intros Hf. unfold durationEnv. destruct (_ =s ""); [by intros [= <-]|].
  destruct (ParseDuration _) as [p|] eqn:E; [|done]. apply ParseDuration_int64 in E.
  destruct (p <=? 0) eqn:Ep; [done|]. intros [= <-]. unfold in_int64 in E. lia.
Qed.

Lemma splitNonEmpty_parts value : Forall (λ b, b ≠ "" ∧ trim_space b = b) (splitNonEmpty value).
Proof.
  apply Forall_forall. unfold splitNonEmpty. intros b [Hb Hin]%list_elem_of_filter.
  apply list_elem_of_fmap in Hin as (x&->&_). split; [done|apply trim_space_idem].
Qed.

Lemma loadConfig_configured environment cfg : loadConfig environment = Ok cfg → well_configured cfg.
Proof.
  unfold loadConfig. cbv zeta. intros E.
  apply bind_Ok in E as (?&_&E). apply bind_Ok in E as (?&Hb%fail_if_Ok&E).
  set (source := if trim_space _ =s "" then _ else _) in E. set (transport := if _ =s "" then "local_plaintext" else _) in E.
  apply bind_Ok in E as (?&Hs%fail_if_Ok&E). apply bind_Ok in E as (?&Ht%fail_if_Ok&E).
  apply bind_Ok in E as (?&Hi%fail_if_Ok&E). apply bind_Ok in E as (?&Hp%fail_if_Ok&E).
  apply bind_Ok in E as (?&Hp'%fail_if_Ok&E). apply bind_Ok in E as (?&Hw%fail_if_Ok&E).
  apply bind_Ok in E as (lease&Hl%durationEnv_positive&E); [|done].
  apply bind_Ok in E as (poll&Hpoll%durationEnv_positive&E); [|done].
  apply bind_Ok in E as (backoff&Hbo%durationEnv_positive&[= <-]); [|done].
  split; simpl.
  - split; [by apply bool_decide_eq_false in Hb|apply splitNonEmpty_parts].
  - bprop. destruct (decide (source = "incident")) as [->|Hne].
    + left. destruct Ht as [Ht|[Ht Heq]]; [by destruct Ht|]. split_and!; [done|done|congruence].
    + right. destruct Hs as [?|Hs]; [done|]. rewrite Hs in Hi. destruct Hi as [Hi|Hi]; [by destruct Hi|done].
  - bprop. by destruct Hp as [Hp|Hp].
  - unfold canonical_worker, canonical_text. bprop. exact Hw.
  - by repeat apply Forall_cons_2.
Qed.

(** ** A loop that is alone on its table *)

Section drain.
Context {S I K V : Type} `{OutboxLaws S I} `{BrokerLaws K V}.
Context (message : OutboxEvent I → Message V) (cfg : Config).
Hypothesis worker_ok : canonical_worker (workerID cfg) = true.
Hypothesis lease_valid : lease_ok (cfg_lease cfg) = true.

(** A broker that acknowledges from now on. *)
Context (up : K → Prop).
Hypothesis up_writes : ∀ m k, up k → ∃ u k', write_message m k = (Ok u, k') ∧ up k'.

Implicit Types (rows : gmap string (Row I)) (env : DeliverEnv).

Definition pending rows : list (string * Row I) := filter (λ x, row_published x.2 = None) (map_to_list rows).

(** In this round every pending row is due, unlocked and under no lease. *)
Definition ready rows env : Prop :=
  ∀ id r, rows !! id = Some r → row_published r = None →
    claimable (de_claim env) (time_add (app_now (de_claim env)) (- cfg_lease cfg)) id r = true.

(** The row of a round that took it through. *)
Definition passed env (r : Row I) : Row I :=
  publish_row (de_db_now env) (claim_row (db_now (de_claim env)) (workerID cfg) r).

Definition event_of (x : string * Row I) : OutboxEvent I := mkEvent x.1 (row_info x.2) (row_attempts x.2 + 1).

Lemma pending_elem rows x : x ∈ pending rows ↔ rows !! x.1 = Some x.2 ∧ row_published x.2 = None.
Proof. unfold pending. rewrite list_elem_of_filter. destruct x. rewrite elem_of_map_to_list. tauto. Qed.

Lemma pending_publish rows id r r' : rows !! id = Some r → row_published r = None → row_published r' ≠ None →
  pending rows ≡ₚ (id, r) :: pending (<[id := r']> rows).
Proof.
  intros Hr Hp Hp'. unfold pending. rewrite <- (insert_delete_id rows id r Hr) at 1.
  rewrite <- (insert_delete_eq rows id r').
  rewrite !map_to_list_insert by apply lookup_delete_eq. rewrite !filter_cons. simpl.
  rewrite decide_True by done. by rewrite decide_False.
Qed.

(** A round on a table with pending rows: the first row goes through. *)
Lemma round_passes env s k : ready (ob_rows s) env → pending (ob_rows s) ≠ [] → up k →
  ∃ x s' k', deliver message cfg env (s, k) = (Ok tt, (s', k')) ∧ x ∈ pending (ob_rows s) ∧
    (∀ y, y ∈ pending (ob_rows s) → row_before y x = false) ∧
    ob_rows s' = <[x.1 := passed env x.2]> (ob_rows s) ∧
    broker_log k' = broker_log k ++ [message (event_of x)] ∧ up k'.
Proof.
  intros Hr Hne Hu. destruct (deliver message cfg env (s, k)) as [r [s' k']] eqn:E.
  pose proof (deliver_delivered _ _ _ _ _ _ _ _ worker_ok lease_valid E) as D. unfold delivered in D.
  unfold sql_claim in D. destruct (select_claimable _ _ _) as [[id row]|] eqn:Es.
  2:{ destruct (pending (ob_rows s)) as [|x l] eqn:Ep; [done|].
      assert (Hx : x ∈ pending (ob_rows s)) by (rewrite Ep; by left). apply pending_elem in Hx as [Hx Hpub].
      pose proof (select_claimable_None _ _ _ Es _ _ Hx). pose proof (Hr _ _ Hx Hpub). congruence. }
  apply select_claimable_Some in Es as (Hid&Hc&Hmin).
  destruct (up_writes (message (mkEvent id (row_info row) (row_attempts row + 1))) k Hu) as (u&k1&Hw&Hu').
  rewrite Hw in D. destruct D as (->&->&row'&Hrow'&Hs'). cbn [ev_id] in *. rewrite lookup_insert_eq in Hrow'.
  injection Hrow' as <-. rewrite insert_insert_eq in Hs'.
  assert (Hpub : row_published row = None).
  { unfold claimable in Hc. bprop. destruct Hc as [[[_ Hp] _] _]. by apply bool_decide_eq_true in Hp. }
  exists (id, row), s', k1. split_and!; [done| |..]; [by apply pending_elem| |done| |done].
  - intros [id' r'] [Hy Hyp]%pending_elem. apply Hmin; [done|]. by apply Hr.
  - by apply write_acknowledged in Hw.
Qed.

(** A round on a table without pending rows. *)
Lemma round_idle env s k : pending (ob_rows s) = [] →
  ∃ s', deliver message cfg env (s, k) = (Err ob_none, (s', k)) ∧ ob_rows s' = ob_rows s.
Proof.
  intros Hp. destruct (deliver message cfg env (s, k)) as [r [s' k']] eqn:E.
  pose proof (deliver_delivered _ _ _ _ _ _ _ _ worker_ok lease_valid E) as D. unfold delivered in D.
  unfold sql_claim in D. destruct (select_claimable _ _ _) as [[id row]|] eqn:Es.
  - apply select_claimable_Some in Es as (Hid&Hc&_). exfalso.
    assert (Hin : (id, row) ∈ pending (ob_rows s)); [|rewrite Hp in Hin; by apply elem_of_nil in Hin].
    apply pending_elem. split; [done|]. unfold claimable in Hc. bprop. destruct Hc as [[[_ Hpub] _] _].
    by apply bool_decide_eq_true in Hpub.
  - destruct D as (->&?&->). eauto.
Qed.

(** What a drained table holds. *)
Record drained (envs : list DeliverEnv) rows rows' : Prop := {
  dr_none id : rows !! id = None → rows' !! id = None;
  dr_published id r : rows !! id = Some r → row_published r ≠ None → rows' !! id = Some r;
  dr_pending id r : rows !! id = Some r → row_published r = None → ∃ env, env ∈ envs ∧ rows' !! id = Some (passed env r)
}.

Lemma drained_idle envs rows : pending rows = [] → drained envs rows rows.
Proof.
  intros Hp. split; [done|done|]. intros id r Hr Hn. assert (Hin : (id, r) ∈ pending rows) by (by apply pending_elem).
  rewrite Hp in Hin. by apply elem_of_nil in Hin.
Qed.

Lemma drained_step env envs rows rows' id r : rows !! id = Some r → row_published r = None →
  drained envs (<[id := passed env r]> rows) rows' → drained (env :: envs) rows rows'.
Proof.
  intros Hr Hn [D1 D2 D3]. split.
  - intros id' Hid. apply D1. rewrite lookup_insert_ne; [done|congruence].
  - intros id' r' Hr' Hp. apply D2; [|done]. rewrite lookup_insert_ne; [done|congruence].
  - intros id' r' Hr' Hn'. destruct (decide (id' = id)) as [->|Hne].
    + exists env. split; [by left|]. assert (r' = r) as -> by congruence. apply D2; [by rewrite lookup_insert_eq|done].
    + destruct (D3 id' r') as (env'&?&?); [by rewrite lookup_insert_ne|done|]. exists env'. split; [by right|done].
Qed.

Lemma drained_pending envs rows rows' : drained envs rows rows' → pending rows' = [].
Proof.
  intros [D1 D2 D3]. destruct (pending rows') as [|[id r] l] eqn:E; [done|]. exfalso.
  assert (Hin : (id, r) ∈ pending rows') by (rewrite E; by left). apply pending_elem in Hin as [Hr Hn]. simpl in *.
  destruct (rows !! id) as [r0|] eqn:E0; [|by rewrite D1 in Hr].
  destruct (decide (row_published r0 = None)) as [Hp|Hp]; [|rewrite (D2 _ _ E0 Hp) in Hr; congruence].
  destruct (D3 _ _ E0 Hp) as (env&_&E1). rewrite E1 in Hr. by injection Hr as <-.
Qed.

Lemma ready_insert rows env id r r' : rows !! id = Some r → row_published r' ≠ None →
  ready rows env → ready (<[id := r']> rows) env.
Proof.
  intros Hr Hp HR id' r0. rewrite lookup_insert_Some. intros [[_ <-]|[_ ?]]; [done|by apply HR].
Qed.

Lemma errors_is_none : errors_is ob_none ob_none = true.
Proof. destruct ob_none; simpl; by rewrite bool_decide_true. Qed.

Lemma loop_drains envs s k :
  Forall (ready (ob_rows s)) envs → (length (pending (ob_rows s)) <= length envs)%nat → up k →
  ∃ order s' k', loop message cfg envs (s, k) = ([], (s', k')) ∧ order ≡ₚ pending (ob_rows s) ∧
    StronglySorted (λ a b, row_before b a = false) order ∧
    broker_log k' = broker_log k ++ (message ∘ event_of <$> order) ∧ drained envs (ob_rows s) (ob_rows s').
Proof.
  revert s k. induction envs as [|env envs IH]; intros s k HR Hlen Hu.
  - exists [], s, k. cbn [loop length] in *. destruct (pending (ob_rows s)) eqn:E; [|simpl in Hlen; lia].
    split_and!; [done|done|constructor|by rewrite app_nil_r|by apply drained_idle].
  - apply Forall_cons in HR as [Hr HR]. cbn [loop]. destruct (pending (ob_rows s)) as [|x0 l0] eqn:E.
    + destruct (round_idle env s k E) as (s1&->&Hs1). rewrite <- Hs1 in HR, E.
      destruct (IH s1 k HR) as (order&s'&k'&->&Ho&Hsort&Hlog&Hd); [rewrite E; simpl; lia|done|].
      exists order, s', k'. rewrite E in Ho. rewrite Hs1 in Hd. cbn [logged]. rewrite errors_is_none.
      split_and!; [done|done|done|done|]. destruct Hd as [D1 D2 D3]. split; [done|done|].
      intros id r Hi Hn. destruct (D3 id r Hi Hn) as (env'&?&?). exists env'. split; [by right|done].
    + destruct (round_passes env s k Hr) as (x&s1&k1&->&Hx&Hmin&Hs1&Hlog1&Hu1); [congruence|done|].
      pose proof Hx as [Hrow Hpub]%pending_elem.
      pose proof (pending_publish (ob_rows s) x.1 x.2 (passed env x.2) Hrow Hpub) as Hperm.
      rewrite <- Hs1 in Hperm. rewrite <- surjective_pairing in Hperm.
      destruct (IH s1 k1) as (order&s'&k'&->&Ho&Hsort&Hlog&Hd); [| |done|].
      { rewrite Hs1. eapply Forall_impl; [exact HR|]. intros env'. by eapply ready_insert. }
      { apply Permutation_length in Hperm; [|done]. rewrite E in Hperm. simpl in *. lia. }
      exists (x :: order), s', k'. cbn [logged]. rewrite <- E.
      split_and!; [done|by rewrite Ho, Hperm| | |rewrite Hs1 in Hd; by eapply drained_step].
      * constructor; [done|]. apply Forall_forall. intros y Hy. apply Hmin. rewrite Hperm by done. right. by rewrite <- Ho.
      * rewrite Hlog, Hlog1, <- app_assoc. done.
Qed.

End drain.

(** ** Properties *)

(** C7: A publisher with accepted settings whose lease is at most 24 hours, alone
    on its table, with an acknowledging broker and every pending row due,
    empties the table (with a longer lease, which the settings accept too, it
    never delivers anything, see [oversized_lease_stalls]): after as
    many rounds as rows are pending each of them is published and no other row
    has changed, the broker has got the message of each once, in the order of
    creation, no round has failed, and further rounds do nothing. *)
Theorem publisher_drains {S I K V} `{OutboxLaws S I} `{BrokerLaws K V} (message : OutboxEvent I → Message V)
    environment cfg (up : K → Prop) envs (s : S) (k : K) :
  loadConfig environment = Ok cfg → cfg_lease (pc_worker cfg) <= 24 * Hour →
  (∀ m k, up k → ∃ u k', write_message m k = (Ok u, k') ∧ up k') → up k →
  Forall (ready (pc_worker cfg) (ob_rows s)) envs → (length (pending (ob_rows s)) <= length envs)%nat →
  ∃ order s' k', loop message (pc_worker cfg) envs (s, k) = ([], (s', k')) ∧
    order ≡ₚ pending (ob_rows s) ∧ StronglySorted (λ a b, row_before b a = false) order ∧
    broker_log k' = broker_log k ++ (message ∘ event_of <$> order) ∧
    drained (pc_worker cfg) envs (ob_rows s) (ob_rows s') ∧ pending (ob_rows s') = [].
Proof.
  intros [_ _ _ Hw Hd]%loadConfig_configured Hl Hup Hu HR Hlen. apply Forall_cons in Hd as [Hd _].
  assert (Hl' : lease_ok (cfg_lease (pc_worker cfg)) = true) by (unfold lease_ok; lia).
  destruct (loop_drains message (pc_worker cfg) Hw Hl' up Hup envs s k HR Hlen Hu) as (order&s'&k'&?&?&?&?&?).
  exists order, s', k'. split_and!; try done. by eapply drained_pending.
Qed.

(** A lease of more than a day passes the settings, and no claim accepts it:
    the publisher runs on, logs an error in every round and never writes or
    changes anything. *)
Theorem oversized_lease_stalls {S I K V} `{OutboxLaws S I} `{Broker K V} (message : OutboxEvent I → Message V)
    environment cfg envs (s : S) (k : K) :
  loadConfig environment = Ok cfg → 24 * Hour < cfg_lease (pc_worker cfg) →
  ∃ errors, loop message (pc_worker cfg) envs (s, k) = (errors, (s, k)) ∧ length errors = length envs.
Proof.
  intros _ Hl. induction envs as [|env envs (errors&IH&Hlen)]; [by exists []|].
  destruct (ob_claim_reject (de_claim env) (workerID (pc_worker cfg)) (cfg_lease (pc_worker cfg)) s) as (e&He&Hn).
  { unfold lease_ok. lia. }
  exists (e :: errors). cbn [loop]. unfold deliver. run_store. unfold on_store at 1. cbn [fst snd]. rewrite He.
  cbn [fst snd]. rewrite IH. cbn [logged]. rewrite Hn. simpl. by rewrite Hlen.
Qed.

(** ** A concrete process *)

Definition sample_settings (lease : string) (name : string) : string :=
  if name =s "DATABASE_URL" then "postgres://outbox"
  else if name =s "KAFKA_BROKERS" then "kafka-1:9092, kafka-2:9092,"
  else if name =s "OUTBOX_SOURCE" then "isr"
  else if name =s "OUTBOX_WORKER_ID" then "worker-1"
  else if name =s "OUTBOX_LEASE" then lease
  else "".

Definition sample_publisher (lease : Z) : PublisherConfig :=
  mkPublisherConfig "postgres://outbox" ["kafka-1:9092"; "kafka-2:9092"] "" "isr"
    (mkConfig "worker-1" lease (5 * Minute)) (500 * 1000000) "local_plaintext".

Example sample_loads : loadConfig (sample_settings "1m30s") = Ok (sample_publisher (90 * Second)).
Proof. reflexivity. Qed.

(** A second event, created before the first. *)
Definition sample_backlog : ISROutbox := <["out-2" := new_row sample_event (40 * Second) (40 * Second)]> sample_outbox.

Definition sample_rounds : list DeliverEnv := [sample_deliver_env; sample_deliver_env; sample_deliver_env].

Lemma sample_backlog_ready lease : 0 < lease → Forall (ready (mkConfig "worker-1" lease (5 * Minute)) (ob_rows sample_backlog)) sample_rounds.
Proof.
  intros Hl. assert (HR : ready (mkConfig "worker-1" lease (5 * Minute)) (ob_rows sample_backlog) sample_deliver_env).
  { intros id r Hr _. unfold ob_rows, isr_outbox_store, sample_backlog, sample_outbox in Hr. apply lookup_insert_Some in Hr as [[<- <-]|[_ Hr]]; [done|].
    apply lookup_insert_Some in Hr as [[<- <-]|[_ Hr]]; [done|]. by rewrite lookup_empty in Hr. }
  by repeat apply Forall_cons_2.
Qed.

Lemma publisher_drains_witness : ∃ s' k',
  loop isr_message (mkConfig "worker-1" (90 * Second) (5 * Minute)) sample_rounds (sample_backlog, broker_up) = ([], (s', k')) ∧
  length (broker_log k') = 2%nat ∧ pending (ob_rows s') = [].
Proof.
  destruct (publisher_drains isr_message (sample_settings "1m30s") (sample_publisher (90 * Second)) (λ k, sb_up k = true)
    sample_rounds sample_backlog broker_up) as (order&s'&k'&E&Hp&_&Hlog&_&Hn).
  - vm_compute. reflexivity.
  - vm_compute. discriminate.
  - intros m k0 Hk. exists tt, (mkSampleBroker (sb_log k0 ++ [m]) true). split; [|reflexivity]. simpl. rewrite Hk. reflexivity.
  - reflexivity.
  - apply sample_backlog_ready. reflexivity.
  - vm_compute. repeat constructor.
  - exists s', k'. split; [exact E|]. split; [|exact Hn]. rewrite Hlog. simpl. rewrite length_fmap.
    apply Permutation_length in Hp. rewrite Hp. vm_compute. reflexivity.
Defined.

Lemma oversized_lease_stalls_witness : ∃ errors,
  loop isr_message (mkConfig "worker-1" (25 * Hour) (5 * Minute)) sample_rounds (sample_backlog, broker_up) =
    (errors, (sample_backlog, broker_up)) ∧ length errors = 3%nat.
Proof.
  apply (oversized_lease_stalls isr_message (sample_settings "25h") (sample_publisher (25 * Hour))); vm_compute; reflexivity.
Defined.
