(* ===== verification/Settings.v ===== *)
(** * Connection settings ([applyPoolEnv], [incident.Open], the start of [cmd/isr-worker])

    The same pool overrides stand in [internal/incident/store.go] and
    [cmd/isr-worker/main.go].  The driver is third-party code: what it makes of
    the data source name and whether it connects are arguments. *)

From S2P Require Import Prelude GoStrings GoTime GoFormat.

(** A conversion to [int32]. *)
Definition wrap32 (z : Z) : Z := (z + 2 ^ 31) mod 2 ^ 32 - 2 ^ 31.
Definition in_int32 (z : Z) : Prop := - 2 ^ 31 <= z <= 2 ^ 31 - 1.

Lemma wrap32_id z : in_int32 z → wrap32 z = z.
Proof. unfold in_int32, wrap32. intros Hz. rewrite Z.mod_small by lia. lia. Qed.

Lemma wrap32_range z : in_int32 (wrap32 z).
Proof. unfold in_int32, wrap32. pose proof (Z.mod_pos_bound (z + 2 ^ 31) (2 ^ 32)). lia. Qed.

(** The part of [pgxpool.Config] the overrides write. *)
Record PoolConfig : Type := mkPool {
  MaxConns : Z;
  MinConns : Z;
  MaxConnIdleTime : Z;
  MaxConnLifetime : Z
}.

Definition knobs : list (string * (Z → PoolConfig → PoolConfig)) :=
  [("MI_DB_POOL_MAX_CONNS", λ v c, mkPool (wrap32 v) (MinConns c) (MaxConnIdleTime c) (MaxConnLifetime c));
   ("MI_DB_POOL_MIN_CONNS", λ v c, mkPool (MaxConns c) (wrap32 v) (MaxConnIdleTime c) (MaxConnLifetime c));
   ("MI_DB_POOL_MAX_CONN_IDLE_SEC", λ v c, mkPool (MaxConns c) (MinConns c) (wrap64 (v * Second)) (MaxConnLifetime c));
   ("MI_DB_POOL_MAX_CONN_LIFE_SEC", λ v c, mkPool (MaxConns c) (MinConns c) (MaxConnIdleTime c) (wrap64 (v * Second)))].

Fixpoint apply_knobs (environment : string → string) (ks : list (string * (Z → PoolConfig → PoolConfig)))
    (config : PoolConfig) : result PoolConfig :=
  match ks with
  | [] => Ok config
  | (name, set) :: rest =>
      let raw := environment name in
      if raw =s "" then apply_knobs environment rest config
      else
        match atoi raw with
        | Some value =>
            if value <? 0 then Err (EText (name +:+ " must be a non-negative integer"))
            else apply_knobs environment rest (set value config)
        | None => Err (EText (name +:+ " must be a non-negative integer"))
        end
  end.

Definition applyPoolEnv (environment : string → string) : PoolConfig → result PoolConfig :=
  apply_knobs environment knobs.

(** [incident.Open]; the pool keeps the configuration. *)
Definition Open (environment : string → string) (parsed : result PoolConfig) (connect : PoolConfig → result unit)
    (ping : result unit) : result PoolConfig :=
  config ← wrap_err "parse postgres dsn" parsed;
  config ← applyPoolEnv environment config;
  _ ← wrap_err "open postgres" (connect config);
  _ ← wrap_err "ping postgres" ping;
  Ok config.

(** ** Required variables, and the start of [cmd/isr-worker] *)

Definition required (environment : string → string) (name : string) : result string :=
  let value := trim_space (environment name) in
  _ ← fail_if (value =s "") (EText (name +:+ " is required"));
  Ok value.

(** The arguments say which activities are present. *)
Definition NewISRWorkflow (auditTransition recordOutcome : bool) : result unit :=
  fail_if (negb auditTransition || negb recordOutcome) (EText "isr activities are required (fail-closed)").

Record WorkerConfig : Type := mkWorkerConfig {
  wk_address : string;
  wk_namespace : string;
  wk_queue : string;
  wk_pool : PoolConfig;
  wk_health : option string (* the address of the health listener *)
}.

(** [run] up to the worker loop; the driver and the Temporal frontend answer
    from outside. *)
Definition worker_run (environment : string → string) (parse : string → result PoolConfig)
    (connect : PoolConfig → result unit) (ping dial : result unit) : result WorkerConfig :=
  databaseURL ← required environment "DATABASE_URL";
  temporalAddress ← required environment "TEMPORAL_ADDRESS";
  temporalNamespace ← required environment "TEMPORAL_NAMESPACE";
  taskQueue ← required environment "TEMPORAL_TASK_QUEUE";
  poolConfig ← wrap_err "parse postgres dsn" (parse databaseURL);
  poolConfig ← applyPoolEnv environment poolConfig;
  _ ← wrap_err "open postgres" (connect poolConfig);
  _ ← wrap_err "ping postgres" ping;
  _ ← wrap_err "dial temporal" dial;
  _ ← NewISRWorkflow true true;
  let addr := trim_space (environment "ISR_WORKER_HEALTH_ADDR") in
  Ok (mkWorkerConfig temporalAddress temporalNamespace taskQueue poolConfig (if addr =s "" then None else Some addr)).

(** ** What the overrides set *)

(** The number a variable asks for, if it is set. *)
Definition asked (environment : string → string) (name : string) : option Z :=
  if environment name =s "" then None else atoi (environment name).

Lemma apply_knobs_cons environment name set rest c c' :
  apply_knobs environment ((name, set) :: rest) c = Ok c' →
  (environment name = "" ∧ apply_knobs environment rest c = Ok c') ∨
  ∃ v, asked environment name = Some v ∧ 0 <= v ∧ in_int64 v ∧ apply_knobs environment rest (set v c) = Ok c'.
Proof.
  cbn [apply_knobs]. unfold asked. destruct (String.eqb_spec (environment name) "") as [He|He]; [by left|].
  destruct (atoi _) as [v|] eqn:E; [|done]. destruct (v <? 0) eqn:Ev; [done|]. intros H. right. exists v.
  split_and!; [done|lia|by eapply atoi_int64|done].
Qed.

(** A knob holds what its variable asks for, reduced to the machine type, or
    what it held. *)
Definition holds (environment : string → string) (name : string) (reduce : Z → Z) (old new : Z) : Prop :=
  match asked environment name with
  | Some v => 0 <= v ∧ new = reduce v
  | None => environment name = "" ∧ new = old
  end.

Lemma pool_settings environment c c' : applyPoolEnv environment c = Ok c' →
  holds environment "MI_DB_POOL_MAX_CONNS" wrap32 (MaxConns c) (MaxConns c') ∧
  holds environment "MI_DB_POOL_MIN_CONNS" wrap32 (MinConns c) (MinConns c') ∧
  holds environment "MI_DB_POOL_MAX_CONN_IDLE_SEC" (λ v, wrap64 (v * Second)) (MaxConnIdleTime c) (MaxConnIdleTime c') ∧
  holds environment "MI_DB_POOL_MAX_CONN_LIFE_SEC" (λ v, wrap64 (v * Second)) (MaxConnLifetime c) (MaxConnLifetime c').
Proof.
  unfold applyPoolEnv, knobs, holds. intros E.
  assert (Hunset : ∀ name, environment name = "" → asked environment name = None) by (intros name Hn; unfold asked; by rewrite Hn).
  apply apply_knobs_cons in E as [(E1&E)|(v1&E1&?&?&E)]; apply apply_knobs_cons in E as [(E2&E)|(v2&E2&?&?&E)];
  apply apply_knobs_cons in E as [(E3&E)|(v3&E3&?&?&E)]; apply apply_knobs_cons in E as [(E4&E)|(v4&E4&?&?&E)];
  injection E as <-; rewrite ?(Hunset _ E1), ?(Hunset _ E2), ?(Hunset _ E3), ?(Hunset _ E4), ?E1, ?E2, ?E3, ?E4; done.
Qed.

(** The reductions are silent: a pool of 2^32 + 1 connections has one, one of
    2^31 a negative number, and 10^10 seconds are a negative time. *)
Definition oversized_settings (name : string) : string :=
  if name =s "MI_DB_POOL_MAX_CONNS" then "4294967297"
  else if name =s "MI_DB_POOL_MIN_CONNS" then "2147483648"
  else if name =s "MI_DB_POOL_MAX_CONN_IDLE_SEC" then "10000000000" else "".

Example pool_settings_wrap :
  applyPoolEnv oversized_settings (mkPool 4 0 (1800 * Second) (3600 * Second)) =
  Ok (mkPool 1 (- 2147483648) (- 8446744073709551616) (3600 * Second)).
Proof. vm_compute. reflexivity. Qed.
