(* ===== verification/GoNet.v ===== *)
(** * Addresses of connections ([net.SplitHostPort], [net.ParseIP], [IP.IsLoopback])

    What the trusted-edge authenticator uses of [net]: an address is the list
    of its sixteen bytes, an IPv4 address in the mapped form. *)

From S2P Require Import Prelude GoStrings.
From Stdlib Require Import Ascii.

(** ** Searching and splitting *)

Definition contains_char (c : ascii) (s : string) : bool := negb (all_chars (λ c', negb (Ascii.eqb c' c)) s).

(** [strings.Cut] at the first [c]. *)
Fixpoint cut_first (c : ascii) (s : string) : option (string * string) :=
  match s with
  | EmptyString => None
  | String c' rest =>
      if Ascii.eqb c' c then Some ("", rest)
      else match cut_first c rest with Some (a, b) => Some (String c' a, b) | None => None end
  end.

(** The text before and after the last [c]. *)
Fixpoint cut_last (c : ascii) (s : string) : option (string * string) :=
  match s with
  | EmptyString => None
  | String c' rest =>
      match cut_last c rest with
      | Some (a, b) => Some (String c' a, b)
      | None => if Ascii.eqb c' c then Some ("", rest) else None
      end
  end.

(** ** [net.SplitHostPort] *)

Definition SplitHostPort (hostport : string) : option (string * string) :=
  match cut_last ":" hostport with
  | None => None
  | Some (before, port) =>
      match hostport with
      | String "[" inner =>
          match cut_first "]" inner with
          | None => None
          | Some (host, after) =>
              (* the last colon follows the bracket *)
              if (before =s String "[" (host +:+ "]")) && negb (contains_char "[" inner) && negb (contains_char "]" after)
              then Some (host, port) else None
          end
      | _ =>
          if contains_char ":" before || contains_char "[" hostport || contains_char "]" hostport then None
          else Some (before, port)
      end
  end.

(** ** [net.ParseIP] *)

Fixpoint octet_digits (acc : Z) (s : string) : option Z :=
  match s with
  | EmptyString => Some acc
  | String c rest =>
      if is_digit c then
        let v := acc * 10 + (code c - 48) in
        if 255 <? v then None else octet_digits v rest
      else None
  end.

(** A decimal octet without leading zero. *)
Definition octet (s : string) : option Z :=
  match s with
  | EmptyString => None
  | String "0" rest => if rest =s "" then Some 0 else None
  | _ => octet_digits 0 s
  end.

Definition ipv4_fields (s : string) : option (list Z) :=
  match split_on "." s with
  | [a; b; c; d] => x ← octet a; y ← octet b; z ← octet c; w ← octet d; Some [x; y; z; w]
  | _ => None
  end.

Definition hex_digit_value (c : ascii) : option Z :=
  if is_digit c then Some (code c - 48)
  else if in_class 97 102 c then Some (code c - 87)
  else if in_class 65 70 c then Some (code c - 55) else None.

(** The hexadecimal digits at the head of the text, at most [room] of them. *)
Fixpoint hex_run (room : nat) (acc : Z) (s : string) : option (Z * string) :=
  match s with
  | EmptyString => Some (acc, s)
  | String c rest =>
      match hex_digit_value c with
      | None => Some (acc, s)
      | Some v => match room with O => None | S room' => hex_run room' (acc * 16 + v) rest end
      end
  end.

(** The loop over the fields; the bytes so far, where [::] stood and the text
    that is left.  Eight fields fill the address, so [fuel] is 8. *)
Fixpoint ipv6_fields (fuel : nat) (ip : list Z) (ellipsis : option nat) (s : string)
    : option (list Z * option nat * string) :=
  match fuel with
  | O => Some (ip, ellipsis, s)
  | S fuel' =>
      '(acc, rest) ← hex_run 4 0 s;
      if rest =s s then None
      else if has_prefix rest "." then
        if (bool_decide (ellipsis = None) && negb (bool_decide (length ip = 12%nat))) || (12 <? Z.of_nat (length ip)) then None
        else fields ← ipv4_fields s; Some (ip ++ fields, ellipsis, "")
      else
        let ip' := ip ++ [acc / 256; acc mod 256] in
        match rest with
        | EmptyString => Some (ip', ellipsis, "")
        | String ":" (String c more) =>
            if Ascii.eqb c ":" then
              match ellipsis with
              | Some _ => None
              | None =>
                  if more =s "" then Some (ip', Some (length ip'), "")
                  else ipv6_fields fuel' ip' (Some (length ip')) more
              end
            else ipv6_fields fuel' ip' ellipsis (String c more)
        | _ => None
        end
  end.

(** The zeros [::] stands for. *)
Definition expand_ellipsis (ip : list Z) (ellipsis : option nat) : option (list Z) :=
  match ellipsis with
  | None => if bool_decide (length ip = 16%nat) then Some ip else None
  | Some at_ =>
      if (length ip <? 16)%nat then Some (take at_ ip ++ replicate (16 - length ip) 0 ++ drop at_ ip) else None
  end.

Definition ipv6_address (s : string) : option (list Z) :=
  let '(ellipsis, s) := if has_prefix s "::" then (Some 0%nat, str_drop 2 s) else (None, s) in
  if bool_decide (is_Some ellipsis) && (s =s "") then Some (replicate 16 0)
  else
    '(ip, ellipsis, rest) ← ipv6_fields 8 [] ellipsis s;
    if rest =s "" then expand_ellipsis ip ellipsis else None.

Definition mapped_prefix : list Z := replicate 10 0 ++ [255; 255].

(** The first point or colon tells the family; an address with a zone is none. *)
Fixpoint address_family (s : string) : option ascii :=
  match s with
  | EmptyString => None
  | String c rest => if Ascii.eqb c "." || Ascii.eqb c ":" || Ascii.eqb c "%" then Some c else address_family rest
  end.

Definition ParseIP (s : string) : option (list Z) :=
  match address_family s with
  | Some "."%char => app mapped_prefix <$> ipv4_fields s
  | Some ":"%char => if contains_char "%" s then None else ipv6_address s
  | _ => None
  end.

Definition ip_loopback : list Z := replicate 15 0 ++ [1].

(** A nil address is no loopback. *)
Definition IsLoopback (ip : option (list Z)) : bool :=
  match ip with
  | None => false
  | Some ip =>
      if bool_decide (take 12 ip = mapped_prefix) then bool_decide (ip !! 12%nat = Some 127)
      else bool_decide (ip = ip_loopback)
  end.

Example split_v6 : SplitHostPort "[::1]:8080" = Some ("::1", "8080").
Proof. reflexivity. Qed.
Example split_bare_v6 : SplitHostPort "::1:8080" = None.
Proof. reflexivity. Qed.
Example loopback_v4 : IsLoopback (ParseIP "127.8.0.1") = true.
Proof. vm_compute. reflexivity. Qed.
Example loopback_mapped : IsLoopback (ParseIP "::ffff:127.0.0.1") = true.
Proof. vm_compute. reflexivity. Qed.
Example loopback_v6 : IsLoopback (ParseIP "0:0::1") = true.
Proof. vm_compute. reflexivity. Qed.
Example leading_zero : ParseIP "127.0.0.01" = None.
Proof. vm_compute. reflexivity. Qed.
Example zoned : ParseIP "::1%lo" = None.
Proof. vm_compute. reflexivity. Qed.
Example remote_v6 : IsLoopback (ParseIP "2001:db8::7f00:1") = false.
Proof. vm_compute. reflexivity. Qed.
