(* ===== verification/Rsa.v ===== *)
(** * RSASSA-PKCS1-v1_5 with SHA-256 ([rsa.VerifyPKCS1v15])

    The verification of token signatures, executable: the signature is raised
    to the public exponent and compared with the encoded message.  A key is a
    modulus and an exponent. *)

From S2P Require Import Prelude GoStrings Sha256.
From Stdlib Require Import Ascii.

Record RSAPublicKey : Type := mkPublicKey { key_N : Z; key_E : Z }.

#[export] Instance public_key_eq_dec : EqDecision RSAPublicKey.
Proof. solve_decision. Defined.

(** [new(big.Int).SetBytes] *)
Definition big_endian (l : list Z) : Z := foldl (λ acc b, acc * 256 + b) 0 l.

(** [N.BitLen()] *)
Definition bit_len (n : Z) : Z := if n <=? 0 then 0 else Z.log2 n + 1.

(** The size of the modulus in bytes. *)
Definition key_size (key : RSAPublicKey) : Z := (bit_len (key_N key) + 7) / 8.

Fixpoint pow_mod (n b : Z) (e : positive) : Z :=
  match e with
  | xH => b mod n
  | xO e' => let r := pow_mod n b e' in r * r mod n
  | xI e' => let r := pow_mod n b e' in (r * r mod n) * b mod n
  end.

(** The DER prefix of a SHA-256 digest. *)
Definition sha256_prefix : list Z := [48; 49; 48; 13; 6; 9; 96; 134; 72; 1; 101; 3; 4; 2; 1; 5; 0; 4; 32].

(** EM = 0x00 || 0x01 || PS || 0x00 || T *)
Definition encoded_message (size : Z) (digest : list Z) : list Z :=
  let t := sha256_prefix ++ digest in
  [0; 1] ++ replicate (Z.to_nat (size - Z.of_nat (length t) - 3)) 255 ++ [0] ++ t.

(** The public key must have an odd modulus and an odd exponent of 31 bits. *)
Definition usable_key (key : RSAPublicKey) : bool :=
  Z.odd (key_N key) && (2 <? key_E key) && (key_E key <=? 2 ^ 31 - 1) && Z.odd (key_E key).

Definition VerifyPKCS1v15 (key : RSAPublicKey) (digest : list Z) (signature : string) : bool :=
  let s := big_endian (bytes_of signature) in
  usable_key key &&
  (Z.of_nat (length (sha256_prefix ++ digest)) + 11 <=? key_size key) &&
  (str_len signature =? key_size key) && (s <? key_N key) &&
  (pow_mod (key_N key) s (Z.to_pos (key_E key)) =? big_endian (encoded_message (key_size key) digest)).

(** ** Lemmas *)

Lemma pow_mod_spec n b e : 0 < n → pow_mod n b e = b ^ Zpos e mod n.
Proof.
  intros Hn. induction e as [e IH|e IH|]; cbn [pow_mod]; [..|by rewrite Z.pow_1_r].
  - rewrite IH, Zmult_mod_idemp_l, <- Z.mul_assoc, Zmult_mod_idemp_l.
    replace (b ^ Zpos e * (b ^ Zpos e mod n * b)) with (b ^ Zpos e mod n * (b * b ^ Zpos e)) by ring.
    rewrite Zmult_mod_idemp_l. f_equal. replace (Zpos e~1) with (Zpos e + (1 + Zpos e)) by lia.
    by rewrite !Z.pow_add_r, Z.pow_1_r by lia.
  - rewrite IH, <- Zmult_mod. f_equal.
    replace (Zpos e~0) with (Zpos e + Zpos e) by lia. by rewrite Z.pow_add_r by lia.
Qed.
