(* ===== verification/FeedSigning.v ===== *)
(** * Signing for a feed ([EncodeFeedSignature] of [internal/incident/feed.go])

    The client's half of the signed feeds, and that the two halves fit: what a
    source signs and encodes is what the service decodes and admits. *)

From S2P Require Import Prelude GoStrings GoTime GoTimeParse Base64 Outbox Incident Sha256 Feed GoUtf8 GoJson Unmarshal Provenance ProvenanceProofs.
From Stdlib Require Import Ascii.

Section signing.
Context `{Ed25519Signer}.

Definition EncodeFeedSignature (sourceID eventID : string) (claimedAt : Z) (payload privateKey : string) : string :=
  EncodeToString RawStdEncoding (ed25519_sign privateKey (feedSigningBytes sourceID eventID claimedAt payload)).

End signing.

(** ** The transport of a signature *)

Definition base64_char (c : ascii) : bool := is_pad c || is_alnum c || Ascii.eqb c "+"%char || Ascii.eqb c "/"%char.

Lemma std_standard : standard StdEncoding ∧ standard RawStdEncoding.
Proof. unfold standard. rewrite !elem_of_cons. tauto. Qed.

Lemma std_symbols : ∀ enc, enc ∈ [StdEncoding; RawStdEncoding] → ∀ v, 0 <= v < 64 → base64_char (symbol enc v) = true.
Proof.
  intros enc He v Hv. assert (Ht : forallb (λ n, base64_char (symbol enc (Z.of_nat n))) (seq 0 64) = true).
  { rewrite !elem_of_cons, elem_of_nil in He. destruct He as [->|[->|[]]]; by vm_compute. }
  rewrite forallb_forall in Ht. specialize (Ht (Z.to_nat v)). rewrite Z2Nat.id in Ht by lia. apply Ht, in_seq. lia.
Qed.

Lemma encoded_trim enc s : enc ∈ [StdEncoding; RawStdEncoding] → trim_space (EncodeToString enc s) = EncodeToString enc s.
Proof.
  intros He. apply (trim_outside base64_char); [by repeat constructor..|]. apply encode_chars; [|done|by apply std_symbols].
  rewrite !elem_of_cons, elem_of_nil in He. destruct He as [->|[->|[]]]; apply std_standard.
Qed.

(** An unpadded text of a length that needs padding is no padded text. *)
Lemma unpadded_rejected l : (length l mod 3 ≠ 0)%nat → decode_groups StdEncoding (encode_groups RawStdEncoding l) = None.
Proof.
  assert (Hs : ∀ v, 0 <= v < 64 → value StdEncoding (symbol RawStdEncoding v) = Some v) by (intros v Hv; exact (proj1 (symbol_value RawStdEncoding v (proj2 std_standard) Hv))).
  induction l as [|a|a b|a b c l IH] using list_ind3; cbn [length]; intros Hl; [done|..]; cbn [encode_groups app decode_groups enc_padded RawStdEncoding].
  - by rewrite !Hs by byte_arith.
  - by rewrite !Hs by byte_arith.
  - rewrite !Hs by byte_arith. rewrite IH; [done|]. replace (S (S (S (length l)))) with (length l + 1 * 3)%nat in Hl by lia.
    by rewrite Nat.Div0.mod_add in Hl.
Qed.

Lemma str_len_list s : str_len s = Z.of_nat (length (String.list_ascii_of_string s)).
Proof. unfold str_len. f_equal. induction s as [|c s IH]; [done|]. simpl. by rewrite IH. Qed.

Lemma signature_round_trip s : str_len s = 64 → DecodeFeedSignature (EncodeToString RawStdEncoding s) = Ok s.
Proof.
  intros Hs. unfold DecodeFeedSignature. rewrite encoded_trim by (by right; left).
  assert (DecodeString StdEncoding (EncodeToString RawStdEncoding s) = None) as ->.
  { unfold DecodeString, EncodeToString. rewrite String.list_ascii_of_string_of_list_ascii, filter_keeps.
    - rewrite unpadded_rejected; [done|]. rewrite str_len_list in Hs.
      assert (length (String.list_ascii_of_string s) = 64%nat) as -> by lia. done.
    - eapply Forall_impl; [apply encode_no_newline, std_standard|]. by intros c ->. }
  rewrite base64_round_trip by apply std_standard. by rewrite Hs.
Qed.

(** ** What a source signs is admitted *)

Lemma admission_validates req :
  incidentIDPattern (fa_source req) = true → incidentIDPattern (fa_event req) = true → 1 <= str_len (fa_payload req) <= Z.shiftl 8 20 →
  str_len (fa_signature req) = 64 → fa_claimed req ≠ 0 → FeedAdmissionRequest_Validate req = Ok tt.
Proof.
  intros Hs He Hp Hg Hc. unfold FeedAdmissionRequest_Validate, time_is_zero, SignatureSize. rewrite Hs, He, Hg.
  assert ((str_len (fa_payload req) =? 0) = false) as -> by lia. assert ((Z.shiftl 8 20 <? str_len (fa_payload req)) = false) as -> by lia.
  assert ((fa_claimed req =? 0) = false) as -> by lia. done.
Qed.

(** C25: The two ends of a feed fit: an event that an active source signs with the
    private key of its registered public key, derived from its seed, with a
    time of the years 0 to 9999 inside the replay window and under an
    identity not retained before, survives the transport (base64 of the payload, base64 of the
    signature, RFC 3339 text of the claimed time) and is admitted. *)
Theorem signed_event_admitted `{Ed25519Laws} pg_time env db sourceID eventID claimedAt payload privateKey s :
  matched_key privateKey → incidentIDPattern sourceID = true → incidentIDPattern eventID = true →
  1 <= str_len payload <= Z.shiftl 8 20 → claimedAt ≠ 0 →
  0 <= (civil_from_days (claimedAt / Second / 86400)).1.1 <= 9999 →
  now_check env - FeedReplayWindow <= claimedAt <= now_check env + FeedClockSkew →
  feed_sources db !! sourceID = Some s → fs_active s = true → fs_key s = ed25519_public privateKey →
  feed_events db !! (sourceID, eventID) = None →
  ∃ signature a db',
    DecodeString StdEncoding (EncodeToString StdEncoding payload) = Some payload ∧
    DecodeFeedSignature (EncodeFeedSignature sourceID eventID claimedAt payload privateKey) = Ok signature ∧
    time_parse (rfc3339nano claimedAt) = Some claimedAt ∧
    AdmitFeedEvent pg_time env (mkAdmissionRequest sourceID eventID claimedAt payload signature) db = (Ok a, db') ∧
    is_Some (feed_events db' !! (sourceID, eventID)).
Proof.
  intros Hk Hsid Heid Hp Hc Hy Hw Hsrc Hact Hkey Hnew. set (signature := ed25519_sign privateKey (feedSigningBytes sourceID eventID claimedAt payload)).
  assert (Hlen : str_len signature = 64) by (by apply sign_size, matched_size).
  set (req := mkAdmissionRequest sourceID eventID claimedAt payload signature).
  assert (Hadm : admissible db env req s).
  { unfold admissible. cbn [fa_source fa_claimed req]. split_and!; [exact Hsrc|exact Hact|done|lia|lia|].
    unfold signature_ok. rewrite Hkey. apply orb_true_iff. left. by apply matched_verifies. }
  eexists signature, _, _. split_and!; [apply base64_round_trip, std_standard|by apply signature_round_trip|by apply time_parse_rfc3339nano| |].
  - apply AdmitFeedEvent_Ok. split; [by apply admission_validates|]. apply admit_Ok. exists s.
    split; [exact Hadm|]. instantiate (2 := mkAdmission sourceID eventID (payload_digest req) (fs_fingerprint s) (pg_time (now_received env))).
    split_and!; try done. cbn [fa_source fa_event req]. rewrite Hnew. split; reflexivity.
  - cbn [feed_events]. rewrite lookup_insert_eq. eauto.
Qed.

Definition signed_key : string := sample_seed +:+ sample_public.
Definition signed_feeds : FeedDB :=
  (RegisterFeedSource id (100 * Hour) (mkRegistration "ais-1" "AIS" "nimasa" sample_public true) empty_feeds).2.

Lemma signed_event_admitted_witness :
  ∃ signature a db', DecodeFeedSignature (EncodeFeedSignature (H := digest_signer) "ais-1" "event-1" (101 * Hour) "{}" signed_key) = Ok signature ∧
    AdmitFeedEvent (H := digest_scheme) id sample_feed_env (mkAdmissionRequest "ais-1" "event-1" (101 * Hour) "{}" signature) signed_feeds = (Ok a, db').
Proof.
  destruct (signed_event_admitted (H := digest_scheme) (H0 := digest_signer) (H1 := digest_laws) id sample_feed_env signed_feeds
    "ais-1" "event-1" (101 * Hour) "{}" signed_key (mkSource "AIS" "nimasa" sample_public (fingerprint sample_public) true (100 * Hour) (100 * Hour)))
    as (signature&a&db'&_&Hd&_&Ha&_).
  1: exists sample_seed; split; vm_compute; reflexivity.
  all: try (vm_compute; split; discriminate). all: try (vm_compute; reflexivity).
  - vm_compute. discriminate.
  - exists signature, a, db'. split; [exact Hd|exact Ha].
Defined.
