(* ===== verification/Auth.v ===== *)
(** * Authentication of requests ([internal/server/auth.go])

    The two authenticators: the trusted local edge, which asserts the principal
    in headers, and Keycloak bearer tokens, RS256 signatures over the keys of
    the realm's JWKS document.  [url.Parse] and the HTTP exchange with the realm
    are arguments; the key set shared by all requests is the state. *)

From S2P Require Import Prelude GoStrings GoTime GoFormat Sha256 Classification Base64 GoUtf8 GoJson Unmarshal GoNet Rsa.
From Stdlib Require Import Ascii.

(** ** Requests

    Header and query values by their canonical name; the unescaped segments of
    the path, and whether the path is clean. *)

Record Request : Type := mkRequest {
  rq_method : string;
  rq_path : string;
  rq_segments : list string;
  rq_clean : bool;
  rq_query : gmap string (list string);
  rq_header : gmap string (list string);
  rq_remote : string;
  rq_body : string
}.

(** [Header.Get] and [Values.Get]: the first value. *)
Definition first_value (values : gmap string (list string)) (name : string) : string :=
  match values !! name with Some (v :: _) => v | _ => "" end.

(** ** Configuration *)

Definition AuthModeLoopbackTrustedProxy : string := "loopback_trusted_proxy".
Definition AuthModeKeycloakRS256 : string := "keycloak_rs256".

Record URL : Type := mkURL { url_Scheme : string; url_Host : string; url_text : string }.

Record AuthConfig : Type := mkAuthConfig {
  ac_Mode : string;
  OIDCIssuer : string;
  OIDCAudience : string;
  OIDCJWKSURL : option URL;
  OIDCCAFile : string;
  OIDCRolesClientIDs : list string
}.

Definition LoadAuthConfig (url_parse : string → option URL) (getenv : string → string) : result AuthConfig :=
  let mode := trim_space (getenv "AUTH_MODE") in
  if mode =s AuthModeLoopbackTrustedProxy then Ok (mkAuthConfig mode "" "" None "" [])
  else if mode =s AuthModeKeycloakRS256 then
    let issuer := trim_space (getenv "OIDC_ISSUER") in
    let audience := trim_space (getenv "OIDC_AUDIENCE") in
    let jwks := trim_space (getenv "OIDC_JWKS_URL") in
    let ca := trim_space (getenv "OIDC_CA_FILE") in
    let clients := trim_space (getenv "OIDC_ROLES_CLIENT_IDS") in
    let clientIDs := if clients =s "" then [] else split_on "," clients in
    _ ← fail_if ((issuer =s "") || (audience =s "") || (jwks =s ""))
          (EText "keycloak_rs256 mode requires OIDC_ISSUER, OIDC_AUDIENCE and OIDC_JWKS_URL");
    match url_parse jwks with
    | None => Err (EText "OIDC_JWKS_URL must be an https URL")
    | Some parsed =>
        _ ← fail_if ((url_Scheme parsed <>s "https") || (url_Host parsed =s "")) (EText "OIDC_JWKS_URL must be an https URL");
        Ok (mkAuthConfig mode issuer audience (Some parsed) ca clientIDs)
    end
  else Err (EText ("AUTH_MODE " +:+ mode +:+ " is not an approved mode")).

(** ** Clearance and roles *)

Definition parseClearanceHeader (value : string) : result Classification :=
  let value := to_upper (trim_space value) in
  if value =s "" then Ok ClassificationUnclassified else ParseClassification value.

(** [len(roles) >= 64]: at most 64 roles are taken from one list. *)
Definition normalize_step (roles : gset string) (value : string) : gset string :=
  let value := trim_space value in
  if (value =s "") || (128 <? str_len value) || (64 <=? Z.of_nat (size roles)) then roles else {[value]} ∪ roles.

Definition normalizeRoles (raw : list string) : gset string := foldl normalize_step ∅ raw.

Definition parseRoleHeader (value : string) : gset string := normalizeRoles (split_on "," value).

(** ** The trusted local edge *)

Definition loopback_Authenticate (request : Request) : result Principal :=
  match SplitHostPort (rq_remote request) with
  | None => Err (EText "request is not from the trusted local edge")
  | Some (host, _) =>
      _ ← fail_if (negb (IsLoopback (ParseIP host))) (EText "request is not from the trusted local edge");
      _ ← fail_if (trim_space (first_value (rq_header request) "X-Trusted-Proxy") <>s "loopback")
            (EText "verified caller identity is required");
      let subject := trim_space (first_value (rq_header request) "X-Authenticated-Principal") in
      _ ← fail_if ((subject =s "") || (512 <? str_len subject)) (EText "verified caller identity is required");
      clearance ← parseClearanceHeader (first_value (rq_header request) "X-Authenticated-Clearance");
      Ok (mkPrincipal subject (parseRoleHeader (first_value (rq_header request) "X-Authenticated-Roles")) clearance)
  end.

(** ** Token documents *)

Definition decodeBase64URL (value : string) : option string := DecodeString RawURLEncoding value.

Record TokenHeader : Type := mkTokenHeader { th_alg : string; th_kid : string }.

Definition token_header : Decoder TokenHeader := dec_struct false
  [field "alg" th_alg (λ h s, mkTokenHeader s (th_kid h)) dec_string;
   field "kid" th_kid (λ h s, mkTokenHeader (th_alg h) s) dec_string].

(** The two structs with a [roles] member are that list. *)
Definition RoleAccess : Type := slice string.
Definition role_access : Decoder RoleAccess := dec_struct false
  [field "roles" (λ r, r) (λ _ r, r) (dec_slice "" dec_string)].

Record tokenClaims : Type := mkClaims {
  tc_Issuer : string;
  tc_Subject : string;
  tc_Audience : option jvalue;
  tc_Expires : string;
  tc_NotBefore : string;
  tc_Clearance : string;
  tc_RealmAccess : RoleAccess;
  tc_ResourceAccess : gmap string RoleAccess
}.

Definition no_claims : tokenClaims := mkClaims "" "" None "" "" "" nil_slice ∅.

Definition claims_fields : list (string * Decoder tokenClaims) :=
  [field "iss" tc_Issuer (λ c x, mkClaims x (tc_Subject c) (tc_Audience c) (tc_Expires c) (tc_NotBefore c) (tc_Clearance c)
     (tc_RealmAccess c) (tc_ResourceAccess c)) dec_string;
   field "sub" tc_Subject (λ c x, mkClaims (tc_Issuer c) x (tc_Audience c) (tc_Expires c) (tc_NotBefore c) (tc_Clearance c)
     (tc_RealmAccess c) (tc_ResourceAccess c)) dec_string;
   field "aud" tc_Audience (λ c x, mkClaims (tc_Issuer c) (tc_Subject c) x (tc_Expires c) (tc_NotBefore c) (tc_Clearance c)
     (tc_RealmAccess c) (tc_ResourceAccess c)) dec_raw;
   field "exp" tc_Expires (λ c x, mkClaims (tc_Issuer c) (tc_Subject c) (tc_Audience c) x (tc_NotBefore c) (tc_Clearance c)
     (tc_RealmAccess c) (tc_ResourceAccess c)) dec_number;
   field "nbf" tc_NotBefore (λ c x, mkClaims (tc_Issuer c) (tc_Subject c) (tc_Audience c) (tc_Expires c) x (tc_Clearance c)
     (tc_RealmAccess c) (tc_ResourceAccess c)) dec_number;
   field "clearance" tc_Clearance (λ c x, mkClaims (tc_Issuer c) (tc_Subject c) (tc_Audience c) (tc_Expires c) (tc_NotBefore c) x
     (tc_RealmAccess c) (tc_ResourceAccess c)) dec_string;
   field "realm_access" tc_RealmAccess (λ c x, mkClaims (tc_Issuer c) (tc_Subject c) (tc_Audience c) (tc_Expires c)
     (tc_NotBefore c) (tc_Clearance c) x (tc_ResourceAccess c)) role_access;
   field "resource_access" tc_ResourceAccess (λ c x, mkClaims (tc_Issuer c) (tc_Subject c) (tc_Audience c) (tc_Expires c)
     (tc_NotBefore c) (tc_Clearance c) (tc_RealmAccess c) x) (dec_map nil_slice role_access)].

Definition decode_claims (raw : string) : result tokenClaims := Decode (dec_struct false claims_fields) no_claims raw.

Definition audienceContains (raw : option jvalue) (expected : string) : bool :=
  match UnmarshalRaw dec_string "" raw with
  | Ok single => single =s expected
  | Err _ =>
      match UnmarshalRaw (dec_slice "" dec_string) nil_slice raw with
      | Ok multiple => bool_decide (expected ∈ elements_of multiple)
      | Err _ => false
      end
  end.

(** [strconv.ParseInt(string(n), 10, 64)] *)
Definition number_int64 (n : string) : option Z := atoi n.

(** ** The key set *)

Record JWK : Type := mkJWK { jwk_Kty : string; jwk_Kid : string; jwk_Use : string; jwk_Alg : string; jwk_N : string; jwk_E : string }.

Definition no_jwk : JWK := mkJWK "" "" "" "" "" "".

Definition jwk_fields : list (string * Decoder JWK) :=
  [field "kty" jwk_Kty (λ k x, mkJWK x (jwk_Kid k) (jwk_Use k) (jwk_Alg k) (jwk_N k) (jwk_E k)) dec_string;
   field "kid" jwk_Kid (λ k x, mkJWK (jwk_Kty k) x (jwk_Use k) (jwk_Alg k) (jwk_N k) (jwk_E k)) dec_string;
   field "use" jwk_Use (λ k x, mkJWK (jwk_Kty k) (jwk_Kid k) x (jwk_Alg k) (jwk_N k) (jwk_E k)) dec_string;
   field "alg" jwk_Alg (λ k x, mkJWK (jwk_Kty k) (jwk_Kid k) (jwk_Use k) x (jwk_N k) (jwk_E k)) dec_string;
   field "n" jwk_N (λ k x, mkJWK (jwk_Kty k) (jwk_Kid k) (jwk_Use k) (jwk_Alg k) x (jwk_E k)) dec_string;
   field "e" jwk_E (λ k x, mkJWK (jwk_Kty k) (jwk_Kid k) (jwk_Use k) (jwk_Alg k) (jwk_N k) x) dec_string].

Definition key_set : Decoder (slice JWK) := dec_struct false
  [field "keys" (λ ks, ks) (λ _ ks, ks) (dec_slice no_jwk (dec_struct false jwk_fields))].

(** The key an item of the document stands for; other items are skipped. *)
Definition approved_key (item : JWK) : option RSAPublicKey :=
  if (jwk_Kty item <>s "RSA") || (jwk_Use item <>s "sig") || (jwk_Alg item <>s "RS256") ||
     (jwk_Kid item =s "") || (jwk_N item =s "") || (jwk_E item =s "") then None
  else
    modulus ← decodeBase64URL (jwk_N item);
    exponentBytes ← decodeBase64URL (jwk_E item);
    if (str_len exponentBytes =? 0) || (4 <? str_len exponentBytes) then None
    else
      let exponent := big_endian (bytes_of exponentBytes) in
      if (exponent <? 3) || Z.even exponent then None
      else
        let key := mkPublicKey (big_endian (bytes_of modulus)) exponent in
        if bit_len (key_N key) <? 2048 then None else Some key.

Definition load_step (loaded : gmap string RSAPublicKey) (item : JWK) : gmap string RSAPublicKey :=
  match approved_key item with Some key => <[jwk_Kid item := key]> loaded | None => loaded end.

(** The answer of the JWKS endpoint: an error of the request, or the status and
    what reading the body gives. *)
Record JWKSResponse : Type := mkResponse { resp_status : Z; resp_body : result string }.

Definition jwks_keys (answer : result JWKSResponse) : result (gmap string RSAPublicKey) :=
  response ← answer;
  _ ← fail_if (negb (resp_status response =? 200)) (EText ("JWKS returned HTTP " +:+ dec (resp_status response)));
  body ← resp_body response;
  document ← Unmarshal key_set nil_slice (str_take (Z.to_nat (Z.shiftl 1 20)) body);
  let loaded := foldl load_step ∅ (elements_of document) in
  _ ← fail_if (bool_decide (loaded = ∅)) (EText "JWKS contains no approved RSA signing keys");
  Ok loaded.

(** The fields [keys] and [loadedAt], which the mutex guards. *)
Record KeyState : Type := mkKeyState { ks_keys : gmap string RSAPublicKey; ks_loadedAt : Z }.

Definition new_key_state : KeyState := mkKeyState ∅ 0.

(** [loaded] is the clock when the new set is stored. *)
Definition loadKeys (answer : result JWKSResponse) (loaded : Z) : M KeyState unit :=
  keys ← lift (jwks_keys answer);
  put_state (mkKeyState keys loaded).

(** What one lookup draws from outside: the clock, the answer of the endpoint,
    the clock after it, and the loads other requests finish before the set is
    read again. *)
Record KeyEnv : Type := mkKeyEnv {
  ke_now : Z;
  ke_answer : result JWKSResponse;
  ke_loaded : Z;
  ke_others : list (result JWKSResponse * Z)
}.

(** A load of another request: whether it fails is that request's affair. *)
Definition other_load (load : result JWKSResponse * Z) : M KeyState unit := λ s, (Ok tt, (loadKeys load.1 load.2 s).2).

Definition wrap_error {S A} (context : string) (m : M S A) : M S A := λ s,
  match m s with (Err e, s') => (Err (EWrap context e), s') | ok => ok end.

(** What [key] does when the set is stale or does not know the key id. *)
Definition reload_key (env : KeyEnv) (kid : string) (refresh : bool) : M KeyState RSAPublicKey :=
  _ ← check (negb refresh) (EText "JWT key is not trusted");
  _ ← wrap_error "load OIDC JWKS" (loadKeys (ke_answer env) (ke_loaded env));
  _ ← iterM other_load (ke_others env);
  s ← get_state;
  match ks_keys s !! kid with
  | Some key => mret key
  | None => throw (EText "JWT key ID is not trusted")
  end.

Definition key (env : KeyEnv) (kid : string) (refresh : bool) : M KeyState RSAPublicKey :=
  s ← get_state;
  match ks_keys s !! kid, time_sub (ke_now env) (ks_loadedAt s) <? 5 * Minute with
  | Some key, true => mret key
  | _, _ => reload_key env kid refresh
  end.

(** ** Bearer tokens *)

Record oidcAuthenticator : Type := mkOIDC { oa_issuer : string; oa_audience : string; oa_rolesClientIDs : list string }.

(** The set of the realm roles and the roles of the configured clients; a range
    over a map of roles adds them in any order. *)
Definition extractRoles (auth : oidcAuthenticator) (claims : tokenClaims) : gset string :=
  foldl (λ roles clientID,
      match tc_ResourceAccess claims !! clientID with
      | None => roles
      | Some access => normalizeRoles (elements_of access) ∪ roles
      end)
    (normalizeRoles (elements_of (tc_RealmAccess claims))) (oa_rolesClientIDs auth).

(** [strings.EqualFold(scheme, "Bearer")] *)
Definition is_bearer (scheme : string) : bool := same_name "Bearer" scheme.

Definition bearer_token (request : Request) : result string :=
  match cut_first " " (trim_space (first_value (rq_header request) "Authorization")) with
  | Some (scheme, token) =>
      _ ← fail_if (negb (is_bearer scheme) || (trim_space token =s "")) (EText "Bearer authorization is required");
      Ok (trim_space token)
  | None => Err (EText "Bearer authorization is required")
  end.

Definition decode_token_header (segment : string) : result TokenHeader :=
  match decodeBase64URL segment with
  | None => Err (EText "JWT header is invalid")
  | Some headerBytes =>
      match Unmarshal token_header (mkTokenHeader "" "") headerBytes with
      | Ok header =>
          _ ← fail_if ((th_alg header <>s "RS256") || (trim_space (th_kid header) =s "")) (EText "JWT algorithm or key ID is invalid");
          Ok header
      | Err _ => Err (EText "JWT algorithm or key ID is invalid")
      end
  end.

Definition verify_segments (key : RSAPublicKey) (segment0 segment1 segment2 : string) : result unit :=
  match decodeBase64URL segment2 with
  | None => Err (EText "JWT signature is invalid")
  | Some signature =>
      fail_if (negb (VerifyPKCS1v15 key (sha256 (segment0 +:+ "." +:+ segment1)) signature))
        (EText "JWT signature verification failed")
  end.

Definition token_claims (segment : string) : result tokenClaims :=
  match decodeBase64URL segment with
  | None => Err (EText "JWT claims are invalid")
  | Some payloadBytes =>
      match decode_claims payloadBytes with Ok claims => Ok claims | Err _ => Err (EText "JWT claims are invalid") end
  end.

(** [now] is in seconds since 1970. *)
Definition principal_of_claims (auth : oidcAuthenticator) (now : Z) (claims : tokenClaims) : result Principal :=
  _ ← fail_if ((tc_Issuer claims <>s oa_issuer auth) || negb (audienceContains (tc_Audience claims) (oa_audience auth)))
        (EText "JWT issuer or audience is invalid");
  _ ← match number_int64 (tc_Expires claims) with
      | Some expires => fail_if (expires <=? now) (EText "JWT is expired or has no valid expiry")
      | None => Err (EText "JWT is expired or has no valid expiry")
      end;
  _ ← (if tc_NotBefore claims =s "" then Ok tt
       else match number_int64 (tc_NotBefore claims) with
            | Some notBefore => fail_if (now <? notBefore) (EText "JWT is not yet valid")
            | None => Err (EText "JWT is not yet valid")
            end);
  let subject := trim_space (tc_Subject claims) in
  _ ← fail_if ((subject =s "") || (512 <? str_len subject)) (EText "authenticated subject is required");
  match parseClearanceHeader (tc_Clearance claims) with
  | Ok clearance => Ok (mkPrincipal subject (extractRoles auth claims) clearance)
  | Err _ => Err (EText "JWT clearance claim is invalid")
  end.

Record AuthEnv : Type := mkAuthEnv { au_key : KeyEnv; au_unix : Z }.

Definition oidc_Authenticate (auth : oidcAuthenticator) (env : AuthEnv) (request : Request) : M KeyState Principal :=
  token ← lift (bearer_token request);
  match split_on "." token with
  | [segment0; segment1; segment2] =>
      _ ← check ((segment0 =s "") || (segment1 =s "") || (segment2 =s "")) (EText "JWT compact serialization is invalid");
      header ← lift (decode_token_header segment0);
      key ← key (au_key env) (th_kid header) true;
      _ ← lift (verify_segments key segment0 segment1 segment2);
      claims ← lift (token_claims segment1);
      lift (principal_of_claims auth (au_unix env) claims)
  | _ => throw (EText "JWT compact serialization is invalid")
  end.

(** ** Authenticators *)

Inductive Authenticator : Type :=
| LoopbackAuthenticator
| OIDCAuthenticator (auth : oidcAuthenticator).

(** [ca] is the content of the CA file, [usable] whether it holds a certificate. *)
Definition newOIDCAuthenticator (config : AuthConfig) (ca : result string) (usable : string → bool) : result oidcAuthenticator :=
  _ ← (if OIDCCAFile config =s "" then Ok tt
       else pemBytes ← wrap_err "read OIDC CA file" ca;
            fail_if (negb (usable pemBytes)) (EText "OIDC CA file did not contain a usable PEM certificate"));
  Ok (mkOIDC (OIDCIssuer config) (OIDCAudience config) (OIDCRolesClientIDs config)).

Definition NewAuthenticator (config : AuthConfig) (ca : result string) (usable : string → bool) : result Authenticator :=
  if ac_Mode config =s AuthModeLoopbackTrustedProxy then Ok LoopbackAuthenticator
  else if ac_Mode config =s AuthModeKeycloakRS256 then
    auth ← newOIDCAuthenticator config ca usable; Ok (OIDCAuthenticator auth)
  else Err (EText ("authentication mode " +:+ ac_Mode config +:+ " is not approved")).

Definition Authenticate (auth : Authenticator) (env : AuthEnv) (request : Request) : M KeyState Principal :=
  match auth with
  | LoopbackAuthenticator => lift (loopback_Authenticate request)
  | OIDCAuthenticator auth => oidc_Authenticate auth env request
  end.
