(* ===== verification/AuthSamples.v ===== *)
(** * Sample inputs of the authentication theorems

    A realm key of 2048 bits with exponent 3 and a token signed with it. *)

From S2P Require Import Prelude GoStrings GoTime Classification GoJson Auth.

Definition sample_modulus : string :=
  "q_Ll-UY8j58u977tmLNZEPzL7lINHnPHbTXdYx9ZkUrd-q2qYsj6vV_o8DfeKQ_Xw9LZtG7pIERD80M_odf3_p5_WhpNfrpxC_KaXIcRDTKCHs" +:+
  "yp-GoyUIexkRoEiSF0p9tJsSeEgBqEAo5ETm1gHC3XOexZJFzw2kPcGt4CYDO3ok03A45sU15HtKRtBwiW7IMkvFfPZbfJm5OSS1kz-lLH1GIh" +:+
  "PxyFQQtpm98xtSHMDiaIp8cxfVk5giU8wa5ByF12xq8pA5eisXfDQS3RNa6AlgG6s_bv5Ok4_dNfx08WgvywFVI9lwRH0GQBILBwk7JI2U4RhB" +:+
  "W8iue9HDwtnw".

Definition sample_jwks : string :=
  quoted "{'keys':[{'kty':'RSA','kid':'realm-1','use':'sig','alg':'RS256','n':'" +:+ sample_modulus +:+ quoted "','e':'Aw'}]}".

Definition sample_token : string :=
  "eyJhbGciOiJSUzI1NiIsImtpZCI6InJlYWxtLTEifQ" +:+ "." +:+
  "eyJpc3MiOiJodHRwczovL3NzbyIsInN1YiI6Im9mZmljZXItNyIsImF1ZCI6WyJtYXJpdGltZSJdLCJleHAiOjIwMDAwMDAwMDAsIm5iZiI6MT" +:+
  "AwMCwiY2xlYXJhbmNlIjoic2VjcmV0IiwicmVhbG1fYWNjZXNzIjp7InJvbGVzIjpbIm5pbWFzYS1vZmZpY2VyIl19fQ" +:+ "." +:+
  "PdHf7Nyg7dIOg2Pj1q38Whq5Qvl6dJ4O01AFznpuq9ZRlUoOq46a8o-J7PtGzbrApsipCq9V8p7gEVd9xnLOCv2zU3O2sG2-ua_cAt5x32IevT" +:+
  "qXd6a8A95kAqNTmq66KEcw1C0iy9SSyfLqEzEL-SafM82cKaZ1bpXMqx81nc5bcQ3yuosVZ9Uwo7XqDVohqxNXXr-6YXV5OUyj5dnQME0DKtOd" +:+
  "h5DzTfwlMl90LHGZDmzLdDVVQhdZC-abJ1MnWBdkkwhUr-oRifFUTOO9ERoSxm6GmioEw7sp2gB5kgZCH5R0OK5a8t4ClaKAgNwUUsztI3KcPN" +:+
  "NW8vBuNI3fnA".

Definition sample_answer : result JWKSResponse := Ok (mkResponse 200 (Ok sample_jwks)).

(** Two hundred seconds before the check. *)
Definition sample_check : Z := unix_epoch + 1700000000 * Second.
Definition sample_keys : KeyState := (loadKeys sample_answer (sample_check - 200 * Second) new_key_state).2.
Definition sample_key_env : KeyEnv := mkKeyEnv sample_check (Err (EText "unreachable")) 0 [].
Definition sample_auth_env : AuthEnv := mkAuthEnv sample_key_env 1700000000.

Definition sample_realm : oidcAuthenticator := mkOIDC "https://sso" "maritime" ["portal"].

Definition bearer_request (token : string) : Request :=
  mkRequest "GET" "/v1/isr/tracks" ["v1"; "isr"; "tracks"] true ∅ {[ "Authorization" := ["Bearer " +:+ token] ]} "10.0.0.7:41000" "".

Definition sample_principal : Principal := mkPrincipal "officer-7" {["nimasa-officer"]} "SECRET".

Example token_accepted :
  oidc_Authenticate sample_realm sample_auth_env (bearer_request sample_token) sample_keys = (Ok sample_principal, sample_keys).
Proof. vm_compute. reflexivity. Qed.
