(* ===== verification/AuthProofs.v ===== *)
(** * Theorems on authentication

    The key set holds approved keys of one answer of the realm; an accepted
    token is signed by one of them and valid now; a principal is well formed
    whichever authenticator made it. *)

From S2P Require Import Prelude GoStrings GoTime GoFormat Sha256 Classification Base64 GoUtf8 GoJson Unmarshal GoNet Rsa Auth AuthSamples.
From Stdlib Require Import Ascii.

(** ** Approved keys *)

Definition strong_key (k : RSAPublicKey) : Prop := 2 ^ 2047 <= key_N k ∧ 3 <= key_E k < 2 ^ 32 ∧ Z.odd (key_E k) = true.

Lemma big_endian_range l : Forall (λ b, 0 <= b < 256) l → 0 <= big_endian l < 256 ^ Z.of_nat (length l).
Proof.
  unfold big_endian. induction l as [|b l IH] using rev_ind; [done|]. rewrite Forall_app, Forall_singleton. intros [Hl Hb].
  rewrite foldl_app, length_app, Nat2Z.inj_add, Z.pow_add_r by lia. specialize (IH Hl). cbn [foldl length].
  change (256 ^ Z.of_nat 1) with 256. lia.
Qed.

Lemma bytes_of_range s : Forall (λ b, 0 <= b < 256) (bytes_of s).
Proof. unfold bytes_of. apply Forall_fmap, Forall_true. intros c. apply code_range. Qed.

Lemma bytes_of_len s : Z.of_nat (length (bytes_of s)) = str_len s.
Proof. unfold bytes_of, str_len. rewrite length_fmap. induction s as [|c s IH]; [done|]. simpl. lia. Qed.

Lemma approved_key_Some item k : approved_key item = Some k →
  jwk_Kty item = "RSA" ∧ jwk_Use item = "sig" ∧ jwk_Alg item = "RS256" ∧ jwk_Kid item ≠ "" ∧ strong_key k.
Proof.
  unfold approved_key.
  repeat match goal with |- context [?a <>s ?b] => destruct (String.eqb_spec a b) as [->|]; [|done] end.
  destruct (String.eqb_spec (jwk_Kid item) "") as [|Hk]; [done|].
  cbn [negb orb]. destruct ((jwk_N item =s "") || (jwk_E item =s "")); [done|].
  destruct (decodeBase64URL (jwk_N item)) as [modulus|]; [|done]. destruct (decodeBase64URL (jwk_E item)) as [exp|]; [|done].
  cbn [mbind option_bind]. destruct ((str_len exp =? 0) || (4 <? str_len exp)) eqn:El; [done|].
  destruct ((big_endian (bytes_of exp) <? 3) || Z.even (big_endian (bytes_of exp))) eqn:Ee; [done|].
  destruct (Z.ltb_spec (bit_len (key_N (mkPublicKey (big_endian (bytes_of modulus)) (big_endian (bytes_of exp))))) 2048) as [|Hn]; [done|].
  intros [= <-]. split_and!; [done..|]. rewrite orb_false_iff in El, Ee. destruct El as [_ El], Ee as [E3 Ee].
  pose proof (big_endian_range _ (bytes_of_range exp)) as Hr. rewrite bytes_of_len in Hr. split_and!; cbn [key_N key_E] in *.
  - unfold bit_len in Hn. destruct (Z.leb_spec (big_endian (bytes_of modulus)) 0); [lia|].
    apply Z.log2_le_pow2; lia.
  - lia.
  - assert (256 ^ str_len exp <= 256 ^ 4) by (apply Z.pow_le_mono_r; lia). change (256 ^ 4) with (2 ^ 32) in *. lia.
  - by rewrite <- Z.negb_even, Ee.
Qed.

(** The document an answer carries. *)
Definition jwks_document (answer : result JWKSResponse) : result (slice JWK) :=
  response ← answer;
  body ← resp_body response;
  Unmarshal key_set nil_slice (str_take (Z.to_nat (Z.shiftl 1 20)) body).

(** [kid] is listed in the answer, which the realm gave with status 200, as the
    approved key [k]. *)
Definition listed (answer : result JWKSResponse) (kid : string) (k : RSAPublicKey) : Prop :=
  ∃ document item, resp_status <$> (match answer with Ok r => Some r | Err _ => None end) = Some 200 ∧
    jwks_document answer = Ok document ∧ item ∈ elements_of document ∧ jwk_Kid item = kid ∧ approved_key item = Some k.

Lemma load_steps items : ∀ loaded kid k,
  foldl load_step loaded items !! kid = Some k →
  loaded !! kid = Some k ∨ ∃ item, item ∈ items ∧ jwk_Kid item = kid ∧ approved_key item = Some k.
Proof.
  induction items as [|item items IH]; intros loaded kid k; cbn [foldl]; [by left|].
  intros [H|(i&Hi&?&?)]%IH; [|right; exists i; split; [by right|done]]. unfold load_step in H.
  destruct (approved_key item) as [k'|] eqn:E; [|by left].
  apply lookup_insert_Some in H as [[Hk <-]|[_ H]]; [right; exists item; split; [by left|done]|by left].
Qed.

Lemma jwks_keys_Ok answer keys kid k : jwks_keys answer = Ok keys → keys !! kid = Some k → listed answer kid k.
Proof.
  unfold jwks_keys. intros H Hk. apply bind_Ok in H as (response&->&H). apply bind_Ok in H as ([]&Hs&H).
  apply fail_if_Ok in Hs. rewrite negb_false_iff, Z.eqb_eq in Hs.
  apply bind_Ok in H as (body&Hb&H). apply bind_Ok in H as (document&Hd&H). apply bind_Ok in H as ([]&_&[= <-]).
  apply load_steps in Hk as [Hk|(item&Hi&Hkid&Ha)]; [by rewrite lookup_empty in Hk|].
  exists document, item. split_and!; [by rewrite <- Hs| |done..]. unfold jwks_document. cbn [mbind result_bind]. rewrite Hb. exact Hd.
Qed.

(** ** The key set under every interleaving *)

Inductive key_reach : KeyState → Prop :=
| kr_new : key_reach new_key_state
| kr_load answer loaded s r s' : key_reach s → loadKeys answer loaded s = (r, s') → key_reach s'.

Lemma loadKeys_cases answer loaded s :
  (∃ e, loadKeys answer loaded s = (Err e, s)) ∨
  (∃ keys, jwks_keys answer = Ok keys ∧ loadKeys answer loaded s = (Ok tt, mkKeyState keys loaded)).
Proof.
  unfold loadKeys, lift. cbn [mbind M_bind]. destruct (jwks_keys answer) as [keys|e] eqn:E; [right; by exists keys|left; by exists e].
Qed.

Lemma key_reach_listed s : key_reach s → ∀ kid k, ks_keys s !! kid = Some k → ∃ answer, listed answer kid k.
Proof.
  induction 1 as [|answer loaded s r s' _ IH Hl]; intros kid k Hk; [by cbn in Hk; rewrite lookup_empty in Hk|].
  destruct (loadKeys_cases answer loaded s) as [[e E]|(keys&Hj&E)]; rewrite E in Hl; injection Hl as _ <-; [by eapply IH|].
  exists answer. by eapply jwks_keys_Ok.
Qed.

(** Where the set of [s'] comes from: one of these answers, stored at that time. *)
Definition loaded_from (loads : list (result JWKSResponse * Z)) (s' : KeyState) : Prop :=
  ∃ answer t, (answer, t) ∈ loads ∧ jwks_keys answer = Ok (ks_keys s') ∧ ks_loadedAt s' = t.

Lemma other_loads_run others : ∀ s r s', iterM other_load others s = (r, s') →
  r = Ok tt ∧ (key_reach s → key_reach s') ∧ (s' = s ∨ loaded_from others s').
Proof.
  induction others as [|[answer t] others IH]; intros s r s'; cbn [iterM]; [intros [= <- <-]; split_and!; auto|].
  change ((other_load (answer, t) ≫= λ _, iterM other_load others) s) with (iterM other_load others (loadKeys answer t s).2).
  destruct (loadKeys answer t s) as [r1 s1] eqn:E. cbn [snd]. intros H. destruct (IH s1 r s' H) as (Hr&Hk&Hs). split_and!; [done| |].
  - intros Hs0. apply Hk. by eapply kr_load.
  - destruct Hs as [->|(a&u&Hin&Hj)]; [|right; exists a, u; split; [by right|done]].
    destruct (loadKeys_cases answer t s) as [[e E']|(keys&Hj&E')]; rewrite E in E'; injection E' as -> ->; [by left|].
    right. exists answer, t. split; [by left|done].
Qed.

Lemma reload_key_outcome env kid s r s' : reload_key env kid true s = (r, s') →
  (key_reach s → key_reach s') ∧
  ∀ k, r = Ok k → ks_keys s' !! kid = Some k ∧ loaded_from ((ke_answer env, ke_loaded env) :: ke_others env) s'.
Proof.
  unfold reload_key. run_store. cbn [negb]. run_store. unfold wrap_error.
  destruct (loadKeys_cases (ke_answer env) (ke_loaded env) s) as [[e E]|(keys&Hj&E)]; rewrite E; [by intros [= <- <-]|].
  rewrite mbind_run. destruct (iterM other_load (ke_others env) (mkKeyState keys (ke_loaded env))) as [r1 s1] eqn:Eo.
  destruct (other_loads_run _ _ _ _ Eo) as (->&Hk&Hs). run_store. intros H.
  assert (Hs' : s' = s1) by (destruct (ks_keys s1 !! kid); by injection H). subst s'. split.
  { intros Hr. apply Hk. by eapply kr_load. }
  intros k ->. destruct (ks_keys s1 !! kid) as [k'|]; [|done]. injection H as ->. split; [done|].
  destruct Hs as [->|(a&u&Hin&Ha)]; [exists (ke_answer env), (ke_loaded env); split; [by left|done]|].
  exists a, u. split; [by right|done].
Qed.

(** What a lookup returns, and when its set was loaded. *)
Lemma key_outcome env kid s r s' : key env kid true s = (r, s') →
  (key_reach s → key_reach s') ∧
  ∀ k, r = Ok k → ks_keys s' !! kid = Some k ∧
    ((s' = s ∧ time_sub (ke_now env) (ks_loadedAt s) < 5 * Minute) ∨
     loaded_from ((ke_answer env, ke_loaded env) :: ke_others env) s').
Proof.
  unfold key. run_store. pose proof (reload_key_outcome env kid s r s') as Hslow.
  destruct (ks_keys s !! kid) as [k|] eqn:Ek; [destruct (Z.ltb_spec (time_sub (ke_now env) (ks_loadedAt s)) (5 * Minute))|];
    [intros [= <- <-]; split; [done|]; intros k' [= <-]; split; [done|by left]|..];
    intros [Ha Hb]%Hslow; (split; [done|]); intros k' Hk'; destruct (Hb k' Hk'); auto.
Qed.

(** ** Accepted tokens *)

Lemma cut_first_join c s a b : cut_first c s = Some (a, b) → s = a +:+ String c b.
Proof.
  revert a. induction s as [|c' s IH]; intros a; cbn [cut_first]; [done|].
  destruct (Ascii.eqb_spec c' c) as [->|]; [by intros [= <- ->]|].
  destruct (cut_first c s) as [[a' b']|]; [|done]. intros [= <- ->]. by rewrite str_app_cons, (IH a' eq_refl).
Qed.

(** The claims are those of a token of this realm for this service, valid at [now]. *)
Definition claims_hold (auth : oidcAuthenticator) (now : Z) (claims : tokenClaims) : Prop :=
  tc_Issuer claims = oa_issuer auth ∧ audienceContains (tc_Audience claims) (oa_audience auth) = true ∧
  (∃ expires, number_int64 (tc_Expires claims) = Some expires ∧ now < expires) ∧
  (tc_NotBefore claims = "" ∨ ∃ notBefore, number_int64 (tc_NotBefore claims) = Some notBefore ∧ notBefore <= now).

Lemma principal_of_claims_Ok auth now claims p :
  principal_of_claims auth now claims = Ok p →
  claims_hold auth now claims ∧ Subject p = trim_space (tc_Subject claims) ∧ Subject p ≠ "" ∧ str_len (Subject p) <= 512 ∧
  parseClearanceHeader (tc_Clearance claims) = Ok (Clearance p) ∧ Roles p = extractRoles auth claims.
Proof.
  unfold principal_of_claims, claims_hold. intros H. apply bind_Ok in H as ([]&Hi&H). apply fail_if_Ok in Hi.
  rewrite orb_false_iff, !negb_false_iff, String.eqb_eq in Hi. destruct Hi as [Hi Ha].
  apply bind_Ok in H as ([]&He&H). destruct (number_int64 (tc_Expires claims)) as [expires|] eqn:Ee; [|done].
  apply fail_if_Ok, Z.leb_gt in He. apply bind_Ok in H as ([]&Hn&H). apply bind_Ok in H as ([]&Hs&H).
  apply fail_if_Ok in Hs. rewrite orb_false_iff, String.eqb_neq, Z.ltb_ge in Hs.
  destruct (parseClearanceHeader (tc_Clearance claims)) as [c|]; [|done]. injection H as <-. cbn [Subject Roles Clearance].
  split_and!; try done; try apply Hs; [eauto|]. destruct (String.eqb_spec (tc_NotBefore claims) "") as [|_]; [by left|right].
  destruct (number_int64 (tc_NotBefore claims)) as [nb|]; [|done]. apply fail_if_Ok, Z.ltb_ge in Hn. eauto.
Qed.

Lemma verify_segments_Ok k segment0 segment1 segment2 u : verify_segments k segment0 segment1 segment2 = Ok u →
  ∃ signature, decodeBase64URL segment2 = Some signature ∧
    VerifyPKCS1v15 k (sha256 (segment0 +:+ "." +:+ segment1)) signature = true.
Proof.
  unfold verify_segments. destruct (decodeBase64URL segment2) as [sg|]; [|done]. intros H%fail_if_Ok.
  rewrite negb_false_iff in H. by exists sg.
Qed.

Lemma decode_token_header_Ok segment header : decode_token_header segment = Ok header → th_alg header = "RS256".
Proof.
  unfold decode_token_header. destruct (decodeBase64URL segment) as [raw|]; [|done].
  destruct (Unmarshal token_header _ raw) as [h|]; [|done]. intros H. apply bind_Ok in H as ([]&Hf&[= <-]).
  apply fail_if_Ok in Hf. rewrite orb_false_iff, negb_false_iff, String.eqb_eq in Hf. apply Hf.
Qed.

Lemma Authenticate_key_reach auth env request s r s' : key_reach s → Authenticate auth env request s = (r, s') → key_reach s'.
Proof.
  intros Hs. destruct auth as [|auth]; cbn [Authenticate]; [by intros [= _ <-]|]. unfold oidc_Authenticate. run_store.
  destruct (bearer_token request) as [token|]; [|by intros [= _ <-]]. run_store.
  destruct (split_on "." token) as [|p0 [|p1 [|p2 [|? ?]]]]; try by intros [= _ <-]. run_store.
  destruct (_ || _); [by intros [= _ <-]|]. run_store. destruct (decode_token_header p0) as [header|]; [|by intros [= _ <-]]. run_store.
  destruct (key (au_key env) (th_kid header) true s) as [rk s1] eqn:Ek. apply key_outcome in Ek as [Hr _]. specialize (Hr Hs).
  destruct rk as [k|]; [|by intros [= _ <-]]. run_store.
  destruct (verify_segments k p0 p1 p2); [|by intros [= _ <-]]. run_store.
  destruct (token_claims p1); [|by intros [= _ <-]]. run_store. by intros [= _ <-].
Qed.

(** C12: An accepted bearer token is authentic: it is signed, RS256 over its header
    and claims, by a key the realm listed for signing under the token's key id,
    with a modulus of at least 2048 bits, from a key set loaded less than five
    minutes ago or by this very request; and it carries this realm and service,
    is neither expired nor early, and the principal is the one it names. *)
Theorem token_authentic auth env request s p s' :
  key_reach s → oidc_Authenticate auth env request s = (Ok p, s') →
  key_reach s' ∧
  ∃ segment0 segment1 segment2 header k answer signature claims,
    bearer_token request = Ok (segment0 +:+ "." +:+ segment1 +:+ "." +:+ segment2) ∧
    decode_token_header segment0 = Ok header ∧ th_alg header = "RS256" ∧
    ks_keys s' !! th_kid header = Some k ∧ listed answer (th_kid header) k ∧ strong_key k ∧
    ((s' = s ∧ time_sub (ke_now (au_key env)) (ks_loadedAt s) < 5 * Minute) ∨
     loaded_from ((ke_answer (au_key env), ke_loaded (au_key env)) :: ke_others (au_key env)) s') ∧
    decodeBase64URL segment2 = Some signature ∧
    VerifyPKCS1v15 k (sha256 (segment0 +:+ "." +:+ segment1)) signature = true ∧
    token_claims segment1 = Ok claims ∧ claims_hold auth (au_unix env) claims ∧
    Subject p = trim_space (tc_Subject claims) ∧ parseClearanceHeader (tc_Clearance claims) = Ok (Clearance p) ∧
    Roles p = extractRoles auth claims.
Proof.
  intros Hs. unfold oidc_Authenticate. run_store. destruct (bearer_token request) as [token|] eqn:Et; [|done].
  pose proof (split_on_join "." token) as Hj.
  destruct (split_on "." token) as [|p0 [|p1 [|p2 [|? ?]]]]; try done. run_store.
  destruct ((p0 =s "") || (p1 =s "") || (p2 =s "")); [done|]. destruct (decode_token_header p0) as [header|] eqn:Eh; [|done]. run_store.
  destruct (key (au_key env) (th_kid header) true s) as [[k|] s1] eqn:Ek; [|done]. run_store.
  apply key_outcome in Ek as [Hr Hk]. specialize (Hr Hs). destruct (Hk k eq_refl) as [Hlook Hfresh].
  destruct (verify_segments k p0 p1 p2) as [u|] eqn:Ev; [|done]. apply verify_segments_Ok in Ev as (signature&Hd&Hv).
  run_store. destruct (token_claims p1) as [claims|] eqn:Ec; [|done]. run_store.
  destruct (principal_of_claims auth (au_unix env) claims) as [p'|] eqn:Ep; [|done]. intros [= -> <-].
  apply principal_of_claims_Ok in Ep as (Hc&Hsub&_&_&Hcl&Hro). destruct (key_reach_listed s1 Hr _ _ Hlook) as [answer Hl].
  split; [done|]. exists p0, p1, p2, header, k, answer, signature, claims. split_and!; try done.
  - by f_equal.
  - by apply decode_token_header_Ok in Eh.
  - destruct Hl as (?&item&?&?&?&?&Ha). by apply approved_key_Some in Ha as (_&_&_&_&?).
Qed.

(** ** Principals are well formed *)

Definition role_text (role : string) : Prop := canonical_text role = true ∧ role ≠ "" ∧ str_len role <= 128.

Lemma normalizeRoles_bounded raw : (size (normalizeRoles raw) <= 64)%nat ∧ ∀ role, role ∈ normalizeRoles raw → role_text role.
Proof.
  unfold normalizeRoles. enough (Hgen : ∀ (s : gset string), (size s <= 64)%nat ∧ (∀ role, role ∈ s → role_text role) →
    (size (foldl normalize_step s raw) <= 64)%nat ∧ ∀ role, role ∈ foldl normalize_step s raw → role_text role).
  { apply Hgen. split; [by rewrite size_empty; lia|set_solver]. }
  induction raw as [|v raw IH]; intros s [Hn Ht]; [done|]. cbn [foldl]. apply IH. unfold normalize_step.
  destruct (String.eqb_spec (trim_space v) "") as [|Hne]; [done|]. destruct (Z.ltb_spec 128 (str_len (trim_space v))); [done|].
  destruct (Z.leb_spec 64 (Z.of_nat (size s))); [done|]. cbn [orb]. split.
  - pose proof (size_union_alt {[trim_space v]} s) as Hu. rewrite Hu, size_singleton.
    pose proof (subseteq_size (s ∖ {[trim_space v]}) s ltac:(set_solver)). lia.
  - intros role [->%elem_of_singleton|Hr]%elem_of_union; [|by apply Ht].
    split_and!; [|done|done]. unfold canonical_text. by rewrite trim_space_idem, String.eqb_refl.
Qed.

Lemma extractRoles_bounded auth claims :
  (size (extractRoles auth claims) <= 64 * (1 + length (oa_rolesClientIDs auth)))%nat ∧
  ∀ role, role ∈ extractRoles auth claims → role_text role.
Proof.
  unfold extractRoles. set (f := λ (roles : gset string) clientID, _). destruct (normalizeRoles_bounded (elements_of (tc_RealmAccess claims))) as [Hn Ht].
  enough (Hgen : ∀ ids (s : gset string) (n : nat), (size s <= n)%nat → (∀ role, role ∈ s → role_text role) →
    (size (foldl f s ids) <= n + 64 * length ids)%nat ∧ ∀ role, role ∈ foldl f s ids → role_text role).
  { destruct (Hgen (oa_rolesClientIDs auth) _ _ Hn Ht). split; [lia|done]. }
  induction ids as [|c ids IH]; intros s n Hs Hr; cbn [foldl length]; [split; [lia|done]|].
  unfold f at 2 4. destruct (tc_ResourceAccess claims !! c) as [access|].
  - destruct (normalizeRoles_bounded (elements_of access)) as [Hn' Ht'].
    destruct (IH (normalizeRoles (elements_of access) ∪ s) (64 + n)%nat) as [IH1 IH2]; [|set_solver|split; [lia|done]].
    rewrite size_union_alt. pose proof (subseteq_size (s ∖ normalizeRoles (elements_of access)) s ltac:(set_solver)). lia.
  - destruct (IH s n Hs Hr). split; [lia|done].
Qed.

Lemma parseClearanceHeader_Ok value c : parseClearanceHeader value = Ok c → c ∈ all_labels.
Proof.
  unfold parseClearanceHeader. destruct (_ =s ""); [intros [= <-]; by left|]. unfold ParseClassification.
  destruct (_ || _) eqn:E; [|done]. intros [= <-]. rewrite !orb_true_iff, !String.eqb_eq in E. unfold all_labels.
  rewrite !elem_of_cons. naive_solver.
Qed.

(** The sixteen bytes of a loopback address. *)
Lemma IsLoopback_address ip : IsLoopback ip = true → ∃ a, ip = Some a ∧ (take 12 a = mapped_prefix ∧ a !! 12%nat = Some 127 ∨ a = ip_loopback).
Proof.
  destruct ip as [a|]; [|done]. simpl. intros H. exists a. split; [done|].
  destruct (bool_decide (take 12 a = mapped_prefix)) eqn:E; [left|right]; [apply bool_decide_eq_true in E|]; by apply bool_decide_eq_true in H.
Qed.

Lemma loopback_Authenticate_Ok request p : loopback_Authenticate request = Ok p →
  (∃ host port a, SplitHostPort (rq_remote request) = Some (host, port) ∧ ParseIP host = Some a ∧
    (take 12 a = mapped_prefix ∧ a !! 12%nat = Some 127 ∨ a = ip_loopback)) ∧
  Subject p = trim_space (first_value (rq_header request) "X-Authenticated-Principal") ∧ Subject p ≠ "" ∧ str_len (Subject p) <= 512 ∧
  parseClearanceHeader (first_value (rq_header request) "X-Authenticated-Clearance") = Ok (Clearance p) ∧
  Roles p = parseRoleHeader (first_value (rq_header request) "X-Authenticated-Roles").
Proof.
  unfold loopback_Authenticate. destruct (SplitHostPort _) as [[host port]|]; [|done]. intros H.
  apply bind_Ok in H as ([]&Hl&H). apply fail_if_Ok in Hl. rewrite negb_false_iff in Hl. apply IsLoopback_address in Hl as (a&Ha&Hl).
  apply bind_Ok in H as ([]&_&H). apply bind_Ok in H as ([]&Hs&H). apply fail_if_Ok in Hs.
  rewrite orb_false_iff, String.eqb_neq, Z.ltb_ge in Hs. apply bind_Ok in H as (c&Hc&[= <-]). cbn [Subject Roles Clearance].
  split_and!; try done; try apply Hs. by exists host, port, a.
Qed.

(** How many role lists an authenticator reads. *)
Definition role_lists (auth : Authenticator) : nat :=
  match auth with LoopbackAuthenticator => 1 | OIDCAuthenticator auth => 1 + length (oa_rolesClientIDs auth) end.

(** C26: Every authenticated principal is well formed, whatever the headers or
    claims hold: a trimmed non-empty subject of at most 512 bytes, one of the
    four clearance labels, at most 64 roles per list read, each trimmed,
    non-empty and of at most 128 bytes; and in the trusted-edge mode the
    connection comes from a loopback address. *)
Theorem principal_well_formed auth env request s p s' :
  Authenticate auth env request s = (Ok p, s') →
  canonical_text (Subject p) = true ∧ 1 <= str_len (Subject p) <= 512 ∧ Clearance p ∈ all_labels ∧
  (size (Roles p) <= 64 * role_lists auth)%nat ∧ (∀ role, role ∈ Roles p → role_text role) ∧
  (auth = LoopbackAuthenticator → ∃ host port a, SplitHostPort (rq_remote request) = Some (host, port) ∧ ParseIP host = Some a ∧
    (take 12 a = mapped_prefix ∧ a !! 12%nat = Some 127 ∨ a = ip_loopback)).
Proof.
  assert (Hsub : ∀ v, trim_space v ≠ "" → str_len (trim_space v) <= 512 →
    canonical_text (trim_space v) = true ∧ 1 <= str_len (trim_space v) <= 512).
  { intros v Hv Hl. unfold canonical_text. rewrite trim_space_idem, String.eqb_refl. split; [done|].
    destruct (trim_space v); [done|]. unfold str_len in *. cbn [String.length] in *. lia. }
  destruct auth as [|auth]; cbn [Authenticate role_lists].
  - run_store. intros [= H <-]. apply loopback_Authenticate_Ok in H as (Ha&Hs&Hne&Hl&Hc&Hr). rewrite Hs in *.
    destruct (normalizeRoles_bounded (split_on "," (first_value (rq_header request) "X-Authenticated-Roles"))) as [Hn Ht].
    unfold parseRoleHeader in Hr. rewrite <- Hr in *. apply parseClearanceHeader_Ok in Hc. split_and!; [by apply Hsub..|done|lia|done|done].
  - unfold oidc_Authenticate. run_store. destruct (bearer_token request) as [token|]; [|done].
    destruct (split_on "." token) as [|p0 [|p1 [|p2 [|? ?]]]]; try done. run_store. destruct (_ || _); [done|].
    destruct (decode_token_header p0) as [header|]; [|done]. run_store. destruct (key _ _ _ _) as [[k|] s1]; [|done]. run_store.
    destruct (verify_segments _ _ _ _); [|done]. run_store. destruct (token_claims p1) as [claims|]; [|done]. run_store.
    destruct (principal_of_claims _ _ _) as [p'|] eqn:Ep; [|done]. intros [= -> _].
    apply principal_of_claims_Ok in Ep as (_&Hs&Hne&Hl&Hc&Hr). rewrite Hs in *.
    destruct (extractRoles_bounded auth claims) as [Hn Ht]. rewrite <- Hr in *. apply parseClearanceHeader_Ok in Hc.
    split_and!; [by apply Hsub..|done|lia|done|done].
Qed.

(** ** Witnesses *)

Lemma sample_keys_reach : key_reach sample_keys.
Proof.
  apply (kr_load sample_answer (sample_check - 200 * Second) new_key_state (Ok tt)); [apply kr_new|].
  unfold sample_keys. destruct (loadKeys _ _ _) as [r s] eqn:E. cbn [snd]. f_equal.
  destruct (loadKeys_cases sample_answer (sample_check - 200 * Second) new_key_state) as [[e E']|(keys&_&E')];
    rewrite E in E'; injection E' as -> _; [exfalso|done].
  apply (f_equal fst) in E. revert E. by vm_compute.
Qed.

Lemma token_authentic_witness :
  ∃ kid k answer, ks_keys sample_keys !! kid = Some k ∧ listed answer kid k ∧ strong_key k.
Proof.
  destruct (token_authentic sample_realm sample_auth_env (bearer_request sample_token) sample_keys sample_principal sample_keys
    sample_keys_reach token_accepted) as (_&s0&s1&s2&header&k&answer&_&_&_&_&_&Hk&Hl&Hs&_).
  exists (th_kid header), k, answer. split_and!; assumption.
Defined.

Definition edge_request (remote roles : string) : Request :=
  mkRequest "POST" "/v1/incidents" ["v1"; "incidents"] true ∅
    {[ "X-Trusted-Proxy" := ["loopback"]; "X-Authenticated-Principal" := [" officer-7 "];
       "X-Authenticated-Clearance" := ["restricted"]; "X-Authenticated-Roles" := [roles] ]} remote "".

Definition edge_principal : Principal := mkPrincipal "officer-7" {["nimasa-officer"; "marine-police"]} "RESTRICTED".

Example edge_accepted :
  Authenticate LoopbackAuthenticator sample_auth_env (edge_request "127.0.0.1:9000" "nimasa-officer, marine-police,,") new_key_state
  = (Ok edge_principal, new_key_state).
Proof. vm_compute. reflexivity. Qed.

Example edge_refused :
  Authenticate LoopbackAuthenticator sample_auth_env (edge_request "10.1.2.3:9000" "nimasa-officer") new_key_state
  = (Err (EText "request is not from the trusted local edge"), new_key_state).
Proof. vm_compute. reflexivity. Qed.

Lemma principal_well_formed_witness :
  canonical_text (Subject edge_principal) = true ∧ 1 <= str_len (Subject edge_principal) <= 512 ∧
  Clearance edge_principal ∈ all_labels ∧ (size (Roles edge_principal) <= 64)%nat.
Proof.
  destruct (principal_well_formed _ _ _ _ _ _ edge_accepted) as (Hc&Hl&Hlab&Hs&_).
  split_and!; [exact Hc|apply Hl|apply Hl|exact Hlab|exact Hs].
Defined.
