(* ===== verification/Documents.v ===== *)
(** * Request documents

    The decoders of the JSON bodies and signed payloads the service reads: the
    struct tags of [internal/incident/model.go], [internal/isr/events.go] and of
    the anonymous inputs of [internal/server].  All of them refuse unknown
    fields. *)

From S2P Require Import Prelude GoStrings GoTime Float64 Classification Detection GoJson Unmarshal GoTimeParse Incident.

(** ** Documents of the incident store *)

Definition no_create : CreateRequest := mkCreate "" "" "" "" "" "" 0 "".

Definition create_fields : list (string * Decoder CreateRequest) :=
  [field "incident_id" cr_incident (λ r x, mkCreate x (cr_source_event r) (cr_category r) (cr_severity r) (cr_title r)
     (cr_description r) (cr_occurred r) (cr_created_by r)) dec_string;
   field "source_event_id" cr_source_event (λ r x, mkCreate (cr_incident r) x (cr_category r) (cr_severity r) (cr_title r)
     (cr_description r) (cr_occurred r) (cr_created_by r)) dec_string;
   field "category" cr_category (λ r x, mkCreate (cr_incident r) (cr_source_event r) x (cr_severity r) (cr_title r)
     (cr_description r) (cr_occurred r) (cr_created_by r)) dec_string;
   field "severity" cr_severity (λ r x, mkCreate (cr_incident r) (cr_source_event r) (cr_category r) x (cr_title r)
     (cr_description r) (cr_occurred r) (cr_created_by r)) dec_string;
   field "title" cr_title (λ r x, mkCreate (cr_incident r) (cr_source_event r) (cr_category r) (cr_severity r) x
     (cr_description r) (cr_occurred r) (cr_created_by r)) dec_string;
   field "description" cr_description (λ r x, mkCreate (cr_incident r) (cr_source_event r) (cr_category r) (cr_severity r)
     (cr_title r) x (cr_occurred r) (cr_created_by r)) dec_string;
   field "occurred_at" cr_occurred (λ r x, mkCreate (cr_incident r) (cr_source_event r) (cr_category r) (cr_severity r)
     (cr_title r) (cr_description r) x (cr_created_by r)) dec_time;
   field "created_by" cr_created_by (λ r x, mkCreate (cr_incident r) (cr_source_event r) (cr_category r) (cr_severity r)
     (cr_title r) (cr_description r) (cr_occurred r) x) dec_string].

Definition create_decoder : Decoder CreateRequest := dec_struct true create_fields.

Definition no_correlation : CorrelationRequest := mkCorrelation "" "" fzero fzero "" "".

Definition correlation_fields : list (string * Decoder CorrelationRequest) :=
  [field "geofence_id" co_geofence (λ r x, mkCorrelation x (co_relation r) (co_latitude r) (co_longitude r)
     (co_evidence r) (co_by r)) dec_string;
   field "relation" co_relation (λ r x, mkCorrelation (co_geofence r) x (co_latitude r) (co_longitude r)
     (co_evidence r) (co_by r)) dec_string;
   field "latitude" co_latitude (λ r x, mkCorrelation (co_geofence r) (co_relation r) x (co_longitude r)
     (co_evidence r) (co_by r)) dec_float64;
   field "longitude" co_longitude (λ r x, mkCorrelation (co_geofence r) (co_relation r) (co_latitude r) x
     (co_evidence r) (co_by r)) dec_float64;
   field "evidence_sha256" co_evidence (λ r x, mkCorrelation (co_geofence r) (co_relation r) (co_latitude r) (co_longitude r)
     x (co_by r)) dec_string;
   field "correlated_by" co_by (λ r x, mkCorrelation (co_geofence r) (co_relation r) (co_latitude r) (co_longitude r)
     (co_evidence r) x) dec_string].

Definition no_assignment : AssignmentRequest := mkAssignment 0 "" "".

Definition assignment_fields : list (string * Decoder AssignmentRequest) :=
  [field "expected_version" as_expected (λ r x, mkAssignment x (as_analyst r) (as_by r)) dec_int64;
   field "analyst_id" as_analyst (λ r x, mkAssignment (as_expected r) x (as_by r)) dec_string;
   field "assigned_by" as_by (λ r x, mkAssignment (as_expected r) (as_analyst r) x) dec_string].

(** ** Detections

    The arrays of a detection are decoded as slices, which keep their backing
    store while a member is repeated, and become lists at the end. *)

Definition dec_pointer {A} (zero : A) (d : Decoder A) : Decoder (option A) := λ old v,
  match v with VNull => Ok None | _ => x ← d (default zero old) v; Ok (Some x) end.

Definition ais_fields : list (string * Decoder AISPayload) :=
  [field "mmsi" ais_mmsi (λ p x, mkAIS x (ais_speed_knots p) (ais_heading_deg p) (ais_nav_status p) (ais_call_sign p)
     (ais_destination p)) dec_string;
   field "speed_knots" ais_speed_knots (λ p x, mkAIS (ais_mmsi p) x (ais_heading_deg p) (ais_nav_status p) (ais_call_sign p)
     (ais_destination p)) dec_float64;
   field "heading_deg" ais_heading_deg (λ p x, mkAIS (ais_mmsi p) (ais_speed_knots p) x (ais_nav_status p) (ais_call_sign p)
     (ais_destination p)) dec_float64;
   field "nav_status" ais_nav_status (λ p x, mkAIS (ais_mmsi p) (ais_speed_knots p) (ais_heading_deg p) x (ais_call_sign p)
     (ais_destination p)) dec_string;
   field "call_sign" ais_call_sign (λ p x, mkAIS (ais_mmsi p) (ais_speed_knots p) (ais_heading_deg p) (ais_nav_status p) x
     (ais_destination p)) dec_string;
   field "destination" ais_destination (λ p x, mkAIS (ais_mmsi p) (ais_speed_knots p) (ais_heading_deg p) (ais_nav_status p)
     (ais_call_sign p) x) dec_string].

Definition sar_fields : list (string * Decoder SARPayload) :=
  [field "scene_ref" sar_scene_ref (λ p x, mkSAR x (sar_confidence p) (sar_vessel_class p) (sar_length_m p)) dec_string;
   field "confidence" sar_confidence (λ p x, mkSAR (sar_scene_ref p) x (sar_vessel_class p) (sar_length_m p)) dec_float64;
   field "vessel_class" sar_vessel_class (λ p x, mkSAR (sar_scene_ref p) (sar_confidence p) x (sar_length_m p)) dec_string;
   field "length_m" sar_length_m (λ p x, mkSAR (sar_scene_ref p) (sar_confidence p) (sar_vessel_class p) x) dec_float64].

Definition rf_fields : list (string * Decoder RFPayload) :=
  [field "frequency_band" rf_frequency_band (λ p x, mkRF x (rf_bearing_deg p) (rf_signal_dbm p) (rf_emitter_ref p)) dec_string;
   field "bearing_deg" rf_bearing_deg (λ p x, mkRF (rf_frequency_band p) x (rf_signal_dbm p) (rf_emitter_ref p)) dec_float64;
   field "signal_dbm" rf_signal_dbm (λ p x, mkRF (rf_frequency_band p) (rf_bearing_deg p) x (rf_emitter_ref p)) dec_float64;
   field "emitter_ref" rf_emitter_ref (λ p x, mkRF (rf_frequency_band p) (rf_bearing_deg p) (rf_signal_dbm p) x) dec_string].

Definition acoustic_fields : list (string * Decoder AcousticPayload) :=
  [field "signature_ref" ac_signature_ref (λ p x, mkAcoustic x (ac_confidence p) (ac_bearing_deg p)) dec_string;
   field "confidence" ac_confidence (λ p x, mkAcoustic (ac_signature_ref p) x (ac_bearing_deg p)) dec_float64;
   field "bearing_deg" ac_bearing_deg (λ p x, mkAcoustic (ac_signature_ref p) (ac_confidence p) x) dec_float64].

Definition box_fields : list (string * Decoder DetectionBox) :=
  [field "x" box_x (λ b v, mkBox v (box_y b) (box_width b) (box_height b) (box_confidence b)) dec_float64;
   field "y" box_y (λ b v, mkBox (box_x b) v (box_width b) (box_height b) (box_confidence b)) dec_float64;
   field "width" box_width (λ b v, mkBox (box_x b) (box_y b) v (box_height b) (box_confidence b)) dec_float64;
   field "height" box_height (λ b v, mkBox (box_x b) (box_y b) (box_width b) v (box_confidence b)) dec_float64;
   field "confidence" box_confidence (λ b v, mkBox (box_x b) (box_y b) (box_width b) (box_height b) v) dec_float64].

Record OpticalDoc : Type := mkOpticalDoc { od_image : string; od_boxes : slice DetectionBox }.

Definition no_box : DetectionBox := mkBox fzero fzero fzero fzero fzero.

Definition optical_fields : list (string * Decoder OpticalDoc) :=
  [field "image_ref" od_image (λ o x, mkOpticalDoc x (od_boxes o)) dec_string;
   field "detection_boxes" od_boxes (λ o x, mkOpticalDoc (od_image o) x) (dec_slice no_box (dec_struct true box_fields))].

(** The detection without its arrays, and the arrays. *)
Record DetectionDoc : Type := mkDetectionDoc { dd_base : Detection; dd_optical : option OpticalDoc; dd_refs : slice string }.

Definition no_detection : Detection :=
  mkDetection "" "" "" "" "" 0 false fzero fzero "" None None None None None [].

(** A field of the part that is a [Detection] already. *)
Definition base_field {B} (name : string) (get : Detection → B) (set : Detection → B → Detection) (d : Decoder B)
    : string * Decoder DetectionDoc :=
  field name (λ doc, get (dd_base doc)) (λ doc x, mkDetectionDoc (set (dd_base doc) x) (dd_optical doc) (dd_refs doc)) d.

Definition detection_fields : list (string * Decoder DetectionDoc) :=
  [base_field "event_id" EventID (λ d x, mkDetection x (SourceID d) (SourceEventID d) (det_modality d) (det_classification d) (ObservedAt d) (HasPosition d)
     (det_latitude d) (det_longitude d) (MMSI d) (AIS d) (SAR d) (RF d) (Acoustic d) (Optical d) (CorrelationRefs d)) dec_string;
   base_field "source_id" SourceID (λ d x, mkDetection (EventID d) x (SourceEventID d) (det_modality d) (det_classification d) (ObservedAt d) (HasPosition d)
     (det_latitude d) (det_longitude d) (MMSI d) (AIS d) (SAR d) (RF d) (Acoustic d) (Optical d) (CorrelationRefs d)) dec_string;
   base_field "source_event_id" SourceEventID (λ d x, mkDetection (EventID d) (SourceID d) x (det_modality d) (det_classification d) (ObservedAt d) (HasPosition d)
     (det_latitude d) (det_longitude d) (MMSI d) (AIS d) (SAR d) (RF d) (Acoustic d) (Optical d) (CorrelationRefs d)) dec_string;
   base_field "modality" det_modality (λ d x, mkDetection (EventID d) (SourceID d) (SourceEventID d) x (det_classification d) (ObservedAt d) (HasPosition d)
     (det_latitude d) (det_longitude d) (MMSI d) (AIS d) (SAR d) (RF d) (Acoustic d) (Optical d) (CorrelationRefs d)) dec_string;
   base_field "classification" det_classification (λ d x, mkDetection (EventID d) (SourceID d) (SourceEventID d) (det_modality d) x (ObservedAt d) (HasPosition d)
     (det_latitude d) (det_longitude d) (MMSI d) (AIS d) (SAR d) (RF d) (Acoustic d) (Optical d) (CorrelationRefs d)) dec_string;
   base_field "observed_at" ObservedAt (λ d x, mkDetection (EventID d) (SourceID d) (SourceEventID d) (det_modality d) (det_classification d) x (HasPosition d)
     (det_latitude d) (det_longitude d) (MMSI d) (AIS d) (SAR d) (RF d) (Acoustic d) (Optical d) (CorrelationRefs d)) dec_time;
   base_field "has_position" HasPosition (λ d x, mkDetection (EventID d) (SourceID d) (SourceEventID d) (det_modality d) (det_classification d) (ObservedAt d) x
     (det_latitude d) (det_longitude d) (MMSI d) (AIS d) (SAR d) (RF d) (Acoustic d) (Optical d) (CorrelationRefs d)) dec_bool;
   base_field "latitude" det_latitude (λ d x, mkDetection (EventID d) (SourceID d) (SourceEventID d) (det_modality d) (det_classification d) (ObservedAt d) (HasPosition d)
     x (det_longitude d) (MMSI d) (AIS d) (SAR d) (RF d) (Acoustic d) (Optical d) (CorrelationRefs d)) dec_float64;
   base_field "longitude" det_longitude (λ d x, mkDetection (EventID d) (SourceID d) (SourceEventID d) (det_modality d) (det_classification d) (ObservedAt d) (HasPosition d)
     (det_latitude d) x (MMSI d) (AIS d) (SAR d) (RF d) (Acoustic d) (Optical d) (CorrelationRefs d)) dec_float64;
   base_field "mmsi" MMSI (λ d x, mkDetection (EventID d) (SourceID d) (SourceEventID d) (det_modality d) (det_classification d) (ObservedAt d) (HasPosition d)
     (det_latitude d) (det_longitude d) x (AIS d) (SAR d) (RF d) (Acoustic d) (Optical d) (CorrelationRefs d)) dec_string;
   base_field "ais" AIS (λ d x, mkDetection (EventID d) (SourceID d) (SourceEventID d) (det_modality d) (det_classification d) (ObservedAt d) (HasPosition d)
     (det_latitude d) (det_longitude d) (MMSI d) x (SAR d) (RF d) (Acoustic d) (Optical d) (CorrelationRefs d)) (dec_pointer (mkAIS "" fzero fzero "" "" "") (dec_struct true ais_fields));
   base_field "sar" SAR (λ d x, mkDetection (EventID d) (SourceID d) (SourceEventID d) (det_modality d) (det_classification d) (ObservedAt d) (HasPosition d)
     (det_latitude d) (det_longitude d) (MMSI d) (AIS d) x (RF d) (Acoustic d) (Optical d) (CorrelationRefs d)) (dec_pointer (mkSAR "" fzero "" fzero) (dec_struct true sar_fields));
   base_field "rf" RF (λ d x, mkDetection (EventID d) (SourceID d) (SourceEventID d) (det_modality d) (det_classification d) (ObservedAt d) (HasPosition d)
     (det_latitude d) (det_longitude d) (MMSI d) (AIS d) (SAR d) x (Acoustic d) (Optical d) (CorrelationRefs d)) (dec_pointer (mkRF "" fzero fzero "") (dec_struct true rf_fields));
   base_field "acoustic" Acoustic (λ d x, mkDetection (EventID d) (SourceID d) (SourceEventID d) (det_modality d) (det_classification d) (ObservedAt d) (HasPosition d)
     (det_latitude d) (det_longitude d) (MMSI d) (AIS d) (SAR d) (RF d) x (Optical d) (CorrelationRefs d)) (dec_pointer (mkAcoustic "" fzero fzero) (dec_struct true acoustic_fields));
   field "optical" dd_optical (λ doc x, mkDetectionDoc (dd_base doc) x (dd_refs doc))
     (dec_pointer (mkOpticalDoc "" nil_slice) (dec_struct true optical_fields));
   field "correlation_refs" dd_refs (λ doc x, mkDetectionDoc (dd_base doc) (dd_optical doc) x) (dec_slice "" dec_string)].

Definition detection_of (doc : DetectionDoc) : Detection :=
  let d := dd_base doc in
  mkDetection (EventID d) (SourceID d) (SourceEventID d) (det_modality d) (det_classification d) (ObservedAt d) (HasPosition d)
    (det_latitude d) (det_longitude d) (MMSI d) (AIS d) (SAR d) (RF d) (Acoustic d)
    ((λ o, mkOptical (od_image o) (elements_of (od_boxes o))) <$> dd_optical doc) (elements_of (dd_refs doc)).

(** Exactly one object: nothing but space may follow it. *)
Definition decode_exact {A} (d : Decoder A) (zero : A) (raw : string) : option A :=
  match Unmarshal d zero raw with Ok x => Some x | Err _ => None end.

(** The decoders of signed payloads. *)
Definition decode_detection (payload : string) : option Detection :=
  detection_of <$> decode_exact (dec_struct true detection_fields) (mkDetectionDoc no_detection None nil_slice) payload.

Definition decode_create (payload : string) : option CreateRequest := decode_exact create_decoder no_create payload.

(** ** Inputs of the handlers

    The anonymous structs; times and numbers by their Go type. *)

Record SignedInput : Type := mkSignedInput {
  si_source : string; si_event : string; si_claimed : Z; si_payload : string; si_signature : string }.

Definition signed_fields : list (string * Decoder SignedInput) :=
  [field "source_id" si_source (λ r x, mkSignedInput x (si_event r) (si_claimed r) (si_payload r) (si_signature r)) dec_string;
   field "source_event_id" si_event (λ r x, mkSignedInput (si_source r) x (si_claimed r) (si_payload r) (si_signature r)) dec_string;
   field "claimed_at" si_claimed (λ r x, mkSignedInput (si_source r) (si_event r) x (si_payload r) (si_signature r)) dec_time;
   field "payload_base64" si_payload (λ r x, mkSignedInput (si_source r) (si_event r) (si_claimed r) x (si_signature r)) dec_string;
   field "signature_base64" si_signature (λ r x, mkSignedInput (si_source r) (si_event r) (si_claimed r) (si_payload r) x) dec_string].

Record SourceInput : Type := mkSourceInput {
  so_source : string; so_kind : string; so_authority : string; so_key : string; so_active : bool }.

Definition source_fields : list (string * Decoder SourceInput) :=
  [field "source_id" so_source (λ r x, mkSourceInput x (so_kind r) (so_authority r) (so_key r) (so_active r)) dec_string;
   field "source_kind" so_kind (λ r x, mkSourceInput (so_source r) x (so_authority r) (so_key r) (so_active r)) dec_string;
   field "authority" so_authority (λ r x, mkSourceInput (so_source r) (so_kind r) x (so_key r) (so_active r)) dec_string;
   field "public_key_base64" so_key (λ r x, mkSourceInput (so_source r) (so_kind r) (so_authority r) x (so_active r)) dec_string;
   field "active" so_active (λ r x, mkSourceInput (so_source r) (so_kind r) (so_authority r) (so_key r) x) dec_bool].

Record RevokeInput : Type := mkRevokeInput { ri_reason : string; ri_by : string }.

Definition revoke_fields : list (string * Decoder RevokeInput) :=
  [field "reason" ri_reason (λ r x, mkRevokeInput x (ri_by r)) dec_string;
   field "revoked_by" ri_by (λ r x, mkRevokeInput (ri_reason r) x) dec_string].

Record RotateInput : Type := mkRotateInput { ro_key : string; ro_grace : Z; ro_by : string }.

Definition rotate_fields : list (string * Decoder RotateInput) :=
  [field "public_key_base64" ro_key (λ r x, mkRotateInput x (ro_grace r) (ro_by r)) dec_string;
   field "grace_until" ro_grace (λ r x, mkRotateInput (ro_key r) x (ro_by r)) dec_time;
   field "rotated_by" ro_by (λ r x, mkRotateInput (ro_key r) (ro_grace r) x) dec_string].

(** [transitionRequest] *)
Definition transition_fields : list (string * Decoder Z) := [field "expected_version" (λ v, v) (λ _ x, x) dec_int64].

Record OutcomeInput : Type := mkOutcomeInput {
  oi_entry : string; oi_kind : string; oi_incident : string; oi_classification : string; oi_metric : string;
  oi_quantity : Z; oi_unit : string }.

Definition outcome_fields : list (string * Decoder OutcomeInput) :=
  [field "entry_id" oi_entry (λ r x, mkOutcomeInput x (oi_kind r) (oi_incident r) (oi_classification r) (oi_metric r)
     (oi_quantity r) (oi_unit r)) dec_string;
   field "entry_kind" oi_kind (λ r x, mkOutcomeInput (oi_entry r) x (oi_incident r) (oi_classification r) (oi_metric r)
     (oi_quantity r) (oi_unit r)) dec_string;
   field "incident_ref" oi_incident (λ r x, mkOutcomeInput (oi_entry r) (oi_kind r) x (oi_classification r) (oi_metric r)
     (oi_quantity r) (oi_unit r)) dec_string;
   field "classification" oi_classification (λ r x, mkOutcomeInput (oi_entry r) (oi_kind r) (oi_incident r) x (oi_metric r)
     (oi_quantity r) (oi_unit r)) dec_string;
   field "metric" oi_metric (λ r x, mkOutcomeInput (oi_entry r) (oi_kind r) (oi_incident r) (oi_classification r) x
     (oi_quantity r) (oi_unit r)) dec_string;
   field "quantity" oi_quantity (λ r x, mkOutcomeInput (oi_entry r) (oi_kind r) (oi_incident r) (oi_classification r) (oi_metric r)
     x (oi_unit r)) dec_int64;
   field "unit" oi_unit (λ r x, mkOutcomeInput (oi_entry r) (oi_kind r) (oi_incident r) (oi_classification r) (oi_metric r)
     (oi_quantity r) x) dec_string].

Example decode_sar :
  decode_detection (quoted "{'event_id':'d-1','source_id':'sat-1','source_event_id':'e-1','modality':'SAR','classification':'SECRET',
    'observed_at':'1970-01-01T00:00:00Z','has_position':true,'latitude':0.5,'sar':{'scene_ref':'s-1','confidence':1},'correlation_refs':['x']} ")
  = Some (mkDetection "d-1" "sat-1" "e-1" "SAR" "SECRET" unix_epoch true (f_of_Q 1 2) fzero "" None
      (Some (mkSAR "s-1" fone "" fzero)) None None None ["x"]).
Proof. vm_compute. reflexivity. Qed.

Example decode_two_objects : decode_detection "{} {}" = None.
Proof. vm_compute. reflexivity. Qed.

Example decode_unknown_field : decode_create (quoted "{'created_at':'1970-01-01T00:00:00Z'}") = None.
Proof. vm_compute. reflexivity. Qed.
