(* ===== verification/Aggregates.v ===== *)
(** * Outcome aggregates ([OutcomeAggregates] of [internal/isr/access.go])

    The only evidence an insurer reads: counts and totals of the confirmed
    ledger entries by kind, metric and unit, without any track data. *)

From S2P Require Import Prelude GoStrings GoTime Classification Ledger IsrStore.

Record OutcomeAggregate : Type := mkAggregate {
  oa_kind : string;
  oa_metric : string;
  oa_unit : string;
  oa_entries : Z;
  oa_total : Z;
  oa_latest : Z
}.

(** The columns of GROUP BY. *)
Definition group_of (e : Entry) : string * string * string :=
  (pr_kind (en_proposal e), pr_metric (en_proposal e), pr_unit (en_proposal e)).

Definition group_rows (rows : list Entry) (g : string * string * string) : list Entry :=
  List.filter (λ e, bool_decide (group_of e = g)) rows.

Definition total (rows : list Entry) : Z := foldr (λ e acc, pr_quantity (en_proposal e) + acc) 0 rows.
Definition latest (rows : list Entry) : Z :=
  match rows with
  | [] => 0
  | e :: rest => foldr (λ e acc, Z.max (en_confirmed_at e) acc) (en_confirmed_at e) rest
  end.

(** One row of the result, scanned: the sum is numeric and need not fit. *)
Definition scan_aggregate (rows : list Entry) (g : string * string * string) : result OutcomeAggregate :=
  let members := group_rows rows g in
  _ ← fail_if (max_int64 <? total members) (EWrap "scan outcome aggregate" (EText "numeric out of range"));
  Ok (mkAggregate g.1.1 g.1.2 g.2 (Z.of_nat (length members)) (total members) (latest members)).

(** [groups] are the distinct groups of the table in an ascending order of
    [entry_kind]. *)
Definition OutcomeAggregates (principal : Principal) (groups : list (string * string * string)) (table : gmap string Entry)
    : result (list OutcomeAggregate) :=
  _ ← CanReadOutcomeAggregates principal;
  collect (scan_aggregate (map_to_list table).*2) groups.
