(* ===== verification/AggregatesProofs.v ===== *)
(** * Theorems on the outcome aggregates

    The rows of the aggregate partition the confirmed ledger: nothing is
    counted twice and nothing is left out. *)

From S2P Require Import Prelude GoStrings GoTime Classification Ledger LedgerProofs IsrStore IsrStoreProofs Aggregates.

Definition sum_by {A} (f : A → Z) (l : list A) : Z := foldr (λ x acc, f x + acc) 0 l.

Lemma sum_by_app {A} (f : A → Z) l1 l2 : sum_by f (l1 ++ l2) = sum_by f l1 + sum_by f l2.
Proof. unfold sum_by. induction l1 as [|x l1 IH]; cbn [foldr app]; lia. Qed.

Lemma sum_by_add {A} (f g : A → Z) l : sum_by (λ x, f x + g x) l = sum_by f l + sum_by g l.
Proof. unfold sum_by. induction l as [|x l IH]; cbn [foldr]; lia. Qed.

Lemma sum_by_ext {A} (f g : A → Z) l : (∀ x, x ∈ l → f x = g x) → sum_by f l = sum_by g l.
Proof.
  unfold sum_by. induction l as [|x l IH]; intros Hf; cbn [foldr]; [done|]. rewrite (Hf x), IH; [done| |by left].
  intros y Hy. apply Hf. by right.
Qed.

Lemma sum_by_zero {A} (l : list A) : sum_by (λ _, 0) l = 0.
Proof. unfold sum_by. induction l; cbn [foldr]; lia. Qed.

(** One key of a duplicate-free list. *)
Lemma sum_by_indicator (g : string * string * string) (z : Z) groups :
  NoDup groups → g ∈ groups → sum_by (λ k, if bool_decide (g = k) then z else 0) groups = z.
Proof.
  intros Hnd Hin. apply list_elem_of_split in Hin as (l1&l2&->). apply NoDup_app in Hnd as (_&Hd&Hnd).
  apply NoDup_cons in Hnd as [Hn _]. rewrite sum_by_app.
  rewrite (sum_by_ext _ (λ _, 0) l1), sum_by_zero.
  2:{ intros k Hk. rewrite bool_decide_eq_false_2; [done|]. intros ->. apply (Hd _ Hk). by left. }
  change (sum_by ?f (g :: l2)) with (f g + sum_by f l2). rewrite (sum_by_ext _ (λ _, 0) l2), sum_by_zero.
  2:{ intros k Hk. rewrite bool_decide_eq_false_2; [done|]. by intros ->. }
  cbv beta. rewrite bool_decide_eq_true_2 by done. lia.
Qed.

(** Summing by group sums everything once. *)
Lemma sum_by_groups (f : Entry → Z) rows groups :
  NoDup groups → (∀ e, e ∈ rows → group_of e ∈ groups) →
  sum_by (λ g, sum_by f (group_rows rows g)) groups = sum_by f rows.
Proof.
  intros Hnd. induction rows as [|e rows IH]; intros Hc; [apply sum_by_zero|].
  transitivity (sum_by (λ g, (if bool_decide (group_of e = g) then f e else 0) + sum_by f (group_rows rows g)) groups).
  - apply sum_by_ext. intros g _. unfold group_rows. simpl. case_bool_decide; [done|lia].
  - rewrite sum_by_add, sum_by_indicator, IH; [done| |done|]; [intros e' He'|]; apply Hc; by constructor.
Qed.

Lemma length_sum {A} (l : list A) : Z.of_nat (length l) = sum_by (λ _, 1) l.
Proof. unfold sum_by. induction l as [|x l IH]; [done|]. cbn [length foldr]. lia. Qed.

Lemma sum_by_Forall2 {A B} (R : A → B → Prop) (f : A → Z) (g : B → Z) l k :
  Forall2 R l k → (∀ x y, R x y → f x = g y) → sum_by f l = sum_by g k.
Proof. intros HF Hfg. unfold sum_by. induction HF as [|x y l k Hxy _ IH]; cbn [foldr]; [done|]. by rewrite (Hfg x y Hxy), IH. Qed.

Lemma scan_aggregate_Ok rows g a :
  scan_aggregate rows g = Ok a ↔
  total (group_rows rows g) <= max_int64 ∧
  a = mkAggregate g.1.1 g.1.2 g.2 (Z.of_nat (length (group_rows rows g))) (total (group_rows rows g)) (latest (group_rows rows g)).
Proof.
  unfold scan_aggregate. destruct (Z.ltb_spec max_int64 (total (group_rows rows g))); simpl; split; try (intros [? ?]); try lia; try done.
  - by intros [= <-].
  - by subst.
Qed.

(** The groups of a table, each once. *)
Definition groups_of (groups : list (string * string * string)) (table : gmap string Entry) : Prop :=
  NoDup groups ∧ ∀ g, g ∈ groups ↔ ∃ id e, table !! id = Some e ∧ group_of e = g.

Lemma table_rows (table : gmap string Entry) e : e ∈ (map_to_list table).*2 ↔ ∃ id, table !! id = Some e.
Proof.
  rewrite list_elem_of_fmap. split.
  - intros ([id e']&->&Hin%elem_of_map_to_list). by exists id.
  - intros [id Hid]. exists (id, e). split; [done|]. by apply elem_of_map_to_list.
Qed.

(** C27: The aggregates partition the confirmed ledger: their counts add up to the
    number of entries and their totals to the sum of the quantities, there is
    one aggregate per group of kind, metric and unit, each counts at least one
    entry, and every total fits 64 bits.  Only a caller without an
    aggregate-reader role, or a total beyond 64 bits, gets an error. *)
Theorem aggregates_partition principal groups table :
  groups_of groups table →
  match OutcomeAggregates principal groups table with
  | Ok aggregates =>
      (∃ r, r ∈ Roles principal ∧ r ∈ outcomeAggregateReaderRoles) ∧
      (λ a, (oa_kind a, oa_metric a, oa_unit a)) <$> aggregates = groups ∧
      sum_by oa_entries aggregates = Z.of_nat (size table) ∧
      sum_by oa_total aggregates = total (map_to_list table).*2 ∧
      ∀ a, a ∈ aggregates → 1 <= oa_entries a ∧ oa_total a <= max_int64
  | Err e =>
      (e = ErrForbidden ∧ ¬ ∃ r, r ∈ Roles principal ∧ r ∈ outcomeAggregateReaderRoles) ∨
      ∃ g, g ∈ groups ∧ max_int64 < total (group_rows (map_to_list table).*2 g)
  end.
Proof.
  intros [Hnd Hg]. unfold OutcomeAggregates, CanReadOutcomeAggregates. set (rows := (map_to_list table).*2).
  destruct (any_role principal outcomeAggregateReaderRoles) eqn:Er; cbn [negb fail_if mbind result_bind].
  2:{ left. split; [done|]. intros Hr%any_role_iff. congruence. }
  assert (Hc : ∀ e, e ∈ rows → group_of e ∈ groups) by (intros e [id Hid]%table_rows; apply Hg; eauto).
  destruct (collect (scan_aggregate rows) groups) as [aggregates|err] eqn:Ec.
  - apply collect_Ok in Ec. split; [by apply any_role_iff|].
    assert (Hrow : ∀ g a, scan_aggregate rows g = Ok a → (oa_kind a, oa_metric a, oa_unit a) = g) by (intros [[k m] u] a [_ ->]%scan_aggregate_Ok; done).
    split; [|split_and!].
    + clear -Ec Hrow. induction Ec as [|g a gs aggs Ha _ IH]; [done|]. rewrite fmap_cons, IH. f_equal. by apply Hrow.
    + rewrite <- (sum_by_Forall2 _ (λ g, sum_by (λ _, 1) (group_rows rows g)) _ _ _ Ec).
      2:{ intros g a [_ ->]%scan_aggregate_Ok. cbn [oa_entries]. by rewrite length_sum. }
      rewrite sum_by_groups, <- length_sum by done. unfold rows. by rewrite length_fmap, length_map_to_list.
    + rewrite <- (sum_by_Forall2 _ (λ g, sum_by (λ e, pr_quantity (en_proposal e)) (group_rows rows g)) _ _ _ Ec).
      2:{ by intros g a [_ ->]%scan_aggregate_Ok. }
      by apply sum_by_groups.
    + intros a Ha. apply list_elem_of_lookup in Ha as [i Hi].
      destruct (Forall2_lookup_r _ _ _ _ _ Ec Hi) as (g&Hgi&[Ht ->]%scan_aggregate_Ok). cbn [oa_entries oa_total]. split; [|exact Ht].
      assert (Hin : g ∈ groups) by (by eapply list_elem_of_lookup_2). apply Hg in Hin as (id&e&He&Hge).
      assert (Hm : In e (group_rows rows g)).
      { unfold group_rows. apply filter_In. split; [|by apply bool_decide_eq_true_2]. apply list_elem_of_In, table_rows. eauto. }
      destruct (group_rows rows g); [done|]. cbn [length]. lia.
  - right. destruct (decide (Exists (λ g, max_int64 < total (group_rows rows g)) groups)) as [Hex|Hall].
    + apply Exists_exists in Hex as (g&?&?). by exists g.
    + exfalso. destruct (collect_total (scan_aggregate rows) groups) as [bs Hbs]; [|congruence].
      intros g Hin. eexists. apply scan_aggregate_Ok. split; [|done]. apply Z.nlt_ge. intros Hlt. apply Hall, Exists_exists. by exists g.
Qed.

Definition sample_insurer : Principal := mkPrincipal "lloyds-1" {["insurer-aggregator"]} "RESTRICTED".
Definition sample_groups : list (string * string * string) := [(EntryKindIncidentVerified, MetricIncidentReduction, UnitIncidents)].

Lemma aggregates_partition_witness :
  OutcomeAggregates sample_insurer sample_groups (entries confirmed_world.1) =
    Ok [mkAggregate EntryKindIncidentVerified MetricIncidentReduction UnitIncidents 1 3 200] ∧
  sum_by oa_entries [mkAggregate EntryKindIncidentVerified MetricIncidentReduction UnitIncidents 1 3 200] =
    Z.of_nat (size (entries confirmed_world.1)).
Proof.
  assert (Hg : groups_of sample_groups (entries confirmed_world.1)).
  { split; [apply NoDup_singleton|]. intros g. unfold sample_groups. rewrite list_elem_of_singleton. split.
    - intros ->. exists "entry-001". eexists. split; vm_compute; reflexivity.
    - intros (id&e&He&<-). destruct (decide (id = "entry-001")) as [->|Hne].
      + vm_compute in He. injection He as <-. reflexivity.
      + assert (Hl : entries confirmed_world.1 = {["entry-001" := sample_entry]}) by (vm_compute; reflexivity).
        rewrite Hl, lookup_singleton_ne in He; [discriminate He|]. intros Heq. apply Hne. symmetry. exact Heq. }
  pose proof (aggregates_partition sample_insurer sample_groups (entries confirmed_world.1) Hg) as Hp.
  assert (Ho : OutcomeAggregates sample_insurer sample_groups (entries confirmed_world.1) =
    Ok [mkAggregate EntryKindIncidentVerified MetricIncidentReduction UnitIncidents 1 3 200]) by (vm_compute; reflexivity).
  rewrite Ho in Hp. split; [exact Ho|]. exact (proj1 (proj2 (proj2 Hp))).
Defined.
