(* ===== verification/CvConsumer.v ===== *)
(** * Computer-vision consumer ([internal/cvconsumer/cvconsumer.go],
    [cmd/cv-consumer])

    Signed records of the computer-vision service are verified, fused as optical
    detections or kept as dark-vessel anomalies, and every dark-vessel anomaly
    starts a response workflow.

    The anomaly recorder and the workflow starter are interfaces in the code;
    here they are the classes [AnomalyRecorder] and [Temporal], with the promises
    the consumer relies on.  The two recorders of the repository are instances:
    [log_recorder] of the binary, which keeps nothing, and the track store
    ([store_recorder], in [CvConsumerProofs]). *)

From S2P Require Import Prelude GoStrings GoTime Float64 Geo Classification Detection Fusion GoFormat GoUtf8 GoNumber GoJson Unmarshal GoTimeParse TrackStore Workflow Feed Provenance.

(** ** Topics and rejection codes *)

Definition TopicVesselDetection : string := "cv.vessel-detection.v1".
Definition TopicDarkVessel : string := "cv.dark-vessel.v1".

Definition RejectSignature : string := "signature-verification-failed".
Definition RejectMalformed : string := "malformed-envelope".
Definition RejectUnknownType : string := "unknown-event-type".
Definition RejectClassification : string := "unmapped-classification".
Definition RejectPayload : string := "invalid-payload".

(** ** The view of an envelope *)

Record FhirView : Type := mkFhir { fv_resource_type : string; fv_type : string; fv_entry : slice (option jvalue) }.

Record envelopeView : Type := mkView {
  vw_version : string;
  vw_event_id : string;
  vw_event_type : string;
  vw_occurred_at : string;
  vw_producer : string;
  vw_classification : string;
  FHIR : FhirView
}.

Definition zero_view : envelopeView := mkView "" "" "" "" "" "" (mkFhir "" "" nil_slice).

(** One element of [entry]: its [resource], [None] where the member is absent. *)
Definition entry_fields : list (string * Decoder (option jvalue)) :=
  [field "resource" (λ r, r) (λ _ r, r) dec_raw].

Definition fhir_fields : list (string * Decoder FhirView) :=
  [field "resourceType" fv_resource_type (λ f s, mkFhir s (fv_type f) (fv_entry f)) dec_string;
   field "type" fv_type (λ f s, mkFhir (fv_resource_type f) s (fv_entry f)) dec_string;
   field "entry" fv_entry (λ f l, mkFhir (fv_resource_type f) (fv_type f) l)
     (dec_slice None (dec_struct false entry_fields))].

Definition view_fields : list (string * Decoder envelopeView) :=
  [field "envelopeVersion" vw_version
     (λ v s, mkView s (vw_event_id v) (vw_event_type v) (vw_occurred_at v) (vw_producer v) (vw_classification v) (FHIR v)) dec_string;
   field "eventId" vw_event_id
     (λ v s, mkView (vw_version v) s (vw_event_type v) (vw_occurred_at v) (vw_producer v) (vw_classification v) (FHIR v)) dec_string;
   field "eventType" vw_event_type
     (λ v s, mkView (vw_version v) (vw_event_id v) s (vw_occurred_at v) (vw_producer v) (vw_classification v) (FHIR v)) dec_string;
   field "occurredAt" vw_occurred_at
     (λ v s, mkView (vw_version v) (vw_event_id v) (vw_event_type v) s (vw_producer v) (vw_classification v) (FHIR v)) dec_string;
   field "producer" vw_producer
     (λ v s, mkView (vw_version v) (vw_event_id v) (vw_event_type v) (vw_occurred_at v) s (vw_classification v) (FHIR v)) dec_string;
   field "classification" vw_classification
     (λ v s, mkView (vw_version v) (vw_event_id v) (vw_event_type v) (vw_occurred_at v) (vw_producer v) s (FHIR v)) dec_string;
   field "fhir" FHIR
     (λ v f, mkView (vw_version v) (vw_event_id v) (vw_event_type v) (vw_occurred_at v) (vw_producer v) (vw_classification v) f)
     (dec_struct false fhir_fields)].

(** ** Resources *)

Record VesselDetectedResource : Type := mkVesselDetected {
  vd_type : string;
  vd_camera : string;
  vd_track : string;
  vd_class : string;
  vd_confidence : f64;
  BboxXyxy : slice f64;
  FrameSHA256 : string;
  vd_model : string;
  vd_mmsi : string;
  LatMicros : Z;
  LonMicros : Z
}.

Definition zero_vessel : VesselDetectedResource :=
  mkVesselDetected "" "" "" "" fzero nil_slice "" "" "" 0 0.

Definition vessel_fields : list (string * Decoder VesselDetectedResource) :=
  [field "@type" vd_type (λ r s, mkVesselDetected s (vd_camera r) (vd_track r) (vd_class r) (vd_confidence r) (BboxXyxy r)
     (FrameSHA256 r) (vd_model r) (vd_mmsi r) (LatMicros r) (LonMicros r)) dec_string;
   field "cameraId" vd_camera (λ r s, mkVesselDetected (vd_type r) s (vd_track r) (vd_class r) (vd_confidence r) (BboxXyxy r)
     (FrameSHA256 r) (vd_model r) (vd_mmsi r) (LatMicros r) (LonMicros r)) dec_string;
   field "trackId" vd_track (λ r s, mkVesselDetected (vd_type r) (vd_camera r) s (vd_class r) (vd_confidence r) (BboxXyxy r)
     (FrameSHA256 r) (vd_model r) (vd_mmsi r) (LatMicros r) (LonMicros r)) dec_string;
   field "vesselClass" vd_class (λ r s, mkVesselDetected (vd_type r) (vd_camera r) (vd_track r) s (vd_confidence r) (BboxXyxy r)
     (FrameSHA256 r) (vd_model r) (vd_mmsi r) (LatMicros r) (LonMicros r)) dec_string;
   field "confidence" vd_confidence (λ r x, mkVesselDetected (vd_type r) (vd_camera r) (vd_track r) (vd_class r) x (BboxXyxy r)
     (FrameSHA256 r) (vd_model r) (vd_mmsi r) (LatMicros r) (LonMicros r)) dec_float64;
   field "bboxXyxy" BboxXyxy (λ r l, mkVesselDetected (vd_type r) (vd_camera r) (vd_track r) (vd_class r) (vd_confidence r) l
     (FrameSHA256 r) (vd_model r) (vd_mmsi r) (LatMicros r) (LonMicros r)) (dec_slice fzero dec_float64);
   field "frameSha256" FrameSHA256 (λ r s, mkVesselDetected (vd_type r) (vd_camera r) (vd_track r) (vd_class r) (vd_confidence r)
     (BboxXyxy r) s (vd_model r) (vd_mmsi r) (LatMicros r) (LonMicros r)) dec_string;
   field "modelVersion" vd_model (λ r s, mkVesselDetected (vd_type r) (vd_camera r) (vd_track r) (vd_class r) (vd_confidence r)
     (BboxXyxy r) (FrameSHA256 r) s (vd_mmsi r) (LatMicros r) (LonMicros r)) dec_string;
   field "mmsi" vd_mmsi (λ r s, mkVesselDetected (vd_type r) (vd_camera r) (vd_track r) (vd_class r) (vd_confidence r)
     (BboxXyxy r) (FrameSHA256 r) (vd_model r) s (LatMicros r) (LonMicros r)) dec_string;
   field "latitudeMicros" LatMicros (λ r z, mkVesselDetected (vd_type r) (vd_camera r) (vd_track r) (vd_class r) (vd_confidence r)
     (BboxXyxy r) (FrameSHA256 r) (vd_model r) (vd_mmsi r) z (LonMicros r)) dec_int64;
   field "longitudeMicros" LonMicros (λ r z, mkVesselDetected (vd_type r) (vd_camera r) (vd_track r) (vd_class r) (vd_confidence r)
     (BboxXyxy r) (FrameSHA256 r) (vd_model r) (vd_mmsi r) (LatMicros r) z) dec_int64].

Record DarkVesselResource : Type := mkDarkVessel {
  dv_type : string;
  dv_camera : string;
  dv_track : string;
  dv_confidence : f64;
  dv_lat_micros : Z;
  dv_lon_micros : Z;
  dv_frame : string;
  dv_model : string
}.

Definition zero_dark : DarkVesselResource := mkDarkVessel "" "" "" fzero 0 0 "" "".

Definition dark_fields : list (string * Decoder DarkVesselResource) :=
  [field "@type" dv_type (λ r s, mkDarkVessel s (dv_camera r) (dv_track r) (dv_confidence r) (dv_lat_micros r) (dv_lon_micros r)
     (dv_frame r) (dv_model r)) dec_string;
   field "cameraId" dv_camera (λ r s, mkDarkVessel (dv_type r) s (dv_track r) (dv_confidence r) (dv_lat_micros r) (dv_lon_micros r)
     (dv_frame r) (dv_model r)) dec_string;
   field "trackId" dv_track (λ r s, mkDarkVessel (dv_type r) (dv_camera r) s (dv_confidence r) (dv_lat_micros r) (dv_lon_micros r)
     (dv_frame r) (dv_model r)) dec_string;
   field "confidence" dv_confidence (λ r x, mkDarkVessel (dv_type r) (dv_camera r) (dv_track r) x (dv_lat_micros r) (dv_lon_micros r)
     (dv_frame r) (dv_model r)) dec_float64;
   field "latitudeMicros" dv_lat_micros (λ r z, mkDarkVessel (dv_type r) (dv_camera r) (dv_track r) (dv_confidence r) z
     (dv_lon_micros r) (dv_frame r) (dv_model r)) dec_int64;
   field "longitudeMicros" dv_lon_micros (λ r z, mkDarkVessel (dv_type r) (dv_camera r) (dv_track r) (dv_confidence r)
     (dv_lat_micros r) z (dv_frame r) (dv_model r)) dec_int64;
   field "frameSha256" dv_frame (λ r s, mkDarkVessel (dv_type r) (dv_camera r) (dv_track r) (dv_confidence r)
     (dv_lat_micros r) (dv_lon_micros r) s (dv_model r)) dec_string;
   field "modelVersion" dv_model (λ r s, mkDarkVessel (dv_type r) (dv_camera r) (dv_track r) (dv_confidence r)
     (dv_lat_micros r) (dv_lon_micros r) (dv_frame r) s) dec_string].

(** ** Labels and boxes *)

Definition classificationFromEnvelope (label : string) : result Classification :=
  if (label =s "PUBLIC") || (label =s "INTERNAL") then Ok ClassificationUnclassified
  else if label =s "RESTRICTED" then Ok ClassificationRestricted
  else if (label =s "CONFIDENTIAL") || (label =s "FIDUCIARY_SEGREGATED") then Ok ClassificationConfidential
  else Err (EText "unmapped envelope classification").

(** The corners of a box of four elements. *)
Definition normalizeBox (x1 y1 x2 y2 confidence : f64) : DetectionBox :=
  let scale := if fgt y2 x2 then y2 else x2 in
  let scale := if fle scale fzero then fone else scale in
  let width := fdiv (fsub x2 x1) scale in
  let height := fdiv (fsub y2 y1) scale in
  mkBox (fdiv x1 scale) (fdiv y1 scale)
    (if fgt width fone then fone else width) (if fgt height fone then fone else height) confidence.

(** ** Interfaces *)

(** [tracks.AnomalyRecorder].  [recorded r id] says that the anomaly of this
    identity is kept, in the sense the recorder gives to it. *)
Class AnomalyRecorder (R : Type) : Type := {
  record : RecordEnv → list Anomaly → M R unit;
  recorded : R → string → Prop
}.

Class AnomalyRecorderLaws (R : Type) `{AnomalyRecorder R} : Prop := {
  record_ok env l r u r' : record env l r = (Ok u, r') → ∀ a, a ∈ l → recorded r' (AnomalyID a);
  record_keeps env l r o r' id : record env l r = (o, r') → recorded r id → recorded r' id
}.

(** The recorder of the binary logs a count. *)
#[export] Instance log_recorder : AnomalyRecorder unit := {
  record := λ _ _, mret tt;
  recorded := λ _ _, True
}.

#[export] Instance log_recorder_laws : AnomalyRecorderLaws unit.
Proof. split; done. Qed.

(** The Temporal frontend, of which the code relies on [ExecuteWorkflow] with
    [WorkflowExecutionErrorWhenAlreadyStarted]: a success starts an execution of
    this identity, a running one of the same identity is an error of its own
    kind, and any other failure may have started it or not. *)
Definition ErrAlreadyStarted : error := ESentinel "serviceerror.WorkflowExecutionAlreadyStarted".

Record StartWorkflowOptions : Type := mkStart { so_id : string; so_queue : string; so_error_when_started : bool }.

Class Temporal (T : Type) : Type := {
  ExecuteWorkflow : StartWorkflowOptions → string → AlertInput → M T unit;
  executions : T → list (string * AlertInput)
}.

Class TemporalLaws (T : Type) `{Temporal T} : Prop := {
  execute_appends opts name input t r t' : ExecuteWorkflow opts name input t = (r, t') →
    executions t' = executions t ∨ executions t' = executions t ++ [(so_id opts, input)];
  execute_ok opts name input t u t' : so_error_when_started opts = true →
    ExecuteWorkflow opts name input t = (Ok u, t') → executions t' = executions t ++ [(so_id opts, input)];
  execute_already opts name input t e t' : ExecuteWorkflow opts name input t = (Err e, t') →
    errors_is e ErrAlreadyStarted = true →
    executions t' = executions t ∧ so_id opts ∈ (executions t).*1
}.

(** [temporalStarter.StartISR] *)
Definition StartISR `{Temporal T} (taskQueue : string) (input : AlertInput) : M T unit := λ t,
  match ExecuteWorkflow (mkStart (al_anomaly input) taskQueue true) "ISRResponseWorkflow" input t with
  | (Err e, t') => if errors_is e ErrAlreadyStarted then (Ok tt, t') else (Err e, t')
  | (Ok _, t') => (Ok tt, t')
  end.

(** ** The consumer *)

Section consumer.
Context {R T : Type} `{Ed25519} `{AnomalyRecorder R} `{Temporal T}.

(** The engine behind the pointer, the other side of the interfaces and what
    the rejection recorder was told. *)
Record World : Type := mkWorld {
  wd_engine : Engine;
  wd_recorder : R;
  wd_temporal : T;
  wd_rejections : list (string * string)
}.

(** [cs_rejections] tells a counting recorder from [noopRejections]. *)
Record Consumer : Type := mkConsumer {
  cs_directory : Directory;
  cs_queue : string;
  cs_rejections : bool
}.

(** The arguments say which dependencies are present. *)
Definition New (directory : option Directory) (engine recorder : bool) (starter : option string)
    (rejections newID : bool) : result Consumer :=
  match directory with
  | None => Err (EText "cv consumer requires a provenance key directory")
  | Some d =>
      _ ← fail_if (negb engine) (EText "cv consumer requires a track-fusion engine");
      _ ← fail_if (negb recorder) (EText "cv consumer requires an anomaly recorder");
      match starter with
      | None => Err (EText "cv consumer requires an ISR workflow starter")
      | Some queue =>
          _ ← fail_if (negb newID) (EText "cv consumer requires an ID generator");
          Ok (mkConsumer d queue rejections)
      end
  end.

Definition RecordRejection (c : Consumer) (topic reason : string) (w : World) : World :=
  mkWorld (wd_engine w) (wd_recorder w) (wd_temporal w)
    (if cs_rejections c then wd_rejections w ++ [(topic, reason)] else wd_rejections w).

(** Record the rejection and return the error. *)
Definition reject {A} (c : Consumer) (topic reason : string) (e : error) : M World A :=
  _ ← modify (RecordRejection c topic reason); throw e.

Definition reject_err {A} (c : Consumer) (topic reason : string) (r : result A) : M World A :=
  match r with Ok a => mret a | Err e => reject c topic reason e end.

Definition verify (c : Consumer) (topic raw wantType : string) : M World envelopeView :=
  _ ← reject_err c topic RejectSignature (wrap_err RejectSignature (VerifyEnvelope (Some (cs_directory c)) raw));
  view ← reject_err c topic RejectMalformed (wrap_err RejectMalformed (Unmarshal (dec_struct false view_fields) zero_view raw));
  _ ← reject_err c topic RejectMalformed
        (fail_if ((vw_version view <>s "1.0") || (fv_resource_type (FHIR view) <>s "Bundle") ||
                  (fv_type (FHIR view) <>s "message") || negb (Nat.eqb (sl_len (fv_entry (FHIR view))) 1))
           (EText "malformed-envelope: envelope is not a v1.0 FHIR message bundle with one entry"));
  _ ← reject_err c topic RejectUnknownType (fail_if (vw_event_type view <>s wantType) (EText "unknown-event-type"));
  mret view.

(** [view.FHIR.Entry[0].Resource] *)
Definition entry_resource (view : envelopeView) : option jvalue :=
  match elements_of (fv_entry (FHIR view)) with
  | resource :: _ => resource
  | [] => None
  end.

(** [time.Parse], else the clock. *)
Definition observed_at (now : Z) (view : envelopeView) : Z := default now (time_parse (vw_occurred_at view)).

(** What a call draws: the environments of its ingest and its record, and the clock. *)
Record HandleEnv : Type := mkHandleEnv { he_ingest : IngestEnv; he_record : RecordEnv; he_now : Z }.

Definition micros (z : Z) : f64 := fdiv (f_of_Z z) (f_of_Z 1000000).

Definition cv_detection (now : Z) (view : envelopeView) (clearance : Classification) (resource : VesselDetectedResource)
    (box : DetectionBox) : Detection :=
  let placed := negb (LatMicros resource =? 0) || negb (LonMicros resource =? 0) in
  mkDetection (vw_event_id view) "blueeconomy-cv-service" (vw_event_id view) ModalityOptical clearance
    (observed_at now view) placed
    (if placed then micros (LatMicros resource) else fzero) (if placed then micros (LonMicros resource) else fzero)
    (vd_mmsi resource) None None None None (Some (mkOptical (FrameSHA256 resource) [box])) [].

(** The record as a detection, or its rejection. *)
Definition vessel_detection (c : Consumer) (now : Z) (raw : string) : M World Detection :=
  view ← verify c TopicVesselDetection raw TopicVesselDetection;
  clearance ← reject_err c TopicVesselDetection RejectClassification (classificationFromEnvelope (vw_classification view));
  resource ← reject_err c TopicVesselDetection RejectPayload
               (wrap_err RejectPayload (UnmarshalRaw (dec_struct false vessel_fields) zero_vessel (entry_resource view)));
  match elements_of (BboxXyxy resource) with
  | [x1; y1; x2; y2] =>
      mret (cv_detection now view clearance resource (normalizeBox x1 y1 x2 y2 (vd_confidence resource)))
  | _ => reject c TopicVesselDetection RejectPayload (EText "invalid-payload: bboxXyxy must have 4 elements")
  end.

Definition on_recorder {A} (m : M R A) : M World A := λ w,
  let '(r, s) := m (wd_recorder w) in (r, mkWorld (wd_engine w) s (wd_temporal w) (wd_rejections w)).
Definition on_temporal {A} (m : M T A) : M World A := λ w,
  let '(r, s) := m (wd_temporal w) in (r, mkWorld (wd_engine w) (wd_recorder w) s (wd_rejections w)).
Definition with_engine (e : Engine) (w : World) : World :=
  mkWorld e (wd_recorder w) (wd_temporal w) (wd_rejections w).

Definition wrapped {S A} (context : string) (m : M S A) : M S A := λ s,
  let '(r, s') := m s in (wrap_err context r, s').

Definition start_response (c : Consumer) (anomaly : Anomaly) : M World unit :=
  wrapped "start ISR workflow for anomaly"
    (on_temporal (StartISR (cs_queue c) (mkAlert (AnomalyID anomaly) (AnomalyID anomaly) (an_class anomaly)))).

(** The loop over the anomalies of an ingest. *)
Definition start_dark (c : Consumer) (anomaly : Anomaly) : M World unit :=
  if bool_decide (an_kind anomaly = AnomalyDarkVessel) then start_response c anomaly else mret tt.

Definition after_ingest (c : Consumer) (env : HandleEnv) (anomalies : list Anomaly) : M World unit :=
  match anomalies with
  | [] => mret tt
  | _ =>
      _ ← wrapped "record fusion anomalies" (on_recorder (record (he_record env) anomalies));
      iterM (start_dark c) anomalies
  end.

(** [None] is the nil dereference of [Ingest]. *)
Definition HandleVesselDetection (c : Consumer) (env : HandleEnv) (raw : string) (w : World)
    : option (result unit * World) :=
  match vessel_detection c (he_now env) raw w with
  | (Err e, w') => Some (Err e, w')
  | (Ok detection, w') =>
      match Ingest (he_ingest env) (wd_engine w') detection with
      | None => None
      | Some (Err e, engine) =>
          Some (reject c TopicVesselDetection RejectPayload (EWrap "invalid-payload: fusion ingest" e) (with_engine engine w'))
      | Some (Ok (_, out), engine) => Some (after_ingest c env out.*1 (with_engine engine w'))
      end
  end.

Definition dark_anomaly (now : Z) (view : envelopeView) (clearance : Classification) (resource : DarkVesselResource) : Anomaly :=
  mkAnomaly ("cv-dark-" +:+ vw_event_id view) AnomalyDarkVessel
    ["cv-" +:+ dv_camera resource +:+ "-" +:+ dv_track resource] "" clearance (observed_at now view)
    (DetailObservation (dv_camera resource) (dv_track resource) (dv_confidence resource) (dv_model resource)) [].

(** The record as an anomaly, or its rejection. *)
Definition dark_observation (c : Consumer) (now : Z) (raw : string) : M World Anomaly :=
  view ← verify c TopicDarkVessel raw TopicDarkVessel;
  clearance ← reject_err c TopicDarkVessel RejectClassification (classificationFromEnvelope (vw_classification view));
  resource ← reject_err c TopicDarkVessel RejectPayload
               (wrap_err RejectPayload (UnmarshalRaw (dec_struct false dark_fields) zero_dark (entry_resource view)));
  mret (dark_anomaly now view clearance resource).

Definition HandleDarkVessel (c : Consumer) (env : HandleEnv) (raw : string) : M World unit :=
  anomaly ← dark_observation c (he_now env) raw;
  _ ← wrapped "record dark-vessel anomaly" (on_recorder (record (he_record env) [anomaly]));
  start_response c anomaly.

End consumer.
Arguments World : clear implicits.
Arguments mkWorld {R T}.
