(* ===== verification/CvBox.v ===== *)
(** * Boxes of the computer-vision service fit the unit frame

    Every ordered pixel box, whatever its extent, is rescaled into a box that
    the detection contract accepts: the rounding of two divisions, a difference
    and a sum stays below the tolerance of the bounds check. *)

From S2P Require Import Prelude GoStrings GoTime Float64 GoFormat GoNumber FloatBounds Classification Detection CvConsumer.

Section box.
Context (K : Z) (HK : 3000 <= K).
#[local] Notation units := (units K).

Lemma nonneg_between x y : fle fzero x = true → fle x y = true → is_finite y = true → nonneg x = true.
Proof. destruct x as [s|[]| |[] m e], y as [s'|[]| |[] m' e']; try done. Qed.

Lemma unit_inside v : nonneg v = true → valid v = true → units v <= 2 ^ K → outside_unit v fone = false.
Proof.
  intros Nv Vv Hu. assert (Hle : fle v fone = true).
  { apply (fle_units K HK); try done. by rewrite (units_one K HK). }
  unfold outside_unit. replace (fgt v fone) with false.
  2:{ symmetry. apply not_true_is_false. intros Hg%fgt_fle. congruence. }
  destruct v as [s|s| |[] m e]; try done; by destruct s.
Qed.

Lemma unit_clamp v : nonneg v = true → valid v = true → units v <= 2 ^ K → (if fgt v fone then fone else v) = v.
Proof.
  intros Nv Vv Hu. apply unit_inside in Hu; [|done..]. unfold outside_unit in Hu.
  rewrite !orb_false_iff in Hu. by destruct Hu as [_ ->].
Qed.

(** The errors of the four operations add up to less than the tolerance, in
    units of [2 ^ (K - 52)]. *)
Lemma axis_error ua ub us ud up uw uf U : 0 < U → 0 < us → 0 <= ua → ua <= ub → ub <= us →
  4503599627370496 * ud <= 4503599627370497 * (ub - ua) →
  up * us <= ua * (4503599627370496 * U) + U * us → uw * us <= ud * (4503599627370496 * U) + U * us →
  uf <= up + uw + 2 * U → uf <= 4503599631874096 * U.
Proof.
  intros HU Hs Ha Hab Hbs Hd Hp Hw Hf. assert (up + uw <= 4503599627370499 * U); [|lia].
  apply (Z.mul_le_mono_pos_r _ _ us Hs).
  assert (4503599627370496 * ud * U <= 4503599627370497 * (ub - ua) * U) by (apply Z.mul_le_mono_nonneg_r; lia).
  assert (ub * U <= us * U) by (apply Z.mul_le_mono_nonneg_r; lia).
  assert (0 <= ua * U) by (apply Z.mul_nonneg_nonneg; lia). lia.
Qed.

Lemma unit_powers : 2 ^ K = 4503599627370496 * 2 ^ (K - 52) ∧ 2 ^ (K - 51) = 2 * 2 ^ (K - 52).
Proof.
  change 4503599627370496 with (2 ^ 52). split.
  - rewrite <- pow_split by lia. f_equal. lia.
  - replace (K - 51) with (1 + (K - 52)) by lia. rewrite pow_split by lia. done.
Qed.

Lemma units_limit : units (f_of_Q 1000000001 1000000000) = 4503599631874096 * 2 ^ (K - 52).
Proof.
  change (f_of_Q 1000000001 1000000000) with (S754_finite false 4503599631874096 (-52)). cbn [FloatBounds.units].
  do 2 f_equal. lia.
Qed.

(** One axis: from [a] to [b] in a frame of extent [s]. *)
Lemma axis_inside a b s :
  nonneg a = true → nonneg b = true → nonneg s = true → valid a = true → valid b = true → valid s = true →
  0 < units s → units a <= units b → units b <= units s →
  let extent := fdiv (fsub b a) s in
  outside_unit (fdiv a s) fone = false ∧ outside_unit extent fone = false ∧ (if fgt extent fone then fone else extent) = extent ∧
  fgt (fadd (fdiv a s) extent) (f_of_Q 1000000001 1000000000) = false.
Proof.
  intros Na Nb Ns Va Vb Vs Hs Hab Hbs extent.
  destruct (fsub_units K HK b a Nb Na Vb Va Hab) as (Nd&Vd&Hd1&Hd2).
  destruct (fdiv_units K HK a s Na Ns Va Vs Hs ltac:(lia)) as (Np&Vp&Hp1&Hp2).
  destruct (fdiv_units K HK (fsub b a) s Nd Ns Vd Vs Hs ltac:(lia)) as (Nw&Vw&Hw1&Hw2).
  fold extent in Nw, Vw, Hw1, Hw2. split_and!; [by apply unit_inside..|by apply unit_clamp|].
  destruct (fadd_units K HK (fdiv a s) extent Np Nw Vp Vw Hp1 Hw1) as (Nf&Vf&Hf).
  apply not_true_is_false. intros Hg%fgt_fle. enough (fle (fadd (fdiv a s) extent) (f_of_Q 1000000001 1000000000) = true) by congruence.
  apply (fle_units K HK); try done. rewrite units_limit. destruct unit_powers as [P1 P2]. rewrite P1 in Hp2, Hw2. rewrite P2 in Hf.
  apply (axis_error (units a) (units b) (units s) (units (fsub b a)) (units (fdiv a s)) (units extent)); try done.
  - apply pow_pos. lia.
  - apply (units_nonneg K).
Qed.

(** The scale of a box covers both extents and is positive. *)
Lemma scale_covers x2 y2 : nonneg x2 = true → nonneg y2 = true → valid x2 = true → valid y2 = true →
  let scale := if fgt y2 x2 then y2 else x2 in
  let scale := if fle scale fzero then fone else scale in
  nonneg scale = true ∧ valid scale = true ∧ 0 < units scale ∧ units x2 <= units scale ∧ units y2 <= units scale.
Proof.
  intros Nx Ny Vx Vy s0 s. assert (Hs0 : nonneg s0 = true ∧ valid s0 = true ∧ units x2 <= units s0 ∧ units y2 <= units s0).
  { unfold s0. destruct (fgt y2 x2) eqn:E.
    - apply fgt_fle in E. split_and!; try done. destruct (Z.le_gt_cases (units x2) (units y2)) as [|Hgt]; [done|].
      assert (fle y2 x2 = true) by (apply (fle_units K HK); try done; lia). congruence.
    - split_and!; try done. apply (fle_units K HK); try done. apply fgt_false_fle; [by destruct y2 as [| | |[]]|by destruct x2 as [| | |[]]|done]. }
  destruct Hs0 as (Ns&Vs&Hx&Hy). pose proof (units_nonneg K x2). pose proof (units_nonneg K y2).
  pose proof (pow_pos K ltac:(lia)). unfold s. destruct (fle s0 fzero) eqn:E.
  - apply (fle_units K HK) in E; try done. rewrite (units_one K HK). cbn [FloatBounds.units fzero] in E. split_and!; try done; lia.
  - split_and!; try done. destruct (Z.le_gt_cases (units s0) 0) as [Hle|]; [|lia].
    assert (fle s0 fzero = true) by (by apply (fle_units K HK)). congruence.
Qed.
End box.

(** C11: Whatever ordered pixel box [0 <= x1 <= x2], [0 <= y1 <= y2] an event
    carries, of any finite extent and down to an empty one, [normalizeBox] gives
    a box the detection contract accepts: four values of the unit interval whose
    far corner stays within the frame, rounding included, when the confidence
    is one. *)
Theorem box_accepted index x1 y1 x2 y2 confidence :
  valid x1 = true → valid y1 = true → valid x2 = true → valid y2 = true → is_finite x2 = true → is_finite y2 = true →
  fle fzero x1 = true → fle x1 x2 = true → fle fzero y1 = true → fle y1 y2 = true →
  outside_unit confidence fone = false →
  validate_box index (normalizeBox x1 y1 x2 y2 confidence) = Ok tt.
Proof.
  intros Vx1 Vy1 Vx2 Vy2 Fx Fy Hx1 Hx2 Hy1 Hy2 Hc. pose (K := 3000). assert (HK : 3000 <= K) by done. clearbody K.
  pose proof (nonneg_between x1 x2 Hx1 Hx2 Fx) as Nx1. pose proof (nonneg_between y1 y2 Hy1 Hy2 Fy) as Ny1.
  assert (Nx2 : nonneg x2 = true) by (by apply (nonneg_between x2 x2); [apply (fle_trans _ x1)|apply fle_refl; destruct x2|]).
  assert (Ny2 : nonneg y2 = true) by (by apply (nonneg_between y2 y2); [apply (fle_trans _ y1)|apply fle_refl; destruct y2|]).
  apply (fle_units K HK) in Hx2, Hy2; try done.
  destruct (scale_covers K HK x2 y2 Nx2 Ny2 Vx2 Vy2) as (Ns&Vs&Hs&Hxs&Hys). unfold normalizeBox.
  set (s := if fle (if fgt y2 x2 then y2 else x2) fzero then fone else if fgt y2 x2 then y2 else x2) in *.
  destruct (axis_inside K HK x1 x2 s Nx1 Nx2 Ns Vx1 Vx2 Vs Hs Hx2 Hxs) as (X1&X2&X3&X4).
  destruct (axis_inside K HK y1 y2 s Ny1 Ny2 Ns Vy1 Vy2 Vs Hs Hy2 Hys) as (Y1&Y2&Y3&Y4).
  unfold validate_box, validateUnitInterval. cbn [box_x box_y box_width box_height box_confidence].
  by rewrite X3, Y3, X1, Y1, X2, Y2, Hc, X4, Y4.
Qed.

(** The third of a frame of 1920 by 1080 pixels, and what it becomes. *)
Lemma box_accepted_witness :
  validate_box 0 (normalizeBox (f_of_Q 1 3) fzero (f_of_Z 1920) (f_of_Z 1080) fone) = Ok tt ∧
  box_height (normalizeBox (f_of_Q 1 3) fzero (f_of_Z 1920) (f_of_Z 1080) fone) = f_of_Q 5625 10000.
Proof. split; [apply box_accepted; by vm_compute|by vm_compute]. Defined.

(** The tolerance is needed: rounding takes this corner out of the frame. *)
Example corner_past_frame :
  let box := normalizeBox (f_of_Q 1 10) fzero (f_of_Q 44 10) (f_of_Z 1) fone in
  fgt (fadd (box_x box) (box_width box)) fone = true.
Proof. by vm_compute. Qed.
