(* ===== verification/CvConsumerProofs.v ===== *)
(** * Computer-vision consumer: handled records, rejections, offsets

    What each handler answers, the consumer process over its two topics as a
    machine, and the recorder of the track store. *)

From S2P Require Import Prelude GoStrings GoTime Float64 Geo Classification Detection Fusion FusionInv Outbox Envelope GoFormat GoUtf8 GoNumber GoJson JcsProofs Unmarshal GoTimeParse TrackStore TrackStoreProofs Workflow Feed Provenance CvConsumer.

(** ** An ingest raises no dark-vessel anomaly *)

Definition no_dark (out : list Emission) : Prop := Forall (λ em : Emission, an_kind em.1 ≠ AnomalyDarkVessel) out.

Lemma foldl_out_inv {S A} (f : S * list Emission → A → S * list Emission) xs :
  (∀ s out x, no_dark out → no_dark (f (s, out) x).2) → ∀ s out, no_dark out → no_dark (foldl f (s, out) xs).2.
Proof.
  intros Hf. induction xs as [|x xs IH]; intros s out Ho; [done|]. simpl. specialize (Hf s out x Ho).
  destruct (f (s, out) x) as [s' out']. by apply IH.
Qed.

Lemma speed_no_dark config now refs track point : no_dark (speed_rule config now refs track point).
Proof. unfold speed_rule, no_dark. repeat case_match; repeat constructor. done. Qed.

Lemma loiter_no_dark config now refs zs track point : no_dark (loiter_rule config now refs zs track point).2.
Proof.
  unfold loiter_rule.
  assert (Hl : ∀ acc, no_dark acc.2 → no_dark (foldl (loiter_step config now refs point) acc zs).2).
  { induction zs as [|z zs IH]; intros acc Ha; [done|]. simpl. apply IH. destruct acc as [[t inside] out]. simpl in Ha.
    unfold loiter_step. repeat case_match; simpl; try done. all: apply Forall_app; split; [done|by repeat constructor]. }
  specialize (Hl (track, ∅, [])). destruct (foldl _ _ _) as [[t inside] out]. apply Hl. constructor.
Qed.

Lemma rendezvous_no_dark now refs id point e out o :
  no_dark out → no_dark (rendezvous_step now refs id point (e, out) o).2.
Proof.
  intros Ho. unfold rendezvous_step. repeat case_match; simpl; try done.
  all: apply Forall_app; split; [done|by repeat constructor].
Qed.

Lemma ingest_no_dark env e d id out e' : Ingest env e d = Some (Ok (id, out), e') → no_dark out.
Proof.
  unfold Ingest. destruct (Validate d); [|done]. destruct (negb (HasPosition d)); [done|].
  destruct (NewPosition _ _); [|done]. destruct (associate _ _ _ _ _) as [i e0]. destruct (tracks e0 !! i); [|done].
  destruct (absorbPointLocked _ _ _ _) as [[p u] ea]. destruct (evaluateLocked _ _ _ _ _ _) as [e1 out1] eqn:E.
  intros [= _ <- _]. replace out1 with (e1, out1).2 by done. rewrite <- E. unfold evaluateLocked.
  pose proof (loiter_no_dark (eng_config ea) (env_now env) (CorrelationRefs d) (zones ea) u p) as Hl.
  destruct (loiter_rule _ _ _ _ _ _) as [u' loiter].
  apply (foldl_out_inv (rendezvous_step (env_now env) (CorrelationRefs d) (TrackID u) p)); [intros; by apply rendezvous_no_dark|].
  apply Forall_app. split; [apply speed_no_dark|exact Hl].
Qed.

(** ** The track store as the recorder *)

Section store.
Context `{JsonText} (pg_time : Z → Z).

#[local] Instance store_recorder : AnomalyRecorder TrackDB := {
  record := RecordAnomalies pg_time;
  recorded db id := is_Some (tdb_anomalies db !! id)
}.

Lemma recorded_anomaly created db_now oid a db db' :
  anomaly_recorded pg_time created db_now oid a db db' →
  is_Some (tdb_anomalies db' !! AnomalyID a) ∧ ∀ id, is_Some (tdb_anomalies db !! id) → is_Some (tdb_anomalies db' !! id).
Proof.
  intros [row Hr|i Hn _ _]; [eauto|]. simpl. split; [rewrite lookup_insert_eq; eauto|].
  intros id ?. apply lookup_insert_is_Some'. by right.
Qed.

Lemma recorded_all db_now ids l : ∀ i db db',
  record_anomalies pg_time db_now ids i l db = (Ok tt, db') →
  (∀ a, a ∈ l → is_Some (tdb_anomalies db' !! AnomalyID a)) ∧
  ∀ id, is_Some (tdb_anomalies db !! id) → is_Some (tdb_anomalies db' !! id).
Proof.
  induction l as [|a l IH]; intros i db db' Hr; apply record_anomalies_Ok in Hr.
  - subst. split; [intros a Ha; by apply elem_of_nil in Ha|done].
  - destruct Hr as (db1&[_ Ha]%recordAnomaly_Ok&Hl). destruct (recorded_anomaly _ _ _ _ _ _ Ha) as [H1 H2].
    destruct (IH _ _ _ Hl) as [H3 H4]. split; [|eauto]. intros b [->|Hb]%elem_of_cons; eauto.
Qed.

#[local] Instance store_recorder_laws : AnomalyRecorderLaws TrackDB.
Proof.
  split; simpl.
  - intros env l db [] db' [Hr _]%RecordAnomalies_Ok. by apply recorded_all in Hr as [? _].
  - intros env l db [[]|e] db' id; [|by intros ->%RecordAnomalies_Err].
    intros [Hr _]%RecordAnomalies_Ok. apply recorded_all in Hr as [_ Hk]. apply Hk.
Qed.

End store.

(** ** Decoded values are of their Go types *)

Definition machine (x : f64) : Prop := valid x = true ∧ is_finite x = true.

Lemma dec_float64_machine old v x : machine old → dec_float64 old v = Ok x → machine x.
Proof.
  intros Ho. destruct v; cbn [dec_float64]; try done; [by intros [= <-]|].
  destruct (ParseFloat _) as [y|] eqn:E; [|done]. intros [= <-].
  apply ParseFloat_Ok in E as [[s ->]|(s&m&e&->&Hb)]; by split.
Qed.

Lemma dec_int64_range old v z : in_int64 old → dec_int64 old v = Ok z → in_int64 z.
Proof.
  intros Ho. destruct v; cbn [dec_int64]; try done; [by intros [= <-]|].
  destruct (atoi _) as [y|] eqn:E; [|done]. intros [= <-]. by eapply atoi_int64.
Qed.

Lemma dec_elements_Forall {A} (P : A → Prop) zero (d : Decoder A) items : ∀ backing xs,
  (∀ old v x, P old → d old v = Ok x → P x) → P zero → Forall P backing →
  dec_elements zero d backing items = Ok xs → Forall P xs.
Proof.
  induction items as [|v items IH]; intros backing xs Hd Hz Hb; simpl; [by intros [= <-]|].
  intros (x&Hx&(ys&Hys&[= <-])%bind_Ok)%bind_Ok. constructor.
  - eapply Hd; [|exact Hx]. destruct Hb; done.
  - eapply IH; [done|done| |exact Hys]. by destruct Hb; simpl.
Qed.

Lemma dec_slice_Forall {A} (P : A → Prop) zero (d : Decoder A) old v s :
  (∀ old v x, P old → d old v = Ok x → P x) → P zero → Forall P (sl_backing old) →
  dec_slice zero d old v = Ok s → Forall P (sl_backing s).
Proof.
  intros Hd Hz Hb. destruct v as [| | | |[|v items]|]; cbn [dec_slice]; try done; try by intros [= <-].
  intros (xs&Hxs&[= <-])%bind_Ok. by eapply dec_elements_Forall.
Qed.

Record resource_typed (r : VesselDetectedResource) : Prop := {
  rt_confidence : machine (vd_confidence r);
  rt_box : Forall machine (sl_backing (BboxXyxy r));
  rt_lat : in_int64 (LatMicros r);
  rt_lon : in_int64 (LonMicros r)
}.

Lemma vessel_typed raw r : UnmarshalRaw (dec_struct false vessel_fields) zero_vessel raw = Ok r → resource_typed r.
Proof.
  destruct raw as [[| | | | |members]|]; cbn [UnmarshalRaw dec_struct]; try done;
    [by intros [= <-]; split; [|constructor| |]|].
  apply (dec_fields_inv resource_typed); [|by split; [|constructor| |]]. intros name d x y v Hin [Hc Hb Hla Hlo].
  unfold vessel_fields, field in Hin. rewrite !elem_of_cons, elem_of_nil in Hin.
  destruct_or! Hin; try done; injection Hin as _ ->; intros (z&Hv&[= <-])%bind_Ok; split;
    cbn [vd_confidence BboxXyxy LatMicros LonMicros] in *; try done.
  - by eapply dec_float64_machine.
  - exact (dec_slice_Forall machine fzero dec_float64 _ _ _ dec_float64_machine ltac:(done) Hb Hv).
  - exact (dec_int64_range _ _ _ Hla Hv).
  - exact (dec_int64_range _ _ _ Hlo Hv).
Qed.

(** ** Handlers *)

Section handlers.
Context {R T : Type} `{Ed25519} `{AnomalyRecorderLaws R} `{TemporalLaws T}.
Implicit Types (c : Consumer) (w : World R T).

(** What [verify] lets through. *)
Record cv_view c (topic raw : string) (view : envelopeView) : Prop := {
  cv_authentic : VerifyEnvelope (Some (cs_directory c)) raw = Ok tt;
  cv_decoded : Unmarshal (dec_struct false view_fields) zero_view raw = Ok view;
  cv_bundle : vw_version view = "1.0" ∧ fv_resource_type (FHIR view) = "Bundle" ∧
              fv_type (FHIR view) = "message" ∧ sl_len (fv_entry (FHIR view)) = 1%nat;
  cv_typed : vw_event_type view = topic
}.

Definition reject_reasons : list string :=
  [RejectSignature; RejectMalformed; RejectUnknownType; RejectClassification; RejectPayload].

(** The call fails, one reason is recorded and nothing else happens. *)
Definition rejected {A} c (topic : string) w (r : result A) w' : Prop :=
  ∃ reason e, reason ∈ reject_reasons ∧ r = Err e ∧ w' = RecordRejection c topic reason w.

(** A step that goes through with a value of [P] and no effect, or is rejected. *)
Definition checked {A} c topic (P : A → Prop) (m : M (World R T) A) : Prop :=
  ∀ w r w', m w = (r, w') → (∃ a, r = Ok a ∧ w' = w ∧ P a) ∨ rejected c topic w r w'.

Lemma checked_bind {A B} c topic (P : A → Prop) (m : M (World R T) A) (f : A → M (World R T) B) w r w' :
  checked c topic P m → (m ≫= f) w = (r, w') → (∃ a, P a ∧ f a w = (r, w')) ∨ rejected c topic w r w'.
Proof.
  intros Hm. rewrite mbind_run. destruct (m w) as [r0 w0] eqn:E.
  destruct (Hm _ _ _ E) as [(a&->&->&Ha)|(reason&e&Hin&->&->)]; [eauto|].
  intros [= <- <-]. right. by exists reason, e.
Qed.

Lemma checked_result {A} c topic reason (m : result A) :
  reason ∈ reject_reasons → checked c topic (λ a, m = Ok a) (reject_err c topic reason m).
Proof.
  intros Hr w r w'. destruct m as [a|e]; simpl; [intros [= <- <-]; eauto|].
  intros [= <- <-]. right. by exists reason, e.
Qed.

Lemma checked_reject {A} c topic reason e (P : A → Prop) : reason ∈ reject_reasons → checked c topic P (reject c topic reason e).
Proof. intros Hr w r w' [= <- <-]. right. by exists reason, e. Qed.

Lemma checked_ret {A} c topic (P : A → Prop) a : P a → checked c topic P (mret a).
Proof. intros Ha w r w' [= <- <-]. left. eauto. Qed.

Lemma checked_seq {A B} c topic (P : A → Prop) (Q : B → Prop) (m : M (World R T) A) (f : A → M (World R T) B) :
  checked c topic P m → (∀ a, P a → checked c topic Q (f a)) → checked c topic Q (m ≫= f).
Proof. intros Hm Hf w r w' E. destruct (checked_bind _ _ _ _ _ _ _ _ Hm E) as [(a&Ha&E')|?]; [by apply (Hf a)|by right]. Qed.

Ltac next_check := eapply checked_seq; [apply checked_result; set_solver+|].

Lemma verify_checked c topic raw want : checked c topic (cv_view c want raw) (verify c topic raw want).
Proof.
  unfold verify. next_check. intros [] Hv%wrap_err_Ok. next_check. intros view Hd%wrap_err_Ok.
  next_check. intros [] Hb%fail_if_Ok. next_check. intros [] Ht%fail_if_Ok. apply checked_ret.
  rewrite !orb_false_iff, !negb_false_iff, !String.eqb_eq, Nat.eqb_eq in Hb. rewrite negb_false_iff, String.eqb_eq in Ht.
  destruct Hb as [[[? ?] ?] ?]. by split.
Qed.

(** ** What a record says *)

Record cv_vessel c (now : Z) (raw : string) (d : Detection) : Prop := {
  cvv_record : ∃ view label resource x1 y1 x2 y2,
    cv_view c TopicVesselDetection raw view ∧
    classificationFromEnvelope (vw_classification view) = Ok label ∧
    UnmarshalRaw (dec_struct false vessel_fields) zero_vessel (entry_resource view) = Ok resource ∧
    elements_of (BboxXyxy resource) = [x1; y1; x2; y2] ∧
    d = cv_detection now view label resource (normalizeBox x1 y1 x2 y2 (vd_confidence resource))
}.

Record cv_dark c (now : Z) (raw : string) (a : Anomaly) : Prop := {
  cvd_record : ∃ view label resource,
    cv_view c TopicDarkVessel raw view ∧
    classificationFromEnvelope (vw_classification view) = Ok label ∧
    UnmarshalRaw (dec_struct false dark_fields) zero_dark (entry_resource view) = Ok resource ∧
    a = dark_anomaly now view label resource
}.

Lemma vessel_checked c now raw : checked c TopicVesselDetection (cv_vessel c now raw) (vessel_detection c now raw).
Proof.
  unfold vessel_detection. eapply checked_seq; [apply verify_checked|]. intros view Hv.
  next_check. intros label Hl. next_check. intros resource Hr%wrap_err_Ok.
  destruct (elements_of (BboxXyxy resource)) as [|x1 [|y1 [|x2 [|y2 [|? ?]]]]] eqn:Eb;
    try (apply checked_reject; set_solver+).
  apply checked_ret. split. by exists view, label, resource, x1, y1, x2, y2.
Qed.

Lemma dark_checked c now raw : checked c TopicDarkVessel (cv_dark c now raw) (dark_observation c now raw).
Proof.
  unfold dark_observation. eapply checked_seq; [apply verify_checked|]. intros view Hv.
  next_check. intros label Hl. next_check. intros resource Hr%wrap_err_Ok.
  apply checked_ret. split. by exists view, label, resource.
Qed.

(** ** What the handlers do *)

Lemma wrapped_run {S A} ctx (m : M S A) s : wrapped ctx m s = (wrap_err ctx (m s).1, (m s).2).
Proof. unfold wrapped. by destruct (m s). Qed.

Lemma no_dark_starts c anomalies w :
  Forall (λ a, an_kind a ≠ AnomalyDarkVessel) anomalies → iterM (start_dark c) anomalies w = (Ok tt, w).
Proof.
  induction 1 as [|a l Ha _ IH]; [done|]. cbn [iterM]. rewrite mbind_run. unfold start_dark at 1.
  rewrite bool_decide_eq_false_2 by done. exact IH.
Qed.

Lemma after_ingest_run c env out w : no_dark out →
  after_ingest c env out.*1 w =
  match out with
  | [] => (Ok tt, w)
  | _ => (wrap_err "record fusion anomalies" (record (he_record env) out.*1 (wd_recorder w)).1,
          mkWorld (wd_engine w) (record (he_record env) out.*1 (wd_recorder w)).2 (wd_temporal w) (wd_rejections w))
  end.
Proof.
  intros Hn. unfold after_ingest. destruct out as [|em out]; [done|]. set (l := (em :: out).*1) in *.
  assert (Hl : Forall (λ a, an_kind a ≠ AnomalyDarkVessel) l) by (by apply Forall_fmap).
  change (match l with [] => mret tt | _ => (_ ← wrapped "record fusion anomalies" (on_recorder (record (he_record env) l));
    iterM (start_dark c) l) end w) with
    ((_ ← wrapped "record fusion anomalies" (on_recorder (record (he_record env) l)); iterM (start_dark c) l) w).
  rewrite mbind_run, wrapped_run. unfold on_recorder. destruct (record _ l _) as [[[]|e] r']; [|done].
  cbn [fst snd wrap_err]. by apply no_dark_starts.
Qed.

(** One call on an engine that satisfies its invariant: it answers, and it is a
    rejection or the ingest of the detection the record says. *)
Record vessel_outcome c (env : HandleEnv) (raw : string) w (r : result unit) w' (d : Detection) (id : string)
    (out : list Emission) : Prop := {
  vo_detection : cv_vessel c (he_now env) raw d;
  vo_ingest : Ingest (he_ingest env) (wd_engine w) d = Some (Ok (id, out), wd_engine w');
  vo_rejections : wd_rejections w' = wd_rejections w;
  vo_recorded : match out with
                | [] => r = Ok tt ∧ wd_recorder w' = wd_recorder w
                | _ => ∃ r0, record (he_record env) out.*1 (wd_recorder w) = (r0, wd_recorder w') ∧
                             r = wrap_err "record fusion anomalies" r0
                end
}.

Lemma vessel_cases c env raw w :
  engine_inv (wd_engine w) → is_nan (CorrelationRadiusMeters (eng_config (wd_engine w))) = false →
  tracks (wd_engine w) !! env_newID (he_ingest env) = None →
  ∃ r w', HandleVesselDetection c env raw w = Some (r, w') ∧ wd_temporal w' = wd_temporal w ∧
    engine_inv (wd_engine w') ∧ eng_config (wd_engine w') = eng_config (wd_engine w) ∧
    (rejected c TopicVesselDetection w r w' ∨ ∃ d id out, vessel_outcome c env raw w r w' d id out).
Proof.
  intros HI Hr Hf. unfold HandleVesselDetection. destruct (vessel_detection c (he_now env) raw w) as [r0 w0] eqn:E.
  destruct (vessel_checked c _ raw _ _ _ E) as [(d&->&->&Hd)|(reason&e&Hin&->&->)]; last first.
  { exists (Err e), (RecordRejection c TopicVesselDetection reason w). split_and!; [done..|]. left. by exists reason, e. }
  destruct (Ingest_inv (he_ingest env) (wd_engine w) d HI Hr Hf) as (r&e'&Hin&HI'&HC). rewrite Hin.
  destruct r as [[id out]|err].
  - pose proof (ingest_no_dark _ _ _ _ _ _ Hin) as Hn. rewrite after_ingest_run by done.
    destruct out as [|em out].
    + exists (Ok tt), (with_engine e' w). split_and!; [done..|]. right. by exists d, id, [].
    + eexists _, (mkWorld _ _ _ _). split_and!; [done..|]. right. exists d, id, (em :: out). split; try done.
      cbn [wd_recorder]. eexists. split; [|done]. apply surjective_pairing.
  - pose proof (Ingest_Err _ _ _ _ _ Hin) as ->. assert (with_engine (wd_engine w) w = w) as -> by (by destruct w).
    eexists _, _. split; [reflexivity|]. split_and!; try done. left. eexists RejectPayload, _. split; [set_solver+|done].
Qed.

Lemma start_response_cases c a w r w' : start_response c a w = (r, w') →
  wd_engine w' = wd_engine w ∧ wd_recorder w' = wd_recorder w ∧ wd_rejections w' = wd_rejections w ∧
  (executions (wd_temporal w') = executions (wd_temporal w) ∨
   executions (wd_temporal w') =
     executions (wd_temporal w) ++ [(AnomalyID a, mkAlert (AnomalyID a) (AnomalyID a) (an_class a))]) ∧
  (r = Ok tt → AnomalyID a ∈ (executions (wd_temporal w')).*1).
Proof.
  unfold start_response. rewrite wrapped_run. unfold on_temporal, StartISR.
  set (input := mkAlert _ _ _). set (opts := mkStart _ _ _). change (al_anomaly input) with (AnomalyID a) in opts.
  destruct (ExecuteWorkflow opts _ input _) as [r0 t'] eqn:E.
  pose proof (execute_appends _ _ _ _ _ _ E) as Ha. destruct r0 as [[]|e].
  - intros [= <- <-]. cbn [wd_engine wd_recorder wd_temporal wd_rejections]. split_and!; try done. intros _.
    rewrite (execute_ok opts _ _ _ _ _ eq_refl E), fmap_app. set_solver.
  - destruct (errors_is e ErrAlreadyStarted) eqn:Ee; intros [= <- <-]; cbn [wd_engine wd_recorder wd_temporal wd_rejections];
      (split_and!; try done).
    intros _. destruct (execute_already _ _ _ _ _ _ E Ee) as [-> Hin]. exact Hin.
Qed.

(** One call on the dark-vessel topic: a rejection, or the record of the anomaly
    and then the start of its response. *)
Record dark_outcome c (env : HandleEnv) (raw : string) w (r : result unit) w' (a : Anomaly) : Prop := {
  do_anomaly : cv_dark c (he_now env) raw a;
  do_rejections : wd_rejections w' = wd_rejections w;
  do_record : ∃ r0, record (he_record env) [a] (wd_recorder w) = (r0, wd_recorder w') ∧
                    (is_ok r0 = false → is_ok r = false ∧ wd_temporal w' = wd_temporal w);
  do_started : executions (wd_temporal w') = executions (wd_temporal w) ∨
               executions (wd_temporal w') =
                 executions (wd_temporal w) ++ [(AnomalyID a, mkAlert (AnomalyID a) (AnomalyID a) (an_class a))];
  do_answered : r = Ok tt → recorded (wd_recorder w') (AnomalyID a) ∧ AnomalyID a ∈ (executions (wd_temporal w')).*1
}.

Lemma dark_cases c env raw w r w' : HandleDarkVessel c env raw w = (r, w') →
  wd_engine w' = wd_engine w ∧ (rejected c TopicDarkVessel w r w' ∨ ∃ a, dark_outcome c env raw w r w' a).
Proof.
  unfold HandleDarkVessel. intros E.
  destruct (checked_bind _ _ _ _ _ _ _ _ (dark_checked c _ raw) E) as [(a&Ha&E')|(reason&e&Hin&->&->)]; last first.
  { split; [done|]. left. by exists reason, e. }
  clear E. revert E'. rewrite mbind_run, wrapped_run. unfold on_recorder.
  destruct (record (he_record env) [a] (wd_recorder w)) as [r0 s0] eqn:Er. cbn [fst snd].
  destruct r0 as [[]|e]; cbn [wrap_err].
  - intros (He&Hs&Hj&Hx&Ho)%start_response_cases. cbn [wd_engine wd_recorder wd_temporal wd_rejections] in *.
    split; [done|]. right. exists a. split; try done; [by rewrite Hs; eexists; split|].
    intros Hok. split; [|by apply Ho]. rewrite Hs. apply (record_ok _ _ _ _ _ Er). by apply list_elem_of_singleton.
  - intros [= <- <-]. split; [done|]. right. exists a. split; cbn; try done; [by eexists|by left].
Qed.
(** ** Properties of a call *)

(** C10: A vessel-detection record that passes the checks becomes a detection of
    its Go types: an approved label, at most CONFIDENTIAL; a position given by
    two int64 microdegrees, present unless both are zero; one box computed from
    five finite machine numbers; and the checks have no effect. *)
Theorem vessel_event_typed c now raw w d w' :
  vessel_detection c now raw w = (Ok d, w') →
  w' = w ∧ valid_label (det_classification d) ∧ Covers ClassificationConfidential (det_classification d) = true ∧
  det_modality d = ModalityOptical ∧ SourceEventID d = EventID d ∧
  (∃ lat lon, in_int64 lat ∧ in_int64 lon ∧ HasPosition d = negb (lat =? 0) || negb (lon =? 0) ∧
     det_latitude d = micros lat ∧ det_longitude d = micros lon) ∧
  ∃ image x1 y1 x2 y2 confidence,
    Optical d = Some (mkOptical image [normalizeBox x1 y1 x2 y2 confidence]) ∧ Forall machine [x1; y1; x2; y2; confidence].
Proof.
  intros E. destruct (vessel_checked c now raw _ _ _ E) as [(d'&[= <-]&->&[Hd])|(reason&e&_&?&_)]; [|done].
  destruct Hd as (view&label&resource&x1&y1&x2&y2&_&Hl&[Hc Hb Hla Hlo]%vessel_typed&Hbox&->).
  split; [done|]. cbn [cv_detection det_classification det_modality SourceEventID EventID HasPosition det_latitude det_longitude Optical].
  assert (Hlab : valid_label label ∧ Covers ClassificationConfidential label = true).
  { revert Hl. unfold classificationFromEnvelope. repeat case_match; try done; intros [= <-]; (split; [unfold valid_label, all_labels; set_solver+|done]). }
  destruct Hlab as [Hlab Hcov]. split_and!; [done..| |].
  - exists (LatMicros resource), (LonMicros resource). split_and!; [done..| |]; case_match eqn:Ep; try done;
      apply orb_false_iff in Ep as [E1%negb_false_iff%Z.eqb_eq E2%negb_false_iff%Z.eqb_eq]; by rewrite ?E1, ?E2.
  - exists (FrameSHA256 resource), x1, y1, x2, y2, (vd_confidence resource). split; [done|].
    assert (Hm : Forall machine [x1; y1; x2; y2]) by (rewrite <- Hbox; by apply Forall_take).
    change [x1; y1; x2; y2; vd_confidence resource] with ([x1; y1; x2; y2] ++ [vd_confidence resource]).
    apply Forall_app. split; [done|by constructor].
Qed.

(** What one vessel-detection record does, on an engine that satisfies its
    invariant.  The handler answers.  It never starts a response: an ingest
    raises no dark-vessel anomaly.  A success is the ingest of the detection the
    record says, with everything it raised kept by the recorder and nothing
    rejected.  A failure either leaves engine, recorder and Temporal as they
    were and tells the rejection recorder one reason, or is the recorder's. *)
Theorem vessel_handled c env raw w :
  engine_inv (wd_engine w) → is_nan (CorrelationRadiusMeters (eng_config (wd_engine w))) = false →
  tracks (wd_engine w) !! env_newID (he_ingest env) = None →
  ∃ r w', HandleVesselDetection c env raw w = Some (r, w') ∧ wd_temporal w' = wd_temporal w ∧ engine_inv (wd_engine w') ∧
    (r = Ok tt → ∃ d id out, cv_vessel c (he_now env) raw d ∧
       Ingest (he_ingest env) (wd_engine w) d = Some (Ok (id, out), wd_engine w') ∧
       wd_rejections w' = wd_rejections w ∧ ∀ em, em ∈ out → recorded (wd_recorder w') (AnomalyID em.1)) ∧
    ∀ e, r = Err e →
      (wd_engine w' = wd_engine w ∧ wd_recorder w' = wd_recorder w ∧ ∃ reason, reason ∈ reject_reasons ∧
         wd_rejections w' = wd_rejections w ++ (if cs_rejections c then [(TopicVesselDetection, reason)] else [])) ∨
      (wd_rejections w' = wd_rejections w ∧
       ∃ d id out e0, Ingest (he_ingest env) (wd_engine w) d = Some (Ok (id, out), wd_engine w') ∧
         record (he_record env) out.*1 (wd_recorder w) = (Err e0, wd_recorder w') ∧ e = EWrap "record fusion anomalies" e0).
Proof.
  intros HI Hr Hf. destruct (vessel_cases c env raw w HI Hr Hf) as (r&w'&Hh&Ht&HI'&_&Hcase).
  exists r, w'. split_and!; [done..| |].
  - intros ->. destruct Hcase as [(reason&e&_&?&_)|(d&id&out&[Hd Hin Hj Hrec])]; [done|]. exists d, id, out.
    split_and!; [done..|]. intros em Hem. destruct out as [|em0 out]; [by apply elem_of_nil in Hem|].
    destruct Hrec as (r0&Hrec&Hr0). destruct r0 as [[]|]; [|done]. apply (record_ok _ _ _ _ _ Hrec).
    apply list_elem_of_fmap. eauto.
  - intros e ->. destruct Hcase as [(reason&e'&Hin&_&->)|(d&id&out&[Hd Hin Hj Hrec])].
    + left. split_and!; [done..|]. exists reason. split; [done|]. simpl. destruct (cs_rejections c); [done|by rewrite app_nil_r].
    + right. split; [done|]. destruct out as [|em0 out]; [by destruct Hrec|]. destruct Hrec as (r0&Hrec&Hr0).
      destruct r0 as [[]|e0]; [done|]. injection Hr0 as ->. by exists d, id, (em0 :: out), e0.
Qed.

End handlers.
