(* ===== verification/CvService.v ===== *)
(** * The consumer process ([cmd/cv-consumer/main.go])

    Start-up, the loop of one topic over its Kafka partitions with committed
    offsets, and the process as a machine: producers append records, the two
    loops handle them, partitions are rebalanced, the process restarts from the
    committed offsets, other clients use the recorder and Temporal.  A loop iteration is one step; the
    two loops share the engine, whose calls are serialised by its lock. *)

From S2P Require Import Prelude GoStrings GoTime Float64 Geo Classification Detection Fusion FusionInv TrackStore Workflow Feed Provenance Settings CvConsumer CvConsumerProofs.
From Stdlib Require Import Ascii.

(** ** Start-up *)

Record CvConfig : Type := mkCvConfig {
  cc_brokers : list string;
  cc_group : string;
  cc_namespace : string;
  cc_address : string;
  cc_consumer : Consumer;
  cc_engine : Engine
}.

(** [run] up to the readers; [dial] is the answer of the Temporal frontend. *)
Definition cv_run (environment : string → string) (order : list string) (stat : result FileInfo) (read : result string)
    (dial : result unit) : result CvConfig :=
  brokersRaw ← required environment "KAFKA_BROKERS";
  groupID ← required environment "KAFKA_GROUP_ID";
  _ ← required environment "TEMPORAL_ADDRESS";
  namespace ← required environment "TEMPORAL_NAMESPACE";
  taskQueue ← required environment "TEMPORAL_TASK_QUEUE";
  directory ← LoadDirectoryFromEnv order (environment "KEY_DIRECTORY_PATH") stat read;
  _ ← wrap_err "dial temporal" dial;
  _ ← Config_Validate DefaultConfig;
  engine ← NewEngine DefaultConfig [];
  consumer ← New (Some directory) true true (Some taskQueue) false true;
  Ok (mkCvConfig (split_on ","%char brokersRaw) groupID namespace (environment "TEMPORAL_ADDRESS") consumer engine).

(** ** One iteration of a reader loop *)

Inductive Topic : Type := VesselTopic | DarkTopic.

#[export] Instance Topic_eq_dec : EqDecision Topic.
Proof. solve_decision. Defined.

Definition topic_name (topic : Topic) : string :=
  match topic with VesselTopic => TopicVesselDetection | DarkTopic => TopicDarkVessel end.

(** A partition: its records, the position of the reader and the offset the
    group has committed. *)
Record Partition : Type := mkPartition { pn_log : list string; pn_position : nat; pn_committed : nat }.

(** A partition of a topic; the reader of the topic may own several. *)
Definition Place : Type := Topic * nat.

Section service.
Context {R T : Type} `{Ed25519} `{AnomalyRecorder R} `{Temporal T}.

(** [sv_outcomes] is the log of the process: partition, offset and what the
    handler returned. *)
Record Service : Type := mkService {
  sv_world : World R T;
  sv_partition : Place → Partition;
  sv_outcomes : list (Place * nat * result unit)
}.

Definition set_partition (f : Place → Partition) (place : Place) (p : Partition) : Place → Partition :=
  λ t, if decide (t = place) then p else f t.

Definition handle (topic : Topic) (c : Consumer) (env : HandleEnv) (raw : string) (w : World R T)
    : option (result unit * World R T) :=
  match topic with
  | VesselTopic => HandleVesselDetection c env raw w
  | DarkTopic => Some (HandleDarkVessel c env raw w)
  end.

(** [FetchMessage] hands out the next record of one of the partitions the reader
    owns; [commits] says whether the commit reaches the broker.  At the end of
    the log the call waits. *)
Definition consume (c : Consumer) (place : Place) (env : HandleEnv) (commits : bool) (s : Service) : option Service :=
  let p := sv_partition s place in
  match pn_log p !! pn_position p with
  | None => Some s
  | Some raw =>
      '(r, w) ← handle place.1 c env raw (sv_world s);
      Some (mkService w
        (set_partition (sv_partition s) place
           (mkPartition (pn_log p) (S (pn_position p))
              (if is_ok r && commits then S (pn_position p) else pn_committed p)))
        (sv_outcomes s ++ [(place, pn_position p, r)]))
  end.

(** A new process: a new engine, and the readers at the committed offsets. *)
Definition restarted (engine : Engine) (s : Service) : Service :=
  mkService (with_engine engine (sv_world s))
    (λ t, let p := sv_partition s t in mkPartition (pn_log p) (pn_committed p) (pn_committed p)) (sv_outcomes s).

(** A rebalance takes a partition away and gives it back: its reader starts again
    at the committed offset, the engine stays. *)
Definition rebalanced (place : Place) (s : Service) : Service :=
  let p := sv_partition s place in
  mkService (sv_world s)
    (set_partition (sv_partition s) place (mkPartition (pn_log p) (pn_committed p) (pn_committed p))) (sv_outcomes s).

Definition produced (place : Place) (raw : string) (s : Service) : Service :=
  let p := sv_partition s place in
  mkService (sv_world s)
    (set_partition (sv_partition s) place (mkPartition (pn_log p ++ [raw]) (pn_position p) (pn_committed p))) (sv_outcomes s).

Definition set_recorder (r : R) (w : World R T) : World R T := mkWorld (wd_engine w) r (wd_temporal w) (wd_rejections w).
Definition set_temporal (t : T) (w : World R T) : World R T := mkWorld (wd_engine w) (wd_recorder w) t (wd_rejections w).
Definition set_world (w : World R T) (s : Service) : Service := mkService w (sv_partition s) (sv_outcomes s).

Inductive cv_step (c : Consumer) : Service → Service → Prop :=
| cv_consume place env commits s s' :
    tracks (wd_engine (sv_world s)) !! env_newID (he_ingest env) = None →
    consume c place env commits s = Some s' → cv_step c s s'
| cv_produce place raw s : cv_step c s (produced place raw s)
| cv_rebalance place s : cv_step c s (rebalanced place s)
| cv_restart engine s : NewEngine DefaultConfig [] = Ok engine → cv_step c s (restarted engine s)
| cv_recorder env l r r' s :
    record env l (wd_recorder (sv_world s)) = (r, r') → cv_step c s (set_world (set_recorder r' (sv_world s)) s)
| cv_temporal more t s :
    executions t = executions (wd_temporal (sv_world s)) ++ more → cv_step c s (set_world (set_temporal t (sv_world s)) s).

(** A process that has read nothing. *)
Record cv_start (s : Service) : Prop := {
  cs_engine : NewEngine DefaultConfig [] = Ok (wd_engine (sv_world s));
  cs_partition t : pn_position (sv_partition s t) = 0%nat ∧ pn_committed (sv_partition s t) = 0%nat;
  cs_outcomes : sv_outcomes s = []
}.

End service.
Arguments Service : clear implicits.
Arguments mkService {R T}.

(** ** The process as a machine *)

Section machine.
Context {R T : Type} `{Ed25519} `{AnomalyRecorderLaws R} `{TemporalLaws T}.
Implicit Types (c : Consumer) (s : Service R T).

(** What a record that was handled without an error has led to. *)
Definition answered c (topic : Topic) (raw : string) (w : World R T) : Prop :=
  match topic with
  | VesselTopic => ∃ now d, cv_vessel c now raw d ∧ Validate d = Ok tt
  | DarkTopic => ∃ now a, cv_dark c now raw a ∧ recorded (wd_recorder w) (AnomalyID a) ∧
                          AnomalyID a ∈ (executions (wd_temporal w)).*1
  end.

Record service_inv c s : Prop := {
  si_engine : engine_inv (wd_engine (sv_world s)) ∧ eng_config (wd_engine (sv_world s)) = DefaultConfig;
  si_offsets t : (pn_committed (sv_partition s t) <= pn_position (sv_partition s t) <= length (pn_log (sv_partition s t)))%nat;
  si_handled t i : (i < pn_position (sv_partition s t))%nat → ∃ r, (t, i, r) ∈ sv_outcomes s;
  si_committed t i : pn_committed (sv_partition s t) = S i → (t, i, Ok tt) ∈ sv_outcomes s;
  si_outcome t i r : (t, i, r) ∈ sv_outcomes s →
    ∃ raw, pn_log (sv_partition s t) !! i = Some raw ∧ (r = Ok tt → answered c t.1 raw (sv_world s))
}.

(** What every step keeps of the recorder and of Temporal. *)
Definition kept (w w' : World R T) : Prop :=
  (∀ id, recorded (wd_recorder w) id → recorded (wd_recorder w') id) ∧
  (∀ id, id ∈ (executions (wd_temporal w)).*1 → id ∈ (executions (wd_temporal w')).*1).

Lemma answered_kept c t raw w w' : kept w w' → answered c t raw w → answered c t raw w'.
Proof. intros [Hr He]. destruct t; [done|]. intros (now&a&?&?&?). exists now, a. eauto. Qed.

Lemma rejected_kept {A} c topic (w w' : World R T) (r : result A) : rejected c topic w r w' →
  kept w w' ∧ wd_engine w' = wd_engine w ∧ is_ok r = false.
Proof. intros (reason&e&_&->&->). done. Qed.

Lemma ingest_valid env e d id out e' : Ingest env e d = Some (Ok (id, out), e') → Validate d = Ok tt.
Proof. unfold Ingest. by destruct (Validate d) as [[]|]. Qed.

(** One call of a handler. *)
Lemma handle_spec c topic env raw w :
  engine_inv (wd_engine w) → eng_config (wd_engine w) = DefaultConfig →
  tracks (wd_engine w) !! env_newID (he_ingest env) = None →
  ∃ r w', handle topic c env raw w = Some (r, w') ∧ engine_inv (wd_engine w') ∧
    eng_config (wd_engine w') = DefaultConfig ∧ kept w w' ∧ (r = Ok tt → answered c topic raw w').
Proof.
  intros HI HC Hf. destruct topic; cbn [handle].
  - assert (Hr : is_nan (CorrelationRadiusMeters (eng_config (wd_engine w))) = false) by (by rewrite HC).
    destruct (vessel_cases c env raw w HI Hr Hf) as (r&w'&->&Ht&HI'&HC'&Hcase).
    exists r, w'. split_and!; [done|done|congruence|..].
    + split; [|by rewrite Ht]. destruct Hcase as [([Hk _]&_)%rejected_kept|(d&id&out&[_ _ _ Hrec])]; [exact Hk|].
      intros i. destruct out; [by destruct Hrec as [_ ->]|]. destruct Hrec as (r0&Hrec&_). by eapply record_keeps.
    + intros ->. destruct Hcase as [(_&_&?)%rejected_kept|(d&id&out&[Hd Hin _ _])]; [done|].
      exists (he_now env), d. split; [done|]. by eapply ingest_valid.
  - destruct (HandleDarkVessel c env raw w) as [r w'] eqn:E. apply dark_cases in E as [He Hcase].
    exists r, w'. rewrite He. split_and!; [done..| |].
    + destruct Hcase as [(?&_)%rejected_kept|(a&[_ _ (r0&Hrec&_) Hx _])]; [done|].
      split; [intros i; by eapply record_keeps|]. intros i. destruct Hx as [->| ->]; [done|]. rewrite fmap_app. set_solver.
    + intros ->. destruct Hcase as [(_&_&?)%rejected_kept|(a&[Ha _ _ _ Ho])]; [done|].
      exists (he_now env), a. by destruct (Ho eq_refl).
Qed.

Lemma set_partition_eq f t p : set_partition f t p t = p.
Proof. unfold set_partition. by rewrite decide_True. Qed.
Lemma set_partition_ne f t t' p : t ≠ t' → set_partition f t' p t = f t.
Proof. intros. unfold set_partition. by rewrite decide_False. Qed.

(** An iteration always goes through. *)
Lemma consume_spec c place env commits s :
  service_inv c s → tracks (wd_engine (sv_world s)) !! env_newID (he_ingest env) = None →
  (pn_log (sv_partition s place) !! pn_position (sv_partition s place) = None ∧ consume c place env commits s = Some s) ∨
  ∃ raw r w, let p := sv_partition s place in
    pn_log p !! pn_position p = Some raw ∧ handle place.1 c env raw (sv_world s) = Some (r, w) ∧
    engine_inv (wd_engine w) ∧ eng_config (wd_engine w) = DefaultConfig ∧ kept (sv_world s) w ∧
    (r = Ok tt → answered c place.1 raw w) ∧
    consume c place env commits s = Some (mkService w
      (set_partition (sv_partition s) place
         (mkPartition (pn_log p) (S (pn_position p)) (if is_ok r && commits then S (pn_position p) else pn_committed p)))
      (sv_outcomes s ++ [(place, pn_position p, r)])).
Proof.
  intros HS Hf. destruct (si_engine _ _ HS) as [HI HC]. unfold consume.
  destruct (pn_log _ !! pn_position _) as [raw|] eqn:E; [right|by left].
  destruct (handle_spec c place.1 env raw (sv_world s) HI HC Hf) as (r&w&Hh&?&?&?&?).
  exists raw, r, w. rewrite Hh. split_and!; done.
Qed.

Lemma start_inv c s : cv_start s → service_inv c s.
Proof.
  intros [He Hp Ho]. apply NewEngine_inv in He as (HI&HC&_). split; [done|..]; intros t; destruct (Hp t) as [E1 E2].
  - rewrite E1, E2. lia.
  - rewrite E1. lia.
  - by rewrite E2.
  - rewrite Ho. by intros i r ?%elem_of_nil.
Qed.

(** A change of the world that keeps the engine. *)
Lemma world_inv c s w : service_inv c s → wd_engine w = wd_engine (sv_world s) → kept (sv_world s) w →
  service_inv c (set_world w s).
Proof.
  intros [HE HO HH HC HR] Hw Hk. split; [by rewrite <- Hw in HE|done..|].
  intros t i r Hin. destruct (HR _ _ _ Hin) as (raw&?&Ha). exists raw. split; [done|]. intros Hr. by eapply answered_kept; [|apply Ha].
Qed.

Lemma produce_inv c place raw s : service_inv c s → service_inv c (produced place raw s).
Proof.
  intros [HE HO HH HC HR]. split; [done|..]; simpl; intros t;
    (destruct (decide (t = place)) as [->|Hne]; [rewrite !set_partition_eq|rewrite !set_partition_ne by done]); simpl.
  - rewrite length_app. simpl. specialize (HO place). lia.
  - apply HO.
  - apply HH.
  - apply HH.
  - apply HC.
  - apply HC.
  - intros i r Hin. destruct (HR _ _ _ Hin) as (raw'&Hl&?). exists raw'. split; [by apply lookup_app_l_Some|done].
  - apply HR.
Qed.

Lemma rebalance_inv c place s : service_inv c s → service_inv c (rebalanced place s).
Proof.
  intros [HE HO HH HC HR]. split; [done|..]; simpl; intros t;
    try (destruct (decide (t = place)) as [->|Hne]; [rewrite !set_partition_eq|rewrite !set_partition_ne by done]); simpl.
  - specialize (HO place). lia.
  - apply HO.
  - intros i Hi. apply HH. specialize (HO place). lia.
  - apply HH.
  - apply HC.
  - apply HC.
  - apply HR.
  - apply HR.
Qed.

Lemma restart_inv c engine s : NewEngine DefaultConfig [] = Ok engine → service_inv c s → service_inv c (restarted engine s).
Proof.
  intros (HI&HCf&_)%NewEngine_inv [HE HO HH HC HR]. split; [done|..]; simpl.
  - intros t. specialize (HO t). lia.
  - intros t i Hi. apply HH. specialize (HO t). lia.
  - exact HC.
  - intros t i r Hin. destruct (HR _ _ _ Hin) as (raw&?&Ha). exists raw. split; [done|]. intros Hr. by eapply answered_kept; [|apply Ha].
Qed.

Lemma consume_inv c place env commits s s' :
  service_inv c s → tracks (wd_engine (sv_world s)) !! env_newID (he_ingest env) = None →
  consume c place env commits s = Some s' → service_inv c s'.
Proof.
  intros HS Hf. destruct (consume_spec c place env commits s HS Hf) as [[_ ->]|(raw&r&w&Hl&_&HI&HCf&Hk&Ha&->)];
    [by intros [= <-]|]. intros [= <-]. destruct HS as [HE HO HH HC HR].
  assert (Hlen := lookup_lt_Some _ _ _ Hl).
  split; [done|..]; simpl; intros t;
    (destruct (decide (t = place)) as [->|Hne]; [rewrite !set_partition_eq|rewrite !set_partition_ne by done]); simpl.
  - specialize (HO place). case_match; lia.
  - apply HO.
  - intros i Hi. destruct (decide (i = pn_position (sv_partition s place))) as [->|?]; [exists r; set_solver|].
    destruct (HH place i) as [r' ?]; [lia|]. exists r'. set_solver.
  - intros i Hi. destruct (HH _ _ Hi) as [r' ?]. exists r'. set_solver.
  - intros i. destruct (is_ok r && commits) eqn:Ec; intros Hi.
    + apply andb_true_iff in Ec as [[[] ->]%is_ok_true _]. injection Hi as <-. set_solver.
    + apply elem_of_app. left. by apply HC.
  - intros i Hi. apply elem_of_app. left. by apply HC.
  - intros i r' [Hin|Hin]%elem_of_app.
    + destruct (HR _ _ _ Hin) as (raw'&?&Hx). exists raw'. split; [done|]. intros Hr. eapply answered_kept; [exact Hk|by apply Hx].
    + apply list_elem_of_singleton in Hin. injection Hin as -> ->. by exists raw.
  - intros i r' [Hin|Hin]%elem_of_app; [|apply list_elem_of_singleton in Hin; congruence].
    destruct (HR _ _ _ Hin) as (raw'&?&Hx). exists raw'. split; [done|]. intros Hr. eapply answered_kept; [exact Hk|by apply Hx].
Qed.

Lemma step_inv c s s' : cv_step c s s' → service_inv c s → service_inv c s'.
Proof.
  intros Hs HS. destruct Hs as [place env commits s s' Hf Hc|place raw s|place s|engine s Hn|env l r r' s Hr|more t s Ht].
  - by eapply consume_inv.
  - by apply produce_inv.
  - by apply rebalance_inv.
  - by apply restart_inv.
  - apply world_inv; [done|done|]. split; [|done]. intros id. by eapply record_keeps.
  - apply world_inv; [done|done|]. split; [done|]. intros id. simpl. rewrite Ht, fmap_app. set_solver.
Qed.

Lemma reach_inv c s0 s : rtc (cv_step c) s0 s → service_inv c s0 → service_inv c s.
Proof. induction 1; eauto using step_inv. Qed.

(** C5: At every point of every run of the consumer, over any number of
    partitions, with restarts, rebalances, failing commits and other users of the recorder and of Temporal: the record behind
    each outcome is the one at its offset, and a record handled without an error
    is an envelope signed under the key directory and of the topic's type; a
    vessel detection was valid, and a dark-vessel observation is kept by the
    recorder and has its response workflow.  Nothing below the position of a
    reader was skipped, only a successfully handled record is committed, and the
    next iteration of either loop goes through. *)
Theorem consumer_reachable c s0 s :
  cv_start s0 → rtc (cv_step c) s0 s →
  service_inv c s ∧
  ∀ place env commits, tracks (wd_engine (sv_world s)) !! env_newID (he_ingest env) = None →
    is_Some (consume c place env commits s).
Proof.
  intros Hi Hs. pose proof (reach_inv _ _ _ Hs (start_inv _ _ Hi)) as HS. split; [done|]. intros place env commits Hf.
  destruct (consume_spec c place env commits s HS Hf) as [[_ ->]|(raw&r&w&_&_&_&_&_&_&->)]; eauto.
Qed.

(** ** A failed record is passed over *)

Lemma step_committed c s s' t : cv_step c s s' → service_inv c s →
  (pn_committed (sv_partition s t) <= pn_committed (sv_partition s' t))%nat ∧
  ∀ i r, (i < pn_committed (sv_partition s t))%nat → (t, i, r) ∈ sv_outcomes s' → (t, i, r) ∈ sv_outcomes s.
Proof.
  intros Hs HS. destruct Hs as [place env commits s s' Hf Hc|place raw s|place s|engine s Hn|env l r r' s Hr|more u s Ht]; try done.
  - destruct (consume_spec c place env commits s HS Hf) as [[_ E]|(raw&r&w&_&_&_&_&_&_&E)]; rewrite E in Hc; injection Hc as <-;
      [done|]. simpl. pose proof (si_offsets _ _ HS place) as Ho. split.
    + destruct (decide (t = place)) as [->|Hne]; [rewrite set_partition_eq|by rewrite set_partition_ne]. simpl. case_match; lia.
    + intros i r' Hi [Hin|Hin%list_elem_of_singleton]%elem_of_app; [done|]. simplify_eq. lia.
  - simpl. split; [|done]. destruct (decide (t = place)) as [->|Hne]; [by rewrite set_partition_eq|by rewrite set_partition_ne].
  - simpl. split; [|done]. destruct (decide (t = place)) as [->|Hne]; [by rewrite set_partition_eq|by rewrite set_partition_ne].
Qed.

Lemma run_committed c s s' t : rtc (cv_step c) s s' → service_inv c s →
  (pn_committed (sv_partition s t) <= pn_committed (sv_partition s' t))%nat ∧
  ∀ i r, (i < pn_committed (sv_partition s t))%nat → (t, i, r) ∈ sv_outcomes s' → (t, i, r) ∈ sv_outcomes s.
Proof.
  induction 1 as [s|s s1 s2 Hs _ IH]; intros HS; [done|]. destruct (step_committed _ _ _ t Hs HS) as [K1 K2].
  destruct (IH (step_inv _ _ _ Hs HS)) as [K3 K4]. split; [lia|]. intros i r Hi Hin. apply K2; [done|]. apply K4; [lia|done].
Qed.

(** C8: What becomes of a record whose handler failed, by a rejection or because
    the recorder or Temporal could not be reached.  Its offset is not committed,
    but the loop goes on with the next record, and once that one is handled and
    committed the failed record lies below the committed offset: no continuation
    of the run, restarts and rebalances included, ever reads it again, and it keeps the outcomes
    it had. *)
Theorem failed_record_lost c s0 s place env1 e s1 s1' env2 s2 :
  let i := pn_position (sv_partition s place) in
  cv_start s0 → rtc (cv_step c) s0 s →
  tracks (wd_engine (sv_world s)) !! env_newID (he_ingest env1) = None →
  consume c place env1 true s = Some s1 → sv_outcomes s1 = sv_outcomes s ++ [(place, i, Err e)] →
  rtc (cv_step c) s1 s1' → pn_position (sv_partition s1' place) = S i →
  tracks (wd_engine (sv_world s1')) !! env_newID (he_ingest env2) = None →
  consume c place env2 true s1' = Some s2 → sv_outcomes s2 = sv_outcomes s1' ++ [(place, S i, Ok tt)] →
  pn_committed (sv_partition s1 place) = pn_committed (sv_partition s place) ∧
  ∀ q, rtc (cv_step c) s2 q →
    (i < pn_committed (sv_partition q place) <= pn_position (sv_partition q place))%nat ∧
    ∀ r, (place, i, r) ∈ sv_outcomes q → (place, i, r) ∈ sv_outcomes s1'.
Proof.
  intros i Hi Hs Hf1 C1 O1 Hm Hpos Hf2 C2 O2. pose proof (reach_inv _ _ _ Hs (start_inv _ _ Hi)) as HS.
  pose proof (consume_inv _ _ _ _ _ _ HS Hf1 C1) as HS1. pose proof (reach_inv _ _ _ Hm HS1) as HS1'.
  pose proof (consume_inv _ _ _ _ _ _ HS1' Hf2 C2) as HS2. split.
  - destruct (consume_spec c place env1 true s HS Hf1) as [[_ E]|(raw&r&w&_&_&_&_&_&_&E)]; rewrite E in C1; injection C1 as <-; [done|].
    simpl in O1. apply app_inj_1 in O1 as [_ O1]; [|done]. injection O1 as ->. simpl. by rewrite set_partition_eq.
  - intros q Hq. destruct (run_committed _ _ _ place Hq HS2) as [Hc Hout].
    pose proof (si_offsets _ _ (reach_inv _ _ _ Hq HS2) place) as Hq'.
    assert (Hc2 : pn_committed (sv_partition s2 place) = S (S i)).
    { destruct (consume_spec c place env2 true s1' HS1' Hf2) as [[_ E]|(raw&r&w&_&_&_&_&_&_&E)]; rewrite E in C2; injection C2 as <-.
      { apply (f_equal length) in O2. rewrite length_app in O2. simpl in O2. lia. }
      simpl in O2. apply app_inj_1 in O2 as [_ O2]; [|done]. injection O2 as _ ->. simpl. rewrite set_partition_eq. simpl. by rewrite Hpos. }
    split; [lia|]. intros r Hr. apply Hout in Hr; [|lia]. rewrite O2 in Hr. apply elem_of_app in Hr as [?|Hr]; [done|].
    apply list_elem_of_singleton in Hr. simplify_eq. lia.
Qed.

End machine.
