(* ===== verification/CvSamples.v ===== *)
(** * Concrete runs of the computer-vision consumer

    Signed records, a Temporal frontend that can be down, and the witnesses of
    the consumer's properties. *)

From S2P Require Import Prelude GoStrings GoTime Float64 Geo Classification Detection Fusion FusionInv FusionSamples GoFormat GoUtf8 GoNumber GoJson Unmarshal GoTimeParse TrackStore Workflow Feed Provenance ProvenanceProofs CvConsumer CvConsumerProofs CvService.

(** ** Temporal *)

Record SampleTemporal : Type := mkSampleTemporal { stp_executions : list (string * AlertInput); stp_up : bool }.

#[export] Instance sample_temporal : Temporal SampleTemporal := {
  ExecuteWorkflow := λ opts _ input t,
    if negb (stp_up t) then (Err (EText "temporal unavailable"), t)
    else if bool_decide (so_id opts ∈ (stp_executions t).*1) && so_error_when_started opts then (Err ErrAlreadyStarted, t)
    else (Ok tt, mkSampleTemporal (stp_executions t ++ [(so_id opts, input)]) true);
  executions := stp_executions
}.

#[export] Instance sample_temporal_laws : TemporalLaws SampleTemporal.
Proof.
  split; intros opts name input t; simpl; destruct (stp_up t); simpl.
  - intros r t'. case_match; intros [= <- <-]; auto.
  - intros r t' [= <- <-]. auto.
  - intros u t' ->. rewrite andb_true_r. case_match; [done|]. by intros [= _ <-].
  - done.
  - intros e t'. case_match; [|done]. intros [= <- <-] _. split; [done|].
    match goal with E : _ && _ = true |- _ => by apply andb_true_iff in E as [?%bool_decide_eq_true _] end.
  - intros e t' [= <- <-]. done.
Qed.

(** ** Records *)

Definition cv_text (topic event label resource provenance : string) : string :=
  quoted ("{'envelopeVersion':'1.0','eventId':'" +:+ event +:+ "','eventType':'" +:+ topic +:+
    "','occurredAt':'2026-01-01T00:00:00Z','producer':'cv','classification':'" +:+ label +:+
    "','fhir':{'resourceType':'Bundle','type':'message','entry':[{'resource':" +:+ resource +:+
    "}]},'provenance':{" +:+ provenance +:+ "}}").

Definition signed_text (topic event label resource : string) : string :=
  match SignEnvelope (H := digest_signer) (Some sample_signer) (Ok (cv_text topic event label resource "")) with
  | Ok jws => cv_text topic event label resource ("'signature':'" +:+ jws +:+ "'")
  | Err _ => ""
  end.

Definition vessel_resource : string :=
  "{'cameraId':'cam-7','trackId':'t-1','confidence':0.9,'bboxXyxy':[10.5,20,110.5,60],'frameSha256':'0123abcd','latitudeMicros':3500000,'longitudeMicros':3500000}".
Definition dark_resource : string :=
  "{'cameraId':'cam-7','trackId':'t-1','confidence':0.875,'latitudeMicros':3500000,'longitudeMicros':3500000,'modelVersion':'m1'}".

Definition vessel_record : string := signed_text TopicVesselDetection "ev-1" "RESTRICTED" vessel_resource.
Definition dark_record (event : string) : string := signed_text TopicDarkVessel event "CONFIDENTIAL" dark_resource.

(** ** The process of the binary *)

Definition sample_sea : Engine := mkEngine DefaultConfig [] ∅ ∅.
Definition cv_consumer : Consumer := mkConsumer sample_directory "isr" false.
Definition cv_world (up : bool) : World unit SampleTemporal := mkWorld sample_sea tt (mkSampleTemporal [] up) [].

Lemma sample_sea_new : NewEngine DefaultConfig [] = Ok sample_sea.
Proof. by vm_compute. Qed.

Definition cv_ingest : IngestEnv := mkIngestEnv [] ["cv-track-1"] "cv-track-1" (sample_time 1).
Definition cv_env : HandleEnv := mkHandleEnv cv_ingest (mkRecordEnv 1 1 1 (λ i, ("", "")) true) (sample_time 1).

Definition sample_checked : result Detection :=
  (vessel_detection (R := unit) (T := SampleTemporal) (H := digest_scheme) cv_consumer (sample_time 1) vessel_record (cv_world true)).1.
Definition or_else {A} (a : A) (r : result A) : A := match r with Ok x => x | Err _ => a end.
Definition sample_vessel : Detection := or_else (sample_detection "" "" "" 0 0 "") sample_checked.

Lemma vessel_event_typed_witness :
  HasPosition sample_vessel = true ∧ det_latitude sample_vessel = f_of_Q 35 10 ∧
  ∃ image x1 y1 x2 y2 confidence, Optical sample_vessel = Some (mkOptical image [normalizeBox x1 y1 x2 y2 confidence]) ∧
    Forall machine [x1; y1; x2; y2; confidence].
Proof.
  split; [by vm_compute|]. split; [by vm_compute|].
  apply (vessel_event_typed (H := digest_scheme) cv_consumer (sample_time 1) vessel_record (cv_world true) sample_vessel (cv_world true)).
  by vm_compute.
Defined.

(** The record of the binary: fused, and no response. *)
Abbreviation vessel_answer :=
  (HandleVesselDetection (R := unit) (T := SampleTemporal) (H := digest_scheme) cv_consumer cv_env vessel_record (cv_world true)).

Lemma sample_sea_inv : engine_inv sample_sea.
Proof. by destruct (NewEngine_inv _ _ _ sample_sea_new). Qed.

Lemma vessel_handled_witness :
  (∃ r w', vessel_answer = Some (r, w') ∧ engine_inv (wd_engine w') ∧ wd_temporal w' = mkSampleTemporal [] true) ∧
  fst <$> vessel_answer = Some (Ok tt) ∧
  ((λ rw, elements (dom (tracks (wd_engine rw.2)))) <$> vessel_answer) = Some ["cv-track-1"].
Proof.
  split; [|split; by vm_compute].
  destruct (vessel_handled (H := digest_scheme) cv_consumer cv_env vessel_record (cv_world true) sample_sea_inv
    ltac:(by vm_compute) ltac:(by vm_compute)) as (r&w'&Hh&Ht&HI&_).
  exists r, w'. split; [exact Hh|]. split; [exact HI|exact Ht].
Defined.

(** ** Two dark-vessel records, the first while Temporal is down *)

(** Of the partitions of the topic only this one has records. *)
Definition dark_place : Place := (DarkTopic, 1%nat).

Definition cv_service : Service unit SampleTemporal :=
  mkService (cv_world false)
    (λ place, mkPartition (if decide (place = dark_place) then [dark_record "ev-1"; dark_record "ev-2"] else []) 0 0) [].

Definition run_dark (s : Service unit SampleTemporal) : Service unit SampleTemporal :=
  match consume (H := digest_scheme) cv_consumer dark_place cv_env true s with Some s' => s' | None => s end.

(** The first record was never handed to Temporal. *)
Abbreviation up_again s := (set_world (set_temporal (mkSampleTemporal [] true) (sv_world s)) s).

Lemma cv_service_start : cv_start cv_service.
Proof. split; [exact sample_sea_new|by intros []|done]. Qed.

Definition cv_failed : Service unit SampleTemporal := run_dark cv_service.
Definition cv_passed : Service unit SampleTemporal := run_dark (up_again cv_failed).
Definition cv_lost : Service unit SampleTemporal := restarted sample_sea cv_passed.

Lemma cv_failed_run : consume (H := digest_scheme) cv_consumer dark_place cv_env true cv_service = Some cv_failed ∧
  sv_outcomes cv_failed = [(dark_place, 0%nat, Err (EWrap "start ISR workflow for anomaly" (EText "temporal unavailable")))].
Proof. split; by vm_compute. Qed.

Lemma cv_passed_run : consume (H := digest_scheme) cv_consumer dark_place cv_env true (up_again cv_failed) = Some cv_passed ∧
  sv_outcomes cv_passed =
    sv_outcomes (up_again cv_failed) ++ [(dark_place, S (pn_position (sv_partition cv_service dark_place)), Ok tt)].
Proof. split; by vm_compute. Qed.

Lemma consumer_reachable_witness :
  service_inv (H := digest_scheme) cv_consumer cv_lost ∧ "cv-dark-ev-2" ∈ (stp_executions (wd_temporal (sv_world cv_lost))).*1.
Proof.
  split; [|vm_compute; set_solver+].
  apply (consumer_reachable (H := digest_scheme) cv_consumer cv_service); [exact cv_service_start|].
  eapply rtc_l; [apply (cv_consume cv_consumer dark_place cv_env true); [by vm_compute|exact (proj1 cv_failed_run)]|].
  eapply rtc_l; [apply (cv_temporal cv_consumer [] (mkSampleTemporal [] true) cv_failed); by vm_compute|].
  eapply rtc_l; [|eapply rtc_once, cv_restart, sample_sea_new].
  apply (cv_consume cv_consumer dark_place cv_env true); [by vm_compute|exact (proj1 cv_passed_run)].
Defined.

(** The observation of the first record: not committed, passed over, and never
    answered in any continuation. *)
Lemma failed_record_lost_witness :
  pn_committed (sv_partition cv_failed dark_place) = 0%nat ∧
  ∀ q, rtc (cv_step (H := digest_scheme) cv_consumer) cv_passed q →
    (0 < pn_committed (sv_partition q dark_place) <= pn_position (sv_partition q dark_place))%nat ∧
    ∀ r, (dark_place, 0%nat, r) ∈ sv_outcomes q → (dark_place, 0%nat, r) ∈ sv_outcomes (up_again cv_failed).
Proof.
  apply (failed_record_lost (H := digest_scheme) cv_consumer cv_service cv_service dark_place cv_env
    (EWrap "start ISR workflow for anomaly" (EText "temporal unavailable")) cv_failed (up_again cv_failed) cv_env cv_passed).
  - exact cv_service_start.
  - apply rtc_refl.
  - by vm_compute.
  - exact (proj1 cv_failed_run).
  - exact (proj2 cv_failed_run).
  - apply rtc_once, (cv_temporal cv_consumer [] (mkSampleTemporal [] true) cv_failed). by vm_compute.
  - by vm_compute.
  - by vm_compute.
  - exact (proj1 cv_passed_run).
  - exact (proj2 cv_passed_run).
Defined.
