(* ===== verification/Server.v ===== *)
(** * The HTTP surface ([internal/server/server.go], [isr_handlers.go])

    Authentication, the role gates, the routes and every handler.  The state is
    the shared database, one record of tables per component over common feed
    and outbox tables, with the fusion engine, the TigerBeetle cluster and the
    key set of the authenticator.  What one request draws from outside is a
    [ServeEnv].  A response is the list of its [writeJSON] calls: the first one
    sets the status. *)

From S2P Require Import Prelude GoStrings GoTime GoFormat Float64 Geo Classification Detection Fusion Outbox Incident Envelope Ledger Feed IsrStore TrackStore Base64 GoUtf8 GoJson Unmarshal GoTimeParse GoNet Rsa Auth Documents Aggregates.
From Stdlib Require Import Ascii.

(** ** Responses *)

Record tracksPointView : Type := mkPointView {
  pv_observed : Z; pv_latitude : f64; pv_longitude : f64; pv_modality : string }.

Record trackView : Type := mkTrackView {
  tv_TrackID : string;
  tv_Identity : string;
  tv_Classification : Classification;
  tv_PointCount : Z;
  tv_Points : list tracksPointView
}.

Inductive Body : Type :=
| BError (message : string)
| BErrorOf (err : error) (* the text of [err.Error()] *)
| BFields (fields : list (string * string))
| BFeedAdmission (admission : FeedAdmission)
| BFeedIncident (admission : FeedAdmission) (created : Incident)
| BIncident (incident : Incident)
| BCorrelation (correlation : SpatialCorrelation)
| BAssignment (assignment : AnalystAssignment)
| BDetectionAdmission (admission : DetectionAdmission)
| BDetections (detections : list Detection)
| BTracks (views : list trackView)
| BAnomalies (anomalies : list RetainedAnomaly)
| BAggregates (aggregates : list OutcomeAggregate)
| BEntry (entry : Entry)
| BStatus (status : string)
| BMetrics
| BMux.

Definition Response : Type := list (Z * Body).

(** The status line: that of the first write; [None] when a handler panicked
    before writing, and the connection closes without an answer. *)
Definition status_of (response : Response) : option Z := fst <$> head response.

(** ** State *)

Record ServerState (T : Type) : Type := mkState {
  st_feeds : FeedDB;
  st_incidents : IncidentDB;
  st_events : gmap (string * string) EventRow;
  st_tracks : gmap string TrackRow;
  st_associations : gmap (string * string) AssociationRow;
  st_anomalies : gmap string RetainedAnomaly;
  st_proposals : gmap string ProposalRow;
  st_entries : gmap string Entry;
  st_outbox : ISROutbox;
  st_engine : Engine;
  st_cluster : T;
  st_keys : KeyState;
  st_fusion_errors : Z
}.
Arguments mkState {T}. Arguments st_feeds {T}. Arguments st_incidents {T}. Arguments st_events {T}. Arguments st_tracks {T}.
Arguments st_associations {T}. Arguments st_anomalies {T}. Arguments st_proposals {T}. Arguments st_entries {T}.
Arguments st_outbox {T}. Arguments st_engine {T}. Arguments st_cluster {T}. Arguments st_keys {T}. Arguments st_fusion_errors {T}.

(** The dependencies that may be missing. *)
Record ISRDeps : Type := mkDeps {
  dep_ISRStore : bool;
  dep_TrackStore : bool;
  dep_Fusion : bool;
  dep_Outcomes : option Service;
  dep_FusionErrorHook : bool
}.

Record Server : Type := mkServer {
  sv_isr : option ISRDeps;
  sv_authenticator : option Authenticator;
  sv_readyzCheck : bool;
  sv_metrics : bool
}.

Record ServeEnv : Type := mkServeEnv {
  se_auth : AuthEnv;
  se_tx : TxEnv;
  se_feed : FeedEnv;
  se_now : Z;
  se_admit : AdmitEnv;
  se_ingest : IngestEnv;
  se_record : RecordEnv;
  se_ledger : LedgerEnv;
  se_events : gmap (string * string) EventRow → list EventRow; (* the order of SELECTs over a table *)
  se_anomalies : gmap string RetainedAnomaly → list RetainedAnomaly;
  se_groups : gmap string Entry → list (string * string * string);
  se_track_order : list string;
  se_ready : result unit
}.

(** ** Routes *)

Inductive Route : Type :=
| RCreate
| RRegisterFeedSource
| RRevokeFeedSource (sourceID : string)
| RRotateFeedSourceKey (sourceID : string)
| RAdmitFeedEvent
| RAdmitFeedIncident
| RGet
| RCorrelate (incidentID : string)
| RAssign (incidentID : string)
| RTransition
| RAdmitDetection
| RListDetections
| RListTracks
| RListAnomalies
| ROutcomeAggregates
| RProposeOutcome
| RConfirmOutcome (entryID : string).

(** The patterns of the API mux: a literal segment, [{id}], and the final slash
    that matches everything below. *)
Inductive Segment : Type := Lit (text : string) | Wild | Below.

(** [segments] are the unescaped segments of the clean path, an empty last one
    for a final slash; the result is what [{id}] stands for. *)
Fixpoint matches (pattern : list Segment) (segments : list string) (id : string) : option string :=
  match pattern, segments with
  | [], [] => Some id
  | Lit text :: pattern, segment :: segments => if text =s segment then matches pattern segments id else None
  | Wild :: pattern, segment :: segments => matches pattern segments segment
  | [Below], _ :: _ => Some id
  | _, _ => None
  end.

(** The more specific patterns come first. *)
Definition post_patterns : list (list Segment * (string → Route)) :=
  [([Lit "v1"; Lit "incidents"], λ _, RCreate);
   ([Lit "v1"; Lit "feed-sources"], λ _, RRegisterFeedSource);
   ([Lit "v1"; Lit "feed-sources"; Wild; Lit "revoke"], RRevokeFeedSource);
   ([Lit "v1"; Lit "feed-sources"; Wild; Lit "rotate-key"], RRotateFeedSourceKey);
   ([Lit "v1"; Lit "feed-events"; Lit "admit"], λ _, RAdmitFeedEvent);
   ([Lit "v1"; Lit "feed-events"; Lit "admit-incident"], λ _, RAdmitFeedIncident);
   ([Lit "v1"; Lit "incidents"; Wild; Lit "correlations"], RCorrelate);
   ([Lit "v1"; Lit "incidents"; Wild; Lit "assignment"], RAssign);
   ([Lit "v1"; Lit "incidents"; Below], λ _, RTransition);
   ([Lit "v1"; Lit "isr"; Lit "detections:admit"], λ _, RAdmitDetection);
   ([Lit "v1"; Lit "outcomes"], λ _, RProposeOutcome);
   ([Lit "v1"; Lit "outcomes"; Wild; Lit "confirm"], RConfirmOutcome)].

Definition get_patterns : list (list Segment * (string → Route)) :=
  [([Lit "v1"; Lit "incidents"; Below], λ _, RGet);
   ([Lit "v1"; Lit "isr"; Lit "detections"], λ _, RListDetections);
   ([Lit "v1"; Lit "isr"; Lit "tracks"], λ _, RListTracks);
   ([Lit "v1"; Lit "isr"; Lit "anomalies"], λ _, RListAnomalies);
   ([Lit "v1"; Lit "outcomes"; Lit "aggregates"], λ _, ROutcomeAggregates)].

Fixpoint find_route {A} (patterns : list (list Segment * (string → A))) (segments : list string) : option A :=
  match patterns with
  | [] => None
  | (pattern, route) :: rest =>
      match matches pattern segments "" with
      | Some id => Some (route id)
      | None => find_route rest segments
      end
  end.

Definition post_route : list string → option Route := find_route post_patterns.
Definition get_route : list string → option Route := find_route get_patterns.

(** A GET pattern matches HEAD too. *)
Definition is_get (method : string) : bool := (method =s "GET") || (method =s "HEAD").

Definition api_route (method : string) (segments : list string) : option Route :=
  if method =s "POST" then post_route segments else if is_get method then get_route segments else None.

(** No pattern matches: 405 when one does with another method, else 404; a path
    that lacks the final slash of the only pattern that would match is redirected. *)
Definition mux_miss (method : string) (segments : list string) : Z :=
  if is_get method && bool_decide (segments = ["v1"; "incidents"]) then 301
  else if bool_decide (is_Some (post_route segments)) || bool_decide (is_Some (get_route segments)) then 405
  else 404.

(** ** Views of the shared state *)

Section views.
Context {T : Type}.
Implicit Types (st : ServerState T).

Definition isr_view st : IsrDB := mkIsrDB (st_feeds st) (st_events st) (st_outbox st).
Definition track_view st : TrackDB := mkTrackDB (st_tracks st) (st_associations st) (st_anomalies st) (st_outbox st).
Definition ledger_view st : World := (mkLedgerDB (st_proposals st) (st_entries st) (st_outbox st), st_cluster st).

Definition set_feeds st (feeds : FeedDB) : ServerState T :=
  mkState feeds (st_incidents st) (st_events st) (st_tracks st) (st_associations st) (st_anomalies st) (st_proposals st)
    (st_entries st) (st_outbox st) (st_engine st) (st_cluster st) (st_keys st) (st_fusion_errors st).
Definition set_incident_tables st (db : IncidentDB) : ServerState T :=
  mkState (st_feeds st) db (st_events st) (st_tracks st) (st_associations st) (st_anomalies st) (st_proposals st)
    (st_entries st) (st_outbox st) (st_engine st) (st_cluster st) (st_keys st) (st_fusion_errors st).
Definition set_isr st (db : IsrDB) : ServerState T :=
  mkState (idb_feeds db) (st_incidents st) (idb_events db) (st_tracks st) (st_associations st) (st_anomalies st)
    (st_proposals st) (st_entries st) (idb_outbox db) (st_engine st) (st_cluster st) (st_keys st) (st_fusion_errors st).
Definition set_track_tables st (e : Engine) (db : TrackDB) : ServerState T :=
  mkState (st_feeds st) (st_incidents st) (st_events st) (tdb_tracks db) (tdb_associations db) (tdb_anomalies db)
    (st_proposals st) (st_entries st) (tdb_outbox db) e (st_cluster st) (st_keys st) (st_fusion_errors st).
Definition set_ledger st (w : World) : ServerState T :=
  mkState (st_feeds st) (st_incidents st) (st_events st) (st_tracks st) (st_associations st) (st_anomalies st)
    (proposals w.1) (entries w.1) (ledger_outbox w.1) (st_engine st) w.2 (st_keys st) (st_fusion_errors st).
Definition set_keys st (keys : KeyState) : ServerState T :=
  mkState (st_feeds st) (st_incidents st) (st_events st) (st_tracks st) (st_associations st) (st_anomalies st)
    (st_proposals st) (st_entries st) (st_outbox st) (st_engine st) (st_cluster st) keys (st_fusion_errors st).
Definition count_fusion_error st : ServerState T :=
  mkState (st_feeds st) (st_incidents st) (st_events st) (st_tracks st) (st_associations st) (st_anomalies st)
    (st_proposals st) (st_entries st) (st_outbox st) (st_engine st) (st_cluster st) (st_keys st) (st_fusion_errors st + 1).

Definition on_feeds {A} (m : M FeedDB A) : M (ServerState T) A := λ st,
  let '(r, db) := m (st_feeds st) in (r, set_feeds st db).
Definition on_store {A} (m : M IncidentDB A) : M (ServerState T) A := λ st,
  let '(r, db) := m (st_incidents st) in (r, set_incident_tables st db).
Definition on_feeds_and_store {A} (m : M (FeedDB * IncidentDB) A) : M (ServerState T) A := λ st,
  let '(r, w) := m (st_feeds st, st_incidents st) in (r, set_incident_tables (set_feeds st w.1) w.2).
Definition on_isr {A} (m : M IsrDB A) : M (ServerState T) A := λ st,
  let '(r, db) := m (isr_view st) in (r, set_isr st db).
Definition on_ledger {A} (m : M World A) : M (ServerState T) A := λ st,
  let '(r, w) := m (ledger_view st) in (r, set_ledger st w).
Definition on_keys {A} (m : M KeyState A) : M (ServerState T) A := λ st,
  let '(r, keys) := m (st_keys st) in (r, set_keys st keys).

End views.

(** ** Handlers *)

Section handlers.
Context {T : Type} `{TigerBeetle T} `{Ed25519} `{JsonText} (pg_time : Z → Z) (jsonb : string → option string).

Definition Handler : Type := ServerState T → Response * ServerState T.

Definition writeJSON (status : Z) (body : Body) : Handler := λ st, ([(status, body)], st).
Definition writeError (status : Z) (message : string) : Handler := writeJSON status (BError message).

(** [if err != nil { .. return }] *)
Definition attempt {A} (m : M (ServerState T) A) (failed : error → Handler) (next : A → Handler) : Handler := λ st,
  match m st with
  | (Ok a, st') => next a st'
  | (Err e, st') => failed e st'
  end.

Definition writeIncidentError (err : error) : Handler :=
  let kind target := errors_is err target in
  if kind Incident.ErrNotFound || kind IsrStore.ErrNotFound || kind Ledger.ErrNotFound then writeJSON 404 (BErrorOf err)
  else if kind ErrForbidden then writeError 403 "insufficient role or clearance"
  else if kind ErrIdempotencyConflict || kind ErrCorrelationConflict || kind ErrOptimisticConflict || kind ErrInvalidTransition ||
          kind ErrFeedSourceKeyConflict || kind IsrStore.ErrConflict || kind Ledger.ErrConflict || kind ErrDualControl ||
          kind ErrAlreadyConfirmed then writeJSON 409 (BErrorOf err)
  else writeError 500 "internal maritime intelligence failure".

Definition writeISRError (err : error) : Handler :=
  let kind target := errors_is err target in
  if kind ErrForbidden then writeError 403 "insufficient role or clearance"
  else if kind IsrStore.ErrNotFound || kind Ledger.ErrNotFound then writeJSON 404 (BErrorOf err)
  else if kind IsrStore.ErrConflict || kind Ledger.ErrConflict then writeJSON 409 (BErrorOf err)
  else if kind ErrDualControl || kind ErrAlreadyConfirmed then writeJSON 409 (BErrorOf err)
  else writeJSON 422 (BErrorOf err).

(** [http.MaxBytesHandler(mux, 1<<20)]: what the decoder can read of the body. *)
Definition limited_body (request : Request) : string := str_take (Z.to_nat (Z.shiftl 1 20)) (rq_body request).

(** [decoder.DisallowUnknownFields(); decoder.Decode(&input)] *)
Definition decode_body {A} (fields : list (string * Decoder A)) (zero : A) (request : Request) : M (ServerState T) A :=
  lift (Decode (dec_struct true fields) zero (limited_body request)).

Definition decode_base64 (enc : Encoding) (value : string) : M (ServerState T) string :=
  lift (match DecodeString enc value with Some s => Ok s | None => Err (EText "illegal base64 data") end).

Definition registerFeedSource (env : ServeEnv) (request : Request) : Handler :=
  attempt (decode_body source_fields (mkSourceInput "" "" "" "" false) request)
    (λ _, writeError 400 "invalid feed source JSON") (λ input,
  attempt (decode_base64 RawStdEncoding (so_key input)) (λ _, writeError 400 "public_key_base64 is invalid") (λ key,
  attempt (on_feeds (RegisterFeedSource pg_time (se_now env)
      (mkRegistration (so_source input) (so_kind input) (so_authority input) key (so_active input))))
    writeIncidentError (λ _,
  writeJSON 201 (BFields [("source_id", so_source input); ("status", "registered")])))).

(** [revoked_by] of the document is discarded. *)
Definition revokeFeedSource (env : ServeEnv) (principal : Principal) (sourceID : string) (request : Request) : Handler :=
  attempt (decode_body revoke_fields (mkRevokeInput "" "") request)
    (λ _, writeError 400 "invalid feed source revocation JSON") (λ input,
  attempt (on_feeds (RevokeFeedSource pg_time (se_now env) (mkRevocation sourceID (ri_reason input) (Subject principal))))
    writeIncidentError (λ _,
  writeJSON 200 (BFields [("source_id", sourceID); ("status", "revoked")]))).

Definition rotateFeedSourceKey (env : ServeEnv) (principal : Principal) (sourceID : string) (request : Request) : Handler :=
  attempt (decode_body rotate_fields (mkRotateInput "" 0 "") request)
    (λ _, writeError 400 "invalid feed key rotation JSON") (λ input,
  attempt (decode_base64 RawStdEncoding (ro_key input)) (λ _, writeError 400 "public_key_base64 is invalid") (λ key,
  attempt (on_feeds (RotateFeedSourceKey pg_time (se_now env)
      (mkKeyRotation sourceID key (ro_grace input) (Subject principal))))
    writeIncidentError (λ _,
  writeJSON 200 (BFields [("source_id", sourceID); ("status", "key_rotated")])))).

(** The input of the three admissions. *)
Definition signed_input (invalid : string) (request : Request) (next : SignedInput → string → string → Handler) : Handler :=
  attempt (decode_body signed_fields (mkSignedInput "" "" 0 "" "") request) (λ _, writeError 400 invalid) (λ input,
  attempt (decode_base64 StdEncoding (si_payload input)) (λ _, writeError 400 "payload_base64 is invalid") (λ payload,
  attempt (lift (DecodeFeedSignature (si_signature input))) (λ _, writeError 400 "signature_base64 is invalid") (λ signature,
  next input payload signature))).

Definition admitFeedEvent (env : ServeEnv) (request : Request) : Handler :=
  signed_input "invalid feed event JSON" request (λ input payload signature,
  attempt (on_feeds (AdmitFeedEvent pg_time (se_feed env)
      (mkAdmissionRequest (si_source input) (si_event input) (si_claimed input) payload signature)))
    writeIncidentError (λ admission, writeJSON 201 (BFeedAdmission admission))).

Definition admitFeedIncident (env : ServeEnv) (request : Request) : Handler :=
  signed_input "invalid feed incident JSON" request (λ input payload signature,
  attempt (on_feeds_and_store (AdmitFeedIncident pg_time decode_create (se_feed env) (se_tx env)
      (mkAdmissionRequest (si_source input) (si_event input) (si_claimed input) payload signature)))
    writeIncidentError (λ admitted, writeJSON 201 (BFeedIncident admitted.1 admitted.2))).

(** [created_by] is the principal, whatever the document says. *)
Definition create (env : ServeEnv) (principal : Principal) (request : Request) : Handler :=
  attempt (decode_body create_fields no_create request) (λ _, writeError 400 "invalid JSON request") (λ input,
  let input := mkCreate (cr_incident input) (cr_source_event input) (cr_category input) (cr_severity input) (cr_title input)
                 (cr_description input) (cr_occurred input) (Subject principal) in
  attempt (on_store (Create pg_time (se_tx env) input)) writeIncidentError (λ created, writeJSON 201 (BIncident created))).

Definition incidents_prefix : string := "/v1/incidents/".

(** [strings.TrimPrefix] *)
Definition trim_prefix (s p : string) : string := if has_prefix s p then str_drop (String.length p) s else s.

Definition get (request : Request) : Handler :=
  let incidentID := trim_prefix (rq_path request) incidents_prefix in
  if (incidentID =s "") || contains_char "/" incidentID then writeError 404 "incident not found"
  else attempt (on_store (Get incidentID)) writeIncidentError (λ retained, writeJSON 200 (BIncident retained)).

Definition correlate (env : ServeEnv) (incidentID : string) (request : Request) : Handler :=
  attempt (decode_body correlation_fields no_correlation request)
    (λ _, writeError 400 "invalid spatial correlation JSON request") (λ input,
  attempt (on_store (Correlate pg_time (se_tx env) incidentID input)) writeIncidentError (λ correlation,
  writeJSON 201 (BCorrelation correlation))).

Definition assign (env : ServeEnv) (incidentID : string) (request : Request) : Handler :=
  attempt (decode_body assignment_fields no_assignment request)
    (λ _, writeError 400 "invalid analyst assignment JSON request") (λ input,
  attempt (on_store (Assign pg_time (se_tx env) incidentID input)) writeIncidentError (λ assignment,
  writeJSON 200 (BAssignment assignment))).

Definition nextByOperation (operation : string) : option Status :=
  if operation =s "acknowledge" then Some StatusAcknowledged
  else if operation =s "investigate" then Some StatusInvestigating
  else if operation =s "resolve" then Some StatusResolved
  else if operation =s "close" then Some StatusClosed
  else None.

Definition transition (env : ServeEnv) (request : Request) : Handler :=
  match split_on "/" (trim_prefix (rq_path request) incidents_prefix) with
  | [incidentID; operation] =>
      if incidentID =s "" then writeError 404 "incident operation not found"
      else match nextByOperation operation with
      | None => writeError 404 "incident operation not found"
      | Some next =>
          attempt (decode_body transition_fields 0 request)
            (λ _, writeError 400 "expected_version must be a positive integer") (λ expectedVersion,
          if expectedVersion <? 1 then writeError 400 "expected_version must be a positive integer"
          else attempt (on_store (Transition pg_time (se_tx env) incidentID expectedVersion next)) writeIncidentError
                 (λ updated, writeJSON 200 (BIncident updated)))
      end
  | _ => writeError 404 "incident operation not found"
  end.

(** ** ISR handlers *)

(** The answer of [isrUnavailable] and what it wrote. *)
Definition isrUnavailable (server : Server) : bool * Response :=
  match sv_isr server with
  | Some deps => if dep_ISRStore deps then (false, []) else (true, [(503, BError "isr analytics are not configured")])
  | None => (true, [(503, BError "isr analytics are not configured")])
  end.

(** What was written before goes first. *)
Definition after_writing (written : Response) (next : Handler) : Handler := λ st,
  let '(response, st') := next st in (written ++ response, st').

(** [if server.isrUnavailable(response) { return }] *)
Definition with_isr (server : Server) (next : ISRDeps → Handler) : Handler :=
  match isrUnavailable server, sv_isr server with
  | (false, _), Some deps => next deps
  | (_, written), _ => λ st, (written, st)
  end.

Definition with_principal (principal : option Principal) (next : Principal → Handler) : Handler :=
  match principal with Some p => next p | None => writeError 401 "authentication failed" end.

(** Fusion after a durable admission; [next] writes the answer.  A nil
    dereference of the engine would abort the handler. *)
Definition fuse (env : ServeEnv) (deps : ISRDeps) (detection : Detection) (next : Handler) : Handler := λ st,
  let failed st := if dep_FusionErrorHook deps then count_fusion_error st else st in
  if dep_TrackStore deps then
    match fuse_detection pg_time (se_ingest env) (se_record env) detection (st_engine st) (track_view st) with
    | None => ([], st)
    | Some (Fused, e, db) => next (set_track_tables st e db)
    | Some (FusionFailed _, e, db) => next (failed (set_track_tables st e db))
    | Some (RecordFailed err, e, db) => writeISRError err (set_track_tables st e db)
    end
  else
    match Ingest (se_ingest env) (st_engine st) detection with
    | None => ([], st)
    | Some (Ok _, e) => next (set_track_tables st e (track_view st))
    | Some (Err _, e) => next (failed (set_track_tables st e (track_view st)))
    end.

Definition admitDetection (server : Server) (env : ServeEnv) (request : Request) : Handler :=
  with_isr server (λ deps,
  signed_input "invalid detection admission JSON" request (λ input payload signature,
  attempt (on_isr (AdmitDetection pg_time jsonb decode_detection (se_admit env)
      (mkSignedDetection (si_source input) (si_event input) (si_claimed input) payload signature)))
    writeISRError (λ admitted,
  let '(detection, admission) := admitted in
  let answer := writeJSON 201 (BDetectionAdmission admission) in
  if negb (da_replayed admission) && dep_Fusion deps && HasPosition detection then fuse env deps detection answer
  else answer))).

Definition queryLimit (request : Request) : Z :=
  let value := trim_space (first_value (rq_query request) "limit") in
  if value =s "" then 0 else default 0 (atoi value).

(** [since], the zero time when absent. *)
Definition query_since (request : Request) (next : Z → Handler) : Handler :=
  let since := first_value (rq_query request) "since" in
  if since =s "" then next 0
  else match time_parse since with
       | Some parsed => next parsed
       | None => writeError 400 "since must be RFC3339"
       end.

Definition listDetections (server : Server) (env : ServeEnv) (principal : option Principal) (request : Request) : Handler :=
  with_isr server (λ _, with_principal principal (λ principal,
  query_since request (λ since,
  let filter := mkDetectionFilter (to_upper (first_value (rq_query request) "modality"))
                  (trim_space (first_value (rq_query request) "mmsi")) since (queryLimit request) in
  attempt (λ st, (ListDetections decode_detection principal filter (se_events env (st_events st)), st))
    writeISRError (λ detections, writeJSON 200 (BDetections detections))))).

Definition point_view (point : TrackPoint) : tracksPointView :=
  mkPointView (pt_observed point) (Latitude (pt_position point)) (Longitude (pt_position point)) (pt_modality point).

Definition track_projection (track : Track) : trackView :=
  mkTrackView (TrackID track) (FusionIdentity track) (trk_class track) (Z.of_nat (length (Points track)))
    (point_view <$> Points track).

Definition visible_tracks (principal : Principal) (tracks : list Track) : list trackView :=
  track_projection <$> List.filter (λ track, is_ok (CanReadTracks principal (trk_class track))) tracks.

(** [isrUnavailable] has written its error when the second one is written. *)
Definition listTracks (server : Server) (env : ServeEnv) (principal : option Principal) : Handler :=
  let '(unavailable, written) := isrUnavailable server in
  if unavailable || negb (match sv_isr server with Some deps => dep_Fusion deps | None => false end)
  then after_writing written (writeError 503 "isr analytics are not configured")
  else with_principal principal (λ principal st,
    writeJSON 200 (BTracks (visible_tracks principal (Tracks (se_track_order env) (st_engine st)))) st).

Definition listAnomalies (server : Server) (env : ServeEnv) (principal : option Principal) (request : Request) : Handler :=
  with_isr server (λ _, with_principal principal (λ principal,
  query_since request (λ since,
  let filter := mkAnomalyFilter (trim_space (first_value (rq_query request) "kind")) since (queryLimit request) in
  attempt (λ st, (ListAnomalies principal filter (se_anomalies env (st_anomalies st)), st))
    writeISRError (λ anomalies, writeJSON 200 (BAnomalies anomalies))))).

Definition outcomeAggregates (server : Server) (env : ServeEnv) (principal : option Principal) : Handler :=
  with_isr server (λ _, with_principal principal (λ principal,
  attempt (λ st, (OutcomeAggregates principal (se_groups env (st_entries st)) (st_entries st), st))
    writeISRError (λ aggregates, writeJSON 200 (BAggregates aggregates)))).

(** [server.isrUnavailable(response) || server.isr.Outcomes == nil] *)
Definition with_outcomes (server : Server) (next : Service → Handler) : Handler :=
  let '(unavailable, written) := isrUnavailable server in
  match unavailable, sv_isr server ≫= dep_Outcomes with
  | false, Some service => next service
  | _, _ => after_writing written (writeError 503 "outcome ledger is not configured")
  end.

Definition proposeOutcome (server : Server) (env : ServeEnv) (principal : option Principal) (request : Request) : Handler :=
  with_outcomes server (λ _, with_principal principal (λ principal,
  attempt (decode_body outcome_fields (mkOutcomeInput "" "" "" "" "" 0 "") request)
    (λ _, writeError 400 "invalid outcome proposal JSON") (λ input,
  let proposal := mkProposal (oi_entry input) (oi_kind input) (oi_incident input) (oi_classification input) (oi_metric input)
                    (oi_quantity input) (oi_unit input) (Subject principal) in
  attempt (on_ledger (on_db (Propose pg_time (se_ledger env) proposal))) writeISRError (λ _,
  writeJSON 201 (BFields [("entry_id", pr_entry proposal); ("state", "PROPOSED")]))))).

Definition confirmOutcome (server : Server) (env : ServeEnv) (principal : option Principal) (entryID : string) : Handler :=
  with_outcomes server (λ service, with_principal principal (λ principal,
  attempt (on_ledger (Confirm pg_time (se_ledger env) service entryID (Subject principal))) writeISRError (λ entry,
  writeJSON 200 (BEntry entry)))).

(** ** The mux *)

Definition requireFeedSourceAdmin (principal : option Principal) (next : Handler) : Handler :=
  with_principal principal (λ p,
  match CanAdministerFeedSources p with
  | Ok _ => next
  | Err _ => writeError 403 "feed-source administration requires the feed-source-admin role"
  end).

(** [principal, _ := principalFrom(request)] *)
Definition principal_or_zero (principal : option Principal) : Principal := default (mkPrincipal "" ∅ "") principal.

Definition route_handler (server : Server) (env : ServeEnv) (principal : option Principal) (request : Request) (route : Route) : Handler :=
  match route with
  | RCreate => create env (principal_or_zero principal) request
  | RRegisterFeedSource => requireFeedSourceAdmin principal (registerFeedSource env request)
  | RRevokeFeedSource id => requireFeedSourceAdmin principal (revokeFeedSource env (principal_or_zero principal) id request)
  | RRotateFeedSourceKey id => requireFeedSourceAdmin principal (rotateFeedSourceKey env (principal_or_zero principal) id request)
  | RAdmitFeedEvent => admitFeedEvent env request
  | RAdmitFeedIncident => admitFeedIncident env request
  | RGet => get request
  | RCorrelate id => correlate env id request
  | RAssign id => assign env id request
  | RTransition => transition env request
  | RAdmitDetection => admitDetection server env request
  | RListDetections => listDetections server env principal request
  | RListTracks => listTracks server env principal
  | RListAnomalies => listAnomalies server env principal request
  | ROutcomeAggregates => outcomeAggregates server env principal
  | RProposeOutcome => proposeOutcome server env principal request
  | RConfirmOutcome id => confirmOutcome server env principal id
  end.

Definition api (server : Server) (env : ServeEnv) (principal : option Principal) (request : Request) : Handler :=
  match api_route (rq_method request) (rq_segments request) with
  | Some route => route_handler server env principal request route
  | None => writeJSON (mux_miss (rq_method request) (rq_segments request)) BMux
  end.

Definition mutating (method : string) : bool := (method <>s "GET") && (method <>s "HEAD") && (method <>s "OPTIONS").

Definition requireAuthentication (server : Server) (env : ServeEnv) (request : Request) (next : option Principal → Handler) : Handler :=
  match sv_authenticator server with
  | None => writeError 500 "authentication is not configured"
  | Some authenticator =>
      attempt (on_keys (Authenticate authenticator (se_auth env) request)) (λ _, writeError 401 "authentication failed") (λ principal,
      if mutating (rq_method request) && IsReadOnly principal
      then writeError 403 "read-only principals may not mutate ISR state"
      else next (Some principal))
  end.

Definition health : Handler := writeJSON 200 (BStatus "ok").

Definition readyz (server : Server) (env : ServeEnv) : Handler :=
  if sv_readyzCheck server && negb (is_ok (se_ready env)) then writeError 503 "not ready" else writeJSON 200 (BStatus "ready").

Definition when_get (method : string) (next : Handler) : Handler := if is_get method then next else writeJSON 405 BMux.

(** [New(config)]: the outer mux. *)
Inductive OuterRoute : Type := OHealth | OReady | OMetrics | ORedirect | OApi.

Definition outer_patterns : list (list Segment * (string → OuterRoute)) :=
  [([Lit "healthz"], λ _, OHealth); ([Lit "readyz"], λ _, OReady); ([Lit "metrics"], λ _, OMetrics);
   ([Lit "v1"], λ _, ORedirect); ([Lit "v1"; Below], λ _, OApi)].

Definition serve (server : Server) (env : ServeEnv) (request : Request) : Handler :=
  if negb (rq_clean request) then writeJSON 301 BMux
  else match find_route outer_patterns (rq_segments request) with
  | Some OHealth => when_get (rq_method request) health
  | Some OReady => when_get (rq_method request) (readyz server env)
  | Some OMetrics =>
      if sv_metrics server
      then when_get (rq_method request) (requireAuthentication server env request (λ _, writeJSON 200 BMetrics))
      else writeJSON 404 BMux
  | Some ORedirect => writeJSON 301 BMux
  | Some OApi => requireAuthentication server env request (λ principal, api server env principal request)
  | None => writeJSON 404 BMux
  end.

End handlers.

(** [securityHeaders]: on every response. *)
Definition securityHeaders : list (string * string) :=
  [("Strict-Transport-Security", "max-age=63072000; includeSubDomains"); ("X-Content-Type-Options", "nosniff");
   ("X-Frame-Options", "DENY"); ("Referrer-Policy", "no-referrer")].
