(* ===== verification/Telemetry.v ===== *)
(** * Telemetry ([internal/telemetry/telemetry.go])

    The configuration, the request middleware over the whole server and the two
    observations of the fusion engine.  OpenTelemetry and Prometheus are
    third-party code: a counter is a map from its label sets, a histogram and
    the span exporter are the lists of what they were given. *)

From S2P Require Import Prelude GoStrings GoTime GoFormat Float64 Geo Classification Detection Fusion Outbox Incident Envelope Ledger Feed IsrStore TrackStore Base64 GoUtf8 GoNumber GoJson Unmarshal GoTimeParse GoNet Rsa Auth Documents Aggregates Server.
From Stdlib Require Import Ascii.

(** ** Configuration *)

Record TelemetryConfig : Type := mkTelemetryConfig {
  Enabled : bool;
  Endpoint : string;
  Insecure : bool;
  ServiceName : string
}.

Definition parseBoolean (environment : string → string) (name : string) : result bool :=
  let value := trim_space (environment name) in
  if (value =s "") || (value =s "false") then Ok false
  else if value =s "true" then Ok true
  else Err (EText (name +:+ " must be true or false when set")).

Definition LoadConfig (environment : string → string) (serviceName : string) : result TelemetryConfig :=
  _ ← fail_if (trim_space serviceName =s "") (EText "telemetry service name is required");
  let override := trim_space (environment "OTEL_SERVICE_NAME") in
  _ ← fail_if ((override <>s "") && (128 <? str_len override)) (EText "OTEL_SERVICE_NAME must be at most 128 characters");
  let name := if override =s "" then serviceName else override in
  disabled ← parseBoolean environment "OTEL_SDK_DISABLED";
  insecure ← parseBoolean environment "OTEL_EXPORTER_OTLP_INSECURE";
  let endpoint := trim_space (environment "OTEL_EXPORTER_OTLP_ENDPOINT") in
  if disabled : bool then
    _ ← fail_if (endpoint <>s "") (EText "OTEL_SDK_DISABLED=true conflicts with OTEL_EXPORTER_OTLP_ENDPOINT; remove one (fail-closed)");
    Ok (mkTelemetryConfig false "" insecure name)
  else if endpoint =s "" then Ok (mkTelemetryConfig false "" insecure name)
  else
    match SplitHostPort endpoint with
    | None => Err (EText "OTEL_EXPORTER_OTLP_ENDPOINT must be a host:port pair without scheme, credentials or path")
    | Some (host, port) =>
        _ ← fail_if (host =s "") (EText "OTEL_EXPORTER_OTLP_ENDPOINT must be a host:port pair without scheme, credentials or path");
        match atoi port with
        | None => Err (EText "OTEL_EXPORTER_OTLP_ENDPOINT has an invalid port")
        | Some portNumber =>
            _ ← fail_if ((portNumber <? 1) || (65535 <? portNumber)) (EText "OTEL_EXPORTER_OTLP_ENDPOINT has an invalid port");
            Ok (mkTelemetryConfig true endpoint insecure name)
        end
    end.

(** ** Instruments *)

Record Labels : Type := mkLabels { lb_method : string; lb_route : string; lb_status : Z }.

#[export] Instance labels_eq_dec : EqDecision Labels.
Proof. solve_decision. Defined.
#[export] Instance labels_countable : Countable Labels.
Proof.
  refine (inj_countable' (λ l, (lb_method l, lb_route l, lb_status l)) (λ '(m, r, s), mkLabels m r s) _). by intros [].
Defined.

(** A finished server span: its name and the route and status attributes. *)
Record Span : Type := mkSpan { sp_name : string; sp_route : string; sp_status : Z; sp_error : bool }.

Record Telemetry : Type := mkTelemetry {
  tm_config : TelemetryConfig;
  tm_requests : gmap Labels Z;
  tm_duration : list (Labels * f64);
  tm_fusion_latency : list (string * f64);
  tm_spans : list Span
}.

(** [Setup] once its pipelines stand; a tracer that is not enabled is a no-op. *)
Definition Setup (config : TelemetryConfig) (pipelines : result unit) : result Telemetry :=
  _ ← fail_if (trim_space (ServiceName config) =s "") (EText "telemetry service name is required");
  _ ← pipelines;
  Ok (mkTelemetry config ∅ [] [] []).

Definition add_one (labels : Labels) (counter : gmap Labels Z) : gmap Labels Z :=
  <[labels := default 0 (counter !! labels) + 1]> counter.

(** [RecordDetectionLatency], and [latencyAdapter] of the binary for what an
    ingest or a scan observed. *)
Definition RecordDetectionLatency (kind : string) (seconds : f64) (t : Telemetry) : Telemetry :=
  let seconds := if flt seconds fzero then fzero else seconds in
  mkTelemetry (tm_config t) (tm_requests t) (tm_duration t) (tm_fusion_latency t ++ [(kind, seconds)]) (tm_spans t).

Definition record_latencies (out : list Emission) (t : Telemetry) : Telemetry :=
  foldl (λ t em, RecordDetectionLatency (kind_string (an_kind em.1)) em.2 t) t out.

(** ** Handlers with the [Pattern] of their request

    A [ServeMux] writes the pattern it has matched into the request object it
    is given.  A handler here takes the [Pattern] of that object and also
    returns what it holds afterwards; [copied] is a handler that passes a
    shallow copy on, as [Request.WithContext] and [http.MaxBytesHandler] do. *)

Section middleware.
Context {A : Type}.

Definition Served : Type := A → string → Response * A * string.

Definition ServeMux (pattern : string) (h : A → Response * A) : Served := λ st _,
  let '(response, st') := h st in (response, st', pattern).

Definition copied (h : Served) : Served := λ st pattern,
  let '(response, st', _) := h st pattern in (response, st', pattern).

(** [statusRecorder]: the status of the last [WriteHeader], 200 without one. *)
Definition recorded_status (response : Response) : Z := foldl (λ _ written, written.1) 200 response.

(** [elapsed] is [time.Since(started).Seconds()]. *)
Definition Middleware (method : string) (elapsed : f64) (next : Served) (t : Telemetry) (st : A) : Response * Telemetry * A :=
  let '(response, st', pattern) := next st "" in
  let route := if pattern =s "" then "unmatched" else pattern in
  let name := if pattern =s "" then method else pattern in
  let status := recorded_status response in
  let labels := mkLabels method route status in
  (response,
   mkTelemetry (tm_config t) (add_one labels (tm_requests t)) (tm_duration t ++ [(labels, elapsed)]) (tm_fusion_latency t)
     (if Enabled (tm_config t) then tm_spans t ++ [mkSpan name route status (500 <=? status)] else tm_spans t),
   st').

End middleware.

(** ** The wired service *)

(** The pattern the outer mux of [server.New] matches. *)
Definition outer_pattern (server : Server) (request : Request) : string :=
  let get pattern := if is_get (rq_method request) then pattern else "" in
  match find_route outer_patterns (rq_segments request) with
  | Some OHealth => get "GET /healthz"
  | Some OReady => get "GET /readyz"
  | Some OMetrics => if sv_metrics server then get "GET /metrics" else ""
  | Some ORedirect | Some OApi => "/v1/"
  | None => ""
  end.

Section service.
Context {T : Type} `{TigerBeetle T} `{Ed25519} `{JsonText} (pg_time : Z → Z) (jsonb : string → option string).

(** [server.New]: [securityHeaders(http.MaxBytesHandler(mux, 1<<20))] *)
Definition wired (server : Server) (env : ServeEnv) (request : Request) : Served (A := ServerState T) :=
  copied (ServeMux (outer_pattern server request) (serve pg_time jsonb server env request)).

(** [telemetryPipeline.Middleware(server.New(..))] of [main.go] *)
Definition metered (server : Server) (elapsed : f64) (env : ServeEnv) (request : Request)
    : Telemetry → ServerState T → Response * Telemetry * ServerState T :=
  Middleware (rq_method request) elapsed (wired server env request).

(** Requests one after another. *)
Fixpoint serve_all (server : Server) (calls : list (f64 * ServeEnv * Request)) (t : Telemetry) (st : ServerState T)
    : list Response * Telemetry * ServerState T :=
  match calls with
  | [] => ([], t, st)
  | (elapsed, env, request) :: rest =>
      let '(response, t, st) := metered server elapsed env request t st in
      let '(responses, t, st) := serve_all server rest t st in
      (response :: responses, t, st)
  end.

End service.

(** ** Lemmas *)

(** An enabled exporter sends to a host and a port of the TCP range, and only
    when it is not disabled; an accepted configuration has a name. *)
Lemma LoadConfig_enabled environment serviceName config : LoadConfig environment serviceName = Ok config →
  (ServiceName config = serviceName ∨ str_len (ServiceName config) <= 128) ∧ trim_space (ServiceName config) ≠ "" ∧
  (Enabled config = true →
     Endpoint config = trim_space (environment "OTEL_EXPORTER_OTLP_ENDPOINT") ∧
     parseBoolean environment "OTEL_SDK_DISABLED" = Ok false ∧
     ∃ host port n, SplitHostPort (Endpoint config) = Some (host, port) ∧ host ≠ "" ∧ atoi port = Some n ∧ 1 <= n <= 65535) ∧
  (Enabled config = false → Endpoint config = "" ∧ trim_space (environment "OTEL_EXPORTER_OTLP_ENDPOINT") = "").
Proof.
  unfold LoadConfig. set (override := trim_space (environment "OTEL_SERVICE_NAME")).
  set (endpoint := trim_space (environment "OTEL_EXPORTER_OTLP_ENDPOINT")). intros E.
  apply bind_Ok in E as (?&Hs%fail_if_Ok&E). apply bind_Ok in E as (?&Ho%fail_if_Ok&E).
  apply bind_Ok in E as (disabled&Hd&E). apply bind_Ok in E as (insecure&_&E).
  set (name := if override =s "" then _ else _) in E.
  assert (Hname : (name = serviceName ∨ str_len name <= 128) ∧ trim_space name ≠ "").
  { unfold name. destruct (String.eqb_spec override "") as [He|He]; [bprop; by split; [left|]|]. split.
    - right. bprop. destruct Ho as [?|?]; [done|lia].
    - unfold override in *. by rewrite trim_space_idem. }
  destruct Hname as [Hn1 Hn2]. destruct disabled.
  - apply bind_Ok in E as (?&He%fail_if_Ok&[= <-]). cbn [ServiceName Enabled Endpoint]. bprop. split_and!; done.
  - destruct (String.eqb_spec endpoint "") as [He|He]; [injection E as <-; cbn [ServiceName Enabled Endpoint]; split_and!; done|].
    destruct (SplitHostPort endpoint) as [[host port]|] eqn:Es; [|done].
    apply bind_Ok in E as (?&Hh%fail_if_Ok&E). destruct (atoi port) as [n|] eqn:Ep; [|done].
    apply bind_Ok in E as (?&Hp%fail_if_Ok&[= <-]). cbn [ServiceName Enabled Endpoint]. bprop.
    split_and!; [done|done| |done]. intros _. split_and!; [done|done|]. exists host, port, n. split_and!; [done|done|done|lia|lia].
Qed.

(** How often a counter was told these labels. *)
Definition counted (t : Telemetry) (labels : Labels) : Z := default 0 (tm_requests t !! labels).

Lemma counted_add labels labels' (counter : gmap Labels Z) :
  default 0 (add_one labels counter !! labels') = default 0 (counter !! labels') + (if decide (labels = labels') then 1 else 0).
Proof.
  unfold add_one. case_decide as Hl; [subst; rewrite lookup_insert_eq; simpl; lia|]. rewrite lookup_insert_ne by done. lia.
Qed.

(** The clamp of the pipeline leaves what the engine clamped. *)
Definition clamp (seconds : f64) : f64 := if flt seconds fzero then fzero else seconds.

Lemma record_latencies_spec out t :
  tm_fusion_latency (record_latencies out t) =
    tm_fusion_latency t ++ ((λ em : Emission, (kind_string (an_kind em.1), clamp em.2)) <$> out) ∧
  tm_requests (record_latencies out t) = tm_requests t.
Proof.
  unfold record_latencies. revert t. induction out as [|em out IH]; intros t; cbn [foldl fmap list_fmap].
  - by rewrite app_nil_r.
  - destruct (IH (RecordDetectionLatency (kind_string (an_kind em.1)) em.2 t)) as [-> ->]. unfold RecordDetectionLatency. cbn [tm_fusion_latency tm_requests]. by rewrite <- app_assoc.
Qed.

Lemma latency_clamped now observed : clamp (latency now observed) = latency now observed.
Proof. unfold clamp, latency. by destruct (flt (Seconds _) fzero) eqn:E; [|rewrite E]. Qed.

Section metering.
Context {T : Type} `{TigerBeetle T} `{Ed25519} `{JsonText} (pg_time : Z → Z) (jsonb : string → option string).

(** The same requests without the middleware. *)
Fixpoint serve_plain (server : Server) (calls : list (f64 * ServeEnv * Request)) (st : ServerState T)
    : list Response * ServerState T :=
  match calls with
  | [] => ([], st)
  | (_, env, request) :: rest =>
      let '(response, st) := serve pg_time jsonb server env request st in
      let '(responses, st) := serve_plain server rest st in (response :: responses, st)
  end.

(** What is counted of a call. *)
Definition unmatched_labels (call : f64 * ServeEnv * Request) (response : Response) : Labels :=
  mkLabels (rq_method call.2) "unmatched" (recorded_status response).

Lemma metered_run server elapsed env request t (st : ServerState T) :
  metered pg_time jsonb server elapsed env request t st =
  let '(response, st') := serve pg_time jsonb server env request st in
  let labels := unmatched_labels (elapsed, env, request) response in
  (response,
   mkTelemetry (tm_config t) (add_one labels (tm_requests t)) (tm_duration t ++ [(labels, elapsed)]) (tm_fusion_latency t)
     (if Enabled (tm_config t)
      then tm_spans t ++ [mkSpan (rq_method request) "unmatched" (recorded_status response) (500 <=? recorded_status response)]
      else tm_spans t),
   st').
Proof.
  unfold metered, Middleware, wired, copied, ServeMux. by destruct (serve pg_time jsonb server env request st) as [response st'].
Qed.

(** C9: The middleware changes no response and no state, and counts every
    request once, under its method and the status it was answered with; but the
    route is always [unmatched]: the pattern the mux matches is written into the
    copy of the request that [http.MaxBytesHandler] makes, not into the request
    the middleware reads it back from. *)
Theorem requests_metered server calls t (st : ServerState T) :
  let '(responses, t', st') := serve_all pg_time jsonb server calls t st in
  serve_plain server calls st = (responses, st') ∧ length responses = length calls ∧
  (∀ labels, counted t' labels =
     counted t labels + Z.of_nat (length (filter (λ l, l = labels) (zip_with unmatched_labels calls responses)))) ∧
  tm_duration t' = tm_duration t ++ zip (zip_with unmatched_labels calls responses) (calls.*1.*1) ∧
  ∀ labels, counted t' labels ≠ counted t labels → lb_route labels = "unmatched".
Proof.
  enough (Hmain : ∀ t st, let '(responses, t', st') := serve_all pg_time jsonb server calls t st in
    serve_plain server calls st = (responses, st') ∧ length responses = length calls ∧
    (∀ labels, counted t' labels =
       counted t labels + Z.of_nat (length (filter (λ l, l = labels) (zip_with unmatched_labels calls responses)))) ∧
    tm_duration t' = tm_duration t ++ zip (zip_with unmatched_labels calls responses) (calls.*1.*1)).
  { specialize (Hmain t st). destruct (serve_all _ _ _ _ _ _) as [[responses t'] st'].
    destruct Hmain as (H1'&H2'&H3'&H4'). split_and!; [done..|]. intros labels Hne. rewrite H3' in Hne.
    destruct (filter _ (zip_with unmatched_labels calls responses)) as [|l ls] eqn:E; [simpl in Hne; lia|].
    assert (Hl : l ∈ l :: ls) by (by left). rewrite <- E in Hl. apply list_elem_of_filter in Hl as [-> Hl].
    apply elem_of_lookup_zip_with in Hl as (i&x&y&->&_). done. }
  clear t st. induction calls as [|[[elapsed env] request] calls IH]; intros t st; cbn [serve_all serve_plain].
  { split_and!; [done|done|intros; simpl; lia|by rewrite app_nil_r]. }
  rewrite metered_run. destruct (serve pg_time jsonb server env request st) as [response st1].
  set (labels0 := unmatched_labels (elapsed, env, request) response). cbv beta iota zeta.
  match goal with |- context [serve_all _ _ _ _ ?X st1] => set (t1 := X) end.
  specialize (IH t1 st1). destruct (serve_all pg_time jsonb server calls t1 st1) as [[responses t'] st'].
  destruct IH as (->&Hlen&Hc&Hd). cbn [zip_with]. fold labels0. split_and!; [done|simpl; by rewrite Hlen| |].
  - intros labels. rewrite Hc, filter_cons. unfold t1, counted at 1. cbn [tm_requests]. rewrite counted_add.
    fold (counted t labels). repeat case_decide; simpl; try congruence; lia.
  - rewrite Hd. unfold t1. cbn [tm_duration]. by rewrite <- app_assoc.
Qed.

End metering.
