(* ===== verification/ServerProofs.v ===== *)
(** * What the handlers do to the shared state

    Every store call of a handler is a run of the component it belongs to, and
    what it stores carries the principal; a handler inherits both from its
    calls. *)

From S2P Require Import Prelude GoStrings GoTime GoFormat Float64 Geo Classification Detection Fusion FusionInv FusionRules Outbox Incident IncidentProofs Envelope Ledger LedgerProofs Feed IsrStore IsrStoreProofs TrackStore TrackStoreProofs Base64 GoUtf8 GoJson Unmarshal GoTimeParse GoNet Rsa Auth AuthProofs Documents Aggregates Server.
From Stdlib Require Import Ascii.

(** ** What a handler may do to the state

    [R] is a preorder on states that every store call respects; the calls
    before the last one keep [P]. *)

Section keeps.
Context {T : Type} (P : ServerState T → Prop) (R : relation (ServerState T)) `{!PreOrder R}.

Definition keeps (h : Handler (T := T)) : Prop := ∀ st response st', P st → h st = (response, st') → R st st'.
Definition keepsM {A} (m : M (ServerState T) A) : Prop := ∀ st r st', P st → m st = (r, st') → R st st' ∧ P st'.

Lemma keeps_write status body : keeps (writeJSON status body).
Proof. intros st response st' _ [= _ <-]. done. Qed.

Lemma keepsM_lift {A} (r : result A) : keepsM (lift r).
Proof. intros st r' st' ? [= _ <-]. done. Qed.

Lemma keepsM_read {A} (f : ServerState T → result A) : keepsM (λ st, (f st, st)).
Proof. intros st r' st' ? [= _ <-]. done. Qed.

Lemma keeps_attempt_Ok {A} (m : M (ServerState T) A) failed next :
  keepsM m → (∀ e, keeps (failed e)) → (∀ a st st', m st = (Ok a, st') → keeps (next a)) → keeps (attempt m failed next).
Proof.
  intros Hm Hf Hn st response st' HP. unfold attempt. destruct (m st) as [[a|e] st1] eqn:E;
    destruct (Hm _ _ _ HP E) as [HR HP1]; intros H; (etrans; [exact HR|]); [by eapply (Hn _ _ _ E)|by eapply Hf].
Qed.

Lemma keeps_attempt {A} (m : M (ServerState T) A) failed next :
  keepsM m → (∀ e, keeps (failed e)) → (∀ a, keeps (next a)) → keeps (attempt m failed next).
Proof. intros Hm Hf Hn. by apply keeps_attempt_Ok. Qed.

Lemma keeps_incident_error err : keeps (writeIncidentError err).
Proof. unfold writeIncidentError, writeError. repeat case_match; apply keeps_write. Qed.

Lemma keeps_isr_error err : keeps (writeISRError err).
Proof. unfold writeISRError, writeError. repeat case_match; apply keeps_write. Qed.

Lemma keeps_written written next : keeps next → keeps (after_writing written next).
Proof.
  intros Hn st response st' HP. unfold after_writing. destruct (next st) as [r s] eqn:E. intros [= _ <-]. by eapply Hn.
Qed.

Lemma keeps_with_isr server next : (∀ deps, keeps (next deps)) → keeps (with_isr server next).
Proof.
  intros Hn. unfold with_isr. destruct (isrUnavailable server) as [[] w], (sv_isr server); try (intros ? ? ? _ [= _ <-]; done). apply Hn.
Qed.

Lemma keeps_with_outcomes server next :
  (∀ service, sv_isr server ≫= dep_Outcomes = Some service → keeps (next service)) → keeps (with_outcomes server next).
Proof.
  intros Hn. unfold with_outcomes. destruct (isrUnavailable server) as [[] w], (sv_isr server ≫= dep_Outcomes);
    first [by apply Hn|apply keeps_written, keeps_write].
Qed.

Lemma keeps_with_principal principal next : (∀ p, principal = Some p → keeps (next p)) → keeps (with_principal principal next).
Proof. intros Hn. destruct principal as [p|]; [by apply Hn|apply keeps_write]. Qed.

Lemma keeps_since request next : (∀ t, keeps (next t)) → keeps (query_since request next).
Proof. intros Hn. unfold query_since. case_match; [apply Hn|]. case_match; [apply Hn|apply keeps_write]. Qed.

Lemma keeps_signed invalid request next :
  (∀ input payload signature, keeps (next input payload signature)) → keeps (signed_input invalid request next).
Proof.
  intros Hn. unfold signed_input. repeat (apply keeps_attempt; [apply keepsM_lift|intros; apply keeps_write|intros]). apply Hn.
Qed.

End keeps.

(** Follow a handler down to its store calls. *)
Ltac keep_step := first
  [ apply keeps_signed; [apply _|] | apply keeps_since; [apply _|] | apply keeps_with_isr; [apply _|]
  | apply keeps_with_outcomes; [apply _|] | apply keeps_with_principal; [apply _|] | apply keeps_attempt; [apply _|..]
  | apply keeps_write; apply _ | apply keepsM_lift; apply _ | apply keepsM_read; apply _
  | apply keeps_incident_error; apply _ | apply keeps_isr_error; apply _ ].
Ltac keep_steps := repeat (intros; keep_step); intros.

(** ** Reads change nothing *)

Section reads.
Context {T : Type} `{TigerBeetle T} `{Ed25519} `{JsonText} (pg_time : Z → Z) (jsonb : string → option string).

Lemma Get_reads id db r db' : Get id db = (r, db') → db' = db.
Proof. unfold Get. run_store. destruct (incidents db !! id); by intros [= _ <-]. Qed.

Lemma set_incident_tables_same (st : ServerState T) : set_incident_tables st (st_incidents st) = st.
Proof. by destruct st. Qed.

Lemma find_route_Some {A} (patterns : list (list Segment * (string → A))) segments route :
  find_route patterns segments = Some route → ∃ pattern f id, (pattern, f) ∈ patterns ∧ route = f id.
Proof.
  induction patterns as [|[pattern f] rest IH]; simpl; [done|]. destruct (matches pattern segments "") as [id|].
  - intros [= <-]. exists pattern, f, id. split; [by left|done].
  - intros (q&g&id&?&->)%IH. exists q, g, id. split; [by right|done].
Qed.

Lemma get_routes_read server env principal request segments route :
  get_route segments = Some route → keeps (λ _, True) eq (route_handler pg_time jsonb server env principal request route).
Proof.
  intros (pattern&f&id&Hin&->)%find_route_Some. unfold get_patterns in Hin. rewrite !elem_of_cons, elem_of_nil in Hin.
  destruct Hin as [[= _ ->]|[[= _ ->]|[[= _ ->]|[[= _ ->]|[[= _ ->]|[]]]]]]; cbn [route_handler].
  - unfold get. case_match; [keep_steps|]. apply keeps_attempt; [apply _| |keep_steps..].
    intros st r st' _. unfold on_store. destruct (Get _ _) as [r' db] eqn:E. apply Get_reads in E as ->. intros [= _ <-].
    by rewrite set_incident_tables_same.
  - unfold listDetections. keep_steps.
  - unfold listTracks. destruct (isrUnavailable server) as [u w]. case_match; [apply keeps_written; keep_steps|].
    keep_step. intros p _ st r st' _ [= _ <-]. done.
  - unfold listAnomalies. keep_steps.
  - unfold outcomeAggregates. keep_steps.
Qed.

End reads.

(** ** Runs of the shared outbox *)

Definition outbox_steps {I} : relation (gmap string (Row I)) := rtc (λ t t', ∃ l, outbox_step t l t').

Lemma outbox_inserted {I} (t : gmap string (Row I)) id info created now :
  t !! id = None → outbox_steps t (<[id := new_row info created now]> t).
Proof. intros Hn. apply rtc_once. exists (LInsert id). by constructor. Qed.

Section outbox_users.
Context {T : Type} `{TigerBeetleLaws T} `{Ed25519} `{JsonText} (pg_time : Z → Z) (jsonb : string → option string) (svc : Service).

Lemma outbox_isr db t' : outbox_steps (idb_outbox db) t' →
  rtc (isr_step pg_time jsonb decode_detection) db (mkIsrDB (idb_feeds db) (idb_events db) t').
Proof.
  intros Hs. remember (idb_outbox db) as t eqn:E. revert db E.
  induction Hs as [t|t t1 t2 [l Hl] _ IH]; intros db ->; [by destruct db|].
  eapply rtc_l; [by eapply is_outbox|]. by apply (IH (mkIsrDB _ _ _)).
Qed.

Lemma outbox_tracks db t' : outbox_steps (tdb_outbox db) t' →
  rtc (track_step pg_time) db (mkTrackDB (tdb_tracks db) (tdb_associations db) (tdb_anomalies db) t').
Proof.
  intros Hs. remember (tdb_outbox db) as t eqn:E. revert db E.
  induction Hs as [t|t t1 t2 [l Hl] _ IH]; intros db ->; [by destruct db|].
  eapply rtc_l; [by eapply ts_outbox|]. by apply (IH (mkTrackDB _ _ _ _)).
Qed.

Lemma outbox_ledger (db : LedgerDB) (t : T) outbox :
  rtc (ledger_step pg_time svc) (db, t) (mkLedgerDB (proposals db) (entries db) outbox, t).
Proof. apply rtc_once, ls_outbox. Qed.

(** What the transactions of the components add to the outbox. *)
Lemma AdmitDetection_outbox decode env req db r db' :
  AdmitDetection pg_time jsonb decode env req db = (r, db') →
  idb_feeds db' = idb_feeds db ∧ outbox_steps (idb_outbox db) (idb_outbox db') ∧
  (∀ k, is_Some (idb_events db !! k) → is_Some (idb_events db' !! k)) ∧
  ∀ d a, r = Ok (d, a) → is_Some (idb_events db' !! (SourceID d, SourceEventID d)).
Proof.
  destruct r as [[d a]|e]; [|by intros ->%AdmitDetection_Err].
  intros (_&_&Hs1&Hs2&Ha)%AdmitDetection_Ok. apply admit_in_transaction_Ok in Ha as (_&_&_&_&_&Hm); [|done..].
  destruct (idb_events db !! (SourceID d, SourceEventID d)) as [row|] eqn:Er.
  - destruct Hm as (_&_&_&_&_&->). split_and!; [done|done|done|]. intros d' a' [= <- _]. eauto.
  - destruct Hm as (_&_&stored&i&_&_&_&Hn&->). cbn [idb_feeds idb_outbox idb_events].
    split_and!; [done|by apply outbox_inserted|intros k Hk; apply lookup_insert_is_Some'; by right|].
    intros d' a' [= <- _]. rewrite lookup_insert_eq. eauto.
Qed.

Lemma record_anomalies_outbox db_now ids i l db db' :
  record_anomalies pg_time db_now ids i l db = (Ok tt, db') →
  tdb_associations db' = tdb_associations db ∧ outbox_steps (tdb_outbox db) (tdb_outbox db').
Proof.
  intros Hr. eapply (record_anomalies_inv pg_time _ _
    (λ x, tdb_associations x = tdb_associations db ∧ outbox_steps (tdb_outbox db) (tdb_outbox x))); [|exact Hr|by split].
  intros created oid a db1 db2 _ Hrec [Ha Hs]. destruct Hrec as [row _|n _ Ho _]; [done|].
  split; [done|]. etrans; [exact Hs|]. by apply outbox_inserted.
Qed.

Lemma RecordFusion_outbox renv track d l r db db' :
  RecordFusion pg_time renv track d l db = (r, db') →
  outbox_steps (tdb_outbox db) (tdb_outbox db') ∧
  ∀ k, is_Some (tdb_associations db' !! k) → is_Some (tdb_associations db !! k) ∨ k = (SourceID d, SourceEventID d).
Proof.
  destruct r as [[]|e]; [|intros ->%RecordFusion_Err; split; [done|by left]]. intros (p&ps&_&_&_&Hr&_)%RecordFusion_Ok.
  apply record_anomalies_outbox in Hr as [Ha Ho]. split; [exact Ho|]. rewrite Ha. cbn [tdb_associations associated].
  intros k. destruct (tdb_associations db !! _); [by left|]. rewrite lookup_insert_is_Some'. intros [<-|?]; auto.
Qed.

Lemma RecordAnomalies_outbox renv l r db db' :
  RecordAnomalies pg_time renv l db = (r, db') →
  tdb_associations db' = tdb_associations db ∧ outbox_steps (tdb_outbox db) (tdb_outbox db').
Proof.
  destruct r as [[]|e]; [|by intros ->%RecordAnomalies_Err]. intros [Hr _]%RecordAnomalies_Ok. by eapply record_anomalies_outbox.
Qed.

Lemma Confirm_outbox env id by_ (w : LedgerDB * T) r w' :
  Confirm pg_time env svc id by_ w = (r, w') → outbox_steps (ledger_outbox w.1) (ledger_outbox w'.1).
Proof.
  destruct w as [db t], r as [e|e]; [|by intros ->%Confirm_db_Err].
  intros (row&tid&t'&envelope&_&_&_&_&_&_&_&_&_&_&_&Ho&_&_&_&->)%Confirm_Ok. by apply outbox_inserted.
Qed.

End outbox_users.

(** ** A call as a run of every component *)

Section served.
Context {T : Type} `{TigerBeetleLaws T} `{Ed25519} `{JsonText} (pg_time : Z → Z) (jsonb : string → option string).
Variable svc : Service.
Implicit Types (st : ServerState T) (p : Principal).

(** Every association is with a retained event. *)
Definition linked st : Prop := ∀ k, is_Some (st_associations st !! k) → is_Some (st_events st !! k).

(** The views of the state move along the components' own step relations. *)
Record refines st st' : Prop := {
  rf_isr : rtc (isr_step pg_time jsonb decode_detection) (isr_view st) (isr_view st');
  rf_incidents : rtc (call_step pg_time) (st_incidents st, []) (st_incidents st', []);
  rf_tracks : rtc (track_step pg_time) (track_view st) (track_view st');
  rf_ledger : rtc (ledger_step pg_time svc) (ledger_view st) (ledger_view st');
  rf_engine : rtc engine_step (st_engine st) (st_engine st');
  rf_keys : key_reach (st_keys st) → key_reach (st_keys st');
  rf_linked : linked st → linked st'
}.

#[export] Instance refines_preorder : PreOrder refines.
Proof.
  split; [intros st; split; (apply rtc_refl || done)|]. intros a b c [J1 J2 J3 J4 J5 J6 J7] [K1 K2 K3 K4 K5 K6 K7].
  split; [by etrans..|auto|auto].
Qed.

(** What changes in the trust anchors, the incidents and the ledger is on the
    authority of [p]. *)
Record feeds_by p (db db' : FeedDB) : Prop := {
  fb_role : HasRole p RoleFeedSourceAdmin = true ∨
    feed_sources db' = feed_sources db ∧ revocations db' = revocations db ∧ rotations db' = rotations db;
  fb_revocations id row : revocations db' !! id = Some row → revocations db !! id = Some row ∨ vr_by row = Subject p;
  fb_rotations k row : rotations db' !! k = Some row → rotations db !! k = Some row ∨ rr_by row = Subject p
}.

(** A new incident names the principal or the feed that signed it. *)
Definition incidents_by p (feeds : FeedDB) (db db' : IncidentDB) : Prop :=
  ∀ id i, incidents db' !! id = Some i →
    (∃ i0, incidents db !! id = Some i0 ∧ in_request i = in_request i0) ∨
    cr_created_by (in_request i) = Subject p ∨
    ∃ source event, is_Some (feed_events feeds !! (source, event)) ∧ cr_created_by (in_request i) = "feed:" +:+ source ∧
      cr_source_event (in_request i) = source +:+ ":" +:+ event.

Record ledger_by p (db db' : LedgerDB) : Prop := {
  lb_proposals id row : proposals db' !! id = Some row →
    (∃ row0, proposals db !! id = Some row0 ∧ prow_proposal row = prow_proposal row0) ∨ pr_by (prow_proposal row) = Subject p;
  lb_entries id e : entries db' !! id = Some e →
    entries db !! id = Some e ∨ (en_confirmed_by e = Subject p ∧ pr_by (en_proposal e) ≠ Subject p)
}.

Record attributed p st st' : Prop := {
  at_feeds : feeds_by p (st_feeds st) (st_feeds st');
  at_events : feed_events (st_feeds st) ⊆ feed_events (st_feeds st');
  at_incidents : incidents_by p (st_feeds st') (st_incidents st) (st_incidents st');
  at_ledger : ledger_by p (ledger_view st).1 (ledger_view st').1
}.

Lemma feeds_by_refl p db : feeds_by p db db.
Proof. split; auto. Qed.

Lemma incidents_by_refl p feeds db : incidents_by p feeds db db.
Proof. intros id i Hi. left. eauto. Qed.

Lemma ledger_by_same p db db' : proposals db' = proposals db → entries db' = entries db → ledger_by p db db'.
Proof. intros Hp He. split; intros *; rewrite ?Hp, ?He; eauto. Qed.

#[export] Instance attributed_preorder p : PreOrder (attributed p).
Proof.
  split.
  - intros st. split; [apply feeds_by_refl|done|apply incidents_by_refl|by apply ledger_by_same].
  - intros a b c [[F1 F2 F3] V1 I1 [L1 L2]] [[G1 G2 G3] V2 I2 [M1 M2]]. split; [split|by etrans| |split].
    + destruct F1 as [?|(?&?&?)]; [by left|]. destruct G1 as [?|(?&?&?)]; [by left|right]. split_and!; congruence.
    + intros id row [Hr|?]%G2; eauto.
    + intros k row [Hr|?]%G3; eauto.
    + intros id i Hi. destruct (I2 _ _ Hi) as [(i1&Hi1&Hq)|Hn]; [|by right].
      destruct (I1 _ _ Hi1) as [(i0&Hi0&Hq0)|[Hn|(source&event&[e He]&Hc&Hs)]].
      * left. exists i0. split; [done|congruence].
      * right; left. congruence.
      * right; right. exists source, event. split_and!; [|congruence..]. exists e. by eapply lookup_weaken.
    + intros id row [(r1&Hr1&Hq)|?]%M1; [|by right]. destruct (L1 _ _ Hr1) as [(r0&?&Hq0)|Hn]; [left; exists r0; split; congruence|right; congruence].
    + intros id e [He|?]%M2; [eauto|by right].
Qed.

(** Both at once. *)
Definition served p st st' : Prop := refines st st' ∧ attributed p st st' ∧ st_keys st' = st_keys st.

#[export] Instance served_preorder p : PreOrder (served p).
Proof.
  unfold served. split; [intros st; by split_and!|]. intros a b c (?&?&?) (?&?&?). split_and!; [by etrans..|congruence].
Qed.

End served.
