(* ===== verification/ServerCalls.v ===== *)
(** * The store calls of the handlers

    Each one is a run of the components, on the authority of the principal;
    so is every handler. *)

From S2P Require Import Prelude GoStrings GoTime GoFormat Float64 Geo Classification Detection Fusion FusionInv FusionRules Outbox Incident IncidentProofs Envelope Ledger LedgerProofs Feed IsrStore IsrStoreProofs TrackStore TrackStoreProofs Base64 GoUtf8 GoNumber GoJson Unmarshal GoTimeParse GoNet Rsa Auth AuthProofs Documents Aggregates Server ServerProofs.
From Stdlib Require Import Ascii.

Section calls.
Context {T : Type} `{TigerBeetleLaws T} `{Ed25519} `{JsonText} (pg_time : Z → Z) (jsonb : string → option string).
Variable svc : Service.
Implicit Types (st : ServerState T) (p : Principal).

Abbreviation done_for := (served pg_time jsonb svc).

Definition calls {A} p (m : M (ServerState T) A) : Prop :=
  ∀ st r st', m st = (r, st') → done_for p st st' ∧ st_engine st' = st_engine st.

(** The identity drawn for a new track is none of the engine's. *)
Definition fresh_id (env : ServeEnv) st : Prop := tracks (st_engine st) !! env_newID (se_ingest env) = None.

Lemma calls_keeps {A} p env (m : M (ServerState T) A) : calls p m → keepsM (fresh_id env) (done_for p) m.
Proof. intros Hc st r st' Hf Hm. destruct (Hc _ _ _ Hm) as [? He]. split; [done|]. unfold fresh_id. by rewrite He. Qed.

(** ** Feeds *)

Lemma served_feeds p st op :
  feeds_by p (st_feeds st) (feed_exec pg_time (st_feeds st) op) → done_for p st (set_feeds st (feed_exec pg_time (st_feeds st) op)).
Proof.
  intros Hb. split; [split; (apply rtc_refl || done || idtac)|split; [split|done]].
  - apply rtc_once, (is_feed _ _ _ op).
  - done.
  - apply map_subseteq_spec. intros k e. apply feed_exec_events.
  - apply incidents_by_refl.
  - by apply ledger_by_same.
Qed.

Lemma calls_feeds {A} p (m : M FeedDB A) op :
  (∀ db, (m db).2 = feed_exec pg_time db op) → (∀ db, feeds_by p db (feed_exec pg_time db op)) → calls p (on_feeds m).
Proof.
  intros Hop Hb st r st'. unfold on_feeds. specialize (Hop (st_feeds st)). destruct (m (st_feeds st)) as [r' db]. cbn [snd] in Hop.
  intros [= _ <-]. subst db. split; [|done]. by apply served_feeds.
Qed.

Lemma calls_register p now r : HasRole p RoleFeedSourceAdmin = true → calls p (on_feeds (RegisterFeedSource pg_time now r)).
Proof.
  intros Hr. apply (calls_feeds _ _ (FRegister now r)); [done|]. intros db. split; [by left|..]; intros k row;
    (destruct (register_cases pg_time now r db) as [->|[_ Hc]]; [by left|]);
    (destruct (feed_sources db !! _); [destruct Hc as [_ ->]|rewrite Hc]; by left).
Qed.

Lemma calls_revoke p now source reason :
  HasRole p RoleFeedSourceAdmin = true → calls p (on_feeds (RevokeFeedSource pg_time now (mkRevocation source reason (Subject p)))).
Proof.
  intros Hr. apply (calls_feeds _ _ (FRevoke now (mkRevocation source reason (Subject p)))); [done|]. intros db.
  split; [by left|..]; intros k row; (destruct (revoke_cases pg_time now (mkRevocation source reason (Subject p)) db) as [->|(s&_&_&_&->)]; [by left|]);
    cbn [revocations rotations]; [|by left].
  rewrite lookup_insert_Some. intros [[_ <-]|[_ ?]]; [by right|by left].
Qed.

Lemma calls_rotate p now source key grace :
  HasRole p RoleFeedSourceAdmin = true → calls p (on_feeds (RotateFeedSourceKey pg_time now (mkKeyRotation source key grace (Subject p)))).
Proof.
  intros Hr. apply (calls_feeds _ _ (FRotate now (mkKeyRotation source key grace (Subject p)))); [done|]. intros db.
  pose proof (rotate_revocations pg_time now (mkKeyRotation source key grace (Subject p)) db) as Hv.
  split; [by left|..]; intros k row.
  - rewrite Hv. by left.
  - destruct (rotate_cases pg_time now (mkKeyRotation source key grace (Subject p)) db) as [->|(s&_&_&_&_&_&_&row'&->&_&Hb&_)]; [by left|].
    rewrite lookup_insert_Some. intros [[_ <-]|[_ ?]]; [by right|by left].
Qed.

Lemma admit_feeds_by p env req db : feeds_by p db (feed_exec pg_time db (FAdmit env req)).
Proof.
  enough (Hs : let db' := feed_exec pg_time db (FAdmit env req) in
    feed_sources db' = feed_sources db ∧ revocations db' = revocations db ∧ rotations db' = rotations db).
  { destruct Hs as (?&Hv&Hr). split; [by right|..]; intros k row; rewrite ?Hv, ?Hr; by left. }
  simpl. destruct (AdmitFeedEvent pg_time env req db) as [[a|err] db'] eqn:Ha; cbn [snd]; [|by apply AdmitFeedEvent_Err in Ha as ->].
  apply AdmitFeedEvent_Ok in Ha as [_ (s&_&_&_&_&_&Hm)%admit_Ok].
  destruct (feed_events db !! _); [by destruct Hm as (_&_&_&->)|by destruct Hm as [_ ->]].
Qed.

Lemma calls_admit_event p env req : calls p (on_feeds (AdmitFeedEvent pg_time env req)).
Proof. apply (calls_feeds _ _ (FAdmit env req)); [done|]. intros db. apply admit_feeds_by. Qed.

(** ** Incidents *)

Lemma served_incidents p st db :
  rtc (call_step pg_time) (st_incidents st, []) (db, []) → incidents_by p (st_feeds st) (st_incidents st) db →
  done_for p st (set_incident_tables st db).
Proof.
  intros Hs Hb. split; [split; (exact Hs || apply rtc_refl || done)|split; [split|done]];
    [apply feeds_by_refl|done|done|by apply ledger_by_same].
Qed.

Lemma calls_incidents {A} p (m : M IncidentDB A) :
  (∀ feeds db r db', m db = (r, db') → rtc (call_step pg_time) (db, []) (db', []) ∧ incidents_by p feeds db db') →
  calls p (on_store m).
Proof.
  intros Hm st r st'. unfold on_store. destruct (m (st_incidents st)) as [r' db] eqn:E. intros [= _ <-].
  destruct (Hm (st_feeds st) _ _ _ E). split; [|done]. by apply served_incidents.
Qed.

(** A step that leaves the requests alone. *)
Lemma incidents_by_requests p feeds db db' :
  (∀ id i, incidents db' !! id = Some i → ∃ i0, incidents db !! id = Some i0 ∧ in_request i = in_request i0) →
  incidents_by p feeds db db'.
Proof. intros Hq id i Hi. left. eauto. Qed.

Lemma incidents_by_update p feeds db id i i' (db' : IncidentDB) :
  incidents db !! id = Some i → in_request i' = in_request i → incidents db' = <[id := i']> (incidents db) →
  incidents_by p feeds db db'.
Proof.
  intros Hi Hq Hdb. apply incidents_by_requests. intros id' j. rewrite Hdb, lookup_insert_Some. intros [[<- <-]|[_ ?]]; eauto.
Qed.

Lemma create_by p feeds env req db r db' :
  (cr_created_by req = Subject p ∨
   ∃ source event, is_Some (feed_events feeds !! (source, event)) ∧ cr_created_by req = "feed:" +:+ source ∧
     cr_source_event req = source +:+ ":" +:+ event) →
  Create pg_time env req db = (r, db') → incidents_by p feeds db db'.
Proof.
  intros Hby. destruct r as [i|e]; [|intros ->%Create_Err; apply incidents_by_refl].
  intros [_ Hc]%Create_Ok. apply create_in_tx_Ok in Hc as [(->&_)|(_&_&->&_&->)]; [apply incidents_by_refl|].
  intros id' j. cbn [with_event set_outbox incidents set_incidents]. rewrite lookup_insert_Some. intros [[_ <-]|[_ ?]]; [by right|left; eauto].
Qed.

Lemma calls_create p env req : cr_created_by req = Subject p → calls p (on_store (Create pg_time env req)).
Proof.
  intros Hby. apply calls_incidents. intros feeds db r db' E. split; [by eapply rtc_once, cs_create|].
  eapply create_by; [by left|exact E].
Qed.

Lemma calls_correlate p env id req : calls p (on_store (Correlate pg_time env id req)).
Proof.
  apply calls_incidents. intros feeds db r db' E. split; [by eapply rtc_once, cs_correlate|].
  destruct r as [c|e]; [|apply Correlate_Err in E as ->; apply incidents_by_refl].
  apply incidents_by_requests. intros id' i Hi. exists i. split; [|done].
  by apply Correlate_Ok in E as [(->&_)|(_&_&_&_&->)].
Qed.

Lemma calls_assign p env id req : calls p (on_store (Assign pg_time env id req)).
Proof.
  apply calls_incidents. intros feeds db r db' E. split; [by eapply rtc_once, cs_assign|].
  destruct r as [c|e]; [|apply Assign_Err in E as ->; apply incidents_by_refl].
  apply Assign_Ok in E as (_&i&Hi&_&_&_&_&->). eapply incidents_by_update; [exact Hi| |reflexivity]; reflexivity.
Qed.

Lemma transition_check_db id v next db r db' : transition_check id v next db = (r, db') → db' = db.
Proof.
  unfold transition_check. run_store. destruct (Get id db) as [r0 db0] eqn:E. apply Get_reads in E as ->.
  destruct r0 as [i|e]; [|by intros [= _ <-]]. run_store. destruct (negb _); [by intros [= _ <-]|]. run_store.
  destruct (negb _); by intros [= _ <-].
Qed.

Lemma calls_transition p env id v next : calls p (on_store (Transition pg_time env id v next)).
Proof.
  apply calls_incidents. intros feeds db r db'. unfold Transition. run_store.
  destruct (transition_check id v next db) as [rc db0] eqn:Ec. pose proof (transition_check_db _ _ _ _ _ _ Ec) as ->.
  destruct rc as [cur|e]; [|intros [= _ <-]; split; [apply rtc_refl|apply incidents_by_refl]]. intros E. split.
  - eapply rtc_l; [by eapply cs_begin|]. apply rtc_once.
    apply (cs_commit pg_time env (mkPending id cur v next) r db db' [] []). exact E.
  - destruct r as [u|e]; [|apply transition_commit_Err in E as ->; apply incidents_by_refl].
    apply transition_commit_Ok in E as (i&Hi&_&_&->&_&->). eapply incidents_by_update; [exact Hi| |reflexivity]; reflexivity.
Qed.

(** The two halves of a signed incident. *)
Lemma AdmitFeedIncident_Ok decode env tx req w x w' :
  AdmitFeedIncident pg_time decode env tx req w = (Ok x, w') →
  ∃ incident, decode (fa_payload req) = Some incident ∧
    cr_source_event incident = fa_source req +:+ ":" +:+ fa_event req ∧ cr_created_by incident = "feed:" +:+ fa_source req ∧
    AdmitFeedEvent pg_time env req w.1 = (Ok x.1, w'.1) ∧ Create pg_time tx incident w.2 = (Ok x.2, w'.2).
Proof.
  unfold AdmitFeedIncident. run_store. destruct (FeedAdmissionRequest_Validate req) as [[]|] eqn:Ev; [|done]. run_store.
  destruct (decode (fa_payload req)) as [incident|]; [|done]. run_store.
  destruct (String.eqb_spec (cr_source_event incident) (fa_source req +:+ ":" +:+ fa_event req)) as [Hs|]; [|done]. run_store.
  destruct (String.eqb_spec (cr_created_by incident) ("feed:" +:+ fa_source req)) as [Hb|]; [|done]. cbn [negb]. run_store.
  destruct (CreateRequest_Validate incident) as [[]|] eqn:Ec; [|done]. run_store. rewrite atomically_Ok. run_store.
  unfold on_feed, on_incidents. destruct (admitFeedEventInTransaction pg_time env req w.1) as [[a|e] f] eqn:Ea; [|done]. run_store. cbn [fst snd].
  destruct (createIncidentInTransaction pg_time tx incident w.2) as [[i|e] db] eqn:Ei; [|done]. run_store. intros [= <- <-].
  exists incident. split_and!; [done..| |].
  - apply AdmitFeedEvent_Ok. done.
  - unfold Create. run_store. rewrite Ec. by apply atomically_Ok.
Qed.

Lemma AdmitFeedIncident_Err decode env tx req w e w' : AdmitFeedIncident pg_time decode env tx req w = (Err e, w') → w' = w.
Proof.
  unfold AdmitFeedIncident. run_store. destruct (FeedAdmissionRequest_Validate req) as [[]|]; [|congruence]. run_store.
  destruct (decode (fa_payload req)) as [incident|]; [|congruence]. run_store.
  destruct (negb _); [congruence|]. run_store. destruct (negb _); [congruence|]. run_store.
  destruct (CreateRequest_Validate incident) as [[]|]; [|congruence]. run_store. apply atomically_Err.
Qed.

Lemma admitted_event env req db a db' :
  AdmitFeedEvent pg_time env req db = (Ok a, db') → is_Some (feed_events db' !! (fa_source req, fa_event req)).
Proof.
  intros [_ (s&_&_&_&_&_&Hm)%admit_Ok]%AdmitFeedEvent_Ok. destruct (feed_events db !! _) as [e|] eqn:Ee.
  - destruct Hm as (_&_&_&->). eauto.
  - destruct Hm as [_ ->]. cbn [feed_events]. rewrite lookup_insert_eq. eauto.
Qed.

Lemma calls_admit_incident p decode env tx req : calls p (on_feeds_and_store (AdmitFeedIncident pg_time decode env tx req)).
Proof.
  intros st r st'. unfold on_feeds_and_store.
  destruct (AdmitFeedIncident pg_time decode env tx req (st_feeds st, st_incidents st)) as [[x|e] w] eqn:E; intros [= _ <-]; (split; [|done]).
  - apply AdmitFeedIncident_Ok in E as (incident&_&Hs&Hb&Ha&Hc). cbn [fst snd] in Ha, Hc.
    assert (Hf : w.1 = feed_exec pg_time (st_feeds st) (FAdmit env req)) by (cbn [feed_exec]; by rewrite Ha).
    etrans; [|apply (served_incidents p (set_feeds st w.1) w.2)].
    + rewrite Hf. apply served_feeds, admit_feeds_by.
    + by eapply rtc_once, cs_create.
    + cbn [st_feeds st_incidents set_feeds]. eapply create_by; [|exact Hc]. right. exists (fa_source req), (fa_event req).
      split_and!; [by eapply admitted_event|done|done].
  - apply AdmitFeedIncident_Err in E as ->. by destruct st.
Qed.

(** ** Detections, tracks and the ledger *)

(** A call that adds to the outbox what the other users of the table may see. *)
Lemma served_outbox p st st' :
  outbox_steps (st_outbox st) (st_outbox st') →
  rtc (isr_step pg_time jsonb decode_detection) (isr_view st)
    (mkIsrDB (st_feeds st) (st_events st) (st_outbox st')) ∧
  rtc (track_step pg_time) (track_view st)
    (mkTrackDB (st_tracks st) (st_associations st) (st_anomalies st) (st_outbox st')) ∧
  rtc (ledger_step pg_time svc) (ledger_view st) (mkLedgerDB (st_proposals st) (st_entries st) (st_outbox st'), st_cluster st).
Proof.
  intros Ho. split_and!; [by apply (outbox_isr pg_time jsonb (isr_view st))|by apply (outbox_tracks pg_time (track_view st))|].
  apply (outbox_ledger pg_time svc (ledger_view st).1).
Qed.

Lemma calls_admit_detection p env req : calls p (on_isr (AdmitDetection pg_time jsonb decode_detection env req)).
Proof.
  intros st r st'. unfold on_isr. destruct (AdmitDetection _ _ _ env req (isr_view st)) as [r' db] eqn:E. intros [= _ <-].
  split; [|done]. pose proof (AdmitDetection_outbox _ _ _ _ _ _ _ _ E) as (Hf&Ho&He&_). cbn [isr_view idb_feeds idb_outbox idb_events] in Hf, Ho, He.
  destruct (served_outbox p st (set_isr st db) Ho) as (_&Ht&Hl). split; [split|split; [split|done]]; try apply rtc_refl; try done.
  - eapply rtc_once, is_admit. rewrite E. by destruct db.
  - intros Hl' k Hk. by apply He, Hl'.
  - cbn [set_isr st_feeds]. rewrite Hf. apply feeds_by_refl.
  - cbn [set_isr st_feeds]. by rewrite Hf.
  - apply incidents_by_refl.
  - by apply ledger_by_same.
Qed.

Lemma calls_propose p env proposal :
  pr_by proposal = Subject p → in_int64 (pr_quantity proposal) → calls p (on_ledger (on_db (Propose pg_time env proposal))).
Proof.
  intros Hby Hq st r st'. unfold on_ledger, on_db. cbn [ledger_view fst snd].
  destruct (Propose pg_time env proposal _) as [r' db] eqn:E. intros [= _ <-]. split; [|done].
  assert (Hdb : ledger_outbox db = st_outbox st ∧ ledger_by p (ledger_view st).1 db).
  { apply Propose_cases in E as [->|(_&_&_&_&->)]; (split; [done|]); [by apply ledger_by_same|]. split; [|eauto].
    intros id row. cbn [proposals ledger_view fst]. rewrite lookup_insert_Some. intros [[_ <-]|[_ ?]]; [by right|eauto]. }
  destruct Hdb as [Ho Hb].
  assert (Ho' : outbox_steps (st_outbox st) (st_outbox (set_ledger st (db, st_cluster st)))) by (cbn; rewrite Ho; apply rtc_refl).
  destruct (served_outbox p st _ Ho') as (Hi&Ht&_). split; [split|split; [split|done]]; try apply rtc_refl; try done.
  - eapply rtc_once, ls_propose; [exact Hq|]. unfold ledger_view. cbn. rewrite E. by destruct db.
  - apply feeds_by_refl.
  - apply incidents_by_refl.
  - unfold ledger_view. cbn. by destruct db.
Qed.

Lemma calls_confirm p env id : calls p (on_ledger (Confirm pg_time env svc id (Subject p))).
Proof.
  intros st r st'. unfold on_ledger. destruct (Confirm _ _ _ _ _ _) as [r' w] eqn:E. intros [= _ <-]. split; [|done].
  pose proof (Confirm_outbox pg_time svc _ _ _ _ _ _ E) as Ho. cbn [ledger_view fst ledger_outbox] in Ho.
  destruct (served_outbox p st (set_ledger st w) Ho) as (Hi&Ht&_). split; [split|split; [split|done]]; try apply rtc_refl; try done.
  - eapply rtc_once, ls_confirm. rewrite E. by destruct w as [[] ?].
  - apply feeds_by_refl.
  - apply incidents_by_refl.
  - change (ledger_view (set_ledger st w)).1 with (mkLedgerDB (proposals w.1) (entries w.1) (ledger_outbox w.1)).
    destruct r' as [e|e]; [|apply Confirm_db_Err in E; rewrite E; by apply ledger_by_same].
    apply Confirm_Ok in E as (row&tid&t'&envelope&Hr&_&_&Hne&_&_&->&_&_&_&_&_&_&_&_&->). split.
    + intros id' row'. cbn [fst proposals confirmed_db ledger_view]. rewrite lookup_insert_Some. intros [[<- <-]|[_ ?]]; left; eauto.
    + intros id' e. cbn [fst entries confirmed_db ledger_view]. rewrite lookup_insert_Some. intros [[_ <-]|[_ ?]]; [by right|by left].
Qed.

(** ** Fusion *)

Lemma served_tracks p st e db :
  rtc engine_step (st_engine st) e → rtc (track_step pg_time) (track_view st) db → outbox_steps (st_outbox st) (tdb_outbox db) →
  (linked st → linked (set_track_tables st e db)) →
  done_for p st (set_track_tables st e db).
Proof.
  intros He Ht Ho Hlk. destruct (served_outbox p st (set_track_tables st e db) Ho) as (Hi&_&Hl).
  split; [split|split; [split|done]]; try apply rtc_refl; try done; [by destruct db|apply feeds_by_refl|apply incidents_by_refl|by apply ledger_by_same].
Qed.

Lemma served_count p st : done_for p st (count_fusion_error st).
Proof.
  split; [split; (apply rtc_refl || done)|split; [split|done]]; [apply feeds_by_refl|done|apply incidents_by_refl|by apply ledger_by_same].
Qed.

Lemma fuse_detection_run ienv renv d e db o e' db' :
  tracks e !! env_newID ienv = None → fuse_detection pg_time ienv renv d e db = Some (o, e', db') →
  rtc engine_step e e' ∧ rtc (track_step pg_time) db db' ∧ outbox_steps (tdb_outbox db) (tdb_outbox db') ∧
  ∀ k, is_Some (tdb_associations db' !! k) → is_Some (tdb_associations db !! k) ∨ k = (SourceID d, SourceEventID d).
Proof.
  intros Hf. unfold fuse_detection. destruct (Ingest ienv e d) as [[[[id out]|err] e1]|] eqn:Ei; [|intros [= _ <- <-]|done].
  - assert (He : rtc engine_step e e1) by (by eapply rtc_once, step_ingest).
    destruct (Track_view e1 id) as [track|]; [|intros [= _ <- <-]; split_and!; [done|apply rtc_refl..|by left]].
    destruct (RecordFusion _ _ _ _ _ db) as [r db1] eqn:Er. pose proof (RecordFusion_outbox _ _ _ _ _ _ _ _ Er) as [Ho Ha].
    apply ts_fusion, rtc_once in Er. destruct r; intros [= _ <- <-]; split_and!; done.
  - split_and!; [by eapply rtc_once, step_ingest|apply rtc_refl..|by left].
Qed.

Lemma scanOnce_run order now renv e db log e' db' :
  scanOnce pg_time order now renv e db = (log, e', db') →
  rtc engine_step e e' ∧ rtc (track_step pg_time) db db' ∧ tdb_associations db' = tdb_associations db ∧
  outbox_steps (tdb_outbox db) (tdb_outbox db').
Proof.
  unfold scanOnce. destruct (ScanDarkVessels order now e) as [e1 out] eqn:Es.
  assert (He : rtc engine_step e e1) by (apply rtc_once; pose proof (step_scan order now e) as Hs; by rewrite Es in Hs).
  destruct out as [|a out]; [intros [= _ <- <-]; split_and!; (done || apply rtc_refl)|].
  destruct (RecordAnomalies _ _ _ db) as [r db1] eqn:Er. pose proof (RecordAnomalies_outbox _ _ _ _ _ _ Er) as [Ha Ho].
  apply ts_anomalies, rtc_once in Er. destruct r; intros [= _ <- <-]; split_and!; done.
Qed.

(** The detection was retained before. *)
Definition fusable env (d : Detection) st : Prop :=
  fresh_id env st ∧ is_Some (st_events st !! (SourceID d, SourceEventID d)).

Lemma keeps_fuse p env deps d next :
  (∀ st response st', next st = (response, st') → done_for p st st') → keeps (fusable env d) (done_for p) (fuse pg_time env deps d next).
Proof.
  intros Hn st response st' [Hf Hev]. unfold fuse.
  assert (Hnext : ∀ st1 failed r st2, done_for p st st1 →
    (failed : bool) = false ∨ done_for p st1 (count_fusion_error st1) →
    next (if failed then count_fusion_error st1 else st1) = (r, st2) → done_for p st st2).
  { intros st1 [] r st2 Hs1 Hc Hr; (etrans; [exact Hs1|]); [destruct Hc as [|Hc]; [done|]; etrans; [exact Hc|]|]; by eapply Hn. }
  destruct (dep_TrackStore deps).
  - destruct (fuse_detection _ _ _ _ _ _) as [[[o e] db]|] eqn:Ef; [|by intros [= _ <-]].
    apply fuse_detection_run in Ef as (He&Ht&Ho&Ha); [|done].
    assert (Hs : done_for p st (set_track_tables st e db)).
    { apply served_tracks; [done..|]. intros Hl k Hk. destruct (Ha k Hk) as [?| ->]; [by apply Hl|done]. }
    destruct o; intros Hr.
    + exact (Hnext _ false _ _ Hs (or_introl eq_refl) Hr).
    + eapply (Hnext _ (dep_FusionErrorHook deps)); [exact Hs|right; apply served_count|exact Hr].
    + etrans; [exact Hs|]. exact (keeps_isr_error (λ _, True) (done_for p) _ _ _ _ I Hr).
  - destruct (Ingest _ _ _) as [[r e]|] eqn:Ei; [|by intros [= _ <-]].
    assert (Hs : done_for p st (set_track_tables st e (track_view st))).
    { apply served_tracks; [by eapply rtc_once, step_ingest|apply rtc_refl..|done]. }
    destruct r; intros Hr; [exact (Hnext _ false _ _ Hs (or_introl eq_refl) Hr)|].
    eapply (Hnext _ (dep_FusionErrorHook deps)); [exact Hs|right; apply served_count|exact Hr].
Qed.

(** ** The handlers *)

Lemma outcome_decoded zero body input :
  in_int64 (oi_quantity zero) → Decode (dec_struct true outcome_fields) zero body = Ok input → in_int64 (oi_quantity input).
Proof.
  unfold Decode. intros Hz Hd. destruct (parse_text put_last body) as [[v rest]|]; [|done].
  destruct v; cbn [dec_struct] in Hd; try done; [by injection Hd as <-|].
  revert Hz Hd. apply (dec_fields_inv (λ i, in_int64 (oi_quantity i))). intros name d x y v Hin Hx.
  unfold outcome_fields, field in Hin. rewrite !elem_of_cons, elem_of_nil in Hin.
  destruct_or! Hin; try done; injection Hin as _ ->; intros (z&Hv&[= <-])%bind_Ok; cbn [oi_quantity]; try exact Hx.
  destruct v; cbn [dec_int64] in Hv; try done; [by injection Hv as <-|].
  destruct (atoi _) as [z'|] eqn:Ea; [|done]. injection Hv as <-. by eapply atoi_int64.
Qed.

Lemma outcome_quantity zero request st input st' :
  in_int64 (oi_quantity zero) → decode_body (T := T) outcome_fields zero request st = (Ok input, st') → in_int64 (oi_quantity input).
Proof.
  intros Hz. unfold decode_body. generalize (limited_body request) as body. intros body Hd%(f_equal fst).
  by apply (outcome_decoded zero body).
Qed.

Lemma keeps_admin p env next :
  (HasRole p RoleFeedSourceAdmin = true → keeps (fresh_id env) (done_for p) next) →
  keeps (fresh_id env) (done_for p) (requireFeedSourceAdmin (Some p) next).
Proof.
  intros Hn. unfold requireFeedSourceAdmin, with_principal, CanAdministerFeedSources.
  destruct (HasRole p RoleFeedSourceAdmin); [by apply Hn|apply keeps_write; apply _].
Qed.

Lemma admit_detection_served server env p request :
  keeps (fresh_id env) (done_for p) (admitDetection pg_time jsonb server env request).
Proof.
  unfold admitDetection. keep_step; intros deps. keep_step; intros input payload signature.
  intros st response st' Hf. unfold attempt.
  destruct (on_isr _ st) as [[[d a]|e] st1] eqn:E; destruct (calls_admit_detection p _ _ _ _ _ E) as [Hs He].
  - assert (Hr : fusable env d st1).
    { split; [unfold fresh_id; by rewrite He|]. revert E. unfold on_isr.
      destruct (AdmitDetection _ _ _ _ _ _) as [r db] eqn:Ea. apply AdmitDetection_outbox in Ea as (_&_&_&Hev).
      intros [= -> <-]. by eapply Hev. }
    intros Hr2. etrans; [exact Hs|]. revert Hr2. case_match.
    + intros Hr2. refine (keeps_fuse p env deps d _ _ _ _ _ Hr Hr2). by intros s1 r1 s2 [= _ <-].
    + by intros [= _ <-].
  - intros Hr. etrans; [exact Hs|]. exact (keeps_isr_error (λ _, True) (done_for p) _ _ _ _ I Hr).
Qed.

Lemma propose_served server env p request : keeps (fresh_id env) (done_for p) (proposeOutcome pg_time server env (Some p) request).
Proof.
  unfold proposeOutcome. keep_step; intros service _. keep_step; intros p' [= <-].
  apply keeps_attempt_Ok; [apply _|apply keepsM_lift; apply _|intros; keep_step|]. intros input st st' Hd.
  keep_step; [|intros; keep_step..]. apply calls_keeps, calls_propose; [done|].
  refine (outcome_quantity _ _ _ _ _ _ Hd). done.
Qed.

(** The service of the server, when it has one. *)
Definition configured (server : Server) : Prop := ∀ service, sv_isr server ≫= dep_Outcomes = Some service → service = svc.

Lemma post_routes_served server env p request segments route :
  configured server → post_route segments = Some route →
  keeps (fresh_id env) (done_for p) (route_handler pg_time jsonb server env (Some p) request route).
Proof.
  intros Hsvc (pattern&f&id&Hin&->)%find_route_Some. unfold post_patterns in Hin. rewrite !elem_of_cons, elem_of_nil in Hin.
  destruct_or! Hin; try done; injection Hin as _ ->; cbn [route_handler principal_or_zero default from_option].
  - unfold create. keep_steps.
    by apply calls_keeps, calls_create.
  - apply keeps_admin. intros Hr. unfold registerFeedSource. keep_steps. by apply calls_keeps, calls_register.
  - apply keeps_admin. intros Hr. unfold revokeFeedSource. keep_steps. by apply calls_keeps, calls_revoke.
  - apply keeps_admin. intros Hr. unfold rotateFeedSourceKey. keep_steps. by apply calls_keeps, calls_rotate.
  - unfold admitFeedEvent. keep_steps. apply calls_keeps, calls_admit_event.
  - unfold admitFeedIncident. keep_steps. apply calls_keeps, calls_admit_incident.
  - unfold correlate. keep_steps. apply calls_keeps, calls_correlate.
  - unfold assign. keep_steps. apply calls_keeps, calls_assign.
  - unfold transition. repeat (case_match; try keep_step); keep_steps. case_match; keep_steps. apply calls_keeps, calls_transition.
  - apply admit_detection_served.
  - apply propose_served.
  - unfold confirmOutcome. keep_step; intros service ->%Hsvc. keep_step; intros p' [= <-]. keep_steps. apply calls_keeps, calls_confirm.
Qed.

End calls.
