(* ===== verification/ServerTheorems.v ===== *)
(** * Theorems on the HTTP surface

    What one request may change and on whose authority, that the whole server
    runs its components, the invariants of any run, that every request is
    answered, and what the listings show. *)

From S2P Require Import Prelude GoStrings GoTime GoFormat Float64 Geo Classification Detection Fusion FusionInv FusionRules Outbox Incident IncidentProofs Envelope Ledger LedgerProofs Feed IsrStore IsrStoreProofs TrackStore TrackStoreProofs Base64 GoUtf8 GoNumber GoJson Unmarshal GoTimeParse GoNet Rsa Auth AuthSamples AuthProofs Documents Aggregates Server ServerProofs ServerCalls.
From Stdlib Require Import Ascii Sorting.Sorted.

(** ** One request *)

Section requests.
Context {T : Type} `{TigerBeetleLaws T} `{Ed25519} `{JsonText} (pg_time : Z → Z) (jsonb : string → option string).
Variables (svc : Service) (server : Server).
Implicit Types (st : ServerState T).

Abbreviation moves := (refines pg_time jsonb svc).
Abbreviation serving := (serve pg_time jsonb server).

Lemma set_keys_refines st keys : (key_reach (st_keys st) → key_reach keys) → moves st (set_keys st keys).
Proof. intros Hk. split; (exact Hk || apply rtc_refl || done). Qed.

(** Who the request speaks for, and how the key set moved. *)
Definition authenticated (env : ServeEnv) (request : Request) st (p : Principal) (keys : KeyState) : Prop :=
  ∃ authenticator, sv_authenticator server = Some authenticator ∧
    Authenticate authenticator (se_auth env) request (st_keys st) = (Ok p, keys).

(** A request either only moves the key set or runs a POST handler for an
    authenticated principal who may write. *)
Lemma serve_cases env request st response st' :
  configured svc server → fresh_id env st → serving env request st = (response, st') →
  (st' = set_keys st (st_keys st') ∧ (key_reach (st_keys st) → key_reach (st_keys st'))) ∨
  ∃ p keys, authenticated env request st p keys ∧ (key_reach (st_keys st) → key_reach keys) ∧
    IsReadOnly p = false ∧ rq_method request = "POST" ∧ served pg_time jsonb svc p (set_keys st keys) st'.
Proof.
  intros Hsvc Hf. assert (Hsame : st = set_keys st (st_keys st)) by (by destruct st).
  assert (Hread : ∀ keys (h : Handler), (key_reach (st_keys st) → key_reach keys) →
    keeps (λ _, True) eq h → h (set_keys st keys) = (response, st') →
    st' = set_keys st (st_keys st') ∧ (key_reach (st_keys st) → key_reach (st_keys st'))).
  { intros keys h Hk Hh Hr. by apply Hh in Hr as <-. }
  assert (Hplain : ∀ status body, writeJSON status body st = (response, st') →
    st' = set_keys st (st_keys st') ∧ (key_reach (st_keys st) → key_reach (st_keys st'))) by (intros ? ? [= _ <-]; done).
  assert (Hauth : ∀ next, requireAuthentication server env request next st = (response, st') →
    (st' = set_keys st (st_keys st') ∧ (key_reach (st_keys st) → key_reach (st_keys st'))) ∨
    ∃ p keys, authenticated env request st p keys ∧ (key_reach (st_keys st) → key_reach keys) ∧
      mutating (rq_method request) && IsReadOnly p = false ∧ next (Some p) (set_keys st keys) = (response, st')).
  { intros next. unfold requireAuthentication. destruct (sv_authenticator server) as [a|] eqn:Ea; [|left; by eapply Hplain].
    unfold attempt, on_keys. destruct (Authenticate a (se_auth env) request (st_keys st)) as [[p|e] keys] eqn:Eu;
      pose proof (λ Hk, Authenticate_key_reach _ _ _ _ _ _ Hk Eu) as Hk.
    - destruct (mutating _ && _) eqn:Em; [by intros [= _ <-]; left|]. intros Hn. right. exists p, keys.
      split_and!; [by exists a|done..].
    - intros [= _ <-]. by left. }
  unfold serve. destruct (rq_clean request); cbn [negb]; [|left; by eapply Hplain].
  unfold when_get, health, readyz. destruct (find_route outer_patterns (rq_segments request)) as [[]|]; try (left; by eapply Hplain).
  - case_match; left; by eapply Hplain.
  - case_match; [|left; by eapply Hplain]. case_match; left; by eapply Hplain.
  - case_match; [|left; by eapply Hplain]. case_match; [|left; by eapply Hplain].
    intros [?|(p&keys&_&Hk&_&Hr)]%Hauth; [by left|]. left. eapply Hread; [exact Hk| |exact Hr]. apply keeps_write, _.
  - intros [?|(p&keys&Ha&Hk&Hm&Hr)]%Hauth; [by left|]. revert Hr. unfold api, api_route.
    destruct (String.eqb_spec (rq_method request) "POST") as [Hpost|_].
    + destruct (post_route _) as [route|] eqn:Ero; [|by intros [= _ <-]; left]. intros Hr. right. exists p, keys.
      rewrite Hpost in Hm. split_and!; [done..|]. eapply post_routes_served; [exact Hsvc|exact Ero| |exact Hr]. exact Hf.
    + destruct (is_get _); [destruct (get_route _) as [route|] eqn:Ero|]; try by intros [= _ <-]; left.
      intros Hr. left. eapply Hread; [exact Hk| |exact Hr]. by eapply get_routes_read.
Qed.

(** C22: One request is a run of the components: it moves each part of the shared
    state along that component's own step relation, so that everything proved
    of the components' runs holds of the server; and an association is only
    made with a detection the store has retained. *)
Theorem request_refines env request st response st' :
  configured svc server → fresh_id env st → serving env request st = (response, st') → moves st st'.
Proof.
  intros Hsvc Hf [[-> Hk]|(p&keys&_&Hk&_&_&Hr&_)]%serve_cases; [by apply set_keys_refines|..|done|done].
  etrans; [by apply set_keys_refines|exact Hr].
Qed.

(** C3: A request changes nothing but the key set unless it is a POST of an
    authenticated principal with a role beyond the read-only ones; then the
    feed sources, revocations and rotations change only for a feed-source
    administrator, under whose name revocations and rotations are recorded; a new
    incident names the principal or the feed whose signed event carried it; a new
    proposal names the principal; and a new ledger entry is confirmed by the
    principal over another one's proposal.  Nothing is claimed of the author of
    an assignment or a correlation, which the code takes from the body
    ([assigner_is_claimed]). *)
Theorem changes_authorised env request st response st' :
  configured svc server → fresh_id env st → serving env request st = (response, st') →
  st' = set_keys st (st_keys st') ∨
  ∃ p, authenticated env request st p (st_keys st') ∧ IsReadOnly p = false ∧ rq_method request = "POST" ∧ attributed p st st'.
Proof.
  intros Hsvc Hf [[? _]|(p&keys&Ha&_&Hro&Hm&_&Hat&Hk)]%serve_cases; [by left|right|done..].
  exists p. cbn in Hk. rewrite Hk. split_and!; [done..|]. etrans; [|exact Hat].
  split; [apply feeds_by_refl|done|apply incidents_by_refl|by apply ledger_by_same].
Qed.

(** ** Any run of the server

    Requests, dark-vessel scans, the publishers of both outboxes, and whatever
    else the cluster and the workers on the shared outbox do. *)

Definition incident_publisher (db db' : IncidentDB) : Prop :=
  (∃ env w l r, ClaimOutbox env w l db = (r, db')) ∨ (∃ now ev w r, MarkOutboxPublished now ev w db = (r, db')) ∨
  (∃ ev w f at_ r, MarkOutboxFailed ev w f at_ db = (r, db')).

Definition set_outbox_table st (outbox : ISROutbox) : ServerState T :=
  set_isr st (mkIsrDB (st_feeds st) (st_events st) outbox).

Inductive server_step : ServerState T → ServerState T → Prop :=
| ss_request env request st response st' :
    fresh_id env st → serving env request st = (response, st') → server_step st st'
| ss_scan order now renv st log e db :
    scanOnce pg_time order now renv (st_engine st) (track_view st) = (log, e, db) → server_step st (set_track_tables st e db)
| ss_incident_outbox st db : incident_publisher (st_incidents st) db → server_step st (set_incident_tables st db)
| ss_outbox l st t' : outbox_step (st_outbox st) l t' → server_step st (set_outbox_table st t')
| ss_cluster st cluster :
    tb_transfers (st_cluster st) ⊆ tb_transfers cluster →
    server_step st (set_ledger st (mkLedgerDB (st_proposals st) (st_entries st) (st_outbox st), cluster))
| ss_restart config zs e order_of listing st e' :
    NewEngine config zs = Ok e → listing ≡ₚ map_to_list (st_associations st) → StronglySorted replay_before listing →
    replayTrackAssociations decode_detection order_of 0 (ListAssociationsForReplay (st_events st) listing) e = (Ok tt, e') →
    server_step st (set_keys (set_track_tables st e' (track_view st)) new_key_state).

(** The state at the first start. *)
Definition initial config zs st : Prop :=
  st_incidents st = empty_db ∧ isr_view st = empty_isr ∧ track_view st = empty_tracks ∧
  (ledger_view st).1 = empty_ledger ∧ NewEngine config zs = Ok (st_engine st) ∧ st_keys st = new_key_state.

Record server_inv st : Prop := {
  si_incidents : db_inv (st_incidents st);
  si_ledger : ledger_inv svc (ledger_view st);
  si_tracks : track_db_inv (track_view st);
  si_linked : linked st;
  si_events : isr_inv pg_time jsonb decode_detection (isr_view st);
  si_engine : engine_inv (st_engine st);
  si_config : is_nan (CorrelationRadiusMeters (eng_config (st_engine st))) = false;
  si_keys : key_reach (st_keys st)
}.

Lemma engine_run_inv e e' :
  rtc engine_step e e' → engine_inv e → is_nan (CorrelationRadiusMeters (eng_config e)) = false →
  engine_inv e' ∧ is_nan (CorrelationRadiusMeters (eng_config e')) = false.
Proof.
  induction 1 as [e|e1 e2 e3 Hs _ IH]; intros HI HV; [done|]. destruct (engine_step_inv _ _ Hs HI HV) as [HI2 HC2].
  apply IH; [done|by rewrite HC2].
Qed.

Lemma refines_inv st st' : moves st st' → server_inv st → server_inv st'.
Proof.
  intros [Ri Rn Rt Rl Re Rk Rlk] [I1 I2 I3 I4 I5 I6 I7 I8].
  destruct (engine_run_inv _ _ Re I6 I7) as [E1 E2]. split; try done; [| | |auto| |by auto].
  - destruct (run_inv _ _ _ Rn) as [Hd _]; [by split; [|constructor]|exact Hd].
  - by apply (ledger_reach_inv _ _ _ _ Rl).
  - by apply (track_reach_good _ _ _ Rt).
  - by apply (isr_reach_inv _ _ _ _ _ Ri), I5.
Qed.

Lemma replays_run order_of replays : ∀ i e r e',
  replayTrackAssociations decode_detection order_of i replays e = (r, e') → rtc engine_step e e'.
Proof.
  induction replays as [|replay rest IH]; intros i e r e'; cbn [replayTrackAssociations]; [by intros [= _ <-]|].
  destruct (DecodeDetection _ _) as [d|err]; [|by intros [= _ <-]].
  destruct (Replay _ e _ d) as [[u|err] e1] eqn:Er; [intros Hr|intros [= _ <-]]; (eapply rtc_l; [by eapply step_replay|]); [by eapply IH|done].
Qed.

Lemma server_step_inv st st' : configured svc server → server_step st st' → server_inv st → server_inv st'.
Proof.
  intros Hsvc Hs HI. destruct Hs as [env request st response st' Hf Hr|order now renv st log e db Hs|st db Hp|l st t' Ho|st cluster Ht
    |config zs e order_of listing st e' Hn _ _ Hr].
  - eapply refines_inv; [by eapply request_refines|done].
  - apply scanOnce_run in Hs as (He&Ht&Ha&Ho).
    refine (refines_inv _ _ (proj1 (served_tracks pg_time jsonb svc (mkPrincipal "" ∅ "") st e db He Ht Ho _)) HI).
    intros Hl k. cbn [st_associations set_track_tables st_events]. rewrite Ha. apply Hl.
  - assert (Hc : call_step pg_time (st_incidents st, []) (db, [])).
    { destruct Hp as [(?&?&?&?&Hp)|[(?&?&?&?&Hp)|(?&?&?&?&?&Hp)]]; [by eapply cs_claim|by eapply cs_published|by eapply cs_failed]. }
    eapply refines_inv; [|exact HI]. split; (by apply rtc_once) || apply rtc_refl || done.
  - assert (Hos : outbox_steps (st_outbox st) (st_outbox (set_outbox_table st t'))) by (apply rtc_once; by exists l).
    destruct (served_outbox pg_time jsonb svc (mkPrincipal "" ∅ "") st _ Hos) as (?&?&?).
    eapply refines_inv; [|exact HI]. split; try done; apply rtc_refl.
  - eapply refines_inv; [|exact HI]. split; try apply rtc_refl; try done. apply rtc_once. by apply (ls_cluster _ _ (ledger_view st).1).
  - destruct (reachable_core _ _ _ _ Hn (replays_run _ _ _ _ _ _ Hr)) as [E1 E2]. destruct HI. split; try done. apply kr_new.
Qed.

Lemma initial_inv config zs st : initial config zs st → server_inv st.
Proof.
  intros (Hi&He&Ht&Hl&Hn&Hk). destruct (reachable_core _ _ _ _ Hn (rtc_refl _ _)) as [HE HC]. split; try done.
  - rewrite Hi. apply (world_inv_empty).
  - rewrite (surjective_pairing (ledger_view st)), Hl. apply empty_ledger_inv.
  - rewrite Ht. apply empty_tracks_inv.
  - apply (f_equal tdb_associations) in Ht. cbn in Ht. intros k. rewrite Ht, lookup_empty. by intros [].
  - rewrite He. apply empty_isr_inv.
  - rewrite Hk. apply kr_new.
Qed.

(** However requests, scans, publishers, the cluster and restarts take turns,
    the shared state stays consistent: the incident tables, the ledger, the track tables,
    the engine and the key set keep their invariants, every retained row stems
    from an admitted document, and every track association has its retained detection, so that the join of a restart
    replays all of them. *)
Theorem server_reachable config zs st0 st :
  configured svc server → initial config zs st0 → rtc server_step st0 st → server_inv st.
Proof.
  intros Hsvc Hi Hr. apply initial_inv in Hi. induction Hr as [|st1 st2 st3 Hs _ IH]; [done|].
  by apply IH, (server_step_inv st1).
Qed.

End requests.
