(* ===== verification/ServerAnswers.v ===== *)
(** * Every request is answered

    The writes of the handlers: one for each request, unless the analytics are
    not configured.  No handler dereferences a missing track. *)

From S2P Require Import Prelude GoStrings GoTime GoFormat Float64 Geo Classification Detection Fusion FusionInv FusionRules Outbox Incident IncidentProofs Envelope Ledger LedgerProofs Feed IsrStore IsrStoreProofs TrackStore TrackStoreProofs Base64 GoUtf8 GoNumber GoJson Unmarshal GoTimeParse GoNet Rsa Auth AuthSamples AuthProofs Documents Aggregates Server ServerProofs ServerCalls ServerTheorems.
From Stdlib Require Import Ascii.

Section answers.
Context {T : Type} `{TigerBeetle T} `{Ed25519} `{JsonText} (pg_time : Z → Z) (jsonb : string → option string) (env : ServeEnv).
Implicit Types (st : ServerState T).

(** What fusion relies on. *)
Definition fusion_ready st : Prop :=
  engine_inv (st_engine st) ∧ is_nan (CorrelationRadiusMeters (eng_config (st_engine st))) = false ∧ fresh_id env st.

(** The handler writes one answer. *)
Definition once (h : Handler (T := T)) : Prop := ∀ st, fusion_ready st → ∃ answer, (h st).1 = [answer].

Definition same_engine {A} (m : M (ServerState T) A) : Prop := ∀ st, st_engine (m st).2 = st_engine st.

Lemma once_write status body : once (writeJSON status body).
Proof. intros st _. by exists (status, body). Qed.

Lemma once_attempt {A} (m : M (ServerState T) A) failed next :
  same_engine m → (∀ e, once (failed e)) → (∀ a, once (next a)) → once (attempt m failed next).
Proof.
  intros He Hf Hn st Hr. unfold attempt. specialize (He st). destruct (m st) as [[a|e] st1]; cbn [snd] in He;
    [apply Hn|apply Hf]; unfold fusion_ready, fresh_id; by rewrite He.
Qed.

Lemma once_incident_error err : once (writeIncidentError err).
Proof. unfold writeIncidentError, writeError. repeat case_match; apply once_write. Qed.

Lemma once_isr_error err : once (writeISRError err).
Proof. unfold writeISRError, writeError. repeat case_match; apply once_write. Qed.

Lemma once_with_isr server next : (∀ deps, once (next deps)) → once (with_isr server next).
Proof.
  intros Hn. unfold with_isr, isrUnavailable. destruct (sv_isr server) as [deps|]; [destruct (dep_ISRStore deps)|]; [apply Hn|..];
    intros st _; by eexists.
Qed.

Lemma once_with_principal principal next : (∀ p, once (next p)) → once (with_principal principal next).
Proof. intros Hn. destruct principal as [p|]; [apply Hn|apply once_write]. Qed.

Lemma once_since request next : (∀ t, once (next t)) → once (query_since request next).
Proof. intros Hn. unfold query_since. case_match; [apply Hn|]. case_match; [apply Hn|apply once_write]. Qed.

Lemma lift_engine {A} (r : result A) : same_engine (lift r).
Proof. done. Qed.
Lemma read_engine {A} (f : ServerState T → result A) : same_engine (λ st, (f st, st)).
Proof. done. Qed.
Lemma on_feeds_engine {A} (m : M FeedDB A) : same_engine (on_feeds m).
Proof. intros st. unfold on_feeds. by destruct (m _). Qed.
Lemma on_store_engine {A} (m : M IncidentDB A) : same_engine (on_store m).
Proof. intros st. unfold on_store. by destruct (m _). Qed.
Lemma on_feeds_and_store_engine {A} (m : M (FeedDB * IncidentDB) A) : same_engine (on_feeds_and_store m).
Proof. intros st. unfold on_feeds_and_store. by destruct (m _). Qed.
Lemma on_isr_engine {A} (m : M IsrDB A) : same_engine (on_isr m).
Proof. intros st. unfold on_isr. by destruct (m _). Qed.
Lemma on_ledger_engine {A} (m : M World A) : same_engine (on_ledger m).
Proof. intros st. unfold on_ledger. by destruct (m _). Qed.
Lemma on_keys_engine {A} (m : M KeyState A) : same_engine (on_keys (T := T) m).
Proof. intros st. unfold on_keys. by destruct (m _). Qed.

Ltac keeps_engine := first [ apply on_feeds_engine | apply on_store_engine | apply on_feeds_and_store_engine | apply on_isr_engine
  | apply on_ledger_engine | apply read_engine | apply lift_engine ].

Lemma once_signed invalid request next :
  (∀ input payload signature, once (next input payload signature)) → once (signed_input invalid request next).
Proof. intros Hn. unfold signed_input. repeat (apply once_attempt; [keeps_engine|intros; apply once_write|intros]). apply Hn. Qed.

(** Ingest finds the track it has just stored. *)
Lemma once_fuse deps d status body : once (fuse pg_time env deps d (writeJSON status body)).
Proof.
  intros st (HI&HV&Hf). destruct (Ingest_inv (se_ingest env) (st_engine st) d HI HV Hf) as (r&e&Hin&_).
  assert (Herr : ∀ err st', ∃ answer, (writeISRError (T := T) err st').1 = [answer]).
  { intros err st'. unfold writeISRError, writeError. repeat case_match; by eexists. }
  unfold fuse, fuse_detection. rewrite Hin. destruct (dep_TrackStore deps).
  - destruct r as [[id out]|err]; [|by eexists]. destruct (Track_view e id) as [track|]; [|by eexists].
    destruct (RecordFusion _ _ _ _ _ _) as [[u|err] db]; [by eexists|apply Herr].
  - destruct r; by eexists.
Qed.

(** Two writes, both of status 503, where the handler asks for more than the
    store and the analytics are not configured at all. *)
Definition answered server (h : Handler (T := T)) : Prop := ∀ st, fusion_ready st →
  (∃ answer, (h st).1 = [answer]) ∨
  (isrUnavailable server).1 = true ∧ ∃ m1 m2, (h st).1 = [(503, BError m1); (503, BError m2)].

Lemma once_answered server h : once h → answered server h.
Proof. intros Ho st Hr. left. by apply Ho. Qed.

Lemma outcomes_answered server next : (∀ service, once (next service)) → answered server (with_outcomes server next).
Proof.
  intros Hn st Hr. unfold with_outcomes. destruct (isrUnavailable server) as [u written] eqn:Eu.
  unfold isrUnavailable in Eu. destruct (sv_isr server) as [deps|]; [destruct (dep_ISRStore deps)|]; simplify_eq; cbn.
  - destruct (dep_Outcomes deps); [left; by apply Hn|left; by eexists].
  - right. split; [done|]. by do 2 eexists.
  - right. split; [done|]. by do 2 eexists.
Qed.

Lemma listTracks_answered server principal : answered server (listTracks server env principal).
Proof.
  intros st Hr. unfold listTracks. destruct (isrUnavailable server) as [u written] eqn:Eu.
  unfold isrUnavailable in Eu. destruct (sv_isr server) as [deps|]; [destruct (dep_ISRStore deps)|]; simplify_eq; cbn.
  - left. destruct (dep_Fusion deps); cbn; [destruct principal|]; by eexists.
  - right. split; [done|]. by do 2 eexists.
  - right. split; [done|]. by do 2 eexists.
Qed.

Ltac once_step := first
  [ apply once_signed | apply once_since | apply once_with_isr | apply once_with_principal
  | apply once_attempt; [keeps_engine|..] | apply once_write | apply once_incident_error | apply once_isr_error ].
Ltac once_steps := repeat (intros; once_step); intros.

Lemma once_admin principal next : once next → once (requireFeedSourceAdmin principal next).
Proof. intros Hn. unfold requireFeedSourceAdmin. once_steps. case_match; [done|apply once_write]. Qed.

Lemma route_answered server principal request route :
  answered server (route_handler pg_time jsonb server env principal request route).
Proof.
  destruct route; cbn [route_handler]; first [apply listTracks_answered|apply outcomes_answered; intros service|apply once_answered].
  - unfold create. once_steps.
  - apply once_admin. unfold registerFeedSource. once_steps.
  - apply once_admin. unfold revokeFeedSource. once_steps.
  - apply once_admin. unfold rotateFeedSourceKey. once_steps.
  - unfold admitFeedEvent. once_steps.
  - unfold admitFeedIncident. once_steps.
  - unfold get. case_match; once_steps.
  - unfold correlate. once_steps.
  - unfold assign. once_steps.
  - unfold transition. repeat (case_match; try once_step); once_steps. case_match; once_steps.
  - unfold admitDetection. once_steps. case_match. case_match; [apply once_fuse|once_step].
  - unfold listDetections. once_steps.
  - unfold listAnomalies. once_steps.
  - unfold outcomeAggregates. once_steps.
  - once_steps.
  - once_steps.
Qed.

Lemma authentication_answered server request next :
  (∀ p, answered server (next p)) → answered server (requireAuthentication server env request next).
Proof.
  intros Hn st Hr. unfold requireAuthentication. destruct (sv_authenticator server) as [a|]; [|left; by eexists].
  unfold attempt. pose proof (on_keys_engine (Authenticate a (se_auth env) request) st) as He.
  destruct (on_keys _ st) as [[p|e] st1]; cbn [snd] in He; [|left; by eexists].
  case_match; [left; by eexists|]. apply Hn. unfold fusion_ready, fresh_id. by rewrite He.
Qed.

End answers.

(** C24: Every request is answered: with exactly one write if the analytics are
    configured, and always with a status line.  (Without them three handlers write
    a second document after the first one: see [unconfigured_writes_twice].)  In
    particular fusing an admitted detection never dereferences a missing track. *)
Theorem request_answered {T} `{TigerBeetleLaws T} `{Ed25519} `{JsonText} pg_time jsonb svc server env request (st : ServerState T) :
  server_inv pg_time jsonb svc st → fresh_id env st →
  let response := (serve pg_time jsonb server env request st).1 in
  is_Some (status_of response) ∧ ((isrUnavailable server).1 = false → length response = 1%nat).
Proof.
  intros HI Hf response.
  assert (Ha : answered env server (serve pg_time jsonb server env request)).
  { unfold serve. case_match; [apply once_answered, once_write|].
    destruct (find_route outer_patterns (rq_segments request)) as [[]|]; try (apply once_answered, once_write).
    - unfold when_get. case_match; apply once_answered, once_write.
    - unfold when_get, readyz. case_match; [case_match|]; apply once_answered, once_write.
    - case_match; [unfold when_get; case_match|]; try (apply once_answered, once_write).
      apply authentication_answered. intros p. apply once_answered, once_write.
    - apply authentication_answered. intros p. unfold api. case_match; [apply route_answered|apply once_answered, once_write]. }
  destruct (Ha st) as [[answer Hr]|(Hu&m1&m2&Hr)].
  - destruct HI. done.
  - unfold response. rewrite Hr. split; [by eexists|done].
  - unfold response. rewrite Hr. split; [by eexists|]. rewrite Hu. done.
Qed.

(** C23: GET /v1/isr/tracks shows a reader exactly the tracks the reader may see:
    the answer of an authenticated principal lists the projection of every
    engine track whose label the clearance covers, provided a role of the
    principal may read tracks, and nothing else; an unauthenticated request
    gets 401 and no track. *)
Theorem tracks_listed {T} `{TigerBeetle T} `{Ed25519} `{JsonText} pg_time jsonb server authenticator env request (st : ServerState T) :
  (isrUnavailable server).1 = false → (dep_Fusion <$> sv_isr server) = Some true → sv_authenticator server = Some authenticator →
  range_order (se_track_order env) (tracks (st_engine st)) →
  rq_clean request = true → rq_method request = "GET" → rq_segments request = ["v1"; "isr"; "tracks"] →
  match Authenticate authenticator (se_auth env) request (st_keys st) with
  | (Ok p, keys) => ∃ views, serve pg_time jsonb server env request st = ([(200, BTracks views)], set_keys st keys) ∧
      ∀ v, v ∈ views ↔ ∃ id t, tracks (st_engine st) !! id = Some t ∧ (∃ r, r ∈ Roles p ∧ r ∈ trackReaderRoles) ∧
        Covers (Clearance p) (trk_class t) = true ∧ v = track_projection t
  | (Err _, keys) => serve pg_time jsonb server env request st = ([(401, BError "authentication failed")], set_keys st keys)
  end.
Proof.
  intros Hu Hd Ha Ho Hc Hm Hs. destruct (sv_isr server) as [deps|] eqn:Ei; [|done]. injection Hd as Hd.
  assert (Hserve : serve pg_time jsonb server env request st =
    requireAuthentication server env request (λ principal, listTracks server env principal) st).
  { unfold serve, api. rewrite Hc, Hs, Hm. reflexivity. }
  rewrite Hserve. unfold requireAuthentication. rewrite Ha, Hm. unfold attempt, on_keys.
  destruct (Authenticate _ _ _ _) as [[p|e] keys]; [|done]. cbn [mutating]. simpl andb. unfold listTracks.
  destruct (isrUnavailable server) as [u written]. cbn [fst] in Hu. subst u. rewrite Ei, Hd. cbn [orb negb with_principal].
  eexists. split; [reflexivity|]. intros v. unfold visible_tracks. rewrite list_elem_of_fmap. cbn [st_engine set_keys].
  assert (Hin : ∀ t, t ∈ List.filter (λ track, is_ok (CanReadTracks p (trk_class track))) (Tracks (se_track_order env) (st_engine st)) ↔
    ∃ id, tracks (st_engine st) !! id = Some t ∧ (∃ r, r ∈ Roles p ∧ r ∈ trackReaderRoles) ∧ Covers (Clearance p) (trk_class t) = true).
  { intros t. rewrite list_elem_of_In, filter_In, <- list_elem_of_In. unfold Tracks. rewrite list_elem_of_omap, CanReadTracks_spec.
    case_bool_decide as Hro; destruct (Covers _ _); cbn [andb is_ok]; (split; [intros [(id&_&Ht) Hok]|intros (id&Ht&Hr&Hok)]; try done).
    - by exists id.
    - split; [|done]. exists id. split; [|done]. apply (range_order_elem _ _ id Ho). eauto. }
  split.
  - intros (t&->&(id&?&?&?)%Hin). by exists id, t.
  - intros (id&t&?&?&?&->). exists t. split; [done|]. apply Hin. by exists id.
Qed.
