(* ===== verification/ServerSamples.v ===== *)
(** * A server in operation

    A trusted-edge server over a fresh database, a few requests to it, and the
    witnesses of its theorems. *)

From S2P Require Import Prelude GoStrings GoTime GoFormat Float64 Geo Classification Detection Fusion FusionInv FusionSamples FusionReplay FusionRules Outbox Incident IncidentProofs Envelope Ledger LedgerProofs Feed IsrStore IsrStoreProofs TrackStore TrackStoreProofs Base64 GoUtf8 GoNumber GoJson Unmarshal GoTimeParse GoNet Rsa Auth AuthSamples AuthProofs Documents Aggregates Server ServerProofs ServerCalls ServerTheorems ServerAnswers.
From Stdlib Require Import Ascii.

Definition edge_server : Server := mkServer (Some (mkDeps true true true (Some sample_service) true)) (Some LoopbackAuthenticator) true true.
Definition bare_server : Server := mkServer None (Some LoopbackAuthenticator) true true.

Definition first_state : ServerState Cluster :=
  mkState empty_feeds empty_db ∅ ∅ ∅ ∅ ∅ ∅ ∅ sample_engine sample_cluster new_key_state 0.

Definition sample_serve_env (event : string) : ServeEnv :=
  mkServeEnv sample_auth_env (mkTxEnv (sample_time 1) (sample_time 1) event "uuid-1") (mkFeedEnv (sample_time 1) (sample_time 1) (sample_time 1))
    (sample_time 1) (mkAdmitEnv (sample_time 1) (sample_time 1) (sample_time 1) (sample_time 1) "envelope-1" "outbox-1")
    (mkIngestEnv [] [] "track-1" (sample_time 1)) sample_record_env (sample_env (sample_time 1) true)
    (λ m, (map_to_list m).*2) (λ m, (map_to_list m).*2) (λ _, []) [] (Ok tt).

(** A request through the edge proxy. *)
Definition edge_post (principal roles path : string) (segments : list string) (body : string) : Request :=
  mkRequest "POST" path segments true ∅
    {[ "X-Trusted-Proxy" := ["loopback"]; "X-Authenticated-Principal" := [principal];
       "X-Authenticated-Clearance" := ["RESTRICTED"]; "X-Authenticated-Roles" := [roles] ]} "127.0.0.1:9000" (quoted body).

Definition create_request : Request :=
  edge_post "officer-7" "nimasa-officer" "/v1/incidents" ["v1"; "incidents"]
    "{'incident_id':'inc-1','source_event_id':'evt-1','category':'piracy','severity':'HIGH','title':'t','description':'d',
      'occurred_at':'2026-01-01T00:00:00Z','created_by':'somebody-else'}".

Abbreviation run_request := (serve (T := Cluster) (H0 := sample_scheme) (H1 := sample_text) microseconds Some).

Definition created_state : ServerState Cluster := (run_request edge_server (sample_serve_env "e1") create_request first_state).2.

Lemma created_run :
  run_request edge_server (sample_serve_env "e1") create_request first_state =
  ((run_request edge_server (sample_serve_env "e1") create_request first_state).1, created_state).
Proof. apply surjective_pairing. Qed.

(** [created_by] is the authenticated principal. *)
Example created_by_principal :
  (λ i, cr_created_by (in_request i)) <$> incidents (st_incidents created_state) !! "inc-1" = Some "officer-7".
Proof. vm_compute. reflexivity. Qed.

Lemma edge_configured : configured sample_service edge_server.
Proof. intros service [= <-]. done. Qed.

Lemma first_initial : initial DefaultConfig [sample_zone] first_state.
Proof. unfold initial. split_and!; vm_compute; reflexivity. Qed.

Lemma first_fresh : fresh_id (sample_serve_env "e1") first_state.
Proof. vm_compute. reflexivity. Qed.

(** ** Witnesses *)

Lemma request_refines_witness : refines (H1 := sample_scheme) (H2 := sample_text) microseconds Some sample_service first_state created_state.
Proof.
  apply (request_refines (H1 := sample_scheme) (H2 := sample_text) microseconds Some sample_service edge_server (sample_serve_env "e1")
    create_request first_state _ created_state edge_configured first_fresh created_run).
Defined.

Lemma changes_authorised_witness :
  ∃ p, authenticated edge_server (sample_serve_env "e1") create_request first_state p (st_keys created_state) ∧ IsReadOnly p = false.
Proof.
  destruct (changes_authorised (H1 := sample_scheme) (H2 := sample_text) microseconds Some sample_service edge_server
    (sample_serve_env "e1") create_request first_state _ created_state edge_configured first_fresh created_run) as [Hs|(p&Ha&Hr&_)].
  - exfalso. apply (f_equal (λ s, incidents (st_incidents s) !! "inc-1")) in Hs. vm_compute in Hs. discriminate Hs.
  - exists p. split; [exact Ha|exact Hr].
Defined.

Lemma created_reachable :
  rtc (server_step (H1 := sample_scheme) (H2 := sample_text) microseconds Some edge_server) first_state created_state.
Proof. eapply rtc_once, ss_request; [exact first_fresh|exact created_run]. Qed.

Lemma server_reachable_witness : db_inv (st_incidents created_state) ∧ linked created_state.
Proof.
  destruct (server_reachable (H1 := sample_scheme) (H2 := sample_text) microseconds Some sample_service edge_server DefaultConfig
    [sample_zone] first_state created_state edge_configured first_initial created_reachable) as [Hd _ _ Hl _ _ _ _].
  split; [exact Hd|exact Hl].
Defined.

Lemma first_inv : server_inv microseconds Some sample_service first_state.
Proof. by eapply initial_inv, first_initial. Qed.

Lemma request_answered_witness :
  length (serve (H0 := sample_scheme) (H1 := sample_text) microseconds Some edge_server (sample_serve_env "e1") create_request first_state).1 = 1%nat.
Proof.
  refine (proj2 (request_answered (H1 := sample_scheme) (H2 := sample_text) microseconds Some sample_service edge_server
    (sample_serve_env "e1") create_request first_state first_inv first_fresh) _).
  reflexivity.
Defined.

(** A get of the tracks by a defence observer cleared for RESTRICTED. *)
Definition list_request : Request :=
  mkRequest "GET" "/v1/isr/tracks" ["v1"; "isr"; "tracks"] true ∅
    {[ "X-Trusted-Proxy" := ["loopback"]; "X-Authenticated-Principal" := ["observer-1"];
       "X-Authenticated-Clearance" := ["RESTRICTED"]; "X-Authenticated-Roles" := ["defence-hq-observer"] ]} "127.0.0.1:9000" "".

Definition observed_state : ServerState Cluster :=
  set_track_tables first_state (engine_after sample_env1 sample_engine (sample_ais "ev1" "636012345" 0 60)) empty_tracks.
Definition observe_env : ServeEnv :=
  let env := sample_serve_env "e1" in
  mkServeEnv (se_auth env) (se_tx env) (se_feed env) (se_now env) (se_admit env) (se_ingest env) (se_record env) (se_ledger env)
    (se_events env) (se_anomalies env) (se_groups env) (elements (dom (tracks (st_engine observed_state)))) (Ok tt).

Lemma tracks_listed_witness :
  ∃ p keys views, Authenticate LoopbackAuthenticator sample_auth_env list_request new_key_state = (Ok p, keys) ∧
    serve (H0 := sample_scheme) (H1 := sample_text) microseconds Some edge_server observe_env list_request observed_state =
    ([(200, BTracks views)], set_keys observed_state keys).
Proof.
  pose proof (tracks_listed (H0 := sample_scheme) (H1 := sample_text) microseconds Some edge_server LoopbackAuthenticator observe_env
    list_request observed_state eq_refl eq_refl eq_refl (range_order_self _) eq_refl eq_refl eq_refl) as Hl.
  destruct (Authenticate LoopbackAuthenticator (se_auth observe_env) list_request (st_keys observed_state)) as [[p|e] keys] eqn:E.
  - destruct Hl as (views&Hv&_). exists p, keys, views. split; [exact E|exact Hv].
  - exfalso. apply (f_equal (λ r, is_ok r.1)) in E. vm_compute in E. discriminate E.
Defined.

(** ** What the handlers let through *)

(** The principal of an assignment is not the one that asks for it: an analyst
    assigns a case to itself by naming somebody else as the assigner. *)
Example assigner_is_claimed :
  let request := edge_post "officer-7" "nimasa-officer" "/v1/incidents/inc-1/assignment" ["v1"; "incidents"; "inc-1"; "assignment"]
    "{'expected_version':1,'analyst_id':'officer-7','assigned_by':'chief-1'}" in
  let '(response, st) := run_request edge_server (sample_serve_env "e2") request created_state in
  status_of response = Some 200 ∧
  (λ a, (aa_analyst a, aa_by a)) <$> assignments (st_incidents st) !! "inc-1" = Some ("officer-7", "chief-1").
Proof. vm_compute. split; reflexivity. Qed.

(** Without analytics three handlers write a second document. *)
Example unconfigured_writes_twice :
  (run_request bare_server (sample_serve_env "e1") list_request first_state).1 =
  [(503, BError "isr analytics are not configured"); (503, BError "isr analytics are not configured")].
Proof. vm_compute. reflexivity. Qed.

(** PostgreSQL stores a JSONB object with its members sorted by length, then by
    bytes.  A signed detection that spells one member in two ways means another
    label once it is stored so, since the decoder matches names up to case and the
    last one wins: admitted and indexed as UNCLASSIFIED, read back and replayed as
    SECRET. *)
Definition two_labels (first second : string) : string :=
  quoted ("{'event_id':'d-1','source_id':'rf-1','source_event_id':'e-1','modality':'RF'," +:+ first +:+ "," +:+ second +:+
    ",'observed_at':'2026-01-01T00:00:00Z','has_position':false,'rf':{'frequency_band':'X','bearing_deg':1,'signal_dbm':-40,'emitter_ref':'e-9'}}").

Example retention_changes_label :
  let lower := "'classification':'SECRET'" in let upper := "'Classification':'UNCLASSIFIED'" in
  (λ d, (det_classification d, is_ok (Validate d))) <$> decode_detection (two_labels lower upper) = Some ("UNCLASSIFIED", true) ∧
  (λ d, (det_classification d, is_ok (Validate d))) <$> decode_detection (two_labels upper lower) = Some ("SECRET", true).
Proof. vm_compute. split; reflexivity. Qed.
