(* ===== verification/Startup.v ===== *)
(** * Start-up of the service ([cmd/maritime-intelligence/main.go], [cmd/seed])

    [run] up to the listener: settings, authentication, migrations, telemetry,
    the zones, the replay of the track associations, the outcome ledger and the
    dark-vessel scanner.  Files, the database connection, the migration scripts,
    the telemetry exporters and the TigerBeetle client answer from outside
    ([StartEnv]); the tables the scripts create are those of the state. *)

From S2P Require Import Prelude GoStrings GoTime GoFormat Float64 Geo Classification Detection Fusion FusionInv FusionRules FusionSamples Outbox Incident IncidentProofs Envelope Ledger LedgerProofs Feed IsrStore IsrStoreProofs TrackStore TrackStoreProofs Base64 GoUtf8 GoNumber GoJson Unmarshal GoTimeParse GoDuration Settings GoNet Rsa Auth AuthSamples AuthProofs Documents Aggregates Server Telemetry ServerProofs ServerCalls ServerTheorems ServerAnswers ServerSamples.
From Stdlib Require Import Ascii Sorting.Sorted.

(** ** Zones *)

Record ZoneDoc : Type := mkZoneDoc { zd_id : string; zd_kind : string; zd_vertices : slice Position }.

Definition position_fields : list (string * Decoder Position) :=
  [field "latitude" Latitude (λ p x, mkPosition x (Longitude p)) dec_float64;
   field "longitude" Longitude (λ p x, mkPosition (Latitude p) x) dec_float64].

Definition zone_fields : list (string * Decoder ZoneDoc) :=
  [field "zone_id" zd_id (λ z s, mkZoneDoc s (zd_kind z) (zd_vertices z)) dec_string;
   field "zone_kind" zd_kind (λ z s, mkZoneDoc (zd_id z) s (zd_vertices z)) dec_string;
   field "vertices" zd_vertices (λ z l, mkZoneDoc (zd_id z) (zd_kind z) l)
     (dec_slice (mkPosition fzero fzero) (dec_struct true position_fields))].

Definition kind_of_text (s : string) : ZoneKind :=
  if s =s "eez" then ZoneKindEEZ else if s =s "restricted" then ZoneKindRestricted else ZoneKindOther s.

Definition zone_of (doc : ZoneDoc) : Zone := mkZone (zd_id doc) (kind_of_text (zd_kind doc)) (elements_of (zd_vertices doc)).

Definition loadFusionZones (path : string) (read : result string) : result (list Zone) :=
  if trim_space path =s "" then Ok []
  else
    raw ← wrap_err "read ISR_ZONES_FILE" read;
    docs ← wrap_err "ISR_ZONES_FILE must be a JSON array of zones"
             (Decode (dec_slice (mkZoneDoc "" "" nil_slice) (dec_struct true zone_fields)) nil_slice raw);
    let zs := zone_of <$> elements_of docs in
    _ ← check_all (λ z, match NewZone (ZoneID z) (zone_kind z) (Vertices z) with
                        | Ok _ => Ok tt
                        | Err err => Err (EWrap ("ISR_ZONES_FILE zone " +:+ ZoneID z) err)
                        end) zs;
    Ok zs.

(** ** Settings *)

(** An unset variable ends the process. *)
Definition requiredEnv (environment : string → string) (name : string) : result string :=
  if environment name =s "" then Err (EText (name +:+ " must be set")) else Ok (environment name).

(** The interval, and whether the scanner runs. *)
Definition darkVesselScanInterval (value : string) : result (Z * bool) :=
  let value := trim_space value in
  if value =s "" then Ok (Minute, true)
  else if value =s "0" then Ok (0, false)
  else
    match ParseDuration value with
    | Some parsed =>
        if parsed <=? 0 then Err (EText "ISR_DARK_VESSEL_SCAN_INTERVAL must be a positive duration or 0 to disable")
        else Ok (parsed, true)
    | None => Err (EText "ISR_DARK_VESSEL_SCAN_INTERVAL must be a positive duration or 0 to disable")
    end.

Fixpoint read_migrations (read : string → result string) (paths : list string) : result (list string) :=
  match paths with
  | [] => Ok []
  | path :: rest =>
      let path := trim_space path in
      _ ← fail_if (path =s "") (EText "MIGRATION_PATH contains an empty path");
      migration ← wrap_err "read migration" (read path);
      migrations ← read_migrations read rest;
      Ok (migration :: migrations)
  end.

(** ** The outcome ledger *)

Definition cluster_id (environment : string → string) : result Z :=
  let value := trim_space (environment "TIGERBEETLE_CLUSTER_ID") in
  if value =s "" then Ok 0
  else
    match scan_uint64 value with
    | Some parsed =>
        if parsed =? 0 then Err (EText "TIGERBEETLE_CLUSTER_ID must be a positive integer when set") else Ok parsed
    | None => Err (EText "TIGERBEETLE_CLUSTER_ID must be a positive integer when set")
    end.

Definition loadOutcomeService {T} `{TigerBeetle T} (environment : string → string) (dial : Z → string → result unit)
    : M T (option Service) :=
  let address := trim_space (environment "TIGERBEETLE_ADDRESS") in
  if address =s "" then mret None
  else
    clusterID ← lift (cluster_id environment);
    _ ← lift (wrap_err "connect TigerBeetle" (dial clusterID address));
    service ← lift (New true 1 1);
    _ ← call_client "provision outcome accounts" (EnsureAccounts service);
    mret (Some service).

(** Of [internal/ledger/store.go]. *)
Definition NewOutcomeStore (pool : bool) (service : option Service) : result Service :=
  _ ← fail_if (negb pool) (EText "postgres pool is required");
  match service with
  | Some service => Ok service
  | None => Err (EText "TigerBeetle outcome service is required (fail-closed)")
  end.

(** ** [run] *)

Record StartEnv : Type := mkStartEnv {
  sn_environment : string → string;
  sn_read_file : string → result string;
  sn_url_parse : string → option URL;
  sn_usable_pem : string → bool;
  sn_pipelines : result unit;
  sn_dsn : result PoolConfig;
  sn_connect : PoolConfig → result unit;
  sn_ping : result unit;
  sn_migrate : string → result unit;
  sn_select : result (list ((string * string) * AssociationRow));
  sn_order : nat → gset string → list string;
  sn_dial : Z → string → result unit
}.

Record Process : Type := mkProcess {
  pr_server : Server;
  pr_telemetry : Telemetry;
  pr_port : string;
  pr_scan : option Z
}.

Section startup.
Context {T : Type} `{TigerBeetle T}.

Definition with_cluster {A} (m : M T A) : M (ServerState T) A := λ st,
  let '(r, cluster) := m (st_cluster st) in
  (r, set_ledger st (mkLedgerDB (st_proposals st) (st_entries st) (st_outbox st), cluster)).

(** The replay into the new engine, which the process then serves from. *)
Definition restore (env : StartEnv) (fusion : Engine) : M (ServerState T) unit := λ st,
  match sn_select env with
  | Err err => (Err (EWrap "reload track associations" err), st)
  | Ok listing =>
      match replayTrackAssociations decode_detection (sn_order env) 0 (ListAssociationsForReplay (st_events st) listing) fusion with
      | (Err err, _) => (Err err, st)
      | (Ok _, fusion) => (Ok tt, set_keys (set_track_tables st fusion (track_view st)) new_key_state)
      end
  end.

Definition run (env : StartEnv) : M (ServerState T) Process :=
  let environment := sn_environment env in
  _ ← lift (requiredEnv environment "DATABASE_URL");
  migrationPaths ← lift (requiredEnv environment "MIGRATION_PATH");
  port ← lift (requiredEnv environment "PORT");
  authConfig ← lift (LoadAuthConfig (sn_url_parse env) environment);
  authenticator ← lift (NewAuthenticator authConfig (sn_read_file env (OIDCCAFile authConfig)) (sn_usable_pem env));
  migrations ← lift (read_migrations (sn_read_file env) (split_on "," migrationPaths));
  telemetryConfig ← lift (LoadConfig environment "blueeconomy-maritime-intelligence");
  telemetry ← lift (wrap_err "telemetry setup" (Setup telemetryConfig (sn_pipelines env)));
  _ ← lift (Open environment (sn_dsn env) (sn_connect env) (sn_ping env));
  _ ← lift (check_all (λ migration, wrap_err "apply migration" (sn_migrate env migration)) migrations);
  zones ← lift (loadFusionZones (environment "ISR_ZONES_FILE") (sn_read_file env (environment "ISR_ZONES_FILE")));
  fusion ← lift (wrap_err "fusion engine" (NewEngine DefaultConfig zones));
  _ ← restore env fusion;
  outcomes ← with_cluster (loadOutcomeService environment (sn_dial env));
  scan ← lift (darkVesselScanInterval (environment "ISR_DARK_VESSEL_SCAN_INTERVAL"));
  _ ← lift (if scan.2 : bool then wrap_err "dark-vessel scanner" (NewDarkVesselScanner true true scan.1) else Ok tt);
  outcomes ← lift (match outcomes with
                   | Some service => service ← NewOutcomeStore true (Some service); Ok (Some service)
                   | None => Ok None
                   end);
  mret (mkProcess (mkServer (Some (mkDeps true true true outcomes true)) (Some authenticator) true true) telemetry port
          (if scan.2 : bool then Some scan.1 else None)).

End startup.

(** ** [cmd/seed] *)

(** [strings.ToLower], as far as a comparison with an ASCII word without a [k]
    can tell: beside the ASCII letters only the dotted capital I becomes one. *)
Fixpoint to_lower (s : string) : string :=
  match s with
  | String a ((String b rest) as tail) =>
      if (code a =? 196) && (code b =? 176) then String "i" (to_lower rest)
      else String (if is_upper a then ascii_of_N (Z.to_N (code a + 32)) else a) (to_lower tail)
  | String a EmptyString => String (if is_upper a then ascii_of_N (Z.to_N (code a + 32)) else a) EmptyString
  | EmptyString => EmptyString
  end.

(** The gates before the embedded script runs. *)
Definition seed_run (environment : string → string) (connect apply count : result unit) : result unit :=
  let env := to_lower (environment "ENV") in
  let profile := to_lower (environment "PROFILE") in
  _ ← fail_if ((env =s "production") || (profile =s "prod")) (EText "refusing to seed: production gate");
  _ ← fail_if (to_lower (environment "SEED_DEMO") <>s "true")
        (EText "refusing to seed: set SEED_DEMO=true to acknowledge loading synthetic demo data");
  _ ← fail_if (environment "DATABASE_URL" =s "") (EText "DATABASE_URL is required");
  _ ← wrap_err "connect" connect;
  _ ← wrap_err "apply seed" apply;
  count.

Example seed_gate : seed_run (λ n, if n =s "ENV" then "PRODUCTİON" else "true") (Ok tt) (Ok tt) (Ok tt) =
  Err (EText "refusing to seed: production gate").
Proof. vm_compute. reflexivity. Qed.

(** ** What a start leads to *)

Definition the_service : Service := mkService 1 1.

Lemma NewZone_id id kind vs z : NewZone id kind vs = Ok z → z = mkZone id kind vs ∧ zone_wf z.
Proof. apply NewZone_Ok. Qed.

Lemma loadFusionZones_wf path read zs : loadFusionZones path read = Ok zs → Forall zone_wf zs.
Proof.
  unfold loadFusionZones. destruct (_ =s ""); [by intros [= <-]|]. intros E.
  apply bind_Ok in E as (raw&_&E). apply bind_Ok in E as (docs&_&E). apply bind_Ok in E as (u&Hz&[= <-]).
  apply check_all_Ok in Hz. eapply Forall_impl; [exact Hz|]. intros z. simpl.
  destruct (NewZone _ _ _) as [z'|] eqn:Ez; [|done]. intros _. apply NewZone_id in Ez as [-> Hw]. by destruct z.
Qed.

Lemma scan_interval value d enabled : darkVesselScanInterval value = Ok (d, enabled) →
  if enabled then 0 < d <= max_int64 else trim_space value = "0".
Proof.
  unfold darkVesselScanInterval. destruct (_ =s ""); [by intros [= <- <-]|].
  destruct (String.eqb_spec (trim_space value) "0") as [Hz|_]; [by intros [= <- <-]|].
  destruct (ParseDuration _) as [p|] eqn:E; [|done]. apply ParseDuration_int64 in E.
  destruct (p <=? 0) eqn:Ep; [done|]. intros [= <- <-]. unfold in_int64 in E. lia.
Qed.

Section service.
Context {T : Type} `{TigerBeetleLaws T}.
Implicit Types (st : ServerState T).

Lemma call_client_transfers {A} context (m : M T A) t r t' :
  (∀ r t', m t = (r, t') → tb_transfers t' = tb_transfers t) → call_client context m t = (r, t') → tb_transfers t' = tb_transfers t.
Proof. intros Hm. unfold call_client. destruct (m t) as [[a|e] t1] eqn:E; intros [= _ <-]; by eapply Hm. Qed.

Lemma EnsureAccounts_transfers service (t : T) r t' : EnsureAccounts service t = (r, t') → tb_transfers t' = tb_transfers t.
Proof.
  unfold EnsureAccounts. rewrite mbind_run. destruct (call_client _ _ t) as [x t1] eqn:E.
  apply call_client_transfers in E; [|intros ? ?; apply tb_accounts]. by destruct x; intros [= _ <-].
Qed.

Lemma loadOutcomeService_run environment dial (t : T) r t' : loadOutcomeService environment dial t = (r, t') →
  tb_transfers t' = tb_transfers t ∧
  ∀ o, r = Ok o → o = (if trim_space (environment "TIGERBEETLE_ADDRESS") =s "" then None else Some the_service).
Proof.
  unfold loadOutcomeService. destruct (_ =s ""); [intros [= <- <-]; split; [done|by intros o [= <-]]|].
  change (New true 1 1) with (Ok the_service). rewrite mbind_run, lift_run.
  destruct (cluster_id environment) as [n|e]; [|by intros [= <- <-]].
  rewrite mbind_run, lift_run. destruct (wrap_err _ _) as [u|e]; [|by intros [= <- <-]].
  rewrite mbind_run, lift_run, mbind_run. destruct (call_client _ _ t) as [x t1] eqn:E.
  apply call_client_transfers in E; [|by intros; eapply EnsureAccounts_transfers].
  destruct x as [x|e]; intros [= <- <-]; (split; [done|]); [by intros o [= <-]|done].
Qed.

(** What a process that serves was started from. *)
Record started (env : StartEnv) st (p : Process) st' : Prop := {
  sd_authenticator : ∃ config a, LoadAuthConfig (sn_url_parse env) (sn_environment env) = Ok config ∧
    NewAuthenticator config (sn_read_file env (OIDCCAFile config)) (sn_usable_pem env) = Ok a ∧
    sv_authenticator (pr_server p) = Some a;
  sd_engine : ∃ zs e listing,
    loadFusionZones (sn_environment env "ISR_ZONES_FILE") (sn_read_file env (sn_environment env "ISR_ZONES_FILE")) = Ok zs ∧
    Forall zone_wf zs ∧ NewEngine DefaultConfig zs = Ok e ∧ sn_select env = Ok listing ∧
    replayTrackAssociations decode_detection (sn_order env) 0 (ListAssociationsForReplay (st_events st) listing) e =
      (Ok tt, st_engine st');
  sd_outcomes : sv_isr (pr_server p) ≫= dep_Outcomes =
    if trim_space (sn_environment env "TIGERBEETLE_ADDRESS") =s "" then None else Some the_service;
  sd_scan : match pr_scan p with
            | Some d => 0 < d <= max_int64
            | None => trim_space (sn_environment env "ISR_DARK_VESSEL_SCAN_INTERVAL") = "0"
            end;
  sd_telemetry : LoadConfig (sn_environment env) "blueeconomy-maritime-intelligence" = Ok (tm_config (pr_telemetry p));
  sd_tables : (st_feeds st', st_incidents st', isr_view st', track_view st', ledger_view st') =
              (st_feeds st, st_incidents st, isr_view st, track_view st, ((ledger_view st).1, st_cluster st'));
  sd_transfers : tb_transfers (st_cluster st') = tb_transfers (st_cluster st)
}.

(** One case of [run] that fails before the replay. *)
Ltac fail_early := match goal with
  | |- context [match ?x with Ok _ => _ | Err _ => _ end] => destruct x as [?|?] eqn:?; run_store; [|intros [= <- <-]; by left]
  end.

Lemma run_cases env st r st' : run env st = (r, st') →
  (is_ok r = false ∧ st' = st) ∨
  ∃ zs e listing e' st1, NewEngine DefaultConfig zs = Ok e ∧ sn_select env = Ok listing ∧
    replayTrackAssociations decode_detection (sn_order env) 0 (ListAssociationsForReplay (st_events st) listing) e = (Ok tt, e') ∧
    st1 = set_keys (set_track_tables st e' (track_view st)) new_key_state ∧
    (∃ cluster, tb_transfers cluster = tb_transfers (st_cluster st1) ∧
       st' = set_ledger st1 (mkLedgerDB (st_proposals st1) (st_entries st1) (st_outbox st1), cluster)) ∧
    ∀ p, r = Ok p → started env st p st'.
Proof.
  unfold run. cbv zeta. run_store. repeat fail_early.
  match goal with E : wrap_err "fusion engine" (NewEngine _ ?zs) = Ok ?e |- _ =>
    apply wrap_err_Ok in E; rename E into He, zs into zones, e into fusion end.
  match goal with E : wrap_err "telemetry setup" _ = Ok ?t |- _ =>
    apply wrap_err_Ok, bind_Ok in E as (?&_&E); apply bind_Ok in E as (?&_&[= <-]) end.
  unfold restore. destruct (sn_select env) as [listing|err] eqn:Es; [|intros [= <- <-]; by left].
  destruct (replayTrackAssociations _ _ _ _ _) as [[[]|err] e'] eqn:Er; [|intros [= <- <-]; by left].
  set (st1 := set_keys _ _). rewrite mbind_run. unfold with_cluster at 1.
  destruct (loadOutcomeService _ _ _) as [o cluster] eqn:Eo. apply loadOutcomeService_run in Eo as [Ht Ho].
  intros Hrun. right. exists zones, fusion, listing, e', st1.
  assert (Hst : st' = set_ledger st1 (mkLedgerDB (st_proposals st1) (st_entries st1) (st_outbox st1), cluster)).
  { destruct o as [o|err]; [|by injection Hrun as _ <-]. revert Hrun. run_store.
    destruct (darkVesselScanInterval _) as [scan|err]; run_store; [|by intros [= _ <-]].
    match goal with |- context [match ?x with Ok _ => _ | Err _ => _ end] => destruct x end; run_store; [|by intros [= _ <-]].
    destruct o; run_store; by intros [= _ <-]. }
  split_and!; [done..| |]; [by exists cluster|]. intros p ->.
  destruct o as [o|err]; [|done]. revert Hrun. run_store.
  destruct (darkVesselScanInterval _) as [[d enabled]|err] eqn:Ed; run_store; [|done]. cbn [fst snd].
  match goal with |- context [match ?x with Ok _ => _ | Err _ => _ end] => destruct x end; run_store; [|done].
  assert (Hsome : ∃ o', (match o with Some service => service ← NewOutcomeStore true (Some service); Ok (Some service) | None => Ok None end)
    = Ok o' ∧ o' = o) by (exists o; by destruct o).
  destruct Hsome as (o'&->&->). run_store. apply scan_interval in Ed. intros [= <- _]. split; cbn [pr_server pr_telemetry pr_scan sv_authenticator sv_isr tm_config].
  - eauto.
  - exists zones, fusion, listing. rewrite Hst. split_and!; try done. by eapply loadFusionZones_wf.
  - by apply Ho.
  - by destruct enabled.
  - done.
  - by rewrite Hst.
  - rewrite Hst. exact Ht.
Qed.

Lemma run_started env st p st' : run env st = (Ok p, st') → started env st p st'.
Proof. intros [[? _]|(zs&e&listing&e'&st1&_&_&_&_&_&Hp)]%run_cases; [done|by apply Hp]. Qed.

(** ** Properties *)

(** C6: The service only comes to serve when everything it was told to use is
    in order: an approved authentication mode, a telemetry configuration, zones
    that are all valid, every retained association replayed into the engine it
    serves from, the outcome ledger connected and its accounts provisioned
    exactly when an address is set, and a scan interval that is positive unless
    the scanner is switched off by the explicit 0.  A start that fails, and one
    that succeeds, leaves the tables and the transfers as they are. *)
Theorem startup_fail_closed env st r st' : run env st = (r, st') →
  (∀ p, r = Ok p → started env st p st') ∧
  (st_feeds st', st_incidents st', isr_view st', track_view st', (ledger_view st').1) =
  (st_feeds st, st_incidents st, isr_view st, track_view st, (ledger_view st).1) ∧
  tb_transfers (st_cluster st') = tb_transfers (st_cluster st).
Proof.
  intros [[Hr ->]|(zs&e&listing&e'&st1&_&_&_&->&(cluster&Ht&->)&Hp)]%run_cases; [|by split_and!].
  split_and!; [|done|done]. intros p ->. done.
Qed.

End service.

(** ** Lives of the service

    The service is started, with whatever settings, serves, scans, crashes and is
    started again, while publishers and the cluster go on. *)

Section lives.
Context {T : Type} `{TigerBeetleLaws T} `{Ed25519} `{JsonText} (pg_time : Z → Z) (jsonb : string → option string).
Implicit Types (st : ServerState T).

Inductive outside_step : ServerState T → ServerState T → Prop :=
| outside_incidents st db : incident_publisher (st_incidents st) db → outside_step st (set_incident_tables st db)
| outside_outbox l st t' : outbox_step (st_outbox st) l t' → outside_step st (set_outbox_table st t')
| outside_cluster st cluster :
    tb_transfers (st_cluster st) ⊆ tb_transfers cluster →
    outside_step st (set_ledger st (mkLedgerDB (st_proposals st) (st_entries st) (st_outbox st), cluster)).

(** The rows PostgreSQL answers: the association table, in its order. *)
Definition selects (env : StartEnv) st : Prop :=
  ∀ listing, sn_select env = Ok listing →
    listing ≡ₚ map_to_list (st_associations st) ∧ StronglySorted replay_before listing.

Inductive life_step : option Process * ServerState T → option Process * ServerState T → Prop :=
| life_start env o st r st' :
    selects env st → run env st = (r, st') →
    life_step (o, st) (match r with Ok p => Some p | Err _ => None end, st')
| life_serve p env request st response st' :
    fresh_id env st → serve pg_time jsonb (pr_server p) env request st = (response, st') →
    life_step (Some p, st) (Some p, st')
| life_scan p order now renv st log e db :
    pr_scan p ≠ None → scanOnce pg_time order now renv (st_engine st) (track_view st) = (log, e, db) →
    life_step (Some p, st) (Some p, set_track_tables st e db)
| life_outside o st st' : outside_step st st' → life_step (o, st) (o, st')
| life_crash p st : life_step (Some p, st) (None, st).

Definition no_server : Server := mkServer None None false false.

Lemma no_server_configured : configured the_service no_server.
Proof. by intros service. Qed.

Abbreviation keeps_inv st st' := (server_inv pg_time jsonb the_service st → server_inv pg_time jsonb the_service st').

Lemma idle_inv st st' : server_step pg_time jsonb no_server st st' → keeps_inv st st'.
Proof. intros Hs. by apply (server_step_inv _ _ _ _ _ _ no_server_configured). Qed.

Lemma life_start_inv env st r st' : selects env st → run env st = (r, st') → keeps_inv st st'.
Proof.
  intros Hl [[_ ->]|(zs&e&listing&e'&st1&Hn&Hs&Hr&->&(cluster&Ht&->)&_)]%run_cases HI; [done|].
  destruct (Hl _ Hs) as [Hp Hsort]. eapply idle_inv; [|by eapply idle_inv; [eapply ss_restart|]].
  apply ss_cluster. by rewrite Ht.
Qed.

Lemma started_configured env st p st' : started env st p st' → configured the_service (pr_server p).
Proof. intros Hs service Ho. rewrite (sd_outcomes _ _ _ _ Hs) in Ho. by destruct (_ =s ""); [|injection Ho as <-]. Qed.

Definition life_inv (w : option Process * ServerState T) : Prop :=
  server_inv pg_time jsonb the_service w.2 ∧ ∀ p, w.1 = Some p → ∃ env st st', started (T := T) env st p st'.

Lemma life_step_inv w w' : life_step w w' → life_inv w → life_inv w'.
Proof.
  intros Hs [HI Hp]. destruct Hs as [env o st r st' Hl Hr|p env request st response st' Hf Hr|p order now renv st log e db _ Hr|o st st' Ho|p st];
    cbn [fst snd] in *.
  - split; [by eapply life_start_inv|]. cbn [fst]. destruct r as [p|]; [|done]. intros p' [= <-]. exists env, st, st'. by apply run_started.
  - split; [|done]. destruct (Hp p eq_refl) as (senv&s1&s2&Hc%started_configured).
    eapply (server_step_inv _ _ _ _ _ _ Hc); [by eapply ss_request|done].
  - split; [|done]. eapply idle_inv; [by eapply ss_scan|done].
  - split; [|done]. destruct Ho; (eapply idle_inv; [|done]); [by apply ss_incident_outbox|by eapply ss_outbox|by apply ss_cluster].
  - by split.
Qed.

(** C4: From an empty database on, through any number of starts with any
    settings, failing ones included, requests, scans, crashes and whatever the
    publishers and the cluster do meanwhile, the shared state keeps the
    invariants of all components, and a process that serves is one whose start
    went through every check. *)
Theorem service_reachable config zs st0 o st :
  initial config zs st0 → rtc life_step (None, st0) (o, st) →
  server_inv pg_time jsonb the_service st ∧
  ∀ p, o = Some p → ∃ env st1 st2, started (T := T) env st1 p st2.
Proof.
  intros Hi Hr. enough (Hl : life_inv (o, st)) by done.
  assert (Hl0 : life_inv (None, st0)) by (split; [by eapply initial_inv|done]). clear Hi.
  revert Hl0. induction Hr as [|w1 w2 w3 Hs _ IH]; [done|]. intros HI. by apply IH, (life_step_inv w1).
Qed.

End lives.

(** ** A concrete start *)

Definition start_settings (name : string) : string :=
  if name =s "DATABASE_URL" then "postgres://maritime"
  else if name =s "MIGRATION_PATH" then "0001.sql, 0002.sql"
  else if name =s "PORT" then "8080"
  else if name =s "AUTH_MODE" then AuthModeLoopbackTrustedProxy
  else if name =s "ISR_ZONES_FILE" then "zones.json"
  else if name =s "TIGERBEETLE_ADDRESS" then "tigerbeetle:3000"
  else if name =s "TIGERBEETLE_CLUSTER_ID" then "1o"
  else if name =s "ISR_DARK_VESSEL_SCAN_INTERVAL" then "90s"
  else "".

(** What stands after the first JSON value of the zones file is not read. *)
Definition zones_text : string := quoted
  "[{'zone_id':'zone-1','zone_kind':'restricted','vertices':[{'latitude':0,'longitude':0},{'latitude':1,'longitude':0},{'latitude':1,'longitude':1}]}] }".

Definition edge_start (dial : Z → string → result unit) : StartEnv :=
  mkStartEnv start_settings (λ path, if path =s "zones.json" then Ok zones_text else Ok "CREATE TABLE") (λ _, None) (λ _, true)
    (Ok tt) (Ok (mkPool 4 0 (1800 * Second) (3600 * Second))) (λ _, Ok tt) (Ok tt) (λ _, Ok tt) (Ok []) (λ _ keys, elements keys) dial.

(** The cluster that is asked for as 1o is dialled as 1. *)
Definition dial_one (cluster : Z) (address : string) : result unit :=
  if (cluster =? 1) && (address =s "tigerbeetle:3000") then Ok tt else Err (EText "no such cluster").

Definition edge_run : result Process * ServerState Cluster := run (edge_start dial_one) first_state.
Definition sample_process : Process :=
  match edge_run.1 with Ok p => p | Err _ => mkProcess no_server (mkTelemetry (mkTelemetryConfig false "" false "") ∅ [] [] []) "" None end.

Lemma edge_run_eq : run (edge_start dial_one) first_state = (Ok sample_process, edge_run.2).
Proof. vm_compute. reflexivity. Qed.

Lemma startup_fail_closed_witness : started (edge_start dial_one) first_state sample_process edge_run.2.
Proof. exact (proj1 (startup_fail_closed (edge_start dial_one) first_state _ _ edge_run_eq) sample_process eq_refl). Defined.

Definition served_once : Response * ServerState Cluster :=
  serve (H0 := sample_scheme) (H1 := sample_text) microseconds Some (pr_server sample_process) (sample_serve_env "e1") create_request edge_run.2.

Lemma sample_life :
  rtc (life_step (H1 := sample_scheme) (H2 := sample_text) microseconds Some) (None, first_state) (Some sample_process, served_once.2).
Proof.
  eapply rtc_l; [apply (life_start _ _ (edge_start dial_one) None first_state (Ok sample_process) edge_run.2)|].
  - intros listing [= <-]. by split; [|constructor].
  - exact edge_run_eq.
  - apply rtc_once. apply (life_serve _ _ sample_process (sample_serve_env "e1") create_request edge_run.2 served_once.1 served_once.2).
    + vm_compute. reflexivity.
    + exact (surjective_pairing served_once).
Qed.

Lemma service_reachable_witness :
  db_inv (st_incidents served_once.2) ∧ is_Some (incidents (st_incidents served_once.2) !! "inc-1").
Proof.
  destruct (service_reachable (H1 := sample_scheme) (H2 := sample_text) microseconds Some DefaultConfig [sample_zone] first_state
    (Some sample_process) served_once.2 first_initial sample_life) as [[Hd _ _ _ _ _ _ _] _].
  split; [exact Hd|]. vm_compute. eexists. reflexivity.
Defined.
